(* ===== verification/_CoqProject ===== *)
-Q . S2P
Prelude.v
Effect.v
Sha256.v
GoLib.v
Digest.v
Os.v
Blob.v
Badger.v
Metadata.v
Cache.v
Upload.v
Oci.v
Gc.v
Regexp.v
Base64.v
Glob.v
Mirror.v
V2.v
V2Example.v
V2Safety.v
V2Flow.v
V2Blob.v
Crc32.v
HashRing.v
Events.v
Discovery.v
Cloner.v
ClonerSpec.v
Extractor.v
Releases.v
Pipeline.v
PipelineSpec.v
Iso.v
Mesh.v
MeshSpec.v
SyncClients.v
SyncSpec.v
Replication.v
Scheduler.v
SchedulerSpec.v
SyncJobs.v
Ignition.v
ManagerOps.v
Auth.v
Tracker.v
Config.v
Certs.v
Api.v
Ui.v
Server.v
Signing.v
OpenShift.v
Background.v
