(* ===== verification/Prelude.v ===== *)
(** * FastRegistry: a verification development

    FastRegistry is a container registry with a pull-through mirror, a pipeline
    that clones OpenShift releases, garbage collection, synchronisation with
    other registries and a mesh of peers.  This library models the program's
    own logic as executable definitions, function by function, and proves what
    makes the parts correct, alone and together.  Paths below are relative to
    [src/].

    ** How the program is put together

    Three stores are shared by everything else: the blob store (files named by
    their SHA-256, [internal/storage/blob.go]), the metadata store (manifests,
    tags, repositories and blob links in one key-value database,
    [internal/storage/metadata.go]) and the event store
    ([internal/events/store.go], in the same database under its own prefixes).
    The registry API ([internal/api/v2]) serves and changes them request by
    request, with upload sessions and a cache of manifests in memory; the
    mirror ([internal/mirror]) fills them from an upstream registry; the
    collector ([internal/gc]) removes what no tag reaches; the release manager
    ([internal/releases]) keeps its catalogue of releases in the same database
    and drives the cloner, which writes release images and component images
    into the stores, and the extractor, which writes artifact files; the
    scheduler ([internal/sync]) copies repositories and metadata from other
    registries; the mesh ([internal/mesh]) assigns blobs to peers by consistent
    hashing, routes requests for them and replicates them.  [cmd/fastregistry]
    reads the configuration, makes the stores and the managers, and puts one
    router ([internal/api/router.go]) in front of the registry API, the
    administration, the tracked file server and the web interface, behind
    authentication.  [Server] is that composition, with one state.

    ** How code corresponds to definitions

    - A Go struct is a [Record] with the struct's name, an operation a
      [Definition] or [Fixpoint] with the method's name; a component is a
      [Module] in a file of its own.
    - A call that can fail returns [result] (a value, an error or a panic).
      Straight code on one store passes its state explicitly; the release
      pipeline, which threads several stores, is written in the monad [M]
      of [Effect], whose triples carry its proofs.
    - A method that holds its mutex throughout is one step.  Requests that
      interleave are sequences of such steps; where the code releases a lock
      in between (mark and sweep, pipelines, uploads, jobs), the steps are
      separate definitions and the theorems quantify over their interleavings.
    - Strings and bytes are lists of 8-bit characters, [int] and [int64] are
      [Z] with the wrap-around written where a value can reach it (CRC-32,
      SHA-256, version numbers, spans of time).
    - Loops without a structural measure take fuel, and theorems show how much
      is enough: GetN stops within one turn of the ring, the search of a
      directory within its length, the marking of manifests within the depth of
      their nesting (a rank of the stored manifests, a hypothesis of the
      collector's theorems), the listing of upstream tags within its 200 pages,
      as in the code, a listing of the sync clients within the pages the
      registry links, the synchronisation of an index within the depth of its
      nesting, the scan of a text within its length.  Where fuel is a parameter
      the theorems say what it must be at least, or hold of whatever is done
      within it.

    ** The environment

    Code outside [src/] is a parameter: the operating system's failures
    ([Faults]), the key-value database ([Badger], with the laws [BadgerLaws]),
    the encoding of records ([Json], with [JsonLaws]: decoding inverts
    encoding), the upstream registries ([HttpClient], [Env]), the archive
    readers ([Archive]), the order of [range] over a map ([MapRange]) and of
    [sort.Slice] on equal keys ([GoSort]), the YAML decoder and the indented
    JSON of the ignition ([Yaml], [YamlInto], [Indented]), gzip ([Gzip]),
    bcrypt ([Bcrypt]), the programs that are run ([Exec]), the certificates
    that are made ([NewCA]), the HTTP file server, the execution of templates,
    the API server of a cluster ([ApiServer]).  Every set of laws has an
    instance ([mapBadger], [countableJson], ...), at which the witnesses
    evaluate.
    The Go standard library's own functions are modelled: SHA-256, CRC-32, the
    string functions, decimal and hexadecimal text, [path/filepath], the
    fragment of [regexp] used.

    ** Files and theorems

    - [Prelude], [Effect], [GoLib], [Sha256], [Crc32], [Regexp], [Base64],
      [Glob]: results, generic lemmas, the monad with its triples, the standard
      library.  [Regexp.matches] and [Glob] are proved to decide the languages
      of their expressions, Base64 to decode what it encodes.
    - [Digest] ([pkg/digest]): what Parse accepts; the streaming verifier.
    - [Os], [Blob] ([internal/storage/blob.go]): the file system and the blob
      store; a write is atomic under any failing call, and reads return what
      was written, whole or by range.
    - [Badger], [Metadata] ([internal/storage/metadata.go]): the database
      interface, the typed index, and the refinement between the two.
    - [Cache] ([internal/storage/cache.go]): the map-and-list cache refines an
      expiring LRU list of bounded length.
    - [Upload] ([internal/storage/upload.go]): upload sessions under
      interleaved requests; finishing one.
    - [Oci], [Gc] ([internal/gc/collector.go]): mark and sweep keeps exactly
      what kept tags reach; images survive; the race of the two phases.
    - [Mirror] ([internal/mirror/proxy.go]): pull-through with tokens.
    - [V2] ([internal/api/v2/handlers.go]): routing and every handler.
      [V2Safety] shows that no sequence of requests breaks the stores and that
      what is served locally is what its digest says, [V2Flow] pushes and
      pulls manifests, [V2Blob] uploads, ranges, pages of tags and proxied
      blobs, [V2Example] the concrete registry the witnesses use.
    - [HashRing] ([internal/mesh/hash.go]): ownership, replicas, minimal
      movement of keys.
    - [Events] ([internal/events]): the event store refines a log; counters.
    - [Discovery], [Releases] ([internal/releases/discovery.go], [types.go] and
      the catalogue of [manager.go]): version order, listing, grouping,
      discovery and import of releases.
    - [Cloner], [ClonerSpec] ([internal/releases/cloner.go]): after a clone or
      a mirroring that succeeds, the local stores hold the whole image.
    - [Extractor] ([internal/releases/extractor.go]): only the artifact files
      of the version are written, and reported with the digest they have.
    - [Pipeline], [PipelineSpec] (the rest of [manager.go]): what verification
      reports, how a pipeline ends, what the state ready means, and one
      pipeline per release.
    - [Iso] ([internal/releases/iso.go]): the generated image is the base image
      with its slot holding an archive of the ignition; ISO-9660 directories
      and cpio archives are described independently of the code.
    - [Mesh], [MeshSpec] ([internal/mesh/gossip.go], [router.go],
      [replication.go]): a mesh of nodes that exchange requests; no activity
      breaks a store, a blob stored through one node is found through every
      other, replication reaches every replica, anti-entropy repairs a node.

    - [SyncClients], [SyncSpec] ([internal/sync/registry.go], [quay.go]): tag
      filters, listings and the copying of repositories, which leaves every
      recorded manifest complete and counts truthfully.
    - [Replication] ([internal/sync/replication.go]): a replica that imports an
      export has its releases, events and history.
    - [Scheduler], [SchedulerSpec], [SyncJobs] ([internal/sync/scheduler.go]):
      runs as interleaved steps; one at a time per job, each comes to its end,
      and none breaks the stores, with the three clients as instances of one
      interface.
    - [Ignition] ([internal/releases/ignition.go]), [ManagerOps] (the image
      generation, the copies and the log of [manager.go]): the ignition
      delivers its files byte for byte.
    - [Auth], [Tracker] ([internal/api/auth.go], [download_tracker.go]): who
      is let in; which downloads are recorded; how sizes are printed.
    - [Config], [Certs] ([config/config.go], [internal/certs/certs.go]): a
      configuration that loads is complete; one certificate authority is made
      and kept.
    - [Api] ([internal/api/router.go], [releases_api.go]): the router, the
      administration and the endpoints of releases, over the whole state.
    - [Ui] ([internal/api/ui/ui.go]): the data of every page; the dashboard and
      the search are right, and the interface only looks.
    - [Server] ([cmd/fastregistry/main.go]): the server as it is put together;
      its stores survive any requests, and with a user file only users act.
    - [Signing] ([internal/signing/cosign.go]), [OpenShift]
      ([internal/api/admin/openshift.go]), [Background] (the schedule of
      [gc/collector.go], the discovery loop of [manager.go]): code that the
      server does not call, or calls in the background: signatures and
      referrers are found as stored, access is what the API server says, the
      collector runs at most daily, discovery never loses a release.

    Among the theorems, those that the repository's users rely on most come
    first in the numbering C1, C2, ... of their comments: what is served has
    its digest, the server keeps its stores, only users act, pushes and uploads
    can be pulled, writes are atomic, the metadata store is a typed index, ready
    releases are complete, collections spare what tags reach.

    ** Not modelled, and why

    - Logs, and the percentages and speeds of progress displays.
    - The HTML templates, the functions registered for them, and the embedded
      static files ([internal/api/ui/templates], [static]): text to look at.
    - Parsing flags, TLS settings, listeners and the shutdown
      ([cmd/fastregistry/main.go]): calls of the standard library.
    - How keys and certificates are made and parsed ([crypto/x509]).
    - What memberlist does (gossip, failure detection) and its configuration;
      nodes see the members it reports.
    - Tickers, beyond what they start: the clean-up of uploads, sync jobs,
      discovery and anti-entropy are steps taken at any time.
    - Types no code uses: image streams ([internal/api/admin/openshift.go]), the
      image configuration ([pkg/oci/types.go]).
    - Concurrency within one request, and of the release manager's answers with
      its goroutines beyond the interleavings of [Pipeline]. *)

From stdpp Require Export base numbers gmap strings list sorting pretty.
From Stdlib Require Export Ascii ZArith Lia.

(** ** Bytes *)

(** A Go [byte] is an [ascii], a Go [string] a [string] and a [\[\]byte] a
    list of bytes. *)
Abbreviation byte := ascii.
Abbreviation bytes := (list ascii).

Definition str_bytes : string → bytes := String.list_ascii_of_string.
Definition bytes_str : bytes → string := String.string_of_list_ascii.

Definition byte_of_Z (z : Z) : byte := ascii_of_N (Z.to_N (z mod 256)).
Definition Z_of_byte (b : byte) : Z := Z.of_N (N_of_ascii b).

(** [len(s)] of a string and of a slice. *)
Definition slen (s : string) : Z := Z.of_nat (String.length s).
Definition blen (b : bytes) : Z := Z.of_nat (length b).

(** ** Errors, results and panics *)

(** The error values the code compares against, and every other error with
    its message. *)
Inductive error :=
  | ErrBlobNotFound
  | ErrManifestNotFound
  | ErrUploadNotFound
  | ErrKeyNotFound
  | ErrJobNotFound
  | ErrJobRunning
  | ErrNotExist
  | Errorf (msg : string).

Global Instance error_eq_dec : EqDecision error.
Proof. solve_decision. Defined.

(** What a Go call can do: return a value, return a non-nil error, or panic. *)
Inductive result (A : Type) :=
  | Ok (a : A)
  | Err (e : error)
  | Panic (msg : string).
Global Arguments Ok {_} _ : assert.
Global Arguments Err {_} _ : assert.
Global Arguments Panic {_} _ : assert.

Global Instance result_ret : MRet result := λ _, Ok.
Global Instance result_bind : MBind result := λ _ _ k m,
  match m with Ok a => k a | Err e => Err e | Panic p => Panic p end.
Global Instance result_fmap : FMap result := λ _ _ f m,
  match m with Ok a => Ok (f a) | Err e => Err e | Panic p => Panic p end.

Global Instance result_eq_dec `{EqDecision A} : EqDecision (result A).
Proof. solve_decision. Defined.

Definition is_ok {A} (m : result A) : bool :=
  match m with Ok _ => true | _ => false end.

(** [fmt.Errorf("prefix: %w", err)]: the message of the wrapped error is
    appended to the prefix. *)
Definition err_msg (e : error) : string :=
  match e with
  | ErrBlobNotFound => "blob not found"
  | ErrManifestNotFound => "manifest not found"
  | ErrUploadNotFound => "upload not found"
  | ErrKeyNotFound => "Key not found"
  | ErrJobNotFound => "job not found"
  | ErrJobRunning => "job already running"
  | ErrNotExist => "no such file or directory"
  | Errorf m => m
  end.

Definition wrap (pre : string) (e : error) : error :=
  Errorf (pre +:+ ": " +:+ err_msg e).

Lemma bind_Ok {A B} (k : A → result B) (m : result A) b :
  m ≫= k = Ok b ↔ ∃ a, m = Ok a ∧ k a = Ok b.
Proof. destruct m; naive_solver. Qed.

(** ** Automation *)

(** Lemmas about the Go library and the stores, used by the component
    proofs. *)
Create HintDb fastreg discriminated.
Create Rewrite HintDb fastreg.

(** Open every [match] and [if] of the goal, close the absurd branches. *)
Ltac case_all :=
  repeat (case_match; simplify_eq/=); try done.

(** The same in a hypothesis. *)
Ltac case_all_in H :=
  repeat (case_match; simplify_eq/=); try done.

Ltac inv_result :=
  repeat match goal with
  | H : Ok _ = Ok _ |- _ => injection H as H; subst
  | H : Err _ = Err _ |- _ => injection H as H; subst
  | H : Ok _ = Err _ |- _ => discriminate H
  | H : Err _ = Ok _ |- _ => discriminate H
  | H : Panic _ = Ok _ |- _ => discriminate H
  | H : Ok _ = Panic _ |- _ => discriminate H
  | H : Err _ = Panic _ |- _ => discriminate H
  | H : Panic _ = Err _ |- _ => discriminate H
  | H : mbind _ _ = Ok _ |- _ => apply bind_Ok in H as (? & ? & ?)
  end.

(** ** Strings and bytes *)

Lemma bytes_str_bytes b : str_bytes (bytes_str b) = b.
Proof. induction b; simpl; f_equal; auto. Qed.

Lemma str_bytes_str s : bytes_str (str_bytes s) = s.
Proof. induction s; simpl; f_equal; auto. Qed.

Lemma bytes_str_inj b1 b2 : bytes_str b1 = bytes_str b2 → b1 = b2.
Proof. intros H. by rewrite <-(bytes_str_bytes b1), H, bytes_str_bytes. Qed.

Lemma str_bytes_inj s1 s2 : str_bytes s1 = str_bytes s2 → s1 = s2.
Proof. intros H. by rewrite <-(str_bytes_str s1), H, str_bytes_str. Qed.

Lemma str_bytes_app s1 s2 : str_bytes (s1 +:+ s2) = str_bytes s1 ++ str_bytes s2.
Proof. induction s1 as [|c s1 IH]; [done|]. change (String c s1 +:+ s2) with (String c (s1 +:+ s2)). simpl. by rewrite <-IH. Qed.

Lemma bytes_str_app b1 b2 : bytes_str (b1 ++ b2) = bytes_str b1 +:+ bytes_str b2.
Proof. apply str_bytes_inj. by rewrite str_bytes_app, !bytes_str_bytes. Qed.

Lemma length_str_bytes s : length (str_bytes s) = String.length s.
Proof. induction s; simpl; auto. Qed.

Lemma length_bytes_str b : String.length (bytes_str b) = length b.
Proof. by rewrite <-length_str_bytes, bytes_str_bytes. Qed.

Lemma sapp_cons c s1 s2 : String c s1 +:+ s2 = String c (s1 +:+ s2).
Proof. done. Qed.

Lemma sapp_nil_l s : "" +:+ s = s.
Proof. done. Qed.

Lemma sapp_nil_r s : s +:+ "" = s.
Proof. apply str_bytes_inj. by rewrite str_bytes_app, app_nil_r. Qed.

Lemma sapp_assoc s1 s2 s3 : (s1 +:+ s2) +:+ s3 = s1 +:+ (s2 +:+ s3).
Proof. apply str_bytes_inj. by rewrite !str_bytes_app, app_assoc. Qed.

Lemma slength_app s1 s2 :
  String.length (s1 +:+ s2) = String.length s1 + String.length s2.
Proof. by rewrite <-!length_str_bytes, str_bytes_app, length_app. Qed.

Lemma sapp_inj_r s s1 s2 : s +:+ s1 = s +:+ s2 → s1 = s2.
Proof. apply (inj (String.append s)). Qed.

Lemma sapp_inj_l s1 s2 s : s1 +:+ s = s2 +:+ s → s1 = s2.
Proof.
  intros H%(f_equal str_bytes). rewrite !str_bytes_app in H.
  by apply app_inv_tail, str_bytes_inj in H.
Qed.

#[export] Hint Rewrite sapp_nil_l sapp_nil_r sapp_assoc : fastreg.

(** Splitting two equal concatenations at a character the left parts do not
    contain: the basis of every key-injectivity argument. *)
Definition not_in (c : ascii) (s : string) : Prop := c ∉ str_bytes s.

Global Instance not_in_dec c s : Decision (not_in c s) := _.

Lemma list_split_at {A} (c : A) l1 l2 r1 r2 :
  c ∉ l1 → c ∉ l2 → l1 ++ c :: r1 = l2 ++ c :: r2 → l1 = l2 ∧ r1 = r2.
Proof.
  revert l2. induction l1 as [|x l1 IH]; intros [|y l2] H1 H2 E; simplify_eq/=; [done|set_solver..|].
  destruct (IH l2) as [-> ->]; set_solver.
Qed.

Lemma str_split_at c s1 s2 t1 t2 :
  not_in c s1 → not_in c s2 →
  s1 +:+ String c t1 = s2 +:+ String c t2 → s1 = s2 ∧ t1 = t2.
Proof.
  intros H1 H2 H%(f_equal str_bytes). rewrite !str_bytes_app in H.
  apply list_split_at in H as [?%str_bytes_inj ?%str_bytes_inj]; auto.
Qed.

(** ** Integers *)

(** Two's complement wrap-around of [int64]. *)
Definition wrap64 (z : Z) : Z := (z + 2 ^ 63) mod 2 ^ 64 - 2 ^ 63.
Definition maxInt64 : Z := 2 ^ 63 - 1.
Definition minInt64 : Z := - 2 ^ 63.
Definition in64 (z : Z) : Prop := (minInt64 ≤ z ≤ maxInt64)%Z.

Lemma wrap64_id z : in64 z → wrap64 z = z.
Proof. unfold in64, wrap64, minInt64, maxInt64. intros. rewrite Z.mod_small; lia. Qed.

Lemma wrap64_in64 z : in64 (wrap64 z).
Proof.
  unfold in64, wrap64, minInt64, maxInt64.
  pose proof (Z.mod_pos_bound (z + 2 ^ 63) (2 ^ 64)). lia.
Qed.

Lemma Z_of_byte_bound b : (0 ≤ Z_of_byte b < 256)%Z.
Proof. unfold Z_of_byte. pose proof (N_ascii_bounded b). lia. Qed.

Lemma byte_of_Z_of_byte b : byte_of_Z (Z_of_byte b) = b.
Proof.
  unfold byte_of_Z. rewrite Z.mod_small by apply Z_of_byte_bound.
  unfold Z_of_byte. by rewrite N2Z.id, ascii_N_embedding.
Qed.

Lemma Z_of_byte_of_Z z : Z_of_byte (byte_of_Z z) = (z mod 256)%Z.
Proof.
  unfold byte_of_Z, Z_of_byte. pose proof (Z.mod_pos_bound z 256).
  rewrite N_ascii_embedding; lia.
Qed.

(** ** Order *)

Lemma string_le_app p x y : String.le (p +:+ x) (p +:+ y) ↔ String.le x y.
Proof.
  unfold String.le, String.leb. induction p as [|c p IH]; [done|].
  rewrite !sapp_cons. simpl. unfold Ascii.compare. by rewrite N.compare_refl.
Qed.

Lemma StronglySorted_fmap_inv {A B} (f : A → B) (R : relation A) (S : relation B) l :
  (∀ x y, S (f x) (f y) → R x y) → StronglySorted S (f <$> l) → StronglySorted R l.
Proof.
  intros Hf. induction l as [|x l IH]; intros Hs; [constructor|].
  apply StronglySorted_inv in Hs as [Hs Hx]. constructor; [auto|].
  apply Forall_forall. intros y Hy. rewrite Forall_forall in Hx.
  by apply Hf, Hx, (list_elem_of_fmap_2 f).
Qed.

Lemma StronglySorted_filter {A} (R : relation A) (P : A → Prop) `{!∀ x, Decision (P x)} l :
  StronglySorted R l → StronglySorted R (filter P l).
Proof.
  induction 1 as [|x l Hs IH Hx]; [constructor|]. rewrite filter_cons. case_decide; [|done].
  constructor; [done|]. apply Forall_forall. intros y [_ Hy]%list_elem_of_filter.
  by eapply Forall_forall in Hx.
Qed.

(** ** Loops that can fail *)

Lemma foldl_option_inv {A S} (R : S → Prop) (step : A → S → option S) l s s' :
  (∀ a s s', R s → step a s = Some s' → R s') → R s →
  foldl (λ st a, st ≫= step a) (Some s) l = Some s' → R s'.
Proof.
  intros Hstep. revert s. induction l as [|a l IH]; intros s Hs; simpl; [by intros [= <-]|].
  destruct (step a s) as [s1|] eqn:E.
  - apply IH. by eapply Hstep.
  - intros Hn. exfalso. revert Hn. clear. induction l as [|a l IH]; simpl; [done|exact IH].
Qed.
