(* ===== verification/Effect.v ===== *)
(** Effectful Go code as a state monad over [result]: calls that read and write
    a state, return an error or panic, with the triples and the hint database
    the proofs about such code use. *)

From S2P Require Import Prelude.

Definition M (S A : Type) : Type := S → result A * S.

Global Instance M_ret {S} : MRet (M S) := λ A a s, (Ok a, s).
Global Instance M_bind {S} : MBind (M S) := λ A B k m s,
  match m s with
  | (Ok a, s) => k a s
  | (Err e, s) => (Err e, s)
  | (Panic p, s) => (Panic p, s)
  end.

Section operations.
Context {S : Type}.

Definition lift {A} (r : result A) : M S A := λ s, (r, s).
Definition throw {A} (e : error) : M S A := lift (Err e).
Definition gets {A} (f : S → A) : M S A := λ s, (Ok (f s), s).
Definition modify (f : S → S) : M S unit := λ s, (Ok tt, f s).

(** [if err != nil { return fmt.Errorf("pre: %w", err) }]. *)
Definition wrapping {A} (pre : string) (m : M S A) : M S A := λ s,
  match m s with (Err e, s) => (Err (wrap pre e), s) | r => r end.

(** A call whose error the caller inspects. *)
Definition attempt {A} (m : M S A) : M S (A + error) := λ s,
  match m s with
  | (Ok a, s) => (Ok (inl a), s)
  | (Err e, s) => (Ok (inr e), s)
  | (Panic p, s) => (Panic p, s)
  end.

(** A call whose error is dropped or only logged. *)
Definition ignoring {A} (m : M S A) : M S unit := attempt m ≫= λ _, mret tt.

(** A loop that returns at the first error. *)
Fixpoint for_each {A} (f : A → M S unit) (l : list A) : M S unit :=
  match l with
  | [] => mret tt
  | x :: l => f x ≫= λ _, for_each f l
  end.

(** Goroutines that are all run, and send their error to a channel: the errors
    in the order they are sent. *)
Fixpoint for_all {A} (f : A → M S unit) (l : list A) : M S (list error) :=
  match l with
  | [] => mret []
  | x :: l =>
    r ← attempt (f x);
    es ← for_all f l;
    mret (match r with inl _ => es | inr e => e :: es end)
  end.
End operations.

(** ** Triples *)

Section triples.
Context {S : Type}.

(** From a state in [P], the result and the state afterwards are in [Q]. *)
Definition hoare {A} (P : S → Prop) (m : M S A) (Q : result A → S → Prop) : Prop :=
  ∀ s, P s → Q (m s).1 (m s).2.

(** A call preserves [I], whatever it returns. *)
Definition keeps {A} (I : S → Prop) (m : M S A) : Prop := hoare I m (λ _, I).

(** Some value is returned and [Q] holds of it. *)
Definition on_ok {A} (Q : A → S → Prop) (r : result A) (s : S) : Prop :=
  ∀ a, r = Ok a → Q a s.

Lemma hoare_bind {A B} (P : S → Prop) (R : A → S → Prop) Q (m : M S A) (k : A → M S B) :
  hoare P m (λ r s, match r with
                    | Ok a => R a s | Err e => Q (Err e) s | Panic p => Q (Panic p) s end) →
  (∀ a, hoare (R a) (k a) Q) → hoare P (m ≫= k) Q.
Proof.
  intros Hm Hk s Hs. specialize (Hm s Hs). unfold mbind, M_bind.
  destruct (m s) as [[a|e|p] s1]; simpl in *; [by apply Hk|done..].
Qed.

Lemma hoare_conseq {A} (P P' : S → Prop) Q Q' (m : M S A) :
  hoare P' m Q' → (∀ s, P s → P' s) → (∀ r s, Q' r s → Q r s) → hoare P m Q.
Proof. intros Hm HP HQ s Hs. by apply HQ, Hm, HP. Qed.

Lemma keeps_ret {A} I (a : A) : keeps I (mret a).
Proof. by intros s Hs. Qed.

Lemma keeps_bind {A B} I (m : M S A) (k : A → M S B) :
  keeps I m → (∀ a, keeps I (k a)) → keeps I (m ≫= k).
Proof. intros Hm Hk. apply (hoare_bind _ (λ _, I)); [|done]. intros s Hs. by case_match; apply Hm. Qed.

Lemma keeps_lift {A} I (r : result A) : keeps I (lift r).
Proof. by intros s Hs. Qed.

Lemma keeps_gets {A} I (f : S → A) : keeps I (gets f).
Proof. by intros s Hs. Qed.

Lemma keeps_modify (I : S → Prop) f : (∀ s, I s → I (f s)) → keeps I (modify f).
Proof. intros Hf s Hs. by apply Hf. Qed.

Lemma keeps_wrapping {A} I pre (m : M S A) : keeps I m → keeps I (wrapping pre m).
Proof. intros Hm s Hs. specialize (Hm s Hs). unfold wrapping. by destruct (m s) as [[]]. Qed.

Lemma keeps_attempt {A} I (m : M S A) : keeps I m → keeps I (attempt m).
Proof. intros Hm s Hs. specialize (Hm s Hs). unfold attempt. by destruct (m s) as [[]]. Qed.

Lemma keeps_ignoring {A} I (m : M S A) : keeps I m → keeps I (ignoring m).
Proof. intros Hm. apply keeps_bind; [by apply keeps_attempt|]. intros ?. apply keeps_ret. Qed.

Lemma keeps_for_each {A} I (f : A → M S unit) l : (∀ x, keeps I (f x)) → keeps I (for_each f l).
Proof.
  intros Hf. induction l as [|x l IH]; simpl; [apply keeps_ret|by apply keeps_bind].
Qed.

Lemma keeps_for_all {A} I (f : A → M S unit) l : (∀ x, keeps I (f x)) → keeps I (for_all f l).
Proof.
  intros Hf. induction l as [|x l IH]; simpl; [apply keeps_ret|].
  apply keeps_bind; [by apply keeps_attempt|]. intros r. apply keeps_bind; [done|].
  intros es. apply keeps_ret.
Qed.

Lemma hoare_and {A} P Q1 Q2 (m : M S A) :
  hoare P m Q1 → hoare P m Q2 → hoare P m (λ r s, Q1 r s ∧ Q2 r s).
Proof. intros H1 H2 s Hs. split; auto. Qed.

Lemma hoare_on_ok_bind {A B} (I : S → Prop) (R : A → S → Prop) (Q : B → S → Prop)
    (m : M S A) (k : A → M S B) :
  hoare I m (on_ok R) → (∀ a, hoare (R a) (k a) (on_ok Q)) → hoare I (m ≫= k) (on_ok Q).
Proof.
  intros Hm Hk s Hs. unfold mbind, M_bind. specialize (Hm s Hs).
  destruct (m s) as [[a|e|p] s1]; simpl in *; [|by intros ?..]. by apply Hk, Hm.
Qed.

Lemma keeps_on_ok {A} (I : S → Prop) (m : M S A) : keeps I m → hoare I m (on_ok (λ _, I)).
Proof. intros Hm s Hs a _. by apply Hm. Qed.

Lemma hoare_on_ok_and {A} (P : S → Prop) (Q1 Q2 : A → S → Prop) (m : M S A) :
  hoare P m (on_ok Q1) → hoare P m (on_ok Q2) → hoare P m (on_ok (λ a s, Q1 a s ∧ Q2 a s)).
Proof. intros H1 H2 s Hs a Ha. split; [by apply (H1 s Hs)|by apply (H2 s Hs)]. Qed.

Lemma hoare_on_ok_wrapping {A} pre (P : S → Prop) (Q : A → S → Prop) (m : M S A) :
  hoare P m (on_ok Q) → hoare P (wrapping pre m) (on_ok Q).
Proof.
  intros Hm s Hs a. specialize (Hm s Hs a). unfold wrapping in *.
  destruct (m s) as [[a'|e|p] s1]; simpl in *; [done|by intros ?..].
Qed.

Lemma hoare_on_ok_lift {A} (P : S → Prop) (r : result A) :
  hoare P (lift r) (on_ok (λ a s, r = Ok a ∧ P s)).
Proof. by intros s Hs a Ha. Qed.

Lemma hoare_throw {A} (P : S → Prop) e (Q : A → S → Prop) : hoare P (throw e) (on_ok Q).
Proof. by intros s Hs a Ha. Qed.

Lemma hoare_pure {A} (φ : Prop) (P : S → Prop) (m : M S A) Q :
  (φ → hoare P m Q) → hoare (λ s, φ ∧ P s) m Q.
Proof. intros Hm s [? ?]. by apply Hm. Qed.

(** A loop that ends without an error has done its work on every element,
    when the work on one element is not undone by the others. *)
Lemma hoare_for_each {A} (I : S → Prop) (D : A → S → Prop) (f : A → M S unit) l :
  (∀ x, keeps I (f x)) →
  (∀ x, hoare I (f x) (on_ok (λ _, D x))) →
  (∀ x y, keeps (λ s, I s ∧ D y s) (f x)) →
  hoare I (for_each f l) (on_ok (λ _ s, Forall (λ x, D x s) l)).
Proof.
  intros HI HD Hk. induction l as [|x l IH]; simpl; [by intros s Hs a _|].
  intros s Hs. unfold mbind, M_bind. pose proof (HI x s Hs) as H1. pose proof (HD x s Hs) as H2.
  destruct (f x s) as [[[]|e|p] s1]; simpl in *; [|by intros a..].
  intros a Ha. constructor; [|by apply (IH s1 H1 a)].
  assert (keeps (λ s, I s ∧ D x s) (for_each f l)) as Hks by by apply keeps_for_each.
  by apply (Hks s1 (conj H1 (H2 tt eq_refl))).
Qed.

Lemma hoare_for_all {A} (I : S → Prop) (D : A → S → Prop) (f : A → M S unit) l :
  (∀ x, keeps I (f x)) →
  (∀ x, hoare I (f x) (on_ok (λ _, D x))) →
  (∀ x y, keeps (λ s, I s ∧ D y s) (f x)) →
  hoare I (for_all f l) (λ r s, r = Ok [] → Forall (λ x, D x s) l).
Proof.
  intros HI HD Hk. induction l as [|x l IH]; simpl; [by intros s Hs _|].
  intros s Hs. unfold mbind, M_bind, attempt. pose proof (HI x s Hs) as H1. pose proof (HD x s Hs) as H2.
  destruct (f x s) as [[[]|e|p] s1]; simpl in *; [| |done].
  - pose proof (IH s1 H1) as HF.
    assert (keeps (λ s, I s ∧ D x s) (for_all f l)) as Hks by by apply keeps_for_all.
    specialize (Hks s1 (conj H1 (H2 tt eq_refl))).
    destruct (for_all f l s1) as [[es|e|p] s2]; simpl in *; [|done..].
    intros [= ->]. constructor; [apply Hks|by apply HF].
  - by destruct (for_all f l s1) as [[es|e'|p] s2].
Qed.
End triples.

#[export] Hint Resolve keeps_ret keeps_lift keeps_gets keeps_wrapping keeps_attempt
  keeps_ignoring keeps_for_each keeps_for_all : fastreg.

(** Go through the calls of an effectful function. *)
Ltac keeps_step :=
  match goal with
  | |- keeps _ (throw _) => apply keeps_lift
  | |- keeps _ (_ ≫= _) => apply keeps_bind; [|intros ?]
  | |- keeps _ (mret _) => apply keeps_ret
  | |- keeps _ (lift _) => apply keeps_lift
  | |- keeps _ (gets _) => apply keeps_gets
  | |- keeps _ (wrapping _ _) => apply keeps_wrapping
  | |- keeps _ (attempt _) => apply keeps_attempt
  | |- keeps _ (ignoring _) => apply keeps_ignoring
  | |- keeps _ (for_each _ _) => apply keeps_for_each; intros ?
  | |- keeps _ (for_all _ _) => apply keeps_for_all; intros ?
  | |- keeps _ (match ?x with _ => _ end) => destruct x
  | |- keeps _ (let _ := _ in _) => cbv zeta
  end.
