(* ===== verification/Sha256.v ===== *)
(** SHA-256 (crypto/sha256 of the Go standard library), executable. *)

From S2P Require Import Prelude.
Local Open Scope Z_scope.

Definition word_mask : Z := 2 ^ 32 - 1.
Definition add32 (x y : Z) : Z := Z.land (x + y) word_mask.
Definition rotr32 (x n : Z) : Z :=
  Z.lor (Z.shiftr x n) (Z.land (Z.shiftl x (32 - n)) word_mask).
Definition not32 (x : Z) : Z := Z.lxor x word_mask.

Definition Ch (x y z : Z) : Z := Z.lxor (Z.land x y) (Z.land (not32 x) z).
Definition Maj (x y z : Z) : Z :=
  Z.lxor (Z.land x y) (Z.lxor (Z.land x z) (Z.land y z)).
Definition Sigma0 (x : Z) : Z := Z.lxor (rotr32 x 2) (Z.lxor (rotr32 x 13) (rotr32 x 22)).
Definition Sigma1 (x : Z) : Z := Z.lxor (rotr32 x 6) (Z.lxor (rotr32 x 11) (rotr32 x 25)).
Definition sigma0 (x : Z) : Z := Z.lxor (rotr32 x 7) (Z.lxor (rotr32 x 18) (Z.shiftr x 3)).
Definition sigma1 (x : Z) : Z := Z.lxor (rotr32 x 17) (Z.lxor (rotr32 x 19) (Z.shiftr x 10)).

(** The constants are derived as FIPS 180-4 defines them: the first 32 bits of
    the fractional parts of the square roots (initial state) and cube roots
    (round constants) of the first primes. *)
Definition is_prime (n : nat) : bool :=
  bool_decide (2 ≤ n)%nat &&
  forallb (λ d, negb (Nat.eqb (Nat.modulo n d) 0)) (seq 2 (n - 2)).

Definition primes (bound : nat) : list Z :=
  Z.of_nat <$> List.filter is_prime (seq 0 bound).

(** The integer cube root, one bit of the result per step. *)
Fixpoint icbrt (bit : nat) (r x : Z) : Z :=
  match bit with
  | O => r
  | S b =>
    let r' := r + Z.shiftl 1 (Z.of_nat b) in
    icbrt b (if r' * r' * r' <=? x then r' else r) x
  end.

Definition frac_cbrt (p : Z) : Z := Z.land (icbrt 36 0 (Z.shiftl p 96)) word_mask.
Definition frac_sqrt (p : Z) : Z := Z.land (Z.sqrt (Z.shiftl p 64)) word_mask.

Definition sha_k : list Z := Eval vm_compute in frac_cbrt <$> primes 312.

Record sha_state := ShaState { sA : Z; sB : Z; sC : Z; sD : Z; sE : Z; sF : Z; sG : Z; sH : Z }.

Definition sha_init : sha_state := Eval vm_compute in
  match frac_sqrt <$> primes 20 with
  | [a; b; c; d; e; f; g; h] => ShaState a b c d e f g h
  | _ => ShaState 0 0 0 0 0 0 0 0
  end.

Definition sha_round (s : sha_state) (kw : Z * Z) : sha_state :=
  let t1 := add32 (sH s) (add32 (Sigma1 (sE s))
              (add32 (Ch (sE s) (sF s) (sG s)) (add32 kw.1 kw.2))) in
  let t2 := add32 (Sigma0 (sA s)) (Maj (sA s) (sB s) (sC s)) in
  ShaState (add32 t1 t2) (sA s) (sB s) (sC s) (add32 (sD s) t1) (sE s) (sF s) (sG s).

Definition sha_add (s t : sha_state) : sha_state :=
  ShaState (add32 (sA s) (sA t)) (add32 (sB s) (sB t)) (add32 (sC s) (sC t))
           (add32 (sD s) (sD t)) (add32 (sE s) (sE t)) (add32 (sF s) (sF t))
           (add32 (sG s) (sG t)) (add32 (sH s) (sH t)).

(** The message schedule, newest word first. *)
Fixpoint sha_extend (n : nat) (ws : list Z) : list Z :=
  match n with
  | O => ws
  | S n =>
    let w := add32 (sigma1 (nth 1 ws 0)) (add32 (nth 6 ws 0)
               (add32 (sigma0 (nth 14 ws 0)) (nth 15 ws 0))) in
    sha_extend n (w :: ws)
  end.

Definition be_word (a b c d : byte) : Z :=
  Z_of_byte a * 2 ^ 24 + Z_of_byte b * 2 ^ 16 + Z_of_byte c * 2 ^ 8 + Z_of_byte d.

Fixpoint be_words (l : bytes) : list Z :=
  match l with
  | a :: b :: c :: d :: l => be_word a b c d :: be_words l
  | _ => []
  end.

Definition sha_block (s : sha_state) (block : list Z) : sha_state :=
  let ws := reverse (sha_extend 48 (reverse block)) in
  sha_add s (foldl sha_round s (zip sha_k ws)).

Fixpoint sha_blocks (fuel : nat) (s : sha_state) (ws : list Z) : sha_state :=
  match fuel with
  | O => s
  | S fuel =>
    match ws with
    | [] => s
    | _ => sha_blocks fuel (sha_block s (take 16 ws)) (drop 16 ws)
    end
  end.

Fixpoint be_bytes (n : nat) (z : Z) : bytes :=
  match n with
  | O => []
  | S n => be_bytes n (Z.shiftr z 8) ++ [byte_of_Z z]
  end.

Definition sha_pad (m : bytes) : bytes :=
  m ++ [byte_of_Z 0x80] ++ repeat (byte_of_Z 0) (Z.to_nat ((55 - blen m) mod 64))
    ++ be_bytes 8 (8 * blen m).

Definition sha_out (s : sha_state) : bytes :=
  be_bytes 4 (sA s) ++ be_bytes 4 (sB s) ++ be_bytes 4 (sC s) ++ be_bytes 4 (sD s) ++
  be_bytes 4 (sE s) ++ be_bytes 4 (sF s) ++ be_bytes 4 (sG s) ++ be_bytes 4 (sH s).

(** [sha256.Sum256]. *)
Definition sha256 (m : bytes) : bytes :=
  let ws := be_words (sha_pad m) in
  sha_out (sha_blocks (length ws) sha_init ws).

Lemma length_be_bytes n z : length (be_bytes n z) = n.
Proof. revert z. induction n; intros z; simpl; [done|]. rewrite length_app, IHn. simpl. lia. Qed.

Lemma length_sha256 m : length (sha256 m) = 32%nat.
Proof. unfold sha256, sha_out. by rewrite !length_app, !length_be_bytes. Qed.

Global Arguments sha256 : simpl never.

(** Proofs never unfold the compression function; [vm_compute] still
    evaluates it on concrete data. *)
#[global] Opaque sha256.
