(* ===== verification/GoLib.v ===== *)
(** The parts of Go's standard library the program uses: strings, strconv,
    fmt verbs, encoding/hex, path/filepath, UTF-8 encoding of runes, time. *)

From S2P Require Import Prelude.

(** ** Package strings *)

(** [strip_prefix p s]: what follows [p] in [s], when [s] starts with [p]. *)
Fixpoint strip_prefix (p s : string) : option string :=
  match p, s with
  | EmptyString, _ => Some s
  | String c p, String d s => if decide (c = d) then strip_prefix p s else None
  | String _ _, EmptyString => None
  end.

Definition HasPrefix (s p : string) : bool :=
  match strip_prefix p s with Some _ => true | None => false end.

Definition TrimPrefix (s p : string) : string :=
  match strip_prefix p s with Some r => r | None => s end.

Definition str_rev (s : string) : string := bytes_str (reverse (str_bytes s)).

Definition HasSuffix (s p : string) : bool := HasPrefix (str_rev s) (str_rev p).

Definition TrimSuffix (s p : string) : string :=
  match strip_prefix (str_rev p) (str_rev s) with
  | Some r => str_rev r
  | None => s
  end.

(** [strings.Index]: the first position of [sub] in [s]. *)
Fixpoint Index (s sub : string) : option nat :=
  if HasPrefix s sub then Some O
  else match s with
       | EmptyString => None
       | String _ s' => S <$> Index s' sub
       end.

Definition Contains (s sub : string) : bool :=
  match Index s sub with Some _ => true | None => false end.

(** [strings.Split(s, sep)] for a one-byte separator. *)
Fixpoint Split (sep : ascii) (s : string) : list string :=
  match s with
  | EmptyString => [EmptyString]
  | String c s =>
    if decide (c = sep) then EmptyString :: Split sep s
    else match Split sep s with
         | [] => [String c EmptyString]
         | x :: xs => String c x :: xs
         end
  end.

(** [strings.SplitN(s, sep, 2)]: split at the first separator only. *)
Fixpoint Split2 (sep : ascii) (s : string) : list string :=
  match s with
  | EmptyString => [EmptyString]
  | String c s =>
    if decide (c = sep) then [EmptyString; s]
    else match Split2 sep s with
         | [] => [String c EmptyString]
         | x :: xs => String c x :: xs
         end
  end.

Definition stake (n : nat) (s : string) : string := bytes_str (take n (str_bytes s)).
Definition sdrop (n : nat) (s : string) : string := bytes_str (drop n (str_bytes s)).

(** The slice expression [s\[:n\]]: it panics when [n] exceeds the length. *)
Definition slice_to (s : string) (n : nat) : result string :=
  if decide (n ≤ String.length s) then Ok (stake n s)
  else Panic "slice bounds out of range".

Definition is_space (c : ascii) : bool :=
  bool_decide (c ∈ ["009"; "010"; "011"; "012"; "013"; " "]%char).

Fixpoint trim_left (l : bytes) : bytes :=
  match l with
  | c :: l' => if is_space c then trim_left l' else l
  | [] => []
  end.

(** [strings.TrimSpace] (ASCII white space). *)
Definition TrimSpace (s : string) : string :=
  bytes_str (reverse (trim_left (reverse (trim_left (str_bytes s))))).

(** [strings.Fields]: the maximal runs of non-space bytes. *)
Fixpoint fields_go (cur : bytes) (l : bytes) : list string :=
  let flush := match cur with [] => [] | _ => [bytes_str (reverse cur)] end in
  match l with
  | [] => flush
  | c :: l => if is_space c then flush ++ fields_go [] l else fields_go (c :: cur) l
  end.

Definition Fields (s : string) : list string := fields_go [] (str_bytes s).

Fixpoint JoinStr (l : list string) (sep : string) : string :=
  match l with
  | [] => ""
  | [x] => x
  | x :: l => x +:+ sep +:+ JoinStr l sep
  end.

(** ** Package strconv and fmt *)

Definition digit_val (c : ascii) : option Z :=
  let n := Z_of_byte c in
  if decide (48 ≤ n ≤ 57)%Z then Some (n - 48)%Z else None.

(** The value of a string of decimal digits, at least one. *)
Fixpoint digits_val (acc : Z) (s : string) : option Z :=
  match s with
  | EmptyString => Some acc
  | String c s => d ← digit_val c; digits_val (acc * 10 + d) s
  end.

Definition parse_digits (s : string) : option Z :=
  match s with EmptyString => None | _ => digits_val 0 s end.

(** [strconv.ParseInt(s, 10, 64)] and [strconv.Atoi]: the value returned and
    whether the error is nil.  A syntax error returns 0, a range error the
    nearest int64. *)
Definition ParseInt (s : string) : Z * bool :=
  let signed (neg : bool) (body : string) : Z * bool :=
    match parse_digits body with
    | None => (0, false)%Z
    | Some n =>
      if neg then
        if decide (n ≤ 2 ^ 63)%Z then (- n, true)%Z else (minInt64, false)
      else if decide (n < 2 ^ 63)%Z then (n, true) else (maxInt64, false)
    end in
  match s with
  | String "-"%char body => signed true body
  | String "+"%char body => signed false body
  | _ => signed false s
  end.

(** [%d]. *)
Definition fmt_d (z : Z) : string := pretty z.

Definition hex_digit (n : Z) : ascii :=
  byte_of_Z (if decide (n < 10)%Z then 48 + n else 87 + n).

(** [encoding/hex.EncodeToString]. *)
Fixpoint EncodeToString (b : bytes) : string :=
  match b with
  | [] => ""
  | c :: b => String (hex_digit (Z_of_byte c / 16))
                (String (hex_digit (Z_of_byte c mod 16)) (EncodeToString b))
  end.

(** [%0nd] of a non-negative number below [10^n]: exactly [n] digits. *)
Fixpoint fmt_0d (n : nat) (z : Z) : string :=
  match n with
  | O => ""
  | S n => fmt_0d n (z / 10) +:+ String (byte_of_Z (48 + z mod 10)) ""
  end.

(** [string(rune(n))]: the UTF-8 encoding, U+FFFD for an invalid rune. *)
Definition string_of_rune (n : Z) : string :=
  let n := if decide (0 ≤ n < 55296 ∨ 57344 ≤ n ≤ 1114111)%Z then n else 65533%Z in
  let cont k := byte_of_Z (128 + Z.land (Z.shiftr n k) 63) in
  bytes_str
    (if decide (n < 128)%Z then [byte_of_Z n]
     else if decide (n < 2048)%Z then [byte_of_Z (192 + Z.shiftr n 6); cont 0]
     else if decide (n < 65536)%Z then [byte_of_Z (224 + Z.shiftr n 12); cont 6; cont 0]
     else [byte_of_Z (240 + Z.shiftr n 18); cont 12; cont 6; cont 0])%Z.

(** ** Package path/filepath *)

(** One step of [filepath.Clean] on a path component; the stack holds the
    components kept so far, innermost first. *)
Definition clean_step (rooted : bool) (st : list string) (c : string) : list string :=
  if decide (c = "" ∨ c = ".") then st
  else if decide (c = "..") then
    match st with
    | [] => if rooted then [] else [".."]
    | top :: st' => if decide (top = "..") then ".." :: st else st'
    end
  else c :: st.

Definition clean_comps (rooted : bool) (cs : list string) : list string :=
  foldl (clean_step rooted) [] cs.

Definition is_rooted (s : string) : bool := HasPrefix s "/".

Definition Clean (s : string) : string :=
  let r := is_rooted s in
  let body := JoinStr (reverse (clean_comps r (Split "/" s))) "/" in
  if r then "/" +:+ body else if decide (body = "") then "." else body.

(** [filepath.Join]: the non-empty elements joined and cleaned. *)
Definition Join (l : list string) : string :=
  match filter (λ x, x ≠ "") l with
  | [] => ""
  | l => Clean (JoinStr l "/")
  end.

(** ** Package time *)

(** A [time.Time] is the number of nanoseconds since the zero time
    (January 1, year 1); [IsZero] is equality with 0. *)
Abbreviation Time := Z (only parsing).
Definition Second : Z := 1000000000.
Definition Minute : Z := 60 * Second.
Definition Hour : Z := 60 * Minute.
Definition unixEpoch : Time := 62135596800 * Second.
Definition IsZero (t : Time) : bool := bool_decide (t = 0)%Z.
Definition After (t u : Time) : bool := bool_decide (u < t)%Z.
Definition Before (t u : Time) : bool := bool_decide (t < u)%Z.

(** [Time.UnixNano], an int64 that wraps outside its range. *)
Definition UnixNano (t : Time) : Z := wrap64 (t - unixEpoch).

(** [Time.Sub]: a Duration, saturated to int64. *)
Definition TimeSub (t u : Time) : Z := Z.max minInt64 (Z.min maxInt64 (t - u)).

(** ** Package io *)

(** An [io.Reader] of a request or response body: the bytes it delivers and
    the error that ends it ([None] is [io.EOF]). *)
Record Reader := mkReader { rd_data : bytes; rd_err : option error }.

Definition NewReader (s : bytes) : Reader := mkReader s None.

(** ** Lemmas *)

Lemma sdrop_app p r : sdrop (String.length p) (p +:+ r) = r.
Proof.
  unfold sdrop. rewrite str_bytes_app, drop_app_length'; [apply str_bytes_str|].
  symmetry. apply length_str_bytes.
Qed.

Lemma strip_prefix_spec p s r : strip_prefix p s = Some r ↔ s = p +:+ r.
Proof.
  revert s. induction p as [|c p IH]; intros s; simpl.
  - split; [by intros [= ->]|intros ->; done].
  - rewrite sapp_cons. destruct s as [|d s]; [done|].
    case_decide as E; [subst; rewrite IH|]; naive_solver.
Qed.

Lemma strip_prefix_app p r : strip_prefix p (p +:+ r) = Some r.
Proof. by apply strip_prefix_spec. Qed.

Lemma HasPrefix_spec s p : HasPrefix s p = true ↔ ∃ r, s = p +:+ r.
Proof.
  unfold HasPrefix. destruct (strip_prefix p s) as [r|] eqn:E.
  - apply strip_prefix_spec in E. naive_solver.
  - split; [done|]. intros [r Hr%strip_prefix_spec]. congruence.
Qed.

Lemma HasPrefix_app p r : HasPrefix (p +:+ r) p = true.
Proof. apply HasPrefix_spec. eauto. Qed.

Lemma TrimPrefix_app p r : TrimPrefix (p +:+ r) p = r.
Proof. unfold TrimPrefix. by rewrite strip_prefix_app. Qed.

Lemma HasPrefix_false s p : HasPrefix s p = false ↔ ∀ r, s ≠ p +:+ r.
Proof. rewrite <-not_true_iff_false, HasPrefix_spec. naive_solver. Qed.

#[export] Hint Rewrite strip_prefix_app HasPrefix_app TrimPrefix_app : fastreg.

Lemma not_in_cons c d s : not_in c (String d s) ↔ c ≠ d ∧ not_in c s.
Proof. unfold not_in. simpl. set_solver. Qed.

Lemma not_in_app c s t : not_in c (s +:+ t) ↔ not_in c s ∧ not_in c t.
Proof. unfold not_in. rewrite str_bytes_app. set_solver. Qed.

Lemma Split2_none sep s : not_in sep s → Split2 sep s = [s].
Proof.
  induction s as [|c s IH]; simpl; [done|]. intros [Hc Hs]%not_in_cons.
  rewrite decide_False by done. by rewrite IH.
Qed.

Lemma Split2_app sep s t :
  not_in sep s → Split2 sep (s +:+ String sep t) = [s; t].
Proof.
  induction s as [|c s IH]; intros H.
  - simpl. by rewrite decide_True.
  - apply not_in_cons in H as [Hc Hs]. rewrite sapp_cons. simpl.
    rewrite decide_False by done. by rewrite IH.
Qed.

(** Every string either has no separator or splits at its first one. *)
Lemma Split2_cases sep s :
  (not_in sep s ∧ Split2 sep s = [s]) ∨
  (∃ a b, s = a +:+ String sep b ∧ not_in sep a ∧ Split2 sep s = [a; b]).
Proof.
  induction s as [|c s IH].
  - left. split; [unfold not_in; set_solver|done].
  - destruct (decide (c = sep)) as [->|Hc].
    + right. exists "", s. split_and!; [done|unfold not_in; set_solver|].
      simpl. by rewrite decide_True.
    + simpl. rewrite decide_False by done.
      destruct IH as [[Hn ->]|(a & b & -> & Ha & ->)].
      * left. split; [|done]. apply not_in_cons. split; auto.
      * right. exists (String c a), b. split_and!; [done| |done].
        apply not_in_cons. split; auto.
Qed.

Lemma Split_not_nil sep s : Split sep s ≠ [].
Proof. destruct s; simpl; [done|]. case_decide; [done|]. by case_match. Qed.

Lemma Split_none sep s : not_in sep s → Split sep s = [s].
Proof.
  induction s as [|c s IH]; simpl; [done|]. intros [Hc Hs]%not_in_cons.
  rewrite decide_False by done. by rewrite IH.
Qed.

Lemma Split_app sep s t : Split sep (s +:+ String sep t) = Split sep s ++ Split sep t.
Proof.
  induction s as [|c s IH].
  - simpl. by rewrite decide_True.
  - rewrite sapp_cons. simpl. rewrite IH. case_decide; [done|].
    pose proof (Split_not_nil sep s). destruct (Split sep s); [done|]. done.
Qed.

(** Lower-case hexadecimal digits. *)
Definition is_hex (c : ascii) : bool :=
  bool_decide (48 ≤ Z_of_byte c ≤ 57 ∨ 97 ≤ Z_of_byte c ≤ 102)%Z.
Definition all_hex (s : string) : Prop := Forall (λ c, is_hex c) (str_bytes s).

Global Instance all_hex_dec s : Decision (all_hex s) := _.

Lemma is_hex_digit n : (0 ≤ n < 16)%Z → is_hex (hex_digit n).
Proof.
  intros Hn. unfold is_hex, hex_digit. apply bool_decide_pack.
  rewrite Z_of_byte_of_Z. case_decide; rewrite Z.mod_small; lia.
Qed.

Lemma all_hex_EncodeToString b : all_hex (EncodeToString b).
Proof.
  unfold all_hex. induction b as [|c b IH]; simpl; [constructor|].
  pose proof (Z_of_byte_bound c).
  repeat constructor; try done; apply is_hex_digit.
  - split; [apply Z.div_pos; lia|apply Z.div_lt_upper_bound; lia].
  - apply Z.mod_pos_bound. lia.
Qed.

Lemma length_EncodeToString b : String.length (EncodeToString b) = (2 * length b)%nat.
Proof. induction b; simpl; lia. Qed.

Lemma all_hex_not_in c s : all_hex s → is_hex c = false → not_in c s.
Proof.
  unfold all_hex, not_in. rewrite Forall_forall. intros H Hc Hin.
  specialize (H c Hin). by rewrite Hc in H.
Qed.

#[export] Hint Resolve all_hex_EncodeToString : fastreg.

(** ** Lemmas on cleaned paths *)

(** A path component that [Clean] keeps. *)
Definition normal (x : string) : Prop :=
  x ≠ "" ∧ x ≠ "." ∧ x ≠ ".." ∧ not_in "/" x.

Lemma clean_step_normal r st x : normal x → clean_step r st x = x :: st.
Proof. intros (? & ? & ? & _). unfold clean_step. by repeat case_decide; try naive_solver. Qed.

Lemma foldl_clean_normal r st xs :
  Forall normal xs → foldl (clean_step r) st xs = reverse xs ++ st.
Proof.
  intros H. revert st. induction H as [|x xs Hx Hxs IH]; intros st; simpl; [done|].
  by rewrite clean_step_normal, IH, reverse_cons, <-app_assoc.
Qed.

Lemma JoinStr_cons x l sep : l ≠ [] → JoinStr (x :: l) sep = x +:+ sep +:+ JoinStr l sep.
Proof. by destruct l. Qed.

Lemma JoinStr_app l1 l2 sep :
  l1 ≠ [] → l2 ≠ [] → JoinStr (l1 ++ l2) sep = JoinStr l1 sep +:+ sep +:+ JoinStr l2 sep.
Proof.
  intros H1 H2. induction l1 as [|x l1 IH]; [done|].
  destruct l1 as [|y l1].
  - simpl. destruct l2; [done|]. done.
  - rewrite <-app_comm_cons, !JoinStr_cons by done.
    rewrite IH by done. by rewrite !sapp_assoc.
Qed.

Lemma Split_JoinStr_normal xs :
  xs ≠ [] → Forall normal xs → Split "/" (JoinStr xs "/") = xs.
Proof.
  intros Hne H. induction H as [|x xs Hx Hxs IH]; [done|].
  destruct Hx as (_ & _ & _ & Hx).
  destruct xs as [|y xs]; [simpl; by apply Split_none|].
  rewrite JoinStr_cons by done. change ("/" +:+ ?t) with (String "/" t).
  by rewrite Split_app, Split_none, IH.
Qed.

Lemma is_rooted_app s t : s ≠ "" → is_rooted (s +:+ t) = is_rooted s.
Proof.
  intros Hs. destruct s as [|c s]; [done|]. unfold is_rooted, HasPrefix.
  rewrite sapp_cons. simpl. by case_decide.
Qed.

Lemma clean_comps_nonempty r cs : Forall (λ x, x ≠ "") (clean_comps r cs).
Proof.
  unfold clean_comps.
  assert (∀ st, Forall (λ x, x ≠ "") st → Forall (λ x, x ≠ "") (foldl (clean_step r) st cs))
    as H; [|by apply H].
  induction cs as [|c cs IH]; intros st Hst; simpl; [done|]. apply IH.
  unfold clean_step. case_decide as E1; [done|]. case_decide as E2.
  - destruct Hst as [|top st ? Hst]; [by destruct r; repeat constructor|].
    case_decide; by repeat constructor.
  - constructor; [naive_solver|done].
Qed.

Lemma JoinStr_nonempty l sep : l ≠ [] → Forall (λ x, x ≠ "") l → JoinStr l sep ≠ "".
Proof.
  intros Hne H. destruct H as [|x [|y l] Hx H]; [done|done|].
  rewrite JoinStr_cons by done. by destruct x.
Qed.

(** Cleaning a directory extended with normal components: the extension is
    kept as it is. *)
Lemma Clean_app root xs :
  root ≠ "" → xs ≠ [] → Forall normal xs →
  clean_comps (is_rooted root) (Split "/" root) ≠ [] →
  Clean (root +:+ "/" +:+ JoinStr xs "/") = Clean root +:+ "/" +:+ JoinStr xs "/".
Proof.
  intros Hr Hxs Hn Hst. unfold Clean. rewrite is_rooted_app by done.
  change ("/" +:+ JoinStr xs "/") with (String "/" (JoinStr xs "/")).
  rewrite Split_app, Split_JoinStr_normal by done.
  unfold clean_comps in *. rewrite foldl_app, foldl_clean_normal by done.
  set (st := foldl _ _ _) in *.
  rewrite reverse_app, reverse_involutive, JoinStr_app;
    [|by intros ?%(f_equal reverse); rewrite reverse_involutive in *|done].
  destruct (is_rooted root); [by rewrite !sapp_assoc|].
  assert (JoinStr (reverse st) "/" ≠ "") as E.
  { apply JoinStr_nonempty.
    - intros Hr'%(f_equal reverse). by rewrite reverse_involutive in Hr'.
    - rewrite Forall_reverse. apply clean_comps_nonempty. }
  rewrite !decide_False; [done|done|].
  by destruct (JoinStr (reverse st) "/").
Qed.

(** [filepath.Dir] and the last component of a path. *)
Definition Dir (p : string) : string :=
  Clean (JoinStr (removelast (Split "/" p) ++ [""]) "/").
Definition Base (p : string) : string := default "" (last (Split "/" p)).

(** ** Decimal numbers *)

Lemma digit_val_char (n : N) : (n < 10)%N → digit_val (pretty_N_char n) = Some (Z.of_N n).
Proof.
  intros Hn. assert (n = 0 ∨ n = 1 ∨ n = 2 ∨ n = 3 ∨ n = 4 ∨ n = 5 ∨ n = 6 ∨ n = 7 ∨ n = 8 ∨ n = 9)%N
    as Hcases by lia. by destruct_or! Hcases; subst.
Qed.

Lemma pretty_N_go_ind (P : string → Prop) (x : N) s :
  (∀ n s, (n < 10)%N → P s → P (String (pretty_N_char n) s)) → P s → P (pretty_N_go x s).
Proof.
  intros HP. revert s. induction (N.lt_wf_0 x) as [x _ IH]; intros s Hs.
  destruct (decide (0 < x)%N) as [Hx|Hx].
  - rewrite pretty_N_go_step by done. apply IH; [by apply N.div_lt|].
    apply HP; [by apply N.mod_lt|done].
  - assert (x = 0%N) as -> by lia. by rewrite pretty_N_go_0.
Qed.

Definition all_digits (s : string) : Prop := Forall (λ c, is_Some (digit_val c)) (str_bytes s).

Lemma all_digits_pretty (n : N) : all_digits (pretty n).
Proof.
  assert (∀ n s, (n < 10)%N → all_digits s → all_digits (String (pretty_N_char n) s)) as Hc.
  { intros k s Hk Hs. apply Forall_cons. split; [|done]. by rewrite digit_val_char. }
  unfold pretty, pretty_N. case_decide.
  - apply (Hc 0%N); [done|]. by apply Forall_nil.
  - apply pretty_N_go_ind; [done|]. by apply Forall_nil.
Qed.

Lemma all_digits_not_in c s : digit_val c = None → all_digits s → not_in c s.
Proof.
  unfold all_digits, not_in. intros Hc Hs Hin.
  rewrite Forall_forall in Hs. apply Hs in Hin as [? Hin]. congruence.
Qed.

Lemma digits_val_go (x : N) s : digits_val 0 (pretty_N_go x s) = digits_val (Z.of_N x) s.
Proof.
  revert s. induction (N.lt_wf_0 x) as [x _ IH]; intros s.
  destruct (decide (0 < x)%N) as [Hx|Hx].
  - rewrite pretty_N_go_step, IH by (done || by apply N.div_lt). simpl.
    rewrite digit_val_char by by apply N.mod_lt. simpl. f_equal.
    rewrite N2Z.inj_div, N2Z.inj_mod.
    pose proof (Z.div_mod (Z.of_N x) (Z.of_N 10)). lia.
  - assert (x = 0%N) as -> by lia. by rewrite pretty_N_go_0.
Qed.

Lemma parse_digits_pretty (n : N) : parse_digits (pretty n) = Some (Z.of_N n).
Proof.
  unfold parse_digits. destruct (pretty n) eqn:E.
  - exfalso. revert E. unfold pretty, pretty_N. case_decide; [done|].
    rewrite pretty_N_go_step by lia.
    apply (pretty_N_go_ind (λ s, s ≠ "")); [by intros|done].
  - rewrite <-E. unfold pretty, pretty_N. case_decide as H; [by subst|].
    by rewrite digits_val_go.
Qed.

Lemma ParseInt_unsigned s :
  all_digits s →
  ParseInt s = match parse_digits s with
               | None => (0, false)
               | Some n => if decide (n < 2 ^ 63)%Z then (n, true) else (maxInt64, false)
               end%Z.
Proof.
  intros Hs. destruct s as [|c s]; [done|]. apply Forall_cons in Hs as [Hc _].
  destruct c as [[] [] [] [] [] [] [] []]; first [done|by destruct Hc].
Qed.

(** Printing an int64 and parsing it back. *)
Lemma ParseInt_fmt_d z : in64 z → ParseInt (fmt_d z) = (z, true).
Proof.
  unfold in64, minInt64, maxInt64, fmt_d. intros Hz. destruct z as [|p|p]; [done| |].
  - change (pretty (Z.pos p)) with (pretty (N.pos p)).
    rewrite ParseInt_unsigned by apply all_digits_pretty. rewrite parse_digits_pretty.
    by rewrite decide_True by lia.
  - change (pretty (Z.neg p)) with ("-" +:+ pretty (N.pos p)).
    rewrite sapp_cons, sapp_nil_l. unfold ParseInt. rewrite parse_digits_pretty.
    by rewrite decide_True by lia.
Qed.

Lemma fmt_d_digits z : (0 ≤ z)%Z → all_digits (fmt_d z).
Proof.
  intros Hz. destruct z as [|p|p]; [by apply (all_digits_pretty 0)| |lia].
  apply (all_digits_pretty (N.pos p)).
Qed.

Lemma fmt_d_nonempty z : (0 ≤ z)%Z → fmt_d z ≠ "".
Proof.
  intros Hz E. destruct z as [|p|p]; [done| |lia].
  pose proof (parse_digits_pretty (N.pos p)) as Hp.
  change (pretty (N.pos p)) with (fmt_d (Z.pos p)) in Hp. by rewrite E in Hp.
Qed.
