(* ===== verification/Digest.v ===== *)
(** Package pkg/digest: content-addressable digests.

    A [Digest] is the Go string type; [Algorithm], [Hex], [Validate], [Parse]
    and [ShortHex] are its methods, [FromBytes] and [FromReader] compute
    digests, [Verifier] is the incremental check the blob store uses. *)

From S2P Require Import Prelude Sha256 GoLib.

Abbreviation Digest := string (only parsing).

Definition Algorithm (d : Digest) : string :=
  match Split2 ":" d with [a; _] => a | _ => "" end.

Definition Hex (d : Digest) : string :=
  match Split2 ":" d with [_; h] => h | _ => "" end.

Definition Validate (d : Digest) : option error :=
  if decide (Algorithm d = "" ∨ Hex d = "") then
    Some (Errorf ("invalid digest format: " +:+ d))
  else if decide (Algorithm d ≠ "sha256") then
    Some (Errorf ("unsupported algorithm: " +:+ Algorithm d))
  else if decide (slen (Hex d) ≠ 64)%Z then
    Some (Errorf ("invalid sha256 length: " +:+ fmt_d (slen (Hex d))))
  else None.

Definition ShortHex (d : Digest) : string :=
  let h := Hex d in
  if decide (slen h > 12)%Z then stake 12 h else h.

Definition FromBytes (data : bytes) : Digest :=
  "sha256:" +:+ EncodeToString (sha256 data).

Definition FromReader (r : Reader) : result (Digest * Z) :=
  match rd_err r with
  | Some e => Err e
  | None => Ok ("sha256:" +:+ EncodeToString (sha256 (rd_data r)), blen (rd_data r))
  end.

Definition Parse (s : string) : result Digest :=
  match Validate s with
  | Some e => Err e
  | None => Ok s
  end.

(** [Verifier]: the expected digest and the running hash, which is determined
    by the bytes written so far. *)
Record Verifier := mkVerifier { v_expected : Digest; v_written : bytes }.

Definition NewVerifier (expected : Digest) : result Verifier :=
  match Validate expected with
  | Some e => Err e
  | None => Ok (mkVerifier expected [])
  end.

Definition Verifier_Write (v : Verifier) (p : bytes) : Verifier * Z :=
  (mkVerifier (v_expected v) (v_written v ++ p), blen p).

Definition Verified (v : Verifier) : bool :=
  bool_decide (EncodeToString (sha256 (v_written v)) = Hex (v_expected v)).

(** ** The digests the registry itself produces *)

(** A canonical digest: [sha256:] and 64 lower-case hexadecimal digits. *)
Definition canonical (d : Digest) : Prop :=
  ∃ h, d = "sha256:" +:+ h ∧ String.length h = 64%nat ∧ all_hex h.

(** What [Validate] accepts: [sha256:] and any 64 bytes. *)
Definition valid (d : Digest) : Prop :=
  ∃ h, d = "sha256:" +:+ h ∧ String.length h = 64%nat.

Lemma Split2_sha256 h : Split2 ":" ("sha256:" +:+ h) = ["sha256"; h].
Proof. apply (Split2_app ":" "sha256"). unfold not_in. simpl. set_solver. Qed.

Lemma Hex_sha256 h : Hex ("sha256:" +:+ h) = h.
Proof. unfold Hex. by rewrite Split2_sha256. Qed.

Lemma Algorithm_sha256 h : Algorithm ("sha256:" +:+ h) = "sha256".
Proof. unfold Algorithm. by rewrite Split2_sha256. Qed.

#[export] Hint Rewrite Hex_sha256 Algorithm_sha256 : fastreg.

Lemma canonical_valid d : canonical d → valid d.
Proof. intros (h & -> & ? & ?). by exists h. Qed.

Lemma Validate_valid d : Validate d = None ↔ valid d.
Proof.
  unfold Validate, valid. split.
  - unfold Algorithm, Hex. destruct (Split2_cases ":" d) as [[Hn Hs]|(a & b & -> & Ha & Hs)];
      rewrite Hs; simpl; [done|].
    intros H. repeat case_decide; simplify_eq. unfold slen in *.
    exists b. split; [done|lia].
  - intros (h & -> & Hl). rewrite Hex_sha256, Algorithm_sha256.
    unfold slen. rewrite Hl. repeat case_decide; try done; try tauto.
    destruct h; simplify_eq/=; naive_solver.
Qed.

Lemma Parse_Ok s d : Parse s = Ok d ↔ s = d ∧ valid s.
Proof.
  unfold Parse. rewrite <-Validate_valid. destruct (Validate s); split; naive_solver.
Qed.

Lemma Parse_valid d : valid d → Parse d = Ok d.
Proof. intros. by apply Parse_Ok. Qed.

Lemma Parse_canonical d : canonical d → Parse d = Ok d.
Proof. intros. by apply Parse_valid, canonical_valid. Qed.

Lemma FromBytes_canonical b : canonical (FromBytes b).
Proof.
  exists (EncodeToString (sha256 b)). split_and!; [done| |auto with fastreg].
  by rewrite length_EncodeToString, length_sha256.
Qed.

#[export] Hint Resolve canonical_valid FromBytes_canonical Parse_canonical : fastreg.

Lemma canonical_not_in_colon_hex d : canonical d → not_in ":" (Hex d).
Proof. intros (h & -> & ? & ?). rewrite Hex_sha256. by apply all_hex_not_in. Qed.

Lemma valid_sha256_prefix d : valid d → HasPrefix d "sha256:" = true.
Proof. intros (h & -> & _). apply HasPrefix_app. Qed.

Lemma valid_eq d1 d2 : valid d1 → valid d2 → Hex d1 = Hex d2 → d1 = d2.
Proof. intros (h1 & -> & _) (h2 & -> & _). rewrite !Hex_sha256. by intros ->. Qed.

Lemma FromBytes_Hex b : Hex (FromBytes b) = EncodeToString (sha256 b).
Proof. apply Hex_sha256. Qed.

Lemma Verified_FromBytes d b :
  valid d → Verified (mkVerifier d b) = true ↔ d = FromBytes b.
Proof.
  intros Hd. unfold Verified; cbn [v_expected v_written]. rewrite bool_decide_eq_true, <-FromBytes_Hex.
  split; [|by intros ->].
  intros E. apply valid_eq; [done|apply canonical_valid, FromBytes_canonical|done].
Qed.

Lemma Verifier_writes v ps :
  v_written (foldl (λ v p, (Verifier_Write v p).1) v ps) = v_written v ++ concat ps ∧
  v_expected (foldl (λ v p, (Verifier_Write v p).1) v ps) = v_expected v.
Proof.
  revert v. induction ps as [|p ps IH]; intros v; simpl; [by rewrite app_nil_r|].
  destruct (IH (mkVerifier (v_expected v) (v_written v ++ p))) as [H1 H2].
  simpl in *. by rewrite H1, H2, app_assoc.
Qed.

Lemma Verified_self b : Verified (mkVerifier (FromBytes b) b) = true.
Proof. apply Verified_FromBytes; auto with fastreg. Qed.

Lemma Validate_FromBytes b : Validate (FromBytes b) = None.
Proof. apply Validate_valid; auto with fastreg. Qed.

#[export] Hint Rewrite Verified_self Validate_FromBytes : fastreg.

(** ** Properties *)

(** [Parse] accepts exactly the strings of the form [sha256:] and 64 more
    bytes, returns them unchanged, reports an error for every other string
    and never panics; every digest the registry computes is accepted, and
    [Algorithm] and [Hex] take an accepted digest apart.  The 64 bytes need
    not be hexadecimal digits. *)
Theorem Parse_spec s :
  match Parse s with
  | Ok d => d = s ∧ s = Algorithm s +:+ ":" +:+ Hex s ∧ Algorithm s = "sha256" ∧
            String.length (Hex s) = 64
  | Err _ => ∀ h, s = "sha256:" +:+ h → String.length h ≠ 64
  | Panic _ => False
  end ∧
  (∀ b, Parse (FromBytes b) = Ok (FromBytes b) ∧ all_hex (Hex (FromBytes b))) ∧
  ∃ d, Parse d = Ok d ∧ ¬ all_hex (Hex d).
Proof.
  split; [|split].
  - destruct (Parse s) as [d|e|m] eqn:E.
    + apply Parse_Ok in E as (-> & h & -> & Hl). rewrite Hex_sha256, Algorithm_sha256. done.
    + intros h -> Hl. by rewrite Parse_valid in E by by exists h.
    + unfold Parse in E. by destruct (Validate s).
  - intros b. split; [apply Parse_canonical, FromBytes_canonical|].
    rewrite FromBytes_Hex. apply all_hex_EncodeToString.
  - exists ("sha256:" +:+ bytes_str (repeat "/"%char 64)). split; [by vm_compute|].
    rewrite Hex_sha256. unfold all_hex. by intros H%Forall_inv.
Qed.

(** The verifier does not depend on how the data arrive: after any sequence
    of writes, [Verified] answers yes exactly when the expected digest is the
    digest of their concatenation. *)
Theorem Verifier_stream d v ps :
  NewVerifier d = Ok v →
  Verified (foldl (λ v p, (Verifier_Write v p).1) v ps) = true ↔ d = FromBytes (concat ps).
Proof.
  unfold NewVerifier. destruct (Validate d) eqn:Hv; intros [= <-].
  apply Validate_valid in Hv.
  destruct (Verifier_writes (mkVerifier d []) ps) as [Hw He].
  destruct (foldl _ _ ps) as [e w]. simpl in *. subst. by apply Verified_FromBytes.
Qed.

Lemma Verifier_stream_witness :
  let d := FromBytes (str_bytes "ab") in
  ∃ v, NewVerifier d = Ok v ∧
    Verified (foldl (λ v p, (Verifier_Write v p).1) v [str_bytes "a"; str_bytes "b"]) = true.
Proof.
  intros d. exists (mkVerifier d []). assert (NewVerifier d = Ok (mkVerifier d [])) as Hv.
  { vm_compute. reflexivity. }
  split; [exact Hv|].
  exact (proj2 (Verifier_stream d (mkVerifier d []) [str_bytes "a"; str_bytes "b"] Hv) eq_refl).
Defined.
