(* ===== verification/Os.v ===== *)
(** The operating-system calls the storage code makes (package os, syscall):
    regular files by path, live memory mappings, and the outcome of each call
    as an oracle. *)

From S2P Require Import Prelude GoLib.

(** [os_files]: the contents of the regular files; [os_maps]: the live
    memory mappings, each with the path it was made from. *)
Record Os := mkOs {
  os_files : gmap string bytes;
  os_maps : gmap nat string;
  os_next : nat
}.

Definition os_empty : Os := mkOs ∅ ∅ 0.

(** The calls that can fail for a reason the model does not compute (a full
    disk, a permission).  An oracle says which ones do. *)
Inductive FsOp :=
  | OpStat | OpOpen | OpSeek | OpRead | OpMmap | OpCreateTemp | OpTruncate
  | OpWrite | OpSync | OpClose | OpRename | OpRemove | OpCreate | OpMkdirAll.

Abbreviation Faults := (FsOp → option error) (only parsing).
Definition noFaults : Faults := λ _, None.

Definition set_files (f : gmap string bytes → gmap string bytes) (os : Os) : Os :=
  mkOs (f (os_files os)) (os_maps os) (os_next os).

(** [os.Stat]: the size of a regular file. *)
Definition Stat (F : Faults) (os : Os) (path : string) : result Z :=
  match F OpStat with
  | Some e => Err e
  | None => match os_files os !! path with
            | Some c => Ok (blen c)
            | None => Err ErrNotExist
            end
  end.

(** [os.Open] for reading: the contents the handle gives access to. *)
Definition Open (F : Faults) (os : Os) (path : string) : result bytes :=
  match F OpOpen with
  | Some e => Err e
  | None => match os_files os !! path with
            | Some c => Ok c
            | None => Err ErrNotExist
            end
  end.

(** [os.Create]: an empty file, an existing one is truncated. *)
Definition Create (F : Faults) (os : Os) (path : string) : result unit * Os :=
  match F OpCreate with
  | Some e => (Err e, os)
  | None => (Ok tt, set_files (<[path := []]>) os)
  end.

(** [os.CreateTemp(dir, ".upload-*")]: the first of the random names that is
    not taken. *)
Definition tempName (dir : string) (n : N) : string :=
  dir +:+ "/" +:+ ".upload-" +:+ pretty n.

Definition CreateTemp (F : Faults) (os : Os) (dir : string) (rnds : list N)
    : result string * Os :=
  match F OpCreateTemp with
  | Some e => (Err e, os)
  | None =>
    match list_find (λ n, os_files os !! tempName dir n = None) rnds with
    | Some (_, n) => (Ok (tempName dir n), set_files (<[tempName dir n := []]>) os)
    | None => (Err (Errorf "file exists"), os)
    end
  end.

(** [os.Remove]. *)
Definition Remove (F : Faults) (os : Os) (path : string) : result unit * Os :=
  match F OpRemove with
  | Some e => (Err e, os)
  | None => match os_files os !! path with
            | Some _ => (Ok tt, set_files (delete path) os)
            | None => (Err ErrNotExist, os)
            end
  end.

(** [os.Rename]: replaces the target. *)
Definition Rename (F : Faults) (os : Os) (old new : string) : result unit * Os :=
  match F OpRename with
  | Some e => (Err e, os)
  | None => match os_files os !! old with
            | Some c => (Ok tt, set_files (λ fs, <[new := c]> (delete old fs)) os)
            | None => (Err ErrNotExist, os)
            end
  end.

(** Writing [data] at offset [off] of a file with contents [c]: a gap is
    filled with zeros; nothing written leaves the file as it is. *)
Definition write_at (c : bytes) (off : nat) (data : bytes) : bytes :=
  match data with
  | [] => c
  | _ => take off (c ++ repeat (byte_of_Z 0) (off - length c))
           ++ data ++ drop (off + length data) c
  end.

(** [File.Truncate(n)] of a file with contents [c]. *)
Definition truncate (c : bytes) (n : nat) : bytes :=
  take n (c ++ repeat (byte_of_Z 0) (n - length c)).

(** [syscall.Mmap]: an empty mapping is refused (EINVAL). *)
Definition Mmap (F : Faults) (os : Os) (path : string) (size : Z) : result nat * Os :=
  match F OpMmap with
  | Some e => (Err e, os)
  | None =>
    if decide (size ≤ 0)%Z then (Err (Errorf "invalid argument"), os)
    else (Ok (os_next os),
          mkOs (os_files os) (<[os_next os := path]> (os_maps os)) (S (os_next os)))
  end.

(** [syscall.Munmap]. *)
Definition Munmap (os : Os) (id : nat) : Os :=
  mkOs (os_files os) (delete id (os_maps os)) (os_next os).

(** ** Lemmas *)

Lemma length_truncate c n : length (truncate c n) = n.
Proof. unfold truncate. rewrite length_take, length_app, repeat_length. lia. Qed.

Lemma write_at_0 c data : write_at c 0 data = data ++ drop (length data) c.
Proof. unfold write_at. destruct data; [done|]. done. Qed.

Lemma write_at_end c data : write_at c (length c) data = c ++ data.
Proof.
  unfold write_at. destruct data as [|b data]; [by rewrite app_nil_r|].
  rewrite Nat.sub_diag, app_nil_r, take_ge by done.
  rewrite drop_ge by lia. by rewrite app_nil_r.
Qed.

Lemma length_write_at c off data :
  length (write_at c off data) =
    match data with [] => length c | _ => Nat.max (length c) (off + length data) end.
Proof.
  unfold write_at. destruct data as [|b data]; [done|].
  rewrite !length_app, length_take, length_drop, length_app, repeat_length. lia.
Qed.

Lemma not_in_pretty_N_go c x s :
  (∀ n, (n < 10)%N → c ≠ pretty_N_char n) → not_in c s → not_in c (pretty_N_go x s).
Proof.
  intros Hc. revert s. induction (N.lt_wf_0 x) as [x _ IH]; intros s Hs.
  destruct (decide (0 < x)%N) as [Hx|Hx].
  - rewrite pretty_N_go_step by done. apply IH; [by apply N.div_lt|].
    apply not_in_cons. split; [|done]. apply Hc. by apply N.mod_lt.
  - assert (x = 0%N) as -> by lia. by rewrite pretty_N_go_0.
Qed.

(** A decimal number contains digits only. *)
Lemma not_in_pretty_N c (n : N) :
  (∀ k, (k < 10)%N → c ≠ pretty_N_char k) → not_in c (pretty n).
Proof.
  intros Hc. unfold pretty, pretty_N. case_decide.
  - apply not_in_cons. split; [by apply (Hc 0%N)|]. unfold not_in. set_solver.
  - apply not_in_pretty_N_go; [done|]. unfold not_in. set_solver.
Qed.

Lemma slash_not_digit k : (k < 10)%N → "/"%char ≠ pretty_N_char k.
Proof.
  intros Hk. assert (k = 0 ∨ k = 1 ∨ k = 2 ∨ k = 3 ∨ k = 4 ∨ k = 5 ∨ k = 6 ∨ k = 7 ∨ k = 8 ∨ k = 9)%N
    as Hcases by lia. by destruct_or! Hcases; subst.
Qed.

Lemma Split_last_slash a b : not_in "/" b → last (Split "/" (a +:+ "/" +:+ b)) = Some b.
Proof.
  intros Hb. change ("/" +:+ b) with (String "/" b). rewrite Split_app.
  by rewrite (Split_none _ b), last_snoc.
Qed.

(** A temporary name ends in [.upload-] and a number. *)
Lemma tempName_last dir n : last (Split "/" (tempName dir n)) = Some (".upload-" +:+ pretty n).
Proof.
  unfold tempName. apply Split_last_slash. apply not_in_app. split.
  - by apply (bool_decide_unpack _).
  - apply not_in_pretty_N, slash_not_digit.
Qed.
