(* ===== verification/Blob.v ===== *)
(** internal/storage/blob.go: the content-addressable blob store.

    [BlobStore] is the struct (the mutexes make each method atomic, so a
    method is one function on the store and the operating-system state);
    [blobPath] to [Close] are its methods, [BlobReader] the two kinds of
    reader [Get] returns. *)

From S2P Require Import Prelude Sha256 GoLib Digest Os.

Module BlobStore.

Record BlobStore := mkBlobStore {
  bs_root : string;
  bs_mmaps : gmap string nat
}.

Definition NewBlobStore (root : string) : BlobStore := mkBlobStore root ∅.

(** [hex\[:2\]] panics on a digest without two hexadecimal digits. *)
Definition blobPath (bs : BlobStore) (d : Digest) : result string :=
  let hex := Hex d in
  h2 ← slice_to hex 2;
  Ok (Join [bs_root bs; "blobs"; Algorithm d; h2; hex]).

Section methods.
Context (F : Faults).

Definition Exists (bs : BlobStore) (os : Os) (d : Digest) : result bool :=
  path ← blobPath bs d;
  Ok (is_ok (Stat F os path)).

(** The error a failed [os.Stat] or [os.Open] is turned into. *)
Definition notFoundErr (e : error) : error :=
  if decide (e = ErrNotExist) then ErrBlobNotFound else e.

Definition Size (bs : BlobStore) (os : Os) (d : Digest) : result Z :=
  path ← blobPath bs d;
  match Stat F os path with
  | Err e => Err (notFoundErr e)
  | r => r
  end.

(** The reader [Get] returns: a file handle, or a memory-mapped slice with
    the read offset.  Blobs are only ever replaced by renaming another file
    over them, so what a reader delivers is fixed when it is opened. *)
Inductive BlobReader :=
  | FileReader (data : bytes)
  | MmapReader (data : bytes) (offset : nat) (id : nat).

Definition reader_data (r : BlobReader) : bytes :=
  match r with
  | FileReader data => data
  | MmapReader data offset _ => drop offset data
  end.

(** [mmapReader.Read] into a buffer of [n] bytes: the bytes copied, the
    reader afterwards, and whether it returned [io.EOF]. *)
Definition mmapRead (data : bytes) (offset id n : nat) : bytes * BlobReader * bool :=
  if decide (length data ≤ offset) then ([], MmapReader data offset id, true)
  else let p := take n (drop offset data) in
       (p, MmapReader data (offset + length p) id, false).

(** [io.Copy] from a reader: [Read] with an [n]-byte buffer until [io.EOF]
    (a file handle reads the file to its end).  [None]: out of fuel. *)
Fixpoint copyFrom (fuel n : nat) (r : BlobReader) : option bytes :=
  match fuel with
  | O => None
  | S fuel =>
    match r with
    | FileReader data => Some data
    | MmapReader data offset id =>
      match mmapRead data offset id n with
      | (_, _, true) => Some []
      | (p, r', false) => rest ← copyFrom fuel n r'; Some (p ++ rest)
      end
    end
  end.

Definition bs_mmap (bs : BlobStore) (os : Os) (path : string) (size : Z)
    : result nat * (BlobStore * Os) :=
  match Open F os path with
  | Ok _ =>
    match Mmap F os path size with
    | (Ok id, os') => (Ok id, (mkBlobStore (bs_root bs) (<[path := id]> (bs_mmaps bs)), os'))
    | (Err e, os') => (Err e, (bs, os'))
    | (Panic m, os') => (Panic m, (bs, os'))
    end
  | Err e => (Err e, (bs, os))
  | Panic m => (Panic m, (bs, os))
  end.

Definition bs_munmap (bs : BlobStore) (os : Os) (path : string) : BlobStore * Os :=
  match bs_mmaps bs !! path with
  | Some id => (mkBlobStore (bs_root bs) (delete path (bs_mmaps bs)), Munmap os id)
  | None => (bs, os)
  end.

Definition mmapLimit : Z := 10 * 1024 * 1024.

Definition Get (bs : BlobStore) (os : Os) (d : Digest)
    : result (BlobReader * Z) * (BlobStore * Os) :=
  match blobPath bs d with
  | Ok path =>
    match Stat F os path with
    | Err e => (Err (notFoundErr e), (bs, os))
    | Panic m => (Panic m, (bs, os))
    | Ok size =>
      if decide (size > mmapLimit)%Z then
        (match Open F os path with
         | Ok c => Ok (FileReader c, size) | Err e => Err e | Panic m => Panic m
         end, (bs, os))
      else
        match bs_mmap bs os path size with
        | (Ok id, (bs', os')) =>
          (Ok (MmapReader (default [] (os_files os !! path)) 0 id, size), (bs', os'))
        | (_, (bs', os')) =>
          (match Open F os path with
           | Ok c => Ok (FileReader c, size) | Err e => Err e | Panic m => Panic m
           end, (bs', os'))
        end
    end
  | Err e => (Err e, (bs, os))
  | Panic m => (Panic m, (bs, os))
  end.

(** [GetRange]: a reader limited to [end-start+1] bytes from [start]. *)
Definition GetRange (bs : BlobStore) (os : Os) (d : Digest) (start end_ : Z) : result bytes :=
  path ← blobPath bs d;
  match Open F os path with
  | Err e => Err (notFoundErr e)
  | Panic m => Panic m
  | Ok c =>
    match F OpSeek with
    | Some e => Err e
    | None =>
      if decide (start < 0)%Z then Err (Errorf "invalid argument")
      else Ok (take (Z.to_nat (end_ - start + 1)) (drop (Z.to_nat start) c))
    end
  end.

(** The part of [Put] after the temporary file exists: what is returned and
    the file system before the deferred clean-up. *)
Definition Put_temp (os1 : Os) (path tmp : string) (d : Digest) (r : Reader)
    (expectedSize : Z) : result unit * Os :=
  let os2 :=
    if decide (expectedSize > 0)%Z then
      match F OpTruncate with
      | Some _ => os1
      | None => set_files (alter (λ c, truncate c (Z.to_nat expectedSize)) tmp) os1
      end
    else os1 in
  match NewVerifier d with
  | Err e => (Err e, os2)
  | Panic m => (Panic m, os2)
  | Ok v =>
    let os3 := set_files (alter (λ c, write_at c 0 (rd_data r)) tmp) os2 in
    let v := (Verifier_Write v (rd_data r)).1 in
    let written := blen (rd_data r) in
    match F OpWrite, rd_err r with
    | Some e, _ | None, Some e => (Err (wrap "writing blob" e), os3)
    | None, None =>
      if negb (Verified v) then
        (Err (Errorf ("digest verification failed for " +:+ d)), os3)
      else if decide (expectedSize > 0 ∧ written ≠ expectedSize)%Z then
        (Err (Errorf ("size mismatch: expected " +:+ fmt_d expectedSize +:+
                      ", got " +:+ fmt_d written)), os3)
      else match F OpSync with
      | Some e => (Err (wrap "syncing blob" e), os3)
      | None => match F OpClose with
      | Some e => (Err (wrap "closing temp file" e), os3)
      | None => match Rename F os3 tmp path with
      | (Err e, os4) => (Err (wrap "renaming blob" e), os4)
      | (r, os4) => (r, os4)
      end end end
    end
  end.

Definition Put (bs : BlobStore) (os : Os) (rnds : list N) (d : Digest) (r : Reader)
    (expectedSize : Z) : result unit * Os :=
  match blobPath bs d with
  | Err e => (Err e, os)
  | Panic m => (Panic m, os)
  | Ok path =>
    let write :=
      match CreateTemp F os (Dir path) rnds with
      | (Ok tmp, os1) =>
        let '(res, os2) := Put_temp os1 path tmp d r expectedSize in
        (res, (Remove F os2 tmp).2)
      | (Err e, os1) => (Err (wrap "creating temp file" e), os1)
      | (Panic m, os1) => (Panic m, os1)
      end in
    match Stat F os path with
    | Ok size => if decide (size = expectedSize) then (Ok tt, os) else write
    | _ => write
    end
  end.

Definition Delete (bs : BlobStore) (os : Os) (d : Digest) : result unit * Os :=
  match blobPath bs d with
  | Err e => (Err e, os)
  | Panic m => (Panic m, os)
  | Ok path =>
    match Remove F os path with
    | (Err e, os') => (Err (notFoundErr e), os')
    | r => r
    end
  end.

(** [Close] unmaps every mapping the store tracks. *)
Definition Close (bs : BlobStore) (os : Os) : BlobStore * Os :=
  (mkBlobStore (bs_root bs) ∅,
   foldl Munmap os (map_to_list (bs_mmaps bs)).*2).

End methods.

(** ** Paths *)

(** The storage root the configuration gives: not empty, and not one that
    cleans to the bare root or the current directory. *)
Definition good_root (root : string) : Prop :=
  root ≠ "" ∧ clean_comps (is_rooted root) (Split "/" root) ≠ [].

Global Instance good_root_dec root : Decision (good_root root) := _.

(** The root used by the concrete instances. *)
Definition srvRoot : string := "/srv/registry".

Lemma good_srvRoot : good_root srvRoot.
Proof. by apply (bool_decide_unpack _). Qed.
#[export] Hint Resolve good_srvRoot : fastreg.

Definition blobComps (d : Digest) : list string :=
  ["blobs"; "sha256"; stake 2 (Hex d); Hex d].

Definition blobFile (root : string) (d : Digest) : string :=
  Clean root +:+ "/" +:+ JoinStr (blobComps d) "/".

Lemma normal_hex h : all_hex h → h ≠ "" → normal h.
Proof.
  intros Hh Hne. split_and!; [done| | |by apply all_hex_not_in];
    intros ->; unfold all_hex in Hh; simpl in Hh; by inv Hh.
Qed.

Lemma all_hex_stake n h : all_hex h → all_hex (stake n h).
Proof. unfold all_hex, stake. rewrite bytes_str_bytes. apply Forall_take. Qed.

Lemma blobComps_normal d : canonical d → Forall normal (blobComps d).
Proof.
  intros (h & -> & Hl & Hh). unfold blobComps. rewrite Hex_sha256.
  assert (stake 2 h ≠ "") as H2.
  { intros E%(f_equal String.length). unfold stake in E.
    by rewrite length_bytes_str, length_take, length_str_bytes, Hl in E. }
  assert (h ≠ "") as H1 by by intros ->.
  repeat apply Forall_cons_2; [..|done].
  - by apply (bool_decide_unpack _).
  - by apply (bool_decide_unpack _).
  - by apply normal_hex; [apply all_hex_stake|].
  - by apply normal_hex.
Qed.

(** The file of a canonical digest: four components below the cleaned root. *)
Lemma blobPath_canonical bs d :
  good_root (bs_root bs) → canonical d → blobPath bs d = Ok (blobFile (bs_root bs) d).
Proof.
  intros [Hr Hc] Hd. pose proof (blobComps_normal d Hd) as Hn.
  destruct Hd as (h & -> & Hl & Hh). unfold blobPath, slice_to, blobFile, blobComps in *.
  rewrite Hex_sha256, Algorithm_sha256 in *. rewrite decide_True by lia. cbn.
  f_equal. unfold Join. rewrite !Forall_cons in Hn.
  destruct Hn as (_ & _ & [Hn1 _] & [Hn2 _] & _).
  rewrite !filter_cons_True, filter_nil by done.
  rewrite JoinStr_cons by done. apply Clean_app; try done.
  apply (blobComps_normal ("sha256:" +:+ h)). by exists h.
Qed.

Lemma blobFile_Base root d : canonical d → Base (blobFile root d) = Hex d.
Proof.
  intros Hd%blobComps_normal. unfold Base, blobFile.
  change ("/" +:+ ?t) with (String "/" t). rewrite Split_app, Split_JoinStr_normal by done.
  by rewrite last_app.
Qed.

Lemma blobFile_inj root d1 d2 :
  canonical d1 → canonical d2 → blobFile root d1 = blobFile root d2 → d1 = d2.
Proof.
  intros H1 H2 E. apply valid_eq; [by apply canonical_valid..|].
  by rewrite <-(blobFile_Base root d1), E, blobFile_Base.
Qed.

Lemma tempName_not_blobFile root d dir n : canonical d → tempName dir n ≠ blobFile root d.
Proof.
  intros Hd E. pose proof (blobFile_Base root d Hd) as HB. rewrite <-E in HB.
  unfold Base in HB. rewrite tempName_last in HB. simpl in HB.
  destruct Hd as (h & -> & _ & Hh). rewrite Hex_sha256 in HB. subst h.
  unfold all_hex in Hh. rewrite str_bytes_app in Hh. by apply Forall_cons in Hh as [? _].
Qed.

(** ** What a store holds *)

(** Every file at the path of a canonical digest has that digest. *)
Definition store_ok (root : string) (files : gmap string bytes) : Prop :=
  ∀ d c, canonical d → files !! blobFile root d = Some c → d = FromBytes c.

Lemma store_ok_empty root : store_ok root ∅.
Proof. intros d c _. by rewrite lookup_empty. Qed.

Lemma store_ok_insert_blob root files data :
  store_ok root files →
  store_ok root (<[blobFile root (FromBytes data) := data]> files).
Proof.
  intros Hok d c Hd. rewrite lookup_insert. case_decide as E; [|by apply Hok].
  intros [= <-]. symmetry. by apply (blobFile_inj root); auto with fastreg.
Qed.

Lemma store_ok_insert_other root files p c :
  store_ok root files → (∀ d, canonical d → p ≠ blobFile root d) →
  store_ok root (<[p := c]> files).
Proof. intros Hok Hp d c' Hd. rewrite lookup_insert_ne by auto. by apply Hok. Qed.

Lemma store_ok_delete root files p : store_ok root files → store_ok root (delete p files).
Proof. intros Hok d c Hd [_ Hl]%lookup_delete_Some. by apply (Hok d c). Qed.

#[export] Hint Resolve store_ok_empty store_ok_insert_blob store_ok_delete : fastreg.

(** ** Put *)

Lemma CreateTemp_Ok F os dir rnds tmp os' :
  CreateTemp F os dir rnds = (Ok tmp, os') →
  os_files os !! tmp = None ∧ os' = set_files (<[tmp := []]>) os ∧
  ∃ n, tmp = tempName dir n.
Proof.
  unfold CreateTemp. intros H. destruct (F OpCreateTemp); [done|].
  destruct (list_find _ rnds) as [[i n]|] eqn:E; simplify_eq.
  apply list_find_Some in E as (_ & ? & _). eauto.
Qed.

Lemma CreateTemp_Err F os dir rnds e os' : CreateTemp F os dir rnds = (Err e, os') → os' = os.
Proof. unfold CreateTemp. intros H. by case_all_in H. Qed.

Lemma CreateTemp_no_Panic F os dir rnds m os' : CreateTemp F os dir rnds ≠ (Panic m, os').
Proof. unfold CreateTemp. intros H. by case_all_in H. Qed.

Lemma CreateTemp_fresh os dir rnds :
  List.Exists (λ n, os_files os !! tempName dir n = None) rnds →
  ∃ tmp os', CreateTemp noFaults os dir rnds = (Ok tmp, os').
Proof.
  intros H. unfold CreateTemp, noFaults.
  destruct (list_find _ rnds) as [[i n]|] eqn:E; [eauto|].
  apply list_find_None in E. by apply (Forall_not_Exists _ _ E) in H.
Qed.

(** What the writing part of [Put] leaves behind, on every branch: the
    temporary file with some contents, or, on success, the verified data
    under the final name. *)
Lemma Put_temp_spec F os tmp path d r n res os2 :
  os_files os !! tmp = None →
  Put_temp F (set_files (<[tmp := []]>) os) path tmp d r n = (res, os2) →
  (∃ e c, res = Err e ∧ os_files os2 = <[tmp := c]> (os_files os)) ∨
  (res = Ok tt ∧ valid d ∧ d = FromBytes (rd_data r) ∧ rd_err r = None ∧
   (n > 0 → blen (rd_data r) = n)%Z ∧
   os_files os2 = <[path := rd_data r]> (os_files os)).
Proof.
  intros Hf. unfold Put_temp.
  set (os2' := if decide (n > 0)%Z then _ else _).
  assert (∃ c, os_files os2' = <[tmp := c]> (os_files os) ∧
    (n ≤ 0 → c = [])%Z ∧ (0 < n → Z.of_nat (length c) ≤ n)%Z) as (c & Hc & Hc0 & Hcn).
  { unfold os2'. case_decide; [|exists []; split_and!; [done|done|simpl; lia]].
    destruct (F OpTruncate); [exists []; split_and!; [done|done|simpl; lia]|].
    exists (truncate [] (Z.to_nat n)). rewrite length_truncate. split_and!; [|lia|lia].
    simpl. by rewrite alter_insert_eq. }
  clearbody os2'. unfold NewVerifier.
  destruct (Validate d) as [e|] eqn:Hv; [intros [= <- <-]; left; eauto|].
  apply Validate_valid in Hv.
  set (os3 := set_files _ os2').
  assert (os_files os3 = <[tmp := write_at c 0 (rd_data r)]> (os_files os)) as Hos3.
  { simpl. by rewrite Hc, alter_insert_eq. }
  clearbody os3. simpl.
  destruct (F OpWrite); [intros [= <- <-]; left; eauto|].
  destruct (rd_err r); [intros [= <- <-]; left; eauto|].
  destruct (Verified _) eqn:HV; simpl; [|intros [= <- <-]; left; eauto].
  apply Verified_FromBytes in HV; [|done].
  case_decide as Hn; [intros [= <- <-]; left; eauto|].
  destruct (F OpSync); [intros [= <- <-]; left; eauto|].
  destruct (F OpClose); [intros [= <- <-]; left; eauto|].
  unfold Rename. destruct (F OpRename); [intros [= <- <-]; left; eauto|].
  rewrite Hos3, lookup_insert_eq. intros [= <- <-]. right.
  assert (n > 0 → blen (rd_data r) = n)%Z as Hlen.
  { intros. destruct (decide (blen (rd_data r) = n)); [done|]. exfalso; tauto. }
  split_and!; try done. simpl. rewrite Hos3, delete_insert_id by done.
  f_equal. rewrite write_at_0, drop_ge, app_nil_r; [done|].
  destruct (decide (n > 0)%Z) as [Hp|Hp].
  - specialize (Hlen Hp). unfold blen in Hlen. lia.
  - rewrite Hc0 by lia. simpl. lia.
Qed.

Section theorems.
Context (F : Faults) (HRemove : F OpRemove = None).

Lemma Remove_files os p : os_files (Remove F os p).2 = delete p (os_files os).
Proof.
  unfold Remove. rewrite HRemove. destruct (os_files os !! p) eqn:E; [done|].
  simpl. by rewrite delete_id.
Qed.

(** The outcome of [Put] for any digest that has a path. *)
Lemma Put_cases_path bs os rnds d r n res os' p :
  good_root (bs_root bs) → blobPath bs d = Ok p →
  Put F bs os rnds d r n = (res, os') →
  (∃ e, res = Err e ∧ os_files os' = os_files os) ∨
  (res = Ok tt ∧ os' = os ∧ ∃ c, os_files os !! p = Some c ∧ blen c = n) ∨
  (res = Ok tt ∧ d = FromBytes (rd_data r) ∧ rd_err r = None ∧
   (n > 0 → blen (rd_data r) = n)%Z ∧ p = blobFile (bs_root bs) d ∧
   os_files os' = <[p := rd_data r]> (os_files os)).
Proof.
  intros Hr Hp HP. unfold Put in HP. rewrite Hp in HP.
  assert (∀ res os',
    (match CreateTemp F os (Dir p) rnds with
     | (Ok tmp, os1) =>
       let '(res, os2) := Put_temp F os1 p tmp d r n in (res, (Remove F os2 tmp).2)
     | (Err e, os1) => (Err (wrap "creating temp file" e), os1)
     | (Panic m, os1) => (Panic m, os1)
     end) = (res, os') →
    (∃ e, res = Err e ∧ os_files os' = os_files os) ∨
    (res = Ok tt ∧ d = FromBytes (rd_data r) ∧ rd_err r = None ∧
     (n > 0 → blen (rd_data r) = n)%Z ∧ p = blobFile (bs_root bs) d ∧
     os_files os' = <[p := rd_data r]> (os_files os))) as Hwrite.
  { clear HP res os'. intros res os'.
    destruct (CreateTemp F os (Dir p) rnds) as [[tmp|e|m] os1] eqn:HC.
    - apply CreateTemp_Ok in HC as (Hf & -> & k & Hk).
      destruct (Put_temp _ _ _ _ _ _ _) as [res2 os2] eqn:HT. intros [= <- <-].
      rewrite Remove_files.
      apply Put_temp_spec in HT as [(e & c & -> & ->)|(-> & Hv & -> & Hre & Hn & ->)]; [|..|done].
      + left. exists e. split; [done|]. by apply delete_insert_id.
      + right. rewrite blobPath_canonical in Hp by auto using FromBytes_canonical.
        injection Hp as <-. split_and!; try done. subst tmp.
        rewrite delete_insert_ne by apply tempName_not_blobFile, FromBytes_canonical.
        by rewrite delete_id.
    - apply CreateTemp_Err in HC as ->. intros [= <- <-]. left; eauto.
    - by apply CreateTemp_no_Panic in HC. }
  destruct (Stat F os p) as [size|e|m] eqn:HS.
  - case_decide as Hsz; [|apply Hwrite in HP; tauto]. injection HP as <- <-. subst size. right; left.
    split_and!; try done. unfold Stat in HS.
    destruct (F OpStat); [done|]. destruct (os_files os !! p) eqn:E; simplify_eq. eauto.
  - apply Hwrite in HP. tauto.
  - apply Hwrite in HP. tauto.
Qed.

(** The outcome of [Put] for a canonical digest. *)
Lemma Put_cases bs os rnds d r n res os' :
  good_root (bs_root bs) → canonical d →
  Put F bs os rnds d r n = (res, os') →
  let p := blobFile (bs_root bs) d in
  (∃ e, res = Err e ∧ os_files os' = os_files os) ∨
  (res = Ok tt ∧ os' = os ∧ ∃ c, os_files os !! p = Some c ∧ blen c = n) ∨
  (res = Ok tt ∧ d = FromBytes (rd_data r) ∧ rd_err r = None ∧
   (n > 0 → blen (rd_data r) = n)%Z ∧
   os_files os' = <[p := rd_data r]> (os_files os)).
Proof.
  intros Hr Hd HP p. pose proof (blobPath_canonical bs d Hr Hd) as Hp.
  destruct (Put_cases_path bs os rnds d r n res os' p Hr Hp HP)
    as [?|[?|(? & ? & ? & ? & _ & ?)]]; tauto.
Qed.

(** [Put] preserves the content-addressing invariant, whatever fails. *)
Lemma Put_store_ok bs os rnds d r n :
  good_root (bs_root bs) → canonical d →
  store_ok (bs_root bs) (os_files os) →
  store_ok (bs_root bs) (os_files (Put F bs os rnds d r n).2).
Proof.
  intros Hr Hd Hok. destruct (Put F bs os rnds d r n) as [res os'] eqn:HP; cbn [snd].
  apply Put_cases in HP as [(e & -> & ->)|[(-> & -> & _)|(-> & -> & _ & _ & ->)]];
    auto with fastreg.
Qed.
End theorems.

(** ** Reading *)

Lemma copyFrom_mmap fuel n data off id :
  0 < n → length data - off < fuel →
  copyFrom fuel n (MmapReader data off id) = Some (drop off data).
Proof.
  intros Hn. revert off. induction fuel as [|fuel IH]; intros off Hf; [lia|].
  simpl. unfold mmapRead. case_decide as Hoff; [by rewrite drop_ge by lia|].
  rewrite length_take, length_drop.
  rewrite IH by lia. simpl. f_equal.
  rewrite <-(take_drop n (drop off data)) at 2. f_equal.
  rewrite drop_drop. destruct (decide (n ≤ length data - off)).
  - f_equal. lia.
  - rewrite !drop_ge by lia. done.
Qed.

(** Copying from a fresh reader with any buffer delivers all it holds. *)
Lemma copyFrom_all r n fuel :
  0 < n → length (reader_data r) < fuel → copyFrom fuel n r = Some (reader_data r).
Proof.
  destruct r as [data|data off id]; simpl; intros Hn Hf.
  - by destruct fuel; [lia|].
  - rewrite length_drop in Hf. by apply copyFrom_mmap.
Qed.

(** [Get] of a present blob delivers its contents and their size. *)
Lemma Get_present bs os d c :
  good_root (bs_root bs) → canonical d →
  os_files os !! blobFile (bs_root bs) d = Some c →
  ∃ r bs' os', Get noFaults bs os d = (Ok (r, blen c), (bs', os')) ∧
    reader_data r = c ∧ os_files os' = os_files os ∧ bs_root bs' = bs_root bs.
Proof.
  intros Hr Hd Hc. unfold Get. rewrite blobPath_canonical by done.
  unfold Stat, bs_mmap, Open, Mmap, noFaults. rewrite Hc. simpl.
  case_decide; [eauto 10|]. case_decide; simpl; eauto 10.
Qed.

Lemma Get_absent bs os d :
  good_root (bs_root bs) → canonical d →
  os_files os !! blobFile (bs_root bs) d = None →
  Get noFaults bs os d = (Err ErrBlobNotFound, (bs, os)).
Proof.
  intros Hr Hd Hc. unfold Get. rewrite blobPath_canonical by done.
  unfold Stat, noFaults. by rewrite Hc.
Qed.

Lemma Get_files F bs os d :
  os_files (Get F bs os d).2.2 = os_files os ∧ bs_root (Get F bs os d).2.1 = bs_root bs.
Proof.
  unfold Get, bs_mmap, Mmap. by repeat case_match; simplify_eq/=.
Qed.

Lemma Exists_canonical bs os d :
  good_root (bs_root bs) → canonical d →
  Exists noFaults bs os d =
    Ok (bool_decide (is_Some (os_files os !! blobFile (bs_root bs) d))).
Proof.
  intros Hr Hd. unfold Exists. rewrite blobPath_canonical by done. cbn.
  unfold Stat, noFaults. destruct (_ !! _); done.
Qed.

Lemma Size_canonical bs os d :
  good_root (bs_root bs) → canonical d →
  Size noFaults bs os d =
    match os_files os !! blobFile (bs_root bs) d with
    | Some c => Ok (blen c) | None => Err ErrBlobNotFound end.
Proof.
  intros Hr Hd. unfold Size. rewrite blobPath_canonical by done. cbn.
  unfold Stat, noFaults. by destruct (_ !! _).
Qed.

Lemma GetRange_canonical bs os d c start end_ :
  good_root (bs_root bs) → canonical d → (0 ≤ start)%Z →
  os_files os !! blobFile (bs_root bs) d = Some c →
  GetRange noFaults bs os d start end_ =
    Ok (take (Z.to_nat (end_ - start + 1)) (drop (Z.to_nat start) c)).
Proof.
  intros Hr Hd Hs Hc. unfold GetRange. rewrite blobPath_canonical by done. cbn.
  unfold Open, noFaults. rewrite Hc. by rewrite decide_False by lia.
Qed.

Lemma Delete_canonical bs os d :
  good_root (bs_root bs) → canonical d →
  ∃ res os', Delete noFaults bs os d = (res, os') ∧
    os_files os' = delete (blobFile (bs_root bs) d) (os_files os) ∧
    (res = Ok tt ∨ res = Err ErrBlobNotFound).
Proof.
  intros Hr Hd. unfold Delete. rewrite blobPath_canonical by done.
  unfold Remove, noFaults. destruct (_ !! _) eqn:E; simpl; [eauto 10|].
  eexists _, _. split_and!; [done| |by right]. by rewrite delete_id.
Qed.

(** [Put] of a blob that is not stored with this size, nothing failing: it is
    written. *)
Lemma Put_write bs os rnds data n :
  let d := FromBytes data in
  let p := blobFile (bs_root bs) d in
  good_root (bs_root bs) → (∀ c, os_files os !! p = Some c → blen c ≠ n) →
  List.Exists (λ k, os_files os !! tempName (Dir p) k = None) rnds →
  (n ≤ 0 ∨ n = blen data)%Z →
  ∃ os', Put noFaults bs os rnds d (NewReader data) n = (Ok tt, os') ∧
    os_files os' = <[p := data]> (os_files os) ∧ os_maps os' = os_maps os.
Proof.
  intros d p Hr Hnone Hfresh Hn. unfold Put, d.
  rewrite blobPath_canonical by auto with fastreg. fold d p.
  destruct (CreateTemp_fresh _ _ _ Hfresh) as (tmp & os1 & HC). rewrite HC.
  apply CreateTemp_Ok in HC as (Hf & -> & k & Hk).
  destruct (Put_temp _ _ _ _ _ _ _) as [res2 os2] eqn:HT.
  assert (res2 = Ok tt ∧ os_maps os2 = os_maps os) as [-> Hm].
  { revert HT. unfold Put_temp, NewVerifier, Verifier_Write, Rename, noFaults, d, NewReader.
    rewrite Validate_FromBytes. cbn [rd_data rd_err fst v_written v_expected app].
    rewrite Verified_self. cbn [negb].
    rewrite (decide_False (P := (n > 0 ∧ _)%Z)) by lia.
    case_decide; simpl; rewrite ?alter_insert_eq, lookup_insert_eq; intros [= <- <-]; done. }
  apply Put_temp_spec in HT as [(e & c & ? & _)|(_ & _ & _ & _ & _ & Hos2)]; [done| |done].
  exists (Remove noFaults os2 tmp).2. split_and!.
  - unfold Stat, noFaults at 1. destruct (os_files os !! p) as [c|] eqn:Hc; [|done].
    by rewrite decide_False by by apply Hnone.
  - rewrite Remove_files, Hos2 by done. simpl. subst tmp.
    rewrite delete_insert_ne by apply tempName_not_blobFile, FromBytes_canonical.
    by rewrite delete_id.
  - unfold Remove, noFaults. by case_match.
Qed.

(** [Put] of a new blob, nothing failing: it succeeds. *)
Lemma Put_new bs os rnds data n :
  let d := FromBytes data in
  let p := blobFile (bs_root bs) d in
  good_root (bs_root bs) → os_files os !! p = None →
  List.Exists (λ k, os_files os !! tempName (Dir p) k = None) rnds →
  (n ≤ 0 ∨ n = blen data)%Z →
  ∃ os', Put noFaults bs os rnds d (NewReader data) n = (Ok tt, os') ∧
    os_files os' = <[p := data]> (os_files os) ∧ os_maps os' = os_maps os.
Proof. intros d p Hr Hnone. apply Put_write; [done|]. intros c Hc. fold d p in Hc. congruence. Qed.

(** The same when the blob may be there already: it stays or is replaced. *)
Lemma Put_again bs os rnds data n :
  let d := FromBytes data in
  let p := blobFile (bs_root bs) d in
  good_root (bs_root bs) →
  List.Exists (λ k, os_files os !! tempName (Dir p) k = None) rnds →
  (n ≤ 0 ∨ n = blen data)%Z →
  ∃ os' c, Put noFaults bs os rnds d (NewReader data) n = (Ok tt, os') ∧
    os_files os' = <[p := c]> (os_files os).
Proof.
  intros d p Hr Hfresh Hn.
  destruct (decide (blen <$> os_files os !! p = Some n)) as [Hsame|Hnot].
  - apply fmap_Some in Hsame as (c & Hc & Hl). exists os, c. split; [|by rewrite insert_id].
    unfold Put. rewrite blobPath_canonical by (done || apply FromBytes_canonical). fold p.
    unfold Stat, noFaults. by rewrite Hc, decide_True.
  - destruct (Put_write bs os rnds data n Hr) as (os' & HP & Hf & _); [|done..|by exists os', data].
    intros c Hc Hl. fold d p in Hc. apply Hnot. rewrite Hc. simpl. by f_equal.
Qed.

(** ** Properties *)



(** C26 Storing a new blob and reading it back: [Put] under the digest of the
    data succeeds, after which [Exists] answers yes, [Size] is its length,
    copying from the reader of [Get] with any buffer delivers exactly the
    data, and [GetRange] delivers the inclusive byte range. *)
Theorem Put_Get bs os rnds data n :
  let d := FromBytes data in
  let p := blobFile (bs_root bs) d in
  good_root (bs_root bs) → os_files os !! p = None →
  List.Exists (λ k, os_files os !! tempName (Dir p) k = None) rnds →
  (n ≤ 0 ∨ n = blen data)%Z →
  ∃ os', Put noFaults bs os rnds d (NewReader data) n = (Ok tt, os') ∧
    Exists noFaults bs os' d = Ok true ∧
    Size noFaults bs os' d = Ok (blen data) ∧
    (∃ r st, Get noFaults bs os' d = (Ok (r, blen data), st) ∧
       ∀ fuel buf, 0 < buf → length data < fuel → copyFrom fuel buf r = Some data) ∧
    ∀ start end_, (0 ≤ start ≤ end_)%Z → (end_ < blen data)%Z →
      ∃ b, GetRange noFaults bs os' d start end_ = Ok b ∧
        blen b = (end_ - start + 1)%Z ∧
        ∀ i, (0 ≤ i ≤ end_ - start)%Z → b !! Z.to_nat i = data !! Z.to_nat (start + i).
Proof.
  intros d p Hr Hnone Hfresh Hn.
  destruct (Put_new bs os rnds data n Hr Hnone Hfresh Hn) as (os' & HP & Hf & _).
  fold d p in HP, Hf. exists os'.
  assert (canonical d) as Hd by apply FromBytes_canonical.
  assert (os_files os' !! p = Some data) as Hl by by rewrite Hf, lookup_insert_eq.
  split_and!; [done| | | |].
  - rewrite Exists_canonical by done. fold p. by rewrite Hl.
  - rewrite Size_canonical by done. fold p. by rewrite Hl.
  - destruct (Get_present bs os' d data Hr Hd Hl) as (r & bs' & os'' & HG & Hrd & _).
    eexists r, _. split; [done|]. intros fuel buf Hb Hfu. rewrite <-Hrd.
    apply copyFrom_all; [done|by rewrite Hrd].
  - intros start end_ Hse Hend. eexists. split; [apply GetRange_canonical; [done..|lia|done]|].
    unfold blen in *. rewrite length_take, length_drop. split; [lia|].
    intros i Hi. rewrite lookup_take_lt by lia. rewrite lookup_drop. f_equal. lia.
Qed.

Lemma Put_Get_witness :
  let bs := NewBlobStore srvRoot in
  let d := FromBytes (str_bytes "layer") in
  ∃ os', Put noFaults bs os_empty [7%N] d (NewReader (str_bytes "layer")) 5 = (Ok tt, os') ∧
    Exists noFaults bs os' d = Ok true.
Proof.
  destruct (Put_Get (NewBlobStore srvRoot) os_empty [7%N] (str_bytes "layer") 5)
    as (os' & HP & HE & _).
  - apply good_srvRoot.
  - apply lookup_empty.
  - left. apply lookup_empty.
  - right. reflexivity.
  - exists os'. split; [exact HP|exact HE].
Defined.

(** Two reads of the same small blob leave two mappings, of which the store
    tracks only the second: closing the store leaves the first one mapped. *)
Fact Get_twice_leaks bs os d c :
  good_root (bs_root bs) → canonical d →
  os_files os !! blobFile (bs_root bs) d = Some c →
  (0 < blen c ≤ mmapLimit)%Z → bs_mmaps bs = ∅ → os_maps os = ∅ →
  let '(_, (bs1, os1)) := Get noFaults bs os d in
  let '(_, (bs2, os2)) := Get noFaults bs1 os1 d in
  os_maps (Close bs2 os2).2 = {[ os_next os := blobFile (bs_root bs) d ]}.
Proof.
  intros Hr Hd Hc Hsz Hm1 Hm2. unfold Get. rewrite blobPath_canonical by done.
  unfold Stat, bs_mmap, Open, Mmap, noFaults. rewrite Hc. simpl.
  rewrite decide_False by lia. rewrite decide_False by lia.
  rewrite blobPath_canonical by done. simpl. rewrite Hc. simpl.
  rewrite decide_False by lia. rewrite decide_False by lia.
  unfold Close. simpl. rewrite Hm1, insert_insert_eq, Hm2, !insert_empty, map_to_list_singleton.
  simpl. rewrite delete_insert_id; [done|].
  by rewrite lookup_singleton_ne by lia.
Qed.

End BlobStore.
