(* ===== verification/Badger.v ===== *)
(** Interfaces of the two services the metadata layer is written against.

    [Badger]: the embedded key-value database (github.com/dgraph-io/badger),
    third-party code and therefore a parameter: transactions with reads,
    writes, deletes and ordered prefix iteration.  [BadgerLaws] states its
    documented behaviour when no input/output error occurs; [mapBadger] is a
    concrete instance used by the witnesses.

    [Json]: the encoding of one Go type by encoding/json; [JsonLaws] states
    that decoding inverts encoding on the values the code stores;
    [countableJson] is a concrete instance. *)

From S2P Require Import Prelude GoLib.

(** ** The database *)

Class Badger := {
  DB : Type;
  Txn : Type;
  NewTransaction : DB → Txn;
  Commit : DB → Txn → result DB;
  txn_Get : Txn → string → result bytes;
  txn_Set : Txn → string → bytes → result Txn;
  txn_Delete : Txn → string → result Txn;
  (** [it.Seek(p); it.ValidForPrefix(p); it.Next()]. *)
  txn_Scan : Txn → string → list (string * bytes)
}.

(** [db.Update]: commit when the function returns nil, discard otherwise. *)
Definition Update `{Badger} (db : DB) (fn : Txn → result Txn) : result unit * DB :=
  match fn (NewTransaction db) with
  | Ok txn =>
    match Commit db txn with
    | Ok db' => (Ok tt, db')
    | Err e => (Err e, db)
    | Panic m => (Panic m, db)
    end
  | Err e => (Err e, db)
  | Panic m => (Panic m, db)
  end.

(** [db.View]. *)
Definition View `{Badger} {A} (db : DB) (fn : Txn → result A) : result A :=
  fn (NewTransaction db).

(** The entries of a map whose key has a prefix, in key order. *)
Definition key_le (a b : string * bytes) : Prop := String.le a.1 b.1.

Definition scan_prefix (p : string) (m : gmap string bytes) : list (string * bytes) :=
  merge_sort key_le (filter (λ kv, HasPrefix kv.1 p = true) (map_to_list m)).

Class BadgerLaws `{Badger} := {
  view : DB → gmap string bytes;
  tview : Txn → gmap string bytes;
  NewTransaction_law db : tview (NewTransaction db) = view db;
  Commit_law db txn : ∃ db', Commit db txn = Ok db' ∧ view db' = tview txn;
  Get_law txn k : txn_Get txn k =
    match tview txn !! k with Some v => Ok v | None => Err ErrKeyNotFound end;
  Set_law txn k v : k ≠ "" →
    ∃ txn', txn_Set txn k v = Ok txn' ∧ tview txn' = <[k := v]> (tview txn);
  Delete_law txn k : k ≠ "" →
    ∃ txn', txn_Delete txn k = Ok txn' ∧ tview txn' = delete k (tview txn);
  Scan_law txn p : txn_Scan txn p = scan_prefix p (tview txn)
}.

(** A database in memory: an instance of the interface. *)
#[export] Instance mapBadger : Badger := {|
  DB := gmap string bytes;
  Txn := gmap string bytes;
  NewTransaction := id;
  Commit := λ _ t, Ok t;
  txn_Get := λ t k, match t !! k with Some v => Ok v | None => Err ErrKeyNotFound end;
  txn_Set := λ t k v, if decide (k = "") then Err (Errorf "Key cannot be empty")
                      else Ok (<[k := v]> t);
  txn_Delete := λ t k, if decide (k = "") then Err (Errorf "Key cannot be empty")
                       else Ok (delete k t);
  txn_Scan := λ t p, scan_prefix p t
|}.

#[export] Instance mapBadgerLaws : @BadgerLaws mapBadger.
Proof.
  refine {| view := λ db : @DB mapBadger, db; tview := λ t : @Txn mapBadger, t |}.
  - done.
  - intros db txn. by exists txn.
  - done.
  - intros txn k v Hk. simpl. rewrite decide_False by done. eauto.
  - intros txn k Hk. simpl. rewrite decide_False by done. eauto.
  - done.
Defined.

(** ** The scan of a prefix *)

Global Instance key_le_dec : RelDecision key_le.
Proof. intros x y. unfold key_le. apply _. Defined.

Lemma scan_prefix_perm p m :
  scan_prefix p m ≡ₚ filter (λ kv, HasPrefix kv.1 p = true) (map_to_list m).
Proof. apply merge_sort_Permutation. Qed.

Lemma elem_of_scan_prefix p m k v :
  (k, v) ∈ scan_prefix p m ↔ m !! k = Some v ∧ ∃ r, k = p +:+ r.
Proof.
  rewrite scan_prefix_perm, list_elem_of_filter, elem_of_map_to_list, HasPrefix_spec.
  naive_solver.
Qed.

Lemma NoDup_scan_prefix p m : NoDup (scan_prefix p m).*1.
Proof.
  rewrite scan_prefix_perm. apply NoDup_fmap_fst.
  - intros k v1 v2 [_ H1]%list_elem_of_filter [_ H2]%list_elem_of_filter.
    apply elem_of_map_to_list in H1, H2. congruence.
  - apply NoDup_filter, NoDup_map_to_list.
Qed.

Lemma Sorted_scan_prefix p m : StronglySorted (λ a b, String.le a.1 b.1) (scan_prefix p m).
Proof.
  apply StronglySorted_merge_sort.
  - intros [a ?] [b ?] [c ?]. unfold key_le. simpl. apply transitivity.
  - intros [a ?] [b ?]. unfold key_le. simpl. apply total, _.
Qed.

(** ** JSON *)

Class Json (A : Type) := {
  json_Marshal : A → result bytes;
  json_Unmarshal : bytes → result A
}.

(** [json.NewDecoder(r).Decode(&a)] on all that the reader delivers: the first
    JSON value, whatever follows it. *)
Class JsonDecoder (A : Type) := json_Decode : bytes → result A.

(** The values [ok] that encoding/json encodes and decodes back. *)
Class JsonLaws (A : Type) `{Json A} (ok : A → Prop) :=
  json_roundtrip a : ok a → ∃ b, json_Marshal a = Ok b ∧ json_Unmarshal b = Ok a.

(** Encoding a countable type as a binary number. *)
Fixpoint pos_bytes (p : positive) : bytes :=
  match p with
  | xH => []
  | xO p => "0"%char :: pos_bytes p
  | xI p => "1"%char :: pos_bytes p
  end.

Fixpoint bytes_pos (b : bytes) : positive :=
  match b with
  | [] => xH
  | c :: b => if decide (c = "0"%char) then xO (bytes_pos b) else xI (bytes_pos b)
  end.

Lemma bytes_pos_bytes p : bytes_pos (pos_bytes p) = p.
Proof. induction p; simpl; by f_equal. Qed.

Definition countableJson (A : Type) `{Countable A} : Json A := {|
  json_Marshal := λ a, Ok (pos_bytes (encode a));
  json_Unmarshal := λ b, match decode (bytes_pos b) with
                         | Some a => Ok a
                         | None => Err (Errorf "invalid character")
                         end
|}.

Lemma countableJsonLaws (A : Type) `{Countable A} ok :
  @JsonLaws A (countableJson A) ok.
Proof.
  intros a _. eexists. split; [done|]. simpl. by rewrite bytes_pos_bytes, decode_encode.
Qed.

(** ** Using the laws *)

Section laws.
Context `{BadgerLaws}.

(** An update whose function succeeds on the current contents. *)
Lemma Update_Ok db fn txn :
  fn (NewTransaction db) = Ok txn →
  ∃ db', Update db fn = (Ok tt, db') ∧ view db' = tview txn.
Proof.
  intros Hfn. unfold Update. rewrite Hfn.
  destruct (Commit_law db txn) as (db' & -> & ?). eauto.
Qed.

Lemma Update_Err db fn e :
  fn (NewTransaction db) = Err e → Update db fn = (Err e, db).
Proof. intros Hfn. unfold Update. by rewrite Hfn. Qed.

(** Deleting a list of keys in one transaction. *)
Fixpoint deleteKeys (txn : Txn) (ks : list string) : result Txn :=
  match ks with
  | [] => Ok txn
  | k :: ks => txn ← txn_Delete txn k; deleteKeys txn ks
  end.

Lemma deleteKeys_Ok txn ks :
  Forall (λ k, k ≠ "") ks →
  ∃ txn', deleteKeys txn ks = Ok txn' ∧
    ∀ k, tview txn' !! k = if decide (k ∈ ks) then None else tview txn !! k.
Proof.
  intros Hks. revert txn. induction Hks as [|k ks Hk Hks IH]; intros txn; simpl.
  - eauto.
  - destruct (Delete_law txn k Hk) as (txn1 & -> & Hv). simpl.
    destruct (IH txn1) as (txn' & -> & Hl). eexists. split; [done|].
    intros k'. rewrite Hl, Hv. rewrite lookup_delete.
    repeat case_decide; set_solver.
Qed.
End laws.
