(* ===== verification/Metadata.v ===== *)
(** The metadata store (internal/storage/metadata.go): manifests, tags,
    repositories and blob links, kept in one ordered key-value database under
    typed key prefixes.

    [MetadataStore] models the operations over the database interface of
    [Badger]; [Index] is what the store means, five typed maps;
    [represents] relates the two and the refinement theorem shows that every
    operation of the store is the corresponding operation of the index. *)

From S2P Require Import Prelude GoLib Digest Badger.

Module MetadataStore.

(** ** Data *)

Definition prefixManifest : string := "m:".
Definition prefixTag : string := "t:".
Definition prefixRepo : string := "r:".
Definition prefixBlobRepo : string := "br:".
Definition prefixRepoBlob : string := "rb:".

Record ManifestMeta := mkManifestMeta {
  mm_Digest : Digest;
  mm_MediaType : string;
  mm_Size : Z;
  mm_CreatedAt : Time;
  mm_Layers : list string;
  mm_Subject : string;
  mm_Annotations : gmap string string
}.

Record RepoMeta := mkRepoMeta {
  rm_Name : string;
  rm_CreatedAt : Time;
  rm_UpdatedAt : Time
}.

Section operations.
Context `{Badger} `{!Json ManifestMeta} `{!Json RepoMeta}.

(** ** Operations *)

(** The digest a reference stands for: itself, or what the tag maps to. *)
Definition resolve (txn : Txn) (repo reference : string) : result Digest :=
  if negb (HasPrefix reference "sha256:") then
    let tagKey := prefixTag +:+ repo +:+ ":" +:+ reference in
    match txn_Get txn tagKey with
    | Ok val => Ok (bytes_str val)
    | Err ErrKeyNotFound => Err ErrManifestNotFound
    | Err e => Err e
    | Panic m => Panic m
    end
  else Ok reference.

(** [now1] and [now2] are the results of the two calls of [time.Now]. *)
Definition PutManifest (db : DB) (now1 now2 : Time) (repo reference : string)
    (meta : ManifestMeta) : result unit * DB :=
  Update db (λ txn,
    let key := prefixManifest +:+ repo +:+ ":" +:+ mm_Digest meta in
    data ← json_Marshal meta;
    txn ← txn_Set txn key data;
    txn ← (if negb (HasPrefix reference "sha256:") then
             let tagKey := prefixTag +:+ repo +:+ ":" +:+ reference in
             txn_Set txn tagKey (str_bytes (mm_Digest meta))
           else Ok txn);
    let repoKey := prefixRepo +:+ repo in
    let CreatedAt :=
      match txn_Get txn repoKey with
      | Err ErrKeyNotFound => now2
      | Ok val =>
        match json_Unmarshal val with
        | Ok existing => rm_CreatedAt existing
        | _ => 0%Z
        end
      | _ => 0%Z
      end in
    let repoMeta := mkRepoMeta repo CreatedAt now1 in
    let repoData := match json_Marshal repoMeta with Ok b => b | _ => [] end in
    txn_Set txn repoKey repoData).

Definition GetManifest (db : DB) (repo reference : string) : result ManifestMeta :=
  View db (λ txn,
    d ← resolve txn repo reference;
    let key := prefixManifest +:+ repo +:+ ":" +:+ d in
    match txn_Get txn key with
    | Ok val => json_Unmarshal val
    | Err ErrKeyNotFound => Err ErrManifestNotFound
    | Err e => Err e
    | Panic m => Panic m
    end).

Definition DeleteManifest (db : DB) (repo reference : string) : result unit * DB :=
  Update db (λ txn,
    d ← resolve txn repo reference;
    txn ← (if negb (HasPrefix reference "sha256:") then
             txn_Delete txn (prefixTag +:+ repo +:+ ":" +:+ reference)
           else Ok txn);
    let key := prefixManifest +:+ repo +:+ ":" +:+ d in
    txn_Delete txn key).

Definition DeleteRepository (db : DB) (repo : string) : result unit * DB :=
  Update db (λ txn,
    let prefixes := [prefixManifest +:+ repo +:+ ":";
                     prefixTag +:+ repo +:+ ":";
                     prefixRepoBlob +:+ repo +:+ ":"] in
    let keysToDelete := (p ← prefixes; (txn_Scan txn p).*1) ++ [prefixRepo +:+ repo] in
    deleteKeys txn keysToDelete).

(** The part of each key after the prefix, in key order: the loop the four
    listing functions share. *)
Definition list_suffixes (db : DB) (prefix : string) : result (list string) :=
  View db (λ txn, Ok (sdrop (String.length prefix) <$> (txn_Scan txn prefix).*1)).

Definition ListTags (db : DB) (repo : string) : result (list string) :=
  list_suffixes db (prefixTag +:+ repo +:+ ":").

Definition ListRepositories (db : DB) : result (list string) :=
  list_suffixes db prefixRepo.

Definition GetRepoMeta (db : DB) (repo : string) : result RepoMeta :=
  View db (λ txn,
    match txn_Get txn (prefixRepo +:+ repo) with
    | Ok val => json_Unmarshal val
    | Err ErrKeyNotFound => Err (Errorf ("repository not found: " +:+ repo))
    | Err e => Err e
    | Panic m => Panic m
    end).

Definition LinkBlobToRepo (db : DB) (d : Digest) (repo : string) : result unit * DB :=
  Update db (λ txn,
    let brKey := prefixBlobRepo +:+ d +:+ ":" +:+ repo in
    let rbKey := prefixRepoBlob +:+ repo +:+ ":" +:+ d in
    txn ← txn_Set txn brKey [];
    txn_Set txn rbKey []).

(** The errors of the two deletions are dropped. *)
Definition UnlinkBlobFromRepo (db : DB) (d : Digest) (repo : string) : result unit * DB :=
  Update db (λ txn,
    let brKey := prefixBlobRepo +:+ d +:+ ":" +:+ repo in
    let rbKey := prefixRepoBlob +:+ repo +:+ ":" +:+ d in
    let txn := match txn_Delete txn brKey with Ok t => t | _ => txn end in
    let txn := match txn_Delete txn rbKey with Ok t => t | _ => txn end in
    Ok txn).

Definition GetBlobRepos (db : DB) (d : Digest) : result (list string) :=
  list_suffixes db (prefixBlobRepo +:+ d +:+ ":").

Definition GetRepoBlobs (db : DB) (repo : string) : result (list Digest) :=
  list_suffixes db (prefixRepoBlob +:+ repo +:+ ":").

Definition HasBlob (db : DB) (repo : string) (d : Digest) : bool :=
  let key := prefixRepoBlob +:+ repo +:+ ":" +:+ d in
  is_ok (View db (λ txn, txn_Get txn key)).

Definition PutRaw (db : DB) (key : string) (data : bytes) : result unit * DB :=
  Update db (λ txn, txn_Set txn key data).

Definition GetRaw (db : DB) (key : string) : result bytes :=
  View db (λ txn, txn_Get txn key).

Definition ScanPrefix (db : DB) (prefix : string) : result (gmap string bytes) :=
  View db (λ txn, Ok (foldl (λ m kv, <[kv.1 := kv.2]> m) ∅ (txn_Scan txn prefix))).

(** The iteration stops once [limit] values were appended. *)
Fixpoint take_limit (limit : Z) (acc : list bytes) (vs : list bytes) : list bytes :=
  match vs with
  | [] => acc
  | v :: vs =>
    let acc := acc ++ [v] in
    if bool_decide (0 < limit)%Z && bool_decide (limit ≤ Z.of_nat (length acc))%Z
    then acc
    else take_limit limit acc vs
  end.

Definition ScanPrefixOrdered (db : DB) (prefix : string) (limit : Z) : result (list bytes) :=
  View db (λ txn, Ok (take_limit limit [] (txn_Scan txn prefix).*2)).
End operations.

(** ** Raw keys *)

Section raw.
Context `{BadgerLaws}.

Lemma PutRaw_view db k v :
  k ≠ "" → ∃ db', PutRaw db k v = (Ok tt, db') ∧ view db' = <[k := v]> (view db).
Proof.
  intros Hk. destruct (Set_law (NewTransaction db) k v Hk) as (txn & Ht & Hv).
  destruct (Update_Ok db (λ txn, txn_Set txn k v) txn Ht) as (db' & Hu & Hv').
  exists db'. split; [done|]. by rewrite Hv', Hv, NewTransaction_law.
Qed.

Lemma GetRaw_view db k :
  GetRaw db k =
    match view db !! k with Some v => Ok v | None => Err ErrKeyNotFound end.
Proof. unfold GetRaw, View. by rewrite Get_law, NewTransaction_law. Qed.

(** The entries under a prefix, as a map. *)
Lemma ScanPrefix_view db p :
  ScanPrefix db p = Ok (filter (λ kv, HasPrefix kv.1 p = true) (view db)).
Proof.
  unfold ScanPrefix, View. rewrite Scan_law, NewTransaction_law. f_equal.
  set (l := scan_prefix p (view db)).
  assert (NoDup l.*1) as Hnd by apply NoDup_scan_prefix.
  assert (foldl (λ m kv, <[kv.1 := kv.2]> m) ∅ l = (list_to_map l : gmap string bytes)) as ->.
  { rewrite <-(list_to_map_proper (reverse l) l); [|by rewrite reverse_Permutation|by rewrite reverse_Permutation].
    unfold reverse. rewrite <-rev_alt. generalize l. clear. intros l.
    change (foldl (λ m kv, <[kv.1 := kv.2]> m) (∅ : gmap string bytes) l =
      fold_right (λ kv (m : gmap string bytes), <[kv.1 := kv.2]> m) ∅ (rev l)).
    rewrite fold_left_rev_right. generalize (∅ : gmap string bytes). induction l as [|kv l IH]; intros m; simpl; [done|]. apply IH. }
  apply map_eq. intros k. apply option_eq. intros v.
  rewrite <-elem_of_list_to_map, map_lookup_filter_Some by done. unfold l.
  rewrite elem_of_scan_prefix, HasPrefix_spec. done.
Qed.
End raw.

(** ** The typed index *)

Record Index := mkIndex {
  ix_manifests : gmap (string * Digest) ManifestMeta;
  ix_tags : gmap (string * string) Digest;
  ix_repos : gmap string RepoMeta;
  ix_blobRepos : gset (Digest * string);
  ix_repoBlobs : gset (string * Digest)
}.

Definition ix_empty : Index := mkIndex ∅ ∅ ∅ ∅ ∅.

(** The state-changing operations, as data. *)
Inductive op :=
  | OpPutManifest (now1 now2 : Time) (repo reference : string) (meta : ManifestMeta)
  | OpDeleteManifest (repo reference : string)
  | OpDeleteRepository (repo : string)
  | OpLink (d : Digest) (repo : string)
  | OpUnlink (d : Digest) (repo : string)
  | OpPutRaw (key : string) (data : bytes).

Definition run `{Badger} `{!Json ManifestMeta} `{!Json RepoMeta} (o : op) (db : DB) :
    result unit * DB :=
  match o with
  | OpPutManifest n1 n2 repo ref meta => PutManifest db n1 n2 repo ref meta
  | OpDeleteManifest repo ref => DeleteManifest db repo ref
  | OpDeleteRepository repo => DeleteRepository db repo
  | OpLink d repo => LinkBlobToRepo db d repo
  | OpUnlink d repo => UnlinkBlobFromRepo db d repo
  | OpPutRaw key data => PutRaw db key data
  end.

Definition ix_resolve (ix : Index) (repo reference : string) : option Digest :=
  if HasPrefix reference "sha256:" then Some reference else ix_tags ix !! (repo, reference).

(** What each operation means on the index. *)
Definition spec (o : op) (ix : Index) : result unit * Index :=
  match o with
  | OpPutManifest n1 n2 repo ref meta =>
    let created := match ix_repos ix !! repo with Some r => rm_CreatedAt r | None => n2 end in
    (Ok tt, mkIndex (<[(repo, mm_Digest meta) := meta]> (ix_manifests ix))
              (if HasPrefix ref "sha256:" then ix_tags ix
               else <[(repo, ref) := mm_Digest meta]> (ix_tags ix))
              (<[repo := mkRepoMeta repo created n1]> (ix_repos ix))
              (ix_blobRepos ix) (ix_repoBlobs ix))
  | OpDeleteManifest repo ref =>
    match ix_resolve ix repo ref with
    | None => (Err ErrManifestNotFound, ix)
    | Some d =>
      (Ok tt, mkIndex (delete (repo, d) (ix_manifests ix))
                (if HasPrefix ref "sha256:" then ix_tags ix
                 else delete (repo, ref) (ix_tags ix))
                (ix_repos ix) (ix_blobRepos ix) (ix_repoBlobs ix))
    end
  | OpDeleteRepository repo =>
    (Ok tt, mkIndex (filter (λ kv, kv.1.1 ≠ repo) (ix_manifests ix))
              (filter (λ kv, kv.1.1 ≠ repo) (ix_tags ix))
              (delete repo (ix_repos ix))
              (ix_blobRepos ix)
              (filter (λ p, p.1 ≠ repo) (ix_repoBlobs ix)))
  | OpLink d repo =>
    (Ok tt, mkIndex (ix_manifests ix) (ix_tags ix) (ix_repos ix)
              ({[(d, repo)]} ∪ ix_blobRepos ix) ({[(repo, d)]} ∪ ix_repoBlobs ix))
  | OpUnlink d repo =>
    (Ok tt, mkIndex (ix_manifests ix) (ix_tags ix) (ix_repos ix)
              (ix_blobRepos ix ∖ {[(d, repo)]}) (ix_repoBlobs ix ∖ {[(repo, d)]}))
  | OpPutRaw _ _ => (Ok tt, ix)
  end.

(** ** Typed keys *)

Inductive key :=
  | KManifest (repo : string) (d : Digest)
  | KTag (repo tag : string)
  | KRepo (repo : string)
  | KBlobRepo (d : Digest) (repo : string)
  | KRepoBlob (repo : string) (d : Digest)
  | KRaw (k : string).

Global Instance key_eq_dec : EqDecision key.
Proof. solve_decision. Defined.

Definition enc (k : key) : string :=
  match k with
  | KManifest repo d => prefixManifest +:+ repo +:+ ":" +:+ d
  | KTag repo tag => prefixTag +:+ repo +:+ ":" +:+ tag
  | KRepo repo => prefixRepo +:+ repo
  | KBlobRepo d repo => prefixBlobRepo +:+ d +:+ ":" +:+ repo
  | KRepoBlob repo d => prefixRepoBlob +:+ repo +:+ ":" +:+ d
  | KRaw k => k
  end.

Definition is_ascii (s : string) : Prop := Forall (λ c, N_of_ascii c < 128)%N (str_bytes s).

Global Instance is_ascii_dec s : Decision (is_ascii s) := _.

Lemma canonical_ascii d : canonical d → is_ascii d.
Proof.
  intros (h & -> & _ & Hh). unfold is_ascii. rewrite str_bytes_app, Forall_app.
  split; [by apply (bool_decide_unpack _)|]. eapply Forall_impl; [exact Hh|].
  intros c. by destruct c as [[] [] [] [] [] [] [] []]; vm_compute.
Qed.


(** A repository name: 7-bit characters, no colon.  Every name that the
    router accepts is one. *)
Definition good_repo (r : string) : Prop := not_in ":" r ∧ is_ascii r.

Global Instance good_repo_dec r : Decision (good_repo r) := _.

Definition raw_key (k : string) : Prop :=
  Forall (λ p, HasPrefix k p = false)
    [prefixManifest; prefixTag; prefixRepo; prefixBlobRepo; prefixRepoBlob].

Definition good_key (k : key) : Prop :=
  match k with
  | KManifest repo _ | KTag repo _ | KRepo repo | KBlobRepo _ repo | KRepoBlob repo _ =>
    not_in ":" repo
  | KRaw k => raw_key k
  end.

Lemma str_split_last c s1 s2 t1 t2 :
  not_in c t1 → not_in c t2 →
  s1 +:+ String c t1 = s2 +:+ String c t2 → s1 = s2 ∧ t1 = t2.
Proof.
  intros H1 H2 H%(f_equal str_bytes)%(f_equal reverse).
  rewrite !str_bytes_app in H. simpl in H. rewrite !reverse_app, !reverse_cons, <-!app_assoc in H.
  simpl in H. apply list_split_at in H as [Ht Hs].
  - by apply (inj reverse), str_bytes_inj in Ht; apply (inj reverse), str_bytes_inj in Hs.
  - by rewrite elem_of_reverse.
  - by rewrite elem_of_reverse.
Qed.

Lemma raw_key_enc k1 k2 : raw_key k1 → good_key k2 → k1 = enc k2 → KRaw k1 = k2.
Proof.
  intros H1 H2 ->. unfold raw_key in H1. rewrite !Forall_cons in H1.
  destruct H1 as (Hm & Ht & Hr & Hb & Hrb & _).
  by destruct k2.
Qed.

Lemma enc_inj k1 k2 : good_key k1 → good_key k2 → enc k1 = enc k2 → k1 = k2.
Proof.
  intros H1 H2 H.
  destruct k1 as [r1 d1|r1 d1|r1|d1 r1|r1 d1|k1];
    [..|exact (raw_key_enc _ _ H1 H2 H)];
    destruct k2 as [r2 d2|r2 d2|r2|d2 r2|r2 d2|k2];
    try (by symmetry; apply raw_key_enc);
    simpl in H; unfold prefixManifest, prefixTag, prefixRepo, prefixBlobRepo, prefixRepoBlob in H;
    rewrite ?sapp_cons, ?sapp_nil_l in H; try discriminate H; simplify_eq;
    try (apply str_split_at in H as [-> ->]; [done..|]; done).
  - done.
  - by apply str_split_last in H as [-> ->].
Qed.

Lemma enc_nonempty k : (match k with KRaw k => k ≠ "" | _ => True end) → enc k ≠ "".
Proof. by destruct k. Qed.

Lemma lookup_insert_enc {A} (m : gmap string A) k1 k2 v :
  good_key k1 → good_key k2 →
  <[enc k1 := v]> m !! enc k2 = if decide (k1 = k2) then Some v else m !! enc k2.
Proof.
  intros H1 H2. case_decide as Hd; [subst; by rewrite lookup_insert_eq|].
  rewrite lookup_insert_ne; [done|]. intros ?%enc_inj; auto.
Qed.

Lemma lookup_delete_enc {A} (m : gmap string A) k1 k2 :
  good_key k1 → good_key k2 →
  delete (enc k1) m !! enc k2 = if decide (k1 = k2) then None else m !! enc k2.
Proof.
  intros H1 H2. case_decide as Hd; [subst; by rewrite lookup_delete_eq|].
  rewrite lookup_delete_ne; [done|]. intros ?%enc_inj; auto.
Qed.

#[global] Arguments enc : simpl never.

(** ** The values encoding/json writes and reads back *)

(** Years 0 to 9999, outside which [Time.MarshalJSON] fails. *)
Definition time_ok (t : Time) : Prop := (0 ≤ t < 315537897600 * Second)%Z.

Definition meta_ok (m : ManifestMeta) : Prop :=
  is_ascii (mm_Digest m) ∧ is_ascii (mm_MediaType m) ∧ in64 (mm_Size m) ∧
  time_ok (mm_CreatedAt m) ∧ Forall is_ascii (mm_Layers m) ∧ is_ascii (mm_Subject m) ∧
  map_Forall (λ k v, is_ascii k ∧ is_ascii v) (mm_Annotations m).

Definition repo_ok (r : RepoMeta) : Prop :=
  is_ascii (rm_Name r) ∧ time_ok (rm_CreatedAt r) ∧ time_ok (rm_UpdatedAt r).

(** ** What a database represents *)

(** The database holds only keys of the five kinds for colon-free repositories,
    blob links of 64-byte digests, and keys of other components. *)
Definition known_key (k : key) : Prop :=
  good_key k ∧ match k with KBlobRepo d _ => valid d | _ => True end.

Definition known_keys (m : gmap string bytes) : Prop :=
  ∀ s, is_Some (m !! s) → ∃ k, s = enc k ∧ known_key k.

Section represents.
Context `{Badger} `{!Json ManifestMeta} `{!Json RepoMeta}.

Definition decodes {A} `{!Json A} (ok : A → Prop) (b : option bytes) (a : option A) : Prop :=
  match b, a with
  | Some b, Some a => json_Unmarshal b = Ok a ∧ ok a
  | None, None => True
  | _, _ => False
  end.

Record represents (m : gmap string bytes) (ix : Index) : Prop := {
  rep_manifests repo d : not_in ":" repo →
    decodes meta_ok (m !! enc (KManifest repo d)) (ix_manifests ix !! (repo, d));
  rep_tags repo tag : not_in ":" repo →
    bytes_str <$> m !! enc (KTag repo tag) = ix_tags ix !! (repo, tag);
  rep_repos repo : not_in ":" repo →
    decodes repo_ok (m !! enc (KRepo repo)) (ix_repos ix !! repo);
  rep_blobRepos d repo : not_in ":" repo →
    is_Some (m !! enc (KBlobRepo d repo)) ↔ (d, repo) ∈ ix_blobRepos ix;
  rep_repoBlobs repo d : not_in ":" repo →
    is_Some (m !! enc (KRepoBlob repo d)) ↔ (repo, d) ∈ ix_repoBlobs ix;
  rep_known : known_keys m
}.

Definition op_ok (o : op) : Prop :=
  match o with
  | OpPutManifest n1 n2 repo ref meta =>
    good_repo repo ∧ meta_ok meta ∧ time_ok n1 ∧ time_ok n2
  | OpDeleteManifest repo _ | OpDeleteRepository repo => not_in ":" repo
  | OpLink d repo | OpUnlink d repo => good_repo repo ∧ valid d
  | OpPutRaw k _ => k ≠ "" ∧ raw_key k
  end.
End represents.

Lemma represents_empty `{!Json ManifestMeta} `{!Json RepoMeta} : represents ∅ ix_empty.
Proof.
  split; intros *; simpl; rewrite ?lookup_empty; try done;
    try (intros _; split; [by intros [? ?]|set_solver]).
  by intros ? [? ?].
Qed.

(** ** Every operation implements its specification *)

Section refinement.
Context `{BadgerLaws}.
Context `{!Json ManifestMeta} `{!Json RepoMeta}.
Context `{!JsonLaws ManifestMeta meta_ok} `{!JsonLaws RepoMeta repo_ok}.

(** What a step of the store has to satisfy. *)
Definition step_ok (db : DB) (r : result unit * DB) (s : result unit * Index) : Prop :=
  r.1 = s.1 ∧ represents (view r.2) s.2.

Lemma step_Ok db fn txn ix' :
  fn (NewTransaction db) = Ok txn → represents (tview txn) ix' →
  step_ok db (Update db fn) (Ok tt, ix').
Proof.
  intros Hfn Hrep. destruct (Update_Ok db fn txn Hfn) as (db' & -> & Hv).
  split; [done|]. cbn [snd]. by rewrite Hv.
Qed.

Lemma Set_enc txn k v :
  (match k with KRaw k => k ≠ "" | _ => True end) →
  ∃ txn', txn_Set txn (enc k) v = Ok txn' ∧ tview txn' = <[enc k := v]> (tview txn).
Proof. intros Hk. by apply Set_law, enc_nonempty. Qed.

Lemma Delete_enc txn k :
  (match k with KRaw k => k ≠ "" | _ => True end) →
  ∃ txn', txn_Delete txn (enc k) = Ok txn' ∧ tview txn' = delete (enc k) (tview txn).
Proof. intros Hk. by apply Delete_law, enc_nonempty. Qed.

Lemma known_keys_insert m k v :
  known_key k → known_keys m → known_keys (<[enc k := v]> m).
Proof.
  intros Hk Hm s [x Hx]. apply lookup_insert_Some in Hx as [[<- _]|[_ Hx]]; eauto.
Qed.

Lemma known_keys_delete m s : known_keys m → known_keys (delete s m).
Proof. intros Hm s' [x [_ Hx]%lookup_delete_Some]. eauto. Qed.

Lemma represents_insert_raw m ix k v :
  raw_key k → represents m ix → represents (<[k := v]> m) ix.
Proof.
  intros Hk [? ? ? ? ? Hknown]. change k with (enc (KRaw k)).
  split; [intros * Hr; rewrite lookup_insert_enc, decide_False by done; by auto..|].
  by apply known_keys_insert.
Qed.

Lemma PutRaw_refines db ix k v :
  op_ok (OpPutRaw k v) → represents (view db) ix →
  step_ok db (PutRaw db k v) (spec (OpPutRaw k v) ix).
Proof.
  intros [Hne Hk] Hrep.
  destruct (Set_law (NewTransaction db) k v Hne) as (txn & Htxn & Hv).
  eapply step_Ok; [exact Htxn|]. rewrite Hv, NewTransaction_law.
  by apply represents_insert_raw.
Qed.

Lemma represents_link m ix d repo :
  not_in ":" repo → valid d → represents m ix →
  represents (<[enc (KRepoBlob repo d) := []]> (<[enc (KBlobRepo d repo) := []]> m))
             (spec (OpLink d repo) ix).2.
Proof.
  intros Hr Hd [? ? ? Hb Hrb Hknown].
  split; [intros * Hr'; rewrite !lookup_insert_enc by done; simpl;
          repeat case_decide; simplify_eq; try done; auto..|].
  - rewrite elem_of_union, elem_of_singleton. split; eauto.
  - rewrite elem_of_union, elem_of_singleton, Hb by done. naive_solver.
  - rewrite elem_of_union, elem_of_singleton. split; eauto.
  - rewrite elem_of_union, elem_of_singleton, Hrb by done. naive_solver.
  - by repeat apply known_keys_insert.
Qed.

Lemma Link_refines db ix d repo :
  op_ok (OpLink d repo) → represents (view db) ix →
  step_ok db (LinkBlobToRepo db d repo) (spec (OpLink d repo) ix).
Proof.
  intros [[Hr _] Hd] Hrep.
  destruct (Set_enc (NewTransaction db) (KBlobRepo d repo) []) as (t1 & Ht1 & Hv1); [done|].
  destruct (Set_enc t1 (KRepoBlob repo d) []) as (t2 & Ht2 & Hv2); [done|].
  unfold enc in Ht1, Ht2.
  eapply step_Ok; [cbv zeta; rewrite Ht1; exact Ht2|].
  rewrite Hv2, Hv1, NewTransaction_law.
  by apply represents_link.
Qed.

Lemma represents_unlink m ix d repo :
  not_in ":" repo → represents m ix →
  represents (delete (enc (KRepoBlob repo d)) (delete (enc (KBlobRepo d repo)) m))
             (spec (OpUnlink d repo) ix).2.
Proof.
  intros Hr [? ? ? Hb Hrb Hknown].
  split; [intros * Hr'; rewrite !lookup_delete_enc by done; simpl;
          repeat case_decide; simplify_eq; try done; auto..|].
  - split; [by intros [? ?]|set_solver].
  - rewrite elem_of_difference, elem_of_singleton, Hb by done. naive_solver.
  - split; [by intros [? ?]|set_solver].
  - rewrite elem_of_difference, elem_of_singleton, Hrb by done. naive_solver.
  - by repeat apply known_keys_delete.
Qed.

Lemma Unlink_refines db ix d repo :
  op_ok (OpUnlink d repo) → represents (view db) ix →
  step_ok db (UnlinkBlobFromRepo db d repo) (spec (OpUnlink d repo) ix).
Proof.
  intros [[Hr _] Hd] Hrep.
  destruct (Delete_enc (NewTransaction db) (KBlobRepo d repo)) as (t1 & Ht1 & Hv1); [done|].
  destruct (Delete_enc t1 (KRepoBlob repo d)) as (t2 & Ht2 & Hv2); [done|].
  unfold enc in Ht1, Ht2.
  eapply step_Ok; [cbv zeta; rewrite Ht1, Ht2; done|].
  rewrite Hv2, Hv1, NewTransaction_law.
  by apply represents_unlink.
Qed.
(** *** Manifests *)

Lemma resolve_spec m ix txn repo ref :
  not_in ":" repo → tview txn = m → represents m ix →
  resolve txn repo ref =
    match ix_resolve ix repo ref with Some d => Ok d | None => Err ErrManifestNotFound end.
Proof.
  intros Hr Hm [_ Htags _ _ _ _]. unfold resolve, ix_resolve.
  destruct (HasPrefix ref "sha256:"); simpl; [done|].
  rewrite Get_law, Hm, <-(Htags repo ref Hr). unfold enc.
  by destruct (m !! _).
Qed.

Lemma GetManifest_spec db ix repo ref :
  not_in ":" repo → represents (view db) ix →
  GetManifest db repo ref =
    match ix_resolve ix repo ref ≫= λ d, ix_manifests ix !! (repo, d) with
    | Some meta => Ok meta
    | None => Err ErrManifestNotFound
    end.
Proof.
  intros Hr Hrep. unfold GetManifest, View.
  rewrite (resolve_spec (view db) ix) by (done || apply NewTransaction_law).
  destruct (ix_resolve ix repo ref) as [d|]; simpl; [|done].
  rewrite Get_law, NewTransaction_law.
  pose proof (rep_manifests _ _ Hrep repo d Hr) as Hd. unfold enc in Hd.
  destruct (view db !! _), (ix_manifests ix !! (repo, d)); simpl in Hd; try done.
  by destruct Hd.
Qed.

Lemma represents_delete_manifest m ix repo ref d :
  not_in ":" repo → represents m ix →
  represents (delete (enc (KManifest repo d))
      (if HasPrefix ref "sha256:" then m else delete (enc (KTag repo ref)) m))
    (mkIndex (delete (repo, d) (ix_manifests ix))
       (if HasPrefix ref "sha256:" then ix_tags ix else delete (repo, ref) (ix_tags ix))
       (ix_repos ix) (ix_blobRepos ix) (ix_repoBlobs ix)).
Proof.
  intros Hr [? ? ? ? ? Hknown].
  destruct (HasPrefix ref "sha256:");
  (split; [intros * Hr'; rewrite !lookup_delete_enc by done; simpl; rewrite ?lookup_delete;
          repeat case_decide; simplify_eq; try done; auto..
          |by repeat apply known_keys_delete]).
Qed.

Lemma DeleteManifest_refines db ix repo ref :
  op_ok (OpDeleteManifest repo ref) → represents (view db) ix →
  step_ok db (DeleteManifest db repo ref) (spec (OpDeleteManifest repo ref) ix).
Proof.
  intros Hr Hrep. unfold spec.
  pose proof (resolve_spec (view db) ix (NewTransaction db) repo ref Hr
                (NewTransaction_law db) Hrep) as Hres.
  destruct (ix_resolve ix repo ref) as [d|].
  - set (m := if HasPrefix ref "sha256:" then view db
              else delete (enc (KTag repo ref)) (view db)).
    assert (∃ t1, (if negb (HasPrefix ref "sha256:")
                   then txn_Delete (NewTransaction db) (enc (KTag repo ref))
                   else Ok (NewTransaction db)) = Ok t1 ∧ tview t1 = m) as (t1 & Ht1 & Hv1).
    { subst m. destruct (HasPrefix ref "sha256:"); simpl.
      - rewrite <-(NewTransaction_law db). eauto.
      - rewrite <-(NewTransaction_law db). by apply Delete_enc. }
    destruct (Delete_enc t1 (KManifest repo d)) as (t2 & Ht2 & Hv2); [done|].
    unfold enc in Ht1, Ht2.
    eapply step_Ok; [cbv beta zeta; rewrite Hres; simpl; rewrite Ht1; exact Ht2|].
    rewrite Hv2, Hv1. by apply represents_delete_manifest.
  - unfold step_ok, DeleteManifest. erewrite Update_Err; [done|].
    cbv beta zeta. by rewrite Hres.
Qed.

Lemma represents_put_manifest m ix n1 n2 repo ref meta b rb :
  good_repo repo → meta_ok meta → time_ok n1 → time_ok n2 → represents m ix →
  json_Unmarshal b = Ok meta →
  json_Unmarshal rb = Ok (mkRepoMeta repo
    (match ix_repos ix !! repo with Some r => rm_CreatedAt r | None => n2 end) n1) →
  represents (<[enc (KRepo repo) := rb]>
    (if HasPrefix ref "sha256:" then <[enc (KManifest repo (mm_Digest meta)) := b]> m
     else <[enc (KTag repo ref) := str_bytes (mm_Digest meta)]>
            (<[enc (KManifest repo (mm_Digest meta)) := b]> m)))
    (spec (OpPutManifest n1 n2 repo ref meta) ix).2.
Proof.
  intros [Hr Ha] Hmeta Hn1 Hn2 [? ? Hrepos ? ? Hknown] Hb Hrb.
  assert (repo_ok (mkRepoMeta repo
    (match ix_repos ix !! repo with Some r => rm_CreatedAt r | None => n2 end) n1)).
  { split; [done|]. split; [|done]. simpl. specialize (Hrepos repo Hr).
    destruct (ix_repos ix !! repo), (m !! _); simpl in Hrepos; try done.
    by destruct Hrepos as [_ (_ & ? & _)]. }
  destruct (HasPrefix ref "sha256:") eqn:Href; simpl; rewrite Href;
  (split; [intros * Hr'; rewrite !lookup_insert_enc by done; simpl; rewrite ?lookup_insert;
          repeat case_decide; simplify_eq/=; rewrite ?str_bytes_str; try done; auto..
          |by repeat apply known_keys_insert]).
Qed.
Lemma PutManifest_refines db ix n1 n2 repo ref meta :
  op_ok (OpPutManifest n1 n2 repo ref meta) → represents (view db) ix →
  step_ok db (PutManifest db n1 n2 repo ref meta) (spec (OpPutManifest n1 n2 repo ref meta) ix).
Proof.
  intros (Hgood & Hmeta & Hn1 & Hn2) Hrep. pose proof Hgood as [Hr Ha].
  set (rmeta := mkRepoMeta repo
    (match ix_repos ix !! repo with Some r => rm_CreatedAt r | None => n2 end) n1).
  destruct (json_roundtrip (ok := meta_ok) meta Hmeta) as (b & Hb & Hub).
  assert (repo_ok rmeta) as Hrok.
  { split; [done|]. split; [|done]. simpl. pose proof (rep_repos _ _ Hrep repo Hr) as Hx.
    destruct (ix_repos ix !! repo), (view db !! enc (KRepo repo)); simpl in Hx; try done.
    by destruct Hx as [_ (_ & ? & _)]. }
  destruct (json_roundtrip (ok := repo_ok) rmeta Hrok) as (rb & Hrb & Hurb).
  destruct (Set_enc (NewTransaction db) (KManifest repo (mm_Digest meta)) b)
    as (t1 & Ht1 & Hv1); [done|]. rewrite NewTransaction_law in Hv1.
  set (m2 := if HasPrefix ref "sha256:" then tview t1
             else <[enc (KTag repo ref) := str_bytes (mm_Digest meta)]> (tview t1)).
  assert (∃ t2, (if negb (HasPrefix ref "sha256:")
                 then txn_Set t1 (enc (KTag repo ref)) (str_bytes (mm_Digest meta))
                 else Ok t1) = Ok t2 ∧ tview t2 = m2) as (t2 & Ht2 & Hv2).
  { subst m2. destruct (HasPrefix ref "sha256:"); simpl; [eauto|by apply Set_enc]. }
  destruct (Set_enc t2 (KRepo repo) rb) as (t3 & Ht3 & Hv3); [done|].
  eapply step_Ok.
  - cbv beta zeta. rewrite Hb. unfold enc in Ht1, Ht2, Ht3. simpl.
    rewrite Ht1. simpl. rewrite Ht2. simpl. rewrite Get_law.
    assert (tview t2 !! enc (KRepo repo) = view db !! enc (KRepo repo)) as Hrepo.
    { rewrite Hv2. unfold m2. destruct (HasPrefix ref "sha256:");
        rewrite ?Hv1, !lookup_insert_enc by done; by repeat case_decide. }
    unfold enc in Hrepo. rewrite Hrepo.
    pose proof (rep_repos _ _ Hrep repo Hr) as Hx. unfold rmeta in Hrb. unfold enc in Hx.
    destruct (ix_repos ix !! repo), (view db !! _); simpl in Hx; try done.
    + destruct Hx as [-> _]. rewrite Hrb. exact Ht3.
    + rewrite Hrb. exact Ht3.
  - rewrite Hv3, Hv2. unfold m2. rewrite Hv1.
    by apply (represents_put_manifest (view db) ix n1 n2 repo ref meta b rb).
Qed.

(** *** Repositories *)

Lemma prefix_key (mk : string → key) pre k r :
  (∀ r, enc (mk r) = pre +:+ r) → (∀ r, good_key (mk r)) → good_key k →
  enc k = pre +:+ r → k = mk r.
Proof. intros Hmk Hg Hk Hr. apply enc_inj; auto. by rewrite Hmk. Qed.

(** The scan of a prefix that is the constant part of a kind of keys. *)
Lemma elem_of_scan_keys txn pre (mk : string → key) k :
  (∀ r, enc (mk r) = pre +:+ r) → (∀ r, good_key (mk r)) → good_key k →
  enc k ∈ (txn_Scan txn pre).*1 ↔ (∃ r, k = mk r) ∧ is_Some (tview txn !! enc k).
Proof.
  intros Hmk Hg Hk. rewrite Scan_law, list_elem_of_fmap. split.
  - intros ([k' v] & Hk' & [Hv [r Hr]]%elem_of_scan_prefix). simpl in *. subst k'.
    split; [exists r; by eapply prefix_key|eauto].
  - intros [[r ->] [v Hv]]. exists (enc (mk r), v). split; [done|].
    apply elem_of_scan_prefix. split; [done|]. exists r. apply Hmk.
Qed.

Lemma enc_manifest repo d : enc (KManifest repo d) = (prefixManifest +:+ repo +:+ ":") +:+ d.
Proof. unfold enc. by rewrite !sapp_assoc. Qed.
Lemma enc_tag repo t : enc (KTag repo t) = (prefixTag +:+ repo +:+ ":") +:+ t.
Proof. unfold enc. by rewrite !sapp_assoc. Qed.
Lemma enc_repoBlob repo d : enc (KRepoBlob repo d) = (prefixRepoBlob +:+ repo +:+ ":") +:+ d.
Proof. unfold enc. by rewrite !sapp_assoc. Qed.
Lemma enc_blobRepo repo d : enc (KBlobRepo d repo) = (prefixBlobRepo +:+ d +:+ ":") +:+ repo.
Proof. unfold enc. by rewrite !sapp_assoc. Qed.

(** The keys [DeleteRepository] removes. *)
Definition repo_keys (txn : Txn) (repo : string) : list string :=
  (p ← [prefixManifest +:+ repo +:+ ":"; prefixTag +:+ repo +:+ ":";
        prefixRepoBlob +:+ repo +:+ ":"]; (txn_Scan txn p).*1) ++ [prefixRepo +:+ repo].

Definition of_repo (repo : string) (k : key) : Prop :=
  match k with
  | KManifest r _ | KTag r _ | KRepoBlob r _ | KRepo r => r = repo
  | _ => False
  end.

Global Instance of_repo_dec repo k : Decision (of_repo repo k).
Proof. destruct k; simpl; apply _. Defined.

Lemma elem_of_repo_keys txn repo k :
  not_in ":" repo → good_key k →
  enc k ∈ repo_keys txn repo ↔ of_repo repo k ∧ (k = KRepo repo ∨ is_Some (tview txn !! enc k)).
Proof.
  intros Hr Hk. unfold repo_keys.
  rewrite elem_of_app, list_elem_of_bind, list_elem_of_singleton.
  transitivity (enc k ∈ (txn_Scan txn (prefixManifest +:+ repo +:+ ":")).*1 ∨
                enc k ∈ (txn_Scan txn (prefixTag +:+ repo +:+ ":")).*1 ∨
                enc k ∈ (txn_Scan txn (prefixRepoBlob +:+ repo +:+ ":")).*1 ∨
                enc k = enc (KRepo repo)).
  { set_solver. }
  rewrite (elem_of_scan_keys txn _ (KManifest repo)) by auto using enc_manifest.
  rewrite (elem_of_scan_keys txn _ (KTag repo)) by auto using enc_tag.
  rewrite (elem_of_scan_keys txn _ (KRepoBlob repo)) by auto using enc_repoBlob.
  split.
  - intros [[[r ->] ?]|[[[r ->] ?]|[[[r ->] ?]|Hk']]]; simpl; auto.
    apply enc_inj in Hk' as ->; simpl; auto.
  - destruct k; simpl; intros [? [?|?]]; simplify_eq; try done; eauto 10.
Qed.

Lemma repo_keys_nonempty txn repo : Forall (λ k, k ≠ "") (repo_keys txn repo).
Proof.
  unfold repo_keys. apply Forall_app. split; [|by constructor].
  apply Forall_bind, Forall_forall. intros p Hp. apply Forall_forall.
  intros k ([k' v] & -> & Hin)%list_elem_of_fmap. rewrite Scan_law in Hin.
  apply elem_of_scan_prefix in Hin as [_ [r Hr]]. simpl. intros ->. set_solver.
Qed.

Lemma represents_delete_repo (m m' : gmap string bytes) ix repo (ks : list string) :
  not_in ":" repo → represents m ix →
  (∀ k, good_key k → enc k ∈ ks ↔ of_repo repo k ∧ (k = KRepo repo ∨ is_Some (m !! enc k))) →
  (∀ s, m' !! s = if decide (s ∈ ks) then None else m !! s) →
  represents m' (spec (OpDeleteRepository repo) ix).2.
Proof.
  intros Hr [Hm Ht Hrp Hb Hrb Hknown] Hks Hm'.
  assert (∀ k, good_key k → m' !! enc k = if decide (of_repo repo k) then None else m !! enc k)
    as Hl.
  { intros k Hk. rewrite Hm'. specialize (Hks k Hk).
    repeat case_decide; try tauto.
    destruct (m !! enc k) eqn:E; [|done]. exfalso. naive_solver. }
  split; [intros * Hr'; rewrite Hl by done; simpl..|].
  - rewrite map_lookup_filter. case_decide as Hd.
    + subst. by destruct (ix_manifests ix !! _); simpl; rewrite ?option_guard_False by naive_solver.
    + specialize (Hm repo0 d Hr').
      by destruct (ix_manifests ix !! _); simpl; rewrite ?option_guard_True.
  - rewrite map_lookup_filter, <-Ht by done. case_decide as Hd.
    + subst. by destruct (m !! _); simpl; rewrite ?option_guard_False by naive_solver.
    + by destruct (m !! _); simpl; rewrite ?option_guard_True.
  - rewrite lookup_delete. case_decide; case_decide; subst; try done. by apply Hrp.
  - auto.
  - rewrite elem_of_filter, <-Hrb by done. case_decide; simpl; [|naive_solver].
    split; [by intros [? ?]|naive_solver].
  - intros s [x Hx]. rewrite Hm' in Hx. case_decide; [done|]. eauto.
Qed.

Lemma DeleteRepository_refines db ix repo :
  op_ok (OpDeleteRepository repo) → represents (view db) ix →
  step_ok db (DeleteRepository db repo) (spec (OpDeleteRepository repo) ix).
Proof.
  intros Hr Hrep.
  destruct (deleteKeys_Ok (NewTransaction db) (repo_keys (NewTransaction db) repo))
    as (t & Ht & Hl); [apply repo_keys_nonempty|].
  eapply step_Ok; [exact Ht|]. rewrite NewTransaction_law in Hl.
  eapply represents_delete_repo; [done..| |exact Hl].
  intros k Hk. rewrite elem_of_repo_keys by done. by rewrite NewTransaction_law.
Qed.

Lemma run_refines o db ix :
  op_ok o → represents (view db) ix → step_ok db (run o db) (spec o ix).
Proof.
  destruct o; eauto using PutManifest_refines, DeleteManifest_refines,
    DeleteRepository_refines, Link_refines, Unlink_refines, PutRaw_refines.
Qed.
(** ** Queries *)

(** A listing: in key order, without duplicates, of exactly the names [P]. *)
Definition lists (l : list string) (P : string → Prop) : Prop :=
  StronglySorted String.le l ∧ NoDup l ∧ ∀ x, x ∈ l ↔ P x.

Lemma list_suffixes_spec db pre :
  ∃ l, list_suffixes db pre = Ok l ∧ lists l (λ r, is_Some (view db !! (pre +:+ r))).
Proof.
  unfold list_suffixes, View. rewrite Scan_law, NewTransaction_law.
  set (sc := scan_prefix pre (view db)).
  eexists. split; [done|].
  assert (∃ rs, sc.*1 = (λ r, pre +:+ r) <$> rs ∧
    sdrop (String.length pre) <$> sc.*1 = rs) as (rs & Hrs & ->).
  { assert (∀ kv, kv ∈ sc → ∃ r, kv.1 = pre +:+ r) as Hpre.
    { intros [k v] [_ [r Hr]]%elem_of_scan_prefix. eauto. }
    clearbody sc. induction sc as [|kv sc IH]; [by exists []|].
    destruct IH as (rs & H1 & H2); [set_solver|].
    destruct (Hpre kv) as [r Hr]; [set_solver|].
    exists (r :: rs). rewrite !fmap_cons, Hr, sdrop_app, H2, H1. done. }
  pose proof (Sorted_scan_prefix pre (view db)) as Hs. fold sc in Hs.
  pose proof (NoDup_scan_prefix pre (view db)) as Hnd. fold sc in Hnd. rewrite Hrs in Hnd.
  split; [|split].
  - apply (StronglySorted_fmap fst _ String.le) in Hs; [|done]. rewrite Hrs in Hs.
    eapply StronglySorted_fmap_inv, Hs. intros x y. apply string_le_app.
  - by apply NoDup_fmap_1 in Hnd.
  - intros r. split.
    + intros Hr. assert (pre +:+ r ∈ sc.*1) as Hin by (rewrite Hrs; set_solver).
      apply list_elem_of_fmap in Hin as ([k v] & Hk & [Hv _]%elem_of_scan_prefix).
      simpl in Hk. rewrite Hk. eauto.
    + intros [v Hv]. assert (pre +:+ r ∈ sc.*1) as Hin.
      { apply list_elem_of_fmap. exists (pre +:+ r, v). split; [done|].
        apply elem_of_scan_prefix. eauto. }
      rewrite Hrs in Hin. apply list_elem_of_fmap in Hin as (r' & Hr' & ?).
      by apply sapp_inj_r in Hr' as ->.
Qed.
Lemma lists_iff l P Q : (∀ x, P x ↔ Q x) → lists l P → lists l Q.
Proof. unfold lists. naive_solver. Qed.

Lemma valid_length d : valid d → String.length d = 71%nat.
Proof. intros (h & -> & Hh). rewrite slength_app, Hh. done. Qed.

(** A known key that looks like a blob link of [d] is one. *)
Lemma blobRepo_known d r k :
  enc (KBlobRepo d r) = enc k → known_key k → valid d → k = KBlobRepo d r.
Proof.
  intros Hk [Hg Hv] Hd. destruct k as [r' d'|r' t'|r'|d' r'|r' d'|k']; try discriminate Hk.
  - apply (sapp_inj_r "br:"), (f_equal str_bytes) in Hk. rewrite !str_bytes_app in Hk.
    apply app_inj_1 in Hk as [->%str_bytes_inj Hr'].
    + rewrite <-!str_bytes_app in Hr'. by apply str_bytes_inj, (sapp_inj_r ":") in Hr' as ->.
    + by rewrite !length_str_bytes, !valid_length.
  - exfalso. unfold enc in Hk. subst k'. simpl in Hg. unfold raw_key in Hg.
    rewrite !Forall_cons in Hg. destruct Hg as (_ & _ & _ & Hg & _).
    by rewrite HasPrefix_app in Hg.
Qed.

Lemma ListTags_spec db ix repo :
  represents (view db) ix → not_in ":" repo →
  ∃ l, ListTags db repo = Ok l ∧ lists l (λ t, is_Some (ix_tags ix !! (repo, t))).
Proof.
  intros Hrep Hr.
  destruct (list_suffixes_spec db (prefixTag +:+ repo +:+ ":")) as (l & Hl & Hls).
  exists l. split; [done|]. eapply lists_iff, Hls. intros t. simpl.
  rewrite <-enc_tag, <-(rep_tags _ _ Hrep) by done. by rewrite fmap_is_Some.
Qed.

Lemma GetBlobRepos_spec db ix d :
  represents (view db) ix → valid d →
  ∃ l, GetBlobRepos db d = Ok l ∧ lists l (λ r, not_in ":" r ∧ (d, r) ∈ ix_blobRepos ix).
Proof.
  intros Hrep Hd.
  destruct (list_suffixes_spec db (prefixBlobRepo +:+ d +:+ ":")) as (l & Hl & Hls).
  exists l. split; [done|]. eapply lists_iff, Hls. intros r. simpl.
  rewrite <-enc_blobRepo. split.
  - intros Hs. destruct (rep_known _ _ Hrep _ Hs) as (k & Hk & Hg & Hvd).
    apply blobRepo_known in Hk as ->; [|done..].
    split; [exact Hg|]. by apply (rep_blobRepos _ _ Hrep).
  - intros [Hr' ?]. by apply (rep_blobRepos _ _ Hrep).
Qed.

Lemma ListRepositories_spec db ix :
  represents (view db) ix →
  ∃ l, ListRepositories db = Ok l ∧ lists l (λ r, not_in ":" r ∧ is_Some (ix_repos ix !! r)).
Proof.
  intros Hrep.
  destruct (list_suffixes_spec db prefixRepo) as (l & Hl & Hls).
  exists l. split; [done|]. eapply lists_iff, Hls. intros r. simpl.
  assert (not_in ":" r → is_Some (view db !! enc (KRepo r)) ↔ is_Some (ix_repos ix !! r)) as Heq.
  { intros Hr'. pose proof (rep_repos _ _ Hrep r Hr') as Hd.
    destruct (ix_repos ix !! r), (view db !! enc (KRepo r)); simpl in Hd; naive_solver. }
  split; [|unfold enc in Heq; naive_solver].
  intros Hs. destruct (rep_known _ _ Hrep _ Hs) as (k & Hk & Hg & _).
  assert (k = KRepo r) as ->.
  { destruct k as [r' d'|r' t'|r'|d' r'|r' d'|k']; try discriminate Hk.
    - by apply (sapp_inj_r "r:") in Hk as ->.
    - unfold enc in Hk. subst k'. exfalso. simpl in Hg. unfold raw_key in Hg.
      rewrite !Forall_cons in Hg. destruct Hg as (_ & _ & Hg & _).
      by rewrite HasPrefix_app in Hg. }
  split; [exact Hg|]. by apply Heq.
Qed.

(** ** Properties *)

(** A sequence of operations: the results and the final state. *)
Fixpoint run_all (os : list op) (db : DB) : list (result unit) * DB :=
  match os with
  | [] => ([], db)
  | o :: os =>
    let '(r, db) := run o db in let '(rs, db) := run_all os db in (r :: rs, db)
  end.

Fixpoint spec_all (os : list op) (ix : Index) : list (result unit) * Index :=
  match os with
  | [] => ([], ix)
  | o :: os =>
    let '(r, ix) := spec o ix in let '(rs, ix) := spec_all os ix in (r :: rs, ix)
  end.

Lemma run_all_refines os db ix :
  Forall op_ok os → represents (view db) ix →
  (run_all os db).1 = (spec_all os ix).1 ∧
  represents (view (run_all os db).2) (spec_all os ix).2.
Proof.
  intros Hos. revert db ix. induction Hos as [|o os Ho _ IH]; intros db ix Hrep; simpl; [done|].
  destruct (run_refines o db ix Ho Hrep) as [Hr Hrep'].
  destruct (run o db) as [r db'], (spec o ix) as [r' ix']; simpl in *. subst.
  specialize (IH db' ix' Hrep').
  by destruct (run_all os db'), (spec_all os ix'); simpl in *; destruct IH as [-> ?].
Qed.

(** C7 The metadata store is the typed index: starting from an empty database,
    any sequence of its six state-changing operations, on repositories without
    colon, returns the results the index specification returns, and leaves a
    database that represents the specified index. *)
Theorem MetadataStore_refines_Index os db :
  view db = ∅ → Forall op_ok os →
  (run_all os db).1 = (spec_all os ix_empty).1 ∧
  represents (view (run_all os db).2) (spec_all os ix_empty).2.
Proof.
  intros Hdb Hos. apply run_all_refines; [done|]. rewrite Hdb. apply represents_empty.
Qed.

(** C21 Every query of the metadata store reads the typed index: lookups by tag
    and digest resolve through the tag map, listings are exactly the names of
    the index in ascending order without duplicates, and the two directions
    of the blob links agree with the index. *)
Theorem MetadataStore_queries db ix repo :
  represents (view db) ix → not_in ":" repo →
  (∀ ref, GetManifest db repo ref =
    match ix_resolve ix repo ref ≫= λ d, ix_manifests ix !! (repo, d) with
    | Some meta => Ok meta | None => Err ErrManifestNotFound end) ∧
  (∃ l, ListTags db repo = Ok l ∧ lists l (λ t, is_Some (ix_tags ix !! (repo, t)))) ∧
  (∃ l, ListRepositories db = Ok l ∧
     lists l (λ r, not_in ":" r ∧ is_Some (ix_repos ix !! r))) ∧
  (∃ l, GetRepoBlobs db repo = Ok l ∧ lists l (λ d, (repo, d) ∈ ix_repoBlobs ix)) ∧
  (∀ d, valid d → ∃ l, GetBlobRepos db d = Ok l ∧
     lists l (λ r, not_in ":" r ∧ (d, r) ∈ ix_blobRepos ix)) ∧
  (∀ d, HasBlob db repo d = bool_decide ((repo, d) ∈ ix_repoBlobs ix)).
Proof.
  intros Hrep Hr. split_and!.
  - intros ref. by apply GetManifest_spec.
  - by apply ListTags_spec.
  - by apply ListRepositories_spec.
  - destruct (list_suffixes_spec db (prefixRepoBlob +:+ repo +:+ ":")) as (l & Hl & Hls).
    exists l. split; [done|]. eapply lists_iff, Hls. intros d. simpl.
    by rewrite <-enc_repoBlob, (rep_repoBlobs _ _ Hrep).
  - intros d Hd. by apply GetBlobRepos_spec.
  - intros d. unfold HasBlob, View. rewrite Get_law, NewTransaction_law.
    pose proof (rep_repoBlobs _ _ Hrep repo d Hr) as Hd. unfold enc in Hd.
    destruct (view db !! _); simpl; symmetry.
    + apply bool_decide_eq_true. rewrite <-Hd. eauto.
    + apply bool_decide_eq_false. rewrite <-Hd. by intros [? ?].
Qed.

Lemma get_after db ix o repo ref :
  op_ok o → represents (view db) ix → not_in ":" repo →
  GetManifest (run o db).2 repo ref =
    match ix_resolve (spec o ix).2 repo ref ≫= λ d, ix_manifests (spec o ix).2 !! (repo, d) with
    | Some meta => Ok meta | None => Err ErrManifestNotFound end.
Proof.
  intros Ho Hrep Hr. destruct (run_refines o db ix Ho Hrep). by apply GetManifest_spec.
Qed.

(** Storing a manifest makes it retrievable, by the reference it was stored
    under and by its digest, with exactly the stored record; and every other
    reference of every repository that did not resolve to that digest is
    answered as before. *)
Theorem PutManifest_GetManifest db ix n1 n2 repo ref meta :
  represents (view db) ix →
  good_repo repo → meta_ok meta → time_ok n1 → time_ok n2 →
  HasPrefix (mm_Digest meta) "sha256:" = true →
  (HasPrefix ref "sha256:" = true → ref = mm_Digest meta) →
  let r := PutManifest db n1 n2 repo ref meta in
  r.1 = Ok tt ∧
  GetManifest r.2 repo ref = Ok meta ∧
  GetManifest r.2 repo (mm_Digest meta) = Ok meta ∧
  (∀ repo' ref', not_in ":" repo' → (repo', ref') ≠ (repo, ref) →
     (repo' = repo → ix_resolve ix repo ref' ≠ Some (mm_Digest meta)) →
     GetManifest r.2 repo' ref' = GetManifest db repo' ref').
Proof.
  intros Hrep Hr Hm Hn1 Hn2 Hd Href r.
  set (o := OpPutManifest n1 n2 repo ref meta).
  assert (op_ok o) as Ho by (split_and!; done).
  destruct (run_refines o db ix Ho Hrep) as [Hres _].
  change r with (run o db). split; [exact Hres|]. destruct Hr as [Hr _].
  assert (∀ ref', ix_resolve (spec o ix).2 repo ref' = Some (mm_Digest meta) →
    GetManifest (run o db).2 repo ref' = Ok meta) as Hget.
  { intros ref' Hres'. rewrite (get_after db ix o) by done. rewrite Hres'.
    simpl. by rewrite lookup_insert_eq. }
  split; [|split].
  - apply Hget. unfold ix_resolve. simpl. destruct (HasPrefix ref "sha256:").
    + by rewrite Href.
    + by rewrite lookup_insert_eq.
  - apply Hget. unfold ix_resolve. by rewrite Hd.
  - intros repo' ref' Hr' Hne Hother. rewrite (get_after db ix o) by done.
    rewrite (GetManifest_spec db ix) by done. f_equal.
    assert (ix_resolve (spec o ix).2 repo' ref' = ix_resolve ix repo' ref') as ->.
    { unfold ix_resolve. simpl. destruct (HasPrefix ref' "sha256:"); [done|].
      destruct (HasPrefix ref "sha256:"); [done|]. by rewrite lookup_insert_ne. }
    destruct (ix_resolve ix repo' ref') as [d|] eqn:E; simpl; [|done].
    rewrite lookup_insert_ne; [done|]. naive_solver.
Qed.

(** Deleting one tag deletes the manifest record it points to: every other
    tag of the repository with the same digest stays listed but no longer
    resolves. *)
Theorem DeleteManifest_shared_digest db ix repo t1 t2 d :
  represents (view db) ix → good_repo repo →
  HasPrefix t1 "sha256:" = false → HasPrefix t2 "sha256:" = false → t1 ≠ t2 →
  ix_tags ix !! (repo, t1) = Some d → ix_tags ix !! (repo, t2) = Some d →
  let r := DeleteManifest db repo t1 in
  r.1 = Ok tt ∧
  GetManifest r.2 repo t2 = Err ErrManifestNotFound ∧
  (∃ l, ListTags r.2 repo = Ok l ∧ t2 ∈ l ∧ t1 ∉ l).
Proof.
  intros Hrep Hr H1 H2 Hne Ht1 Ht2 r. pose proof Hr as [Hc _].
  set (o := OpDeleteManifest repo t1). change r with (run o db).
  assert ((spec o ix).1 = Ok tt ∧
    ix_tags (spec o ix).2 = delete (repo, t1) (ix_tags ix) ∧
    ix_manifests (spec o ix).2 = delete (repo, d) (ix_manifests ix)) as (Hres & Htags & Hmans).
  { simpl. unfold ix_resolve. rewrite H1, Ht1. simpl. by rewrite ?H1. }
  destruct (run_refines o db ix Hc Hrep) as [Hok Hrep']. split_and!.
  - by rewrite Hok.
  - rewrite (get_after db ix o) by done. unfold ix_resolve.
    rewrite H2, Htags, lookup_delete_ne by naive_solver.
    rewrite Ht2. cbn [mbind option_bind]. by rewrite Hmans, lookup_delete_eq.
  - destruct (list_suffixes_spec (run o db).2 (prefixTag +:+ repo +:+ ":"))
      as (l & Hl & _ & _ & Hmem).
    assert (∀ t, t ∈ l ↔ is_Some (ix_tags (spec o ix).2 !! (repo, t))) as Hmem'.
    { intros t. rewrite Hmem, <-enc_tag, <-(rep_tags _ _ Hrep') by done.
      by rewrite fmap_is_Some. }
    exists l. split; [done|]. rewrite !Hmem', Htags.
    rewrite lookup_delete_ne, Ht2, lookup_delete_eq by naive_solver.
    split; [eauto|by intros [? ?]].
Qed.

(** Deleting a repository removes its manifests, tags, blob list and entry
    and leaves every other repository as it was; the reverse links from blobs
    to the repository stay. *)
Theorem DeleteRepository_spec db ix repo d :
  represents (view db) ix → good_repo repo → valid d →
  let r := DeleteRepository db repo in
  r.1 = Ok tt ∧
  (∀ ref, GetManifest r.2 repo ref = Err ErrManifestNotFound) ∧
  ListTags r.2 repo = Ok [] ∧ GetRepoBlobs r.2 repo = Ok [] ∧
  (∀ repo' ref, not_in ":" repo' → repo' ≠ repo →
     GetManifest r.2 repo' ref = GetManifest db repo' ref ∧
     HasBlob r.2 repo' d = HasBlob db repo' d) ∧
  ((d, repo) ∈ ix_blobRepos ix → ∃ l, GetBlobRepos r.2 d = Ok l ∧ repo ∈ l).
Proof.
  intros Hrep Hr Hd r. pose proof Hr as [Hc _].
  set (o := OpDeleteRepository repo). change r with (run o db).
  destruct (run_refines o db ix Hc Hrep) as [Hok Hrep'].
  assert (∀ pre, (∀ x, view (run o db).2 !! (pre +:+ x) = None) →
    list_suffixes (run o db).2 pre = Ok []) as Hnil.
  { intros pre Hpre. destruct (list_suffixes_spec (run o db).2 pre) as (l & -> & _ & _ & Hmem).
    destruct l as [|x l]; [done|]. destruct (Hmem x) as [[v Hv] _]; [set_solver|].
    by rewrite Hpre in Hv. }
  split_and!; [done|..].
  - intros ref. rewrite (get_after db ix o) by done.
    destruct (ix_resolve _ repo ref) as [d'|]; simpl; [|done].
    rewrite map_lookup_filter. simpl. destruct (ix_manifests ix !! _); simpl; [|done].
    by rewrite option_guard_False by naive_solver.
  - apply Hnil. intros x. rewrite <-enc_tag. apply (fmap_None bytes_str).
    rewrite (rep_tags _ _ Hrep') by done. simpl. rewrite map_lookup_filter.
    destruct (ix_tags ix !! _); simpl; [|done]. by rewrite option_guard_False by naive_solver.
  - apply Hnil. intros x. rewrite <-enc_repoBlob. apply eq_None_not_Some.
    rewrite (rep_repoBlobs _ _ Hrep') by done. simpl. set_solver.
  - intros repo' ref Hr' Hne. split.
    + rewrite (get_after db ix o), (GetManifest_spec db ix) by done. f_equal.
      assert (ix_resolve (spec o ix).2 repo' ref = ix_resolve ix repo' ref) as ->.
      { unfold ix_resolve. simpl. destruct (HasPrefix ref "sha256:"); [done|].
        rewrite map_lookup_filter. destruct (ix_tags ix !! _); simpl; [|done].
        by rewrite option_guard_True. }
      destruct (ix_resolve ix repo' ref) as [d'|]; simpl; [|done].
      rewrite map_lookup_filter. destruct (ix_manifests ix !! _); simpl; [|done].
      by rewrite option_guard_True.
    + unfold HasBlob, View. rewrite !Get_law, !NewTransaction_law.
      change (prefixRepoBlob +:+ repo' +:+ ":" +:+ d) with (enc (KRepoBlob repo' d)).
      pose proof (rep_repoBlobs _ _ Hrep' repo' d Hr') as H1.
      pose proof (rep_repoBlobs _ _ Hrep repo' d Hr') as H2. simpl in H1.
      rewrite elem_of_filter in H1. simpl in H1.
      destruct (view _ !! enc _) as [x|] eqn:Ex, (view db !! enc _) as [y|] eqn:Ey; try done;
        exfalso; revert H1 H2; rewrite ?is_Some_alt; naive_solver.
  - intros Hin.
    destruct (list_suffixes_spec (run o db).2 (prefixBlobRepo +:+ d +:+ ":"))
      as (l & Hl & _ & _ & Hmem). exists l. split; [done|].
    rewrite Hmem, <-enc_blobRepo, (rep_blobRepos _ _ Hrep') by done. done.
Qed.
End refinement.

(** ** A concrete store *)

Global Instance ManifestMeta_eq_dec : EqDecision ManifestMeta.
Proof. solve_decision. Defined.
Global Instance RepoMeta_eq_dec : EqDecision RepoMeta.
Proof. solve_decision. Defined.

Global Instance ManifestMeta_countable : Countable ManifestMeta.
Proof.
  refine (inj_countable'
    (λ m, (mm_Digest m, mm_MediaType m, mm_Size m, mm_CreatedAt m, mm_Layers m,
           mm_Subject m, mm_Annotations m))
    (λ '(a, b, c, d, e, f, g), mkManifestMeta a b c d e f g) _).
  by intros [].
Defined.

Global Instance RepoMeta_countable : Countable RepoMeta.
Proof.
  refine (inj_countable' (λ m, (rm_Name m, rm_CreatedAt m, rm_UpdatedAt m))
    (λ '(a, b, c), mkRepoMeta a b c) _).
  by intros [].
Defined.

Definition jsonMeta : Json ManifestMeta := countableJson ManifestMeta.
Definition jsonRepo : Json RepoMeta := countableJson RepoMeta.

Definition exDigest : Digest :=
  "sha256:e3b0c44298fc1c149afbf4c8996fb92427ae41e4649b934ca495991b7852b855".

Definition exMeta : ManifestMeta :=
  mkManifestMeta exDigest "application/vnd.oci.image.manifest.v1+json" 7 0 [] "" ∅.

Lemma exMeta_ok : meta_ok exMeta.
Proof.
  unfold meta_ok, in64, time_ok. split_and!; simpl; by repeat constructor.
Qed.

Lemma exDigest_valid : valid exDigest.
Proof. by apply Validate_valid. Qed.

Lemma app_good : good_repo "app".
Proof. split; [unfold not_in; simpl; set_solver|by repeat constructor]. Qed.

Definition exOps : list op :=
  [OpPutManifest 5 6 "app" "v1" exMeta; OpPutManifest 7 8 "app" "v2" exMeta;
   OpLink exDigest "app"].

Lemma exOps_ok : Forall op_ok exOps.
Proof.
  pose proof app_good. pose proof exMeta_ok. pose proof exDigest_valid.
  repeat constructor; done || apply app_good.
Qed.

Definition exDb : @DB mapBadger := (@run_all mapBadger jsonMeta jsonRepo exOps ∅).2.
Definition exIx : Index := (spec_all exOps ix_empty).2.

Lemma exDb_represents : @represents jsonMeta jsonRepo (@view _ mapBadgerLaws exDb) exIx.
Proof.
  unfold exDb, exIx.
  apply (@run_all_refines mapBadger mapBadgerLaws jsonMeta jsonRepo
    (countableJsonLaws _ _) (countableJsonLaws _ _)); [apply exOps_ok|].
  apply represents_empty.
Qed.

Lemma MetadataStore_refines_Index_witness :
  Forall op_ok exOps ∧
  (@run_all mapBadger jsonMeta jsonRepo exOps ∅).1 = (spec_all exOps ix_empty).1.
Proof.
  split; [apply exOps_ok|].
  exact (proj1 (@MetadataStore_refines_Index mapBadger mapBadgerLaws jsonMeta jsonRepo
    (countableJsonLaws _ _) (countableJsonLaws _ _) exOps ∅ eq_refl exOps_ok)).
Defined.

Lemma MetadataStore_queries_witness :
  @GetManifest mapBadger jsonMeta exDb "app" "v2" = Ok exMeta ∧
  ∃ l, @ListTags mapBadger exDb "app" = Ok l ∧ "v1" ∈ l ∧ "v2" ∈ l.
Proof.
  destruct (@MetadataStore_queries mapBadger mapBadgerLaws jsonMeta jsonRepo
    (countableJsonLaws _ _) (countableJsonLaws _ _) exDb exIx "app"
    exDb_represents (proj1 app_good)) as (Hget & (l & Hl & _ & _ & Hmem) & _).
  split; [rewrite Hget; reflexivity|].
  exists l. rewrite !Hmem. split_and!; [exact Hl|eexists; reflexivity..].
Defined.

Lemma PutManifest_GetManifest_witness :
  let r := @PutManifest mapBadger jsonMeta jsonRepo ∅ 5 6 "app" "latest" exMeta in
  @GetManifest mapBadger jsonMeta r.2 "app" "latest" = Ok exMeta ∧
  @GetManifest mapBadger jsonMeta r.2 "app" exDigest = Ok exMeta.
Proof.
  destruct (@PutManifest_GetManifest mapBadger mapBadgerLaws jsonMeta jsonRepo
    (countableJsonLaws _ _) (countableJsonLaws _ _) ∅ ix_empty 5 6 "app" "latest" exMeta
    represents_empty app_good exMeta_ok) as (_ & H1 & H2 & _);
    [done|done|reflexivity|discriminate|].
  exact (conj H1 H2).
Defined.

Lemma DeleteManifest_shared_digest_witness :
  let r := @DeleteManifest mapBadger exDb "app" "v1" in
  r.1 = Ok tt ∧ @GetManifest mapBadger jsonMeta r.2 "app" "v2" = Err ErrManifestNotFound.
Proof.
  destruct (@DeleteManifest_shared_digest mapBadger mapBadgerLaws jsonMeta jsonRepo
    (countableJsonLaws _ _) (countableJsonLaws _ _) exDb exIx
    "app" "v1" "v2" exDigest exDb_represents app_good) as (H1 & H2 & _);
    [reflexivity|reflexivity|done|reflexivity|reflexivity|].
  exact (conj H1 H2).
Defined.

Lemma DeleteRepository_spec_witness :
  let r := @DeleteRepository mapBadger exDb "app" in
  r.1 = Ok tt ∧ ∃ l, @GetBlobRepos mapBadger r.2 exDigest = Ok l ∧ "app" ∈ l.
Proof.
  destruct (@DeleteRepository_spec mapBadger mapBadgerLaws jsonMeta jsonRepo
    (countableJsonLaws _ _) (countableJsonLaws _ _) exDb exIx
    "app" exDigest exDb_represents app_good exDigest_valid)
    as (H1 & _ & _ & _ & _ & H2).
  split; [exact H1|]. apply H2. vm_compute. set_solver.
Defined.

End MetadataStore.
