(* ===== verification/Cache.v ===== *)
(** internal/storage/cache.go: the LRU cache and the negative cache.

    The cache is a map from keys to elements of a doubly linked list; the
    model keeps the elements in a heap, the list as the sequence of their
    addresses (front first) and the map as the code does, so that the two
    structures can disagree.  [abs] reads the entries in list order and the
    theorems show that the operations act on that sequence as an LRU list. *)

From S2P Require Import Prelude GoLib.

Module Cache.
Section cache.
Context {V : Type}.

Record cacheEntry := mkEntry {
  ce_key : string;
  ce_value : V;
  ce_expiresAt : Time
}.

Record LRUCache := mkLRU {
  lc_capacity : Z;
  lc_items : gmap string nat;
  lc_lru : list nat;
  lc_heap : gmap nat cacheEntry;
  lc_next : nat
}.

Definition NewLRUCache (capacity : Z) : LRUCache := mkLRU capacity ∅ [] ∅ 0.

(** container/list: [Remove] and [MoveToFront] of an element, [Back]. *)
Definition lru_remove (id : nat) (l : list nat) : list nat := filter (λ x, x ≠ id) l.

Definition expired (now : Time) (e : cacheEntry) : bool :=
  negb (IsZero (ce_expiresAt e)) && After now (ce_expiresAt e).

Definition Get (now : Time) (c : LRUCache) (key : string) : option V * LRUCache :=
  match lc_items c !! key with
  | None => (None, c)
  | Some elem =>
    match lc_heap c !! elem with
    | None => (None, c)
    | Some entry =>
      if expired now entry then
        (None, mkLRU (lc_capacity c) (delete key (lc_items c)) (lru_remove elem (lc_lru c))
                 (lc_heap c) (lc_next c))
      else
        (Some (ce_value entry),
         mkLRU (lc_capacity c) (lc_items c) (elem :: lru_remove elem (lc_lru c))
           (lc_heap c) (lc_next c))
    end
  end.

Definition Len (c : LRUCache) : Z := Z.of_nat (length (lc_lru c)).

Definition evictOldest (c : LRUCache) : LRUCache :=
  match last (lc_lru c) with
  | None => c
  | Some elem =>
    match lc_heap c !! elem with
    | None => c
    | Some entry =>
      mkLRU (lc_capacity c) (delete (ce_key entry) (lc_items c))
        (lru_remove elem (lc_lru c)) (lc_heap c) (lc_next c)
    end
  end.

(** [for c.lru.Len() > c.capacity { c.evictOldest() }]; [None]: out of fuel. *)
Fixpoint evictLoop (fuel : nat) (c : LRUCache) : option LRUCache :=
  match fuel with
  | O => None
  | S fuel =>
    if decide (Len c > lc_capacity c)%Z then evictLoop fuel (evictOldest c) else Some c
  end.

Definition SetWithTTL (fuel : nat) (now : Time) (c : LRUCache) (key : string) (value : V)
    (ttl : Z) : option LRUCache :=
  let expiresAt := if decide (ttl > 0)%Z then (now + ttl)%Z else 0%Z in
  let entry := mkEntry key value expiresAt in
  match lc_items c !! key with
  | Some elem =>
    Some (mkLRU (lc_capacity c) (lc_items c) (elem :: lru_remove elem (lc_lru c))
            (<[elem := entry]> (lc_heap c)) (lc_next c))
  | None =>
    let elem := lc_next c in
    evictLoop fuel
      (mkLRU (lc_capacity c) (<[key := elem]> (lc_items c)) (elem :: lc_lru c)
         (<[elem := entry]> (lc_heap c)) (S elem))
  end.

(** [Set] is [SetWithTTL] without expiry. *)
Definition Set_ (fuel : nat) (now : Time) (c : LRUCache) (key : string) (value : V)
    : option LRUCache :=
  SetWithTTL fuel now c key value 0.

Definition Delete (c : LRUCache) (key : string) : LRUCache :=
  match lc_items c !! key with
  | Some elem => mkLRU (lc_capacity c) (delete key (lc_items c)) (lru_remove elem (lc_lru c))
                   (lc_heap c) (lc_next c)
  | None => c
  end.

Definition Clear (c : LRUCache) : LRUCache :=
  mkLRU (lc_capacity c) ∅ [] (lc_heap c) (lc_next c).

(** ** The LRU list *)

Fixpoint entries (heap : gmap nat cacheEntry) (l : list nat) : list cacheEntry :=
  match l with
  | [] => []
  | id :: l =>
    match heap !! id with Some e => e :: entries heap l | None => entries heap l end
  end.

Definition abs (c : LRUCache) : list cacheEntry := entries (lc_heap c) (lc_lru c).

Definition without (k : string) (l : list cacheEntry) : list cacheEntry :=
  filter (λ e, ce_key e ≠ k) l.

Definition find_entry (k : string) (l : list cacheEntry) : option cacheEntry :=
  snd <$> list_find (λ e, ce_key e = k) l.

(** The specification on the sequence, most recently used first. *)
Definition spec_Get (now : Time) (l : list cacheEntry) (k : string)
    : option V * list cacheEntry :=
  match find_entry k l with
  | None => (None, l)
  | Some e => if expired now e then (None, without k l)
              else (Some (ce_value e), e :: without k l)
  end.

Definition spec_Set (cap : nat) (now : Time) (l : list cacheEntry) (k : string) (v : V) (ttl : Z)
    : list cacheEntry :=
  let e := mkEntry k v (if decide (ttl > 0)%Z then (now + ttl)%Z else 0%Z) in
  match find_entry k l with
  | Some _ => e :: without k l
  | None => take cap (e :: l)
  end.

(** The map and the list describe the same entries. *)
Record wf (c : LRUCache) : Prop := {
  wf_nodup : NoDup (lc_lru c);
  wf_heap id : id ∈ lc_lru c → id < lc_next c ∧ ∃ e, lc_heap c !! id = Some e ∧
    lc_items c !! ce_key e = Some id;
  wf_items k id : lc_items c !! k = Some id →
    id ∈ lc_lru c ∧ ∃ e, lc_heap c !! id = Some e ∧ ce_key e = k
}.

Lemma wf_new cap : wf (NewLRUCache cap).
Proof. split; simpl; [constructor|set_solver|done]. Qed.

Lemma wf_clear c : wf (Clear c) ∧ abs (Clear c) = [].
Proof. split; [|done]. split; simpl; [constructor|set_solver|done]. Qed.

Lemma elem_of_lru_remove x id l : x ∈ lru_remove id l ↔ x ≠ id ∧ x ∈ l.
Proof. unfold lru_remove. by rewrite list_elem_of_filter. Qed.

Lemma length_abs c : wf c → length (abs c) = length (lc_lru c).
Proof.
  intros [_ Hh _]. unfold abs. induction (lc_lru c) as [|id l IH]; [done|].
  destruct (Hh id) as (_ & e & He & _); [set_solver|]. simpl. rewrite He. simpl.
  rewrite IH; [done|]. intros; apply Hh; set_solver.
Qed.

(** Removing the element of a key is removing the key's entry. *)
Lemma abs_remove c k id (l : list nat) :
  (∀ id', id' ∈ l → ∃ e, lc_heap c !! id' = Some e ∧ (ce_key e = k ↔ id' = id)) →
  entries (lc_heap c) (lru_remove id l) =
  without k (entries (lc_heap c) l).
Proof.
  intros Hl. unfold lru_remove, without. induction l as [|x l IH]; [done|].
  destruct (Hl x) as (e & He & Hk); [set_solver|].
  rewrite filter_cons. simpl. rewrite He. simpl. rewrite filter_cons.
  case_decide; case_decide; simpl; rewrite ?He; simpl; try tauto.
  - f_equal. apply IH. set_solver.
  - apply IH. set_solver.
Qed.

Lemma without_id k l : (∀ e, e ∈ l → ce_key e ≠ k) → without k l = l.
Proof.
  unfold without. induction l as [|e l IH]; intros Hl; [done|].
  rewrite filter_cons_True by (apply Hl; by left). f_equal. apply IH. set_solver.
Qed.

Lemma wf_key c k id id' :
  wf c → lc_items c !! k = Some id → id' ∈ lc_lru c →
  ∃ e, lc_heap c !! id' = Some e ∧ (ce_key e = k ↔ id' = id).
Proof.
  intros [_ Hh Hi] Hk Hin. destruct (Hh id' Hin) as (_ & e & He & Hke).
  exists e. split; [done|]. split; [congruence|]. intros ->.
  destruct (Hi k id Hk) as (_ & e' & ? & ?). congruence.
Qed.

(** The map finds a key exactly when the list has an entry for it. *)
Lemma find_entry_items c k :
  wf c → find_entry k (abs c) = lc_items c !! k ≫= λ id, lc_heap c !! id.
Proof.
  intros Hwf. unfold find_entry, abs. destruct (lc_items c !! k) as [id|] eqn:Hk; simpl.
  - pose proof (wf_key c k id) as Hkey. destruct (wf_items _ Hwf k id Hk) as (Hin & _).
    assert (∀ id', id' ∈ lc_lru c → ∃ e, lc_heap c !! id' = Some e ∧ (ce_key e = k ↔ id' = id))
      as Hall by eauto. clear Hkey. revert Hin Hall.
    induction (lc_lru c) as [|x l IH]; intros Hin Hall; [set_solver|].
    destruct (Hall x) as (e & He & Hke); [set_solver|]. simpl. rewrite He. simpl.
    case_decide as Hd.
    + apply Hke in Hd as ->. by rewrite He.
    + rewrite <-IH by (set_solver || set_solver). by destruct (list_find _ _) as [[]|].
  - assert (∀ id', id' ∈ lc_lru c → ∃ e, lc_heap c !! id' = Some e ∧ ce_key e ≠ k) as Hall.
    { intros id' Hin. destruct (wf_heap _ Hwf id' Hin) as (_ & e & He & Hke).
      exists e. split; [done|]. congruence. }
    revert Hall. induction (lc_lru c) as [|x l IH]; intros Hall; [done|].
    destruct (Hall x) as (e & He & Hke); [set_solver|]. simpl. rewrite He. simpl.
    rewrite decide_False by done.
    assert (snd <$> list_find (λ e, ce_key e = k) (entries (lc_heap c) l) = None) as IH'.
    { apply IH. set_solver. }
    by destruct (list_find _ _) as [[]|].
Qed.

Lemma entries_ext h1 h2 l :
  (∀ id, id ∈ l → h1 !! id = h2 !! id) → entries h1 l = entries h2 l.
Proof.
  induction l as [|id l IH]; intros Hl; [done|]. simpl.
  rewrite (Hl id), IH; set_solver.
Qed.

Lemma entries_app h l1 l2 : entries h (l1 ++ l2) = entries h l1 ++ entries h l2.
Proof. induction l1 as [|id l1 IH]; [done|]. simpl. rewrite IH. by case_match. Qed.

Lemma NoDup_lru_remove id l : NoDup l → NoDup (lru_remove id l).
Proof. apply NoDup_filter. Qed.

Lemma wf_remove c k id :
  wf c → lc_items c !! k = Some id →
  wf (mkLRU (lc_capacity c) (delete k (lc_items c)) (lru_remove id (lc_lru c))
        (lc_heap c) (lc_next c)).
Proof.
  intros Hwf Hk. pose proof (wf_items _ Hwf k id Hk) as (_ & e & He & Hke).
  split; simpl.
  - apply NoDup_lru_remove, Hwf.
  - intros id' [Hne Hin]%elem_of_lru_remove.
    destruct (wf_heap _ Hwf id' Hin) as (Hlt & e' & He' & Hk'). split; [done|].
    exists e'. split; [done|]. rewrite lookup_delete_ne; [done|]. congruence.
  - intros k' id' [Hne Hk']%lookup_delete_Some.
    destruct (wf_items _ Hwf k' id' Hk') as (Hin & e' & He' & Hke').
    split; [|eauto]. apply elem_of_lru_remove. split; [|done]. congruence.
Qed.

Lemma wf_front c k id e :
  wf c → lc_items c !! k = Some id → ce_key e = k →
  wf (mkLRU (lc_capacity c) (lc_items c) (id :: lru_remove id (lc_lru c))
        (<[id := e]> (lc_heap c)) (lc_next c)).
Proof.
  intros Hwf Hk Hke. pose proof (wf_items _ Hwf k id Hk) as (Hin0 & e0 & He0 & Hke0).
  split; simpl.
  - constructor; [rewrite elem_of_lru_remove; tauto|]. apply NoDup_lru_remove, Hwf.
  - intros id' Hin. destruct (decide (id' = id)) as [->|Hne].
    + destruct (wf_heap _ Hwf id Hin0) as (Hlt & _). split; [done|].
      exists e. by rewrite lookup_insert_eq, Hke.
    + rewrite lookup_insert_ne by done. apply (wf_heap _ Hwf).
      apply elem_of_cons in Hin as [?|Hin]; [done|]. by apply elem_of_lru_remove in Hin as [_ ?].
  - intros k' id' Hk'. destruct (wf_items _ Hwf k' id' Hk') as (Hin & e' & He' & Hke').
    split.
    + destruct (decide (id' = id)) as [->|?]; [left|right].
      apply elem_of_lru_remove. done.
    + destruct (decide (id' = id)) as [->|?].
      * exists e. rewrite lookup_insert_eq. split; [done|]. congruence.
      * rewrite lookup_insert_ne by done. eauto.
Qed.

Lemma abs_front c k id e :
  wf c → lc_items c !! k = Some id →
  entries (<[id := e]> (lc_heap c)) (id :: lru_remove id (lc_lru c)) = e :: without k (abs c).
Proof.
  intros Hwf Hk. simpl. rewrite lookup_insert_eq. f_equal.
  rewrite (entries_ext _ (lc_heap c)).
  - apply abs_remove. intros id' Hin. by eapply wf_key.
  - intros id' [? _]%elem_of_lru_remove. by rewrite lookup_insert_ne.
Qed.

(** Eviction drops the last entry. *)
Lemma evictOldest_spec c :
  wf c → wf (evictOldest c) ∧ abs (evictOldest c) = removelast (abs c) ∧
  lc_capacity (evictOldest c) = lc_capacity c ∧
  lc_lru (evictOldest c) = removelast (lc_lru c).
Proof.
  intros Hwf. unfold evictOldest.
  destruct (last (lc_lru c)) as [x|] eqn:Hlast.
  2:{ apply last_None in Hlast. unfold abs. by rewrite Hlast. }
  apply last_Some in Hlast as [l Hl].
  destruct (wf_heap _ Hwf x) as (_ & e & He & Hk); [rewrite Hl; set_solver|]. rewrite He.
  assert (lru_remove x (l ++ [x]) = l) as Hrm.
  { pose proof (wf_nodup _ Hwf) as Hnd. rewrite Hl in Hnd.
    apply NoDup_app in Hnd as (_ & Hnd & _). unfold lru_remove.
    rewrite filter_app. simpl. rewrite filter_cons_False by naive_solver. rewrite app_nil_r.
    clear Hl. induction l as [|y l IH]; [done|].
    rewrite filter_cons_True; [f_equal; apply IH; set_solver|].
    intros ->. apply (Hnd x); set_solver. }
  split_and!; simpl.
  - by apply wf_remove.
  - rewrite Hl, Hrm. unfold abs. simpl. rewrite Hl, entries_app. simpl. rewrite He.
    by rewrite removelast_last.
  - done.
  - by rewrite Hl, Hrm, removelast_last.
Qed.

Lemma evictLoop_spec fuel c :
  wf c → (0 ≤ lc_capacity c)%Z → length (lc_lru c) < fuel →
  ∃ c', evictLoop fuel c = Some c' ∧ wf c' ∧ lc_capacity c' = lc_capacity c ∧
    abs c' = take (Z.to_nat (lc_capacity c)) (abs c).
Proof.
  revert c. induction fuel as [|fuel IH]; intros c Hwf Hcap Hf; [lia|]. simpl.
  pose proof (length_abs c Hwf) as Hlen. unfold Len. case_decide as Hd.
  - destruct (evictOldest_spec c Hwf) as (Hwf' & Habs & Hcap' & Hlru).
    destruct (IH (evictOldest c)) as (c' & -> & ? & ? & Habs'); [done|by rewrite Hcap'|..].
    { rewrite Hlru, removelast_firstn_len, firstn_length. lia. }
    exists c'. split_and!; [done..|congruence|]. rewrite Habs', Habs, Hcap'.
    rewrite removelast_firstn_len. rewrite take_take. f_equal. lia.
  - exists c. split_and!; try done. rewrite take_ge; [done|]. lia.
Qed.

Definition enough (c : LRUCache) : nat := S (S (length (lc_lru c))).

Lemma Get_refines now c k :
  wf c → let '(v, c') := Get now c k in
  wf c' ∧ lc_capacity c' = lc_capacity c ∧ (v, abs c') = spec_Get now (abs c) k.
Proof.
  intros Hwf. unfold Get, spec_Get. rewrite find_entry_items by done.
  destruct (lc_items c !! k) as [id|] eqn:Hk; simpl; [|done].
  destruct (wf_items _ Hwf k id Hk) as (Hin & e & He & Hke). rewrite He.
  destruct (expired now e); simpl.
  - split_and!; [by apply wf_remove|done|]. f_equal. unfold abs. simpl.
    apply abs_remove. intros id' ?. by eapply wf_key.
  - pose proof (wf_front c k id e Hwf Hk Hke) as Hwf'.
    pose proof (abs_front c k id e Hwf Hk) as Ha.
    rewrite insert_id in Hwf', Ha by done. split_and!; [done..|].
    f_equal. exact Ha.
Qed.

Lemma Set_refines now c k v ttl :
  wf c → (0 ≤ lc_capacity c)%Z →
  ∃ c', SetWithTTL (enough c) now c k v ttl = Some c' ∧ wf c' ∧
    lc_capacity c' = lc_capacity c ∧
    abs c' = spec_Set (Z.to_nat (lc_capacity c)) now (abs c) k v ttl.
Proof.
  intros Hwf Hcap. unfold SetWithTTL, spec_Set. rewrite find_entry_items by done.
  set (e := mkEntry k v _).
  destruct (lc_items c !! k) as [id|] eqn:Hk; simpl.
  - destruct (wf_items _ Hwf k id Hk) as (Hin & e0 & He0 & Hke0). rewrite He0.
    eexists. split; [done|]. split_and!; [by eapply wf_front|done|].
    unfold abs at 1. cbn [lc_heap lc_lru]. by apply abs_front.
  - set (c1 := mkLRU _ _ _ _ _).
    assert (lc_next c ∉ lc_lru c) as Hfresh.
    { intros Hin. destruct (wf_heap _ Hwf _ Hin). lia. }
    assert (wf c1) as Hwf1.
    { split; simpl.
      - constructor; [done|apply Hwf].
      - intros id Hin. destruct (decide (id = lc_next c)) as [->|Hne].
        + split; [lia|]. exists e. by rewrite !lookup_insert_eq.
        + apply elem_of_cons in Hin as [?|Hin]; [done|].
          destruct (wf_heap _ Hwf id Hin) as (? & e' & He' & Hk'). split; [lia|].
          exists e'. rewrite !lookup_insert_ne by (done || congruence). done.
      - intros k' id [[<- <-]|[Hne Hk']]%lookup_insert_Some.
        + split; [by left|]. exists e. by rewrite lookup_insert_eq.
        + destruct (wf_items _ Hwf k' id Hk') as (Hin & e' & He' & Hke').
          split; [by right|]. exists e'. rewrite lookup_insert_ne by congruence. done. }
    assert (abs c1 = e :: abs c) as Habs.
    { unfold abs. simpl. rewrite lookup_insert_eq. f_equal. apply entries_ext.
      intros id Hin. rewrite lookup_insert_ne; [done|]. congruence. }
    destruct (evictLoop_spec (enough c) c1 Hwf1) as (c' & Hc' & ? & ? & Habs'); [done|simpl; unfold enough; lia|].
    exists c'. rewrite Habs', Habs. done.
Qed.

Lemma Delete_refines c k :
  wf c → wf (Delete c k) ∧ lc_capacity (Delete c k) = lc_capacity c ∧
  abs (Delete c k) = without k (abs c).
Proof.
  intros Hwf. unfold Delete. destruct (lc_items c !! k) as [id|] eqn:Hk.
  - split_and!; [by apply wf_remove|done|]. apply (abs_remove c). intros id' ?. by eapply wf_key.
  - split_and!; [done..|]. symmetry. apply without_id. intros e Hin Hke.
    assert (find_entry k (abs c) = None) as Hnone by (by rewrite find_entry_items, Hk).
    unfold find_entry in Hnone. apply fmap_None in Hnone.
    apply list_find_None in Hnone. rewrite Forall_forall in Hnone. by apply (Hnone e).
Qed.

(** ** Sequences of operations *)

Inductive cop :=
  | CGet (now : Time) (k : string)
  | CSet (now : Time) (k : string) (v : V) (ttl : Z)
  | CDelete (k : string)
  | CClear.

Definition crun (o : cop) (c : LRUCache) : option (option V * LRUCache) :=
  match o with
  | CGet now k => Some (Get now c k)
  | CSet now k v ttl => c ← SetWithTTL (enough c) now c k v ttl; Some (None, c)
  | CDelete k => Some (None, Delete c k)
  | CClear => Some (None, Clear c)
  end.

Definition cspec (cap : nat) (o : cop) (l : list cacheEntry) : option V * list cacheEntry :=
  match o with
  | CGet now k => spec_Get now l k
  | CSet now k v ttl => (None, spec_Set cap now l k v ttl)
  | CDelete k => (None, without k l)
  | CClear => (None, [])
  end.

Fixpoint crun_all (os : list cop) (c : LRUCache) : option (list (option V) * LRUCache) :=
  match os with
  | [] => Some ([], c)
  | o :: os =>
    '(v, c) ← crun o c; '(vs, c) ← crun_all os c; Some (v :: vs, c)
  end.

Fixpoint cspec_all (cap : nat) (os : list cop) (l : list cacheEntry)
    : list (option V) * list cacheEntry :=
  match os with
  | [] => ([], l)
  | o :: os =>
    let '(v, l) := cspec cap o l in let '(vs, l) := cspec_all cap os l in (v :: vs, l)
  end.

Lemma crun_refines o c :
  wf c → (0 ≤ lc_capacity c)%Z →
  ∃ v c', crun o c = Some (v, c') ∧ wf c' ∧ lc_capacity c' = lc_capacity c ∧
    (v, abs c') = cspec (Z.to_nat (lc_capacity c)) o (abs c).
Proof.
  intros Hwf Hcap. destruct o as [now k|now k v ttl|k|]; simpl.
  - pose proof (Get_refines now c k Hwf) as H. destruct (Get now c k) as [v c']. eauto 10.
  - destruct (Set_refines now c k v ttl Hwf Hcap) as (c' & -> & ? & ? & <-). simpl. eauto 10.
  - destruct (Delete_refines c k Hwf) as (? & ? & <-). eauto 10.
  - eexists _, _. split; [done|]. by destruct (wf_clear c).
Qed.

Lemma find_entry_without k l : find_entry k (without k l) = None.
Proof.
  unfold find_entry. rewrite (proj2 (list_find_None _ _)); [done|].
  apply Forall_forall. intros e [? _]%list_elem_of_filter. done.
Qed.

Lemma length_without k l : length (without k l) ≤ length l.
Proof. apply length_filter. Qed.

Lemma length_without_found k l e :
  find_entry k l = Some e → length (without k l) < length l.
Proof.
  unfold find_entry. rewrite fmap_Some. intros ([i e'] & Hf & _).
  apply list_find_Some in Hf as (Hi & Hk & _).
  apply (length_filter_lt _ _ e'); [by eapply list_elem_of_lookup_2|naive_solver].
Qed.

(** No operation of the specification exceeds the capacity. *)
Lemma length_cspec cap o l :
  (Z.of_nat (length l) ≤ cap)%Z → (Z.of_nat (length (cspec (Z.to_nat cap) o l).2) ≤ cap)%Z.
Proof.
  intros Hl. destruct o as [now k|now k v ttl|k|]; simpl; [..|lia].
  - unfold spec_Get. destruct (find_entry k l) as [e|] eqn:Hf; simpl; [|done].
    apply length_without_found in Hf. destruct (expired now e); simpl; lia.
  - unfold spec_Set. destruct (find_entry k l) as [e|] eqn:Hf.
    + apply length_without_found in Hf. simpl. lia.
    + rewrite length_take. lia.
  - pose proof (length_without k l). lia.
Qed.

(** ** Properties *)

(** C24 From a new cache of capacity at least zero every sequence of [Get],
    [SetWithTTL], [Delete] and [Clear] returns (the eviction loops end), gives
    the answers an expiring LRU list of that capacity gives, keeps the map and
    the linked list consistent and never holds more than the capacity. *)
Theorem LRUCache_refines_LRU os cap :
  (0 ≤ cap)%Z →
  ∃ vs c, crun_all os (NewLRUCache cap) = Some (vs, c) ∧ wf c ∧
    (vs, abs c) = cspec_all (Z.to_nat cap) os [] ∧ (Len c ≤ cap)%Z.
Proof.
  intros Hcap.
  assert (∀ c, wf c → lc_capacity c = cap → (Len c ≤ cap)%Z →
    ∃ vs c', crun_all os c = Some (vs, c') ∧ wf c' ∧
      (vs, abs c') = cspec_all (Z.to_nat cap) os (abs c) ∧ (Len c' ≤ cap)%Z) as Hall.
  { induction os as [|o os IH]; intros c Hwf Hc Hl; simpl; [by eauto 10|].
    destruct (crun_refines o c Hwf) as (v & c1 & -> & Hwf1 & Hc1 & Hs); [by rewrite Hc|].
    rewrite Hc in Hs, Hc1. simpl.
    destruct (IH c1 Hwf1 Hc1) as (vs & c' & -> & ? & Hs' & ?).
    { unfold Len in *. rewrite <-length_abs in * by done.
      apply (f_equal snd) in Hs. simpl in Hs. rewrite Hs.
      by apply length_cspec. }
    rewrite <-Hs, <-Hs'. simpl. eauto 10. }
  apply Hall; [apply wf_new|done|done].
Qed.

(** A cache of negative capacity hangs on the first new key: the eviction
    loop runs out of every amount of fuel. *)
Theorem negative_capacity_diverges cap fuel now k v ttl :
  (cap < 0)%Z → SetWithTTL fuel now (NewLRUCache cap) k v ttl = None.
Proof.
  intros Hcap. unfold SetWithTTL. simpl. rewrite lookup_empty.
  assert (∀ fuel c, wf c → lc_capacity c = cap → evictLoop fuel c = None) as Hloop.
  { clear fuel. intros fuel. induction fuel as [|fuel IH]; intros c Hwf Hc; [done|].
    simpl. unfold Len. rewrite decide_True by lia.
    destruct (evictOldest_spec c Hwf) as (? & _ & ? & _). apply IH; [done|congruence]. }
  apply Hloop; [|done].
  split; simpl.
  - apply NoDup_singleton.
  - intros id ->%list_elem_of_singleton. split; [lia|]. eexists.
    rewrite lookup_insert_eq. split; [done|]. simpl. by rewrite lookup_insert_eq.
  - intros k' id Hk. apply lookup_insert_Some in Hk as [[<- <-]|[_ Hk]]; [|by rewrite lookup_empty in Hk].
    split; [by left|]. eexists. by rewrite lookup_insert_eq.
Qed.

End cache.

Arguments LRUCache : clear implicits.
Arguments cacheEntry : clear implicits.
Arguments cop : clear implicits.

(** ** The negative cache *)

Record NegativeCache := mkNegative {
  nc_cache : LRUCache unit;
  nc_ttl : Z
}.

Definition NewNegativeCache (capacity ttl : Z) : NegativeCache :=
  mkNegative (NewLRUCache capacity) ttl.

Definition MarkNotFound (fuel : nat) (now : Time) (nc : NegativeCache) (key : string)
    : option NegativeCache :=
  c ← SetWithTTL fuel now (nc_cache nc) key () (nc_ttl nc);
  Some (mkNegative c (nc_ttl nc)).

Definition IsNotFound (now : Time) (nc : NegativeCache) (key : string) : bool * NegativeCache :=
  let '(v, c) := Get now (nc_cache nc) key in
  (match v with Some _ => true | None => false end, mkNegative c (nc_ttl nc)).

Definition ClearKey (nc : NegativeCache) (key : string) : NegativeCache :=
  mkNegative (Delete (nc_cache nc) key) (nc_ttl nc).

(** A key marked as not found is reported so until its lifetime has passed
    and not after (a lifetime of zero or less never ends), and never after it
    was cleared. *)
Theorem NegativeCache_lifetime nc now now' k :
  wf (nc_cache nc) → (1 ≤ lc_capacity (nc_cache nc))%Z → (0 ≤ now)%Z →
  ∃ nc', MarkNotFound (enough (nc_cache nc)) now nc k = Some nc' ∧
    (IsNotFound now' nc' k).1 = bool_decide (nc_ttl nc ≤ 0 ∨ now' ≤ now + nc_ttl nc)%Z ∧
    (IsNotFound now' (ClearKey nc' k) k).1 = false.
Proof.
  intros Hwf Hcap Hnow. unfold MarkNotFound.
  destruct (Set_refines now (nc_cache nc) k () (nc_ttl nc) Hwf) as (c & -> & Hwf' & Hc & Habs); [lia|].
  eexists. split; [done|]. unfold IsNotFound. simpl.
  set (e := mkEntry k () (if decide (nc_ttl nc > 0)%Z then (now + nc_ttl nc)%Z else 0%Z)) in *.
  assert (∃ l, abs c = e :: l) as [l Hl].
  { rewrite Habs. unfold spec_Set. fold e. destruct (find_entry k _); [eauto|].
    destruct (Z.to_nat (lc_capacity (nc_cache nc))) eqn:E; [lia|]. simpl. eauto. }
  split.
  - pose proof (Get_refines now' c k Hwf') as Hg.
    destruct (Get now' c k) as [v c']. destruct Hg as (_ & _ & Hg).
    unfold spec_Get, find_entry in Hg. rewrite Hl in Hg. simpl in Hg.
    rewrite decide_True in Hg by done. simpl in Hg.
    unfold expired, IsZero, After in Hg. simpl in Hg.
    destruct (decide (nc_ttl nc > 0)%Z).
    + rewrite bool_decide_false in Hg by lia. simpl in Hg.
      case_bool_decide; injection Hg as -> _; symmetry.
      * rewrite bool_decide_eq_false. lia.
      * rewrite bool_decide_eq_true. lia.
    + rewrite bool_decide_true in Hg by done. simpl in Hg. injection Hg as -> _.
      symmetry. rewrite bool_decide_eq_true. lia.
  - destruct (Delete_refines c k Hwf') as (Hwf2 & _ & Hd).
    pose proof (Get_refines now' (Delete c k) k Hwf2) as Hg.
    destruct (Get now' (Delete c k) k) as [v c']. destruct Hg as (_ & _ & Hg).
    unfold spec_Get in Hg. rewrite Hd, find_entry_without in Hg. by injection Hg as -> _.
Qed.

(** ** Witnesses *)

Definition exCops : list (cop nat) :=
  [CSet 0 "a" 1 0; CSet 1 "b" 2 0; CGet 2 "a"; CSet 3 "c" 3 5; CGet 4 "b"; CGet 9 "c"; CGet 9 "a"].

Lemma LRUCache_refines_LRU_witness :
  (0 ≤ 2)%Z ∧ ∃ vs c, crun_all exCops (NewLRUCache 2) = Some (vs, c) ∧
    vs = [None; None; Some 1; None; None; None; Some 1] ∧ (Len c ≤ 2)%Z.
Proof.
  split; [lia|].
  destruct (LRUCache_refines_LRU exCops 2 ltac:(lia)) as (vs & c & Hrun & _ & Hs & Hlen).
  exists vs, c. split; [exact Hrun|]. split; [|exact Hlen].
  apply (f_equal fst) in Hs. simpl in Hs. rewrite Hs. reflexivity.
Defined.

Lemma negative_capacity_diverges_witness :
  (-1 < 0)%Z ∧ SetWithTTL 100 0 (NewLRUCache (-1)) "k" 1 0 = None.
Proof. split; [lia|]. exact (negative_capacity_diverges (-1) 100 0 "k" 1 0 ltac:(lia)). Defined.

Lemma NegativeCache_lifetime_witness :
  ∃ nc', MarkNotFound 2 0 (NewNegativeCache 10 5) "k" = Some nc' ∧
    (IsNotFound 3 nc' "k").1 = true.
Proof.
  destruct (NegativeCache_lifetime (NewNegativeCache 10 5) 0 3 "k" (wf_new 10)
    ltac:(simpl; lia) ltac:(lia)) as (nc' & H1 & H2 & _).
  exists nc'. split; [exact H1|]. rewrite H2. reflexivity.
Defined.

End Cache.
