(* ===== verification/Upload.v ===== *)
(** internal/storage/upload.go: resumable upload sessions.

    A session is an open file below [uploads/] with its position, the bytes
    its running hash has seen and the size it reports.  The session table is
    shared by all requests; every operation names its session, so an
    interleaving of requests is a sequence of operations. *)

From S2P Require Import Prelude Sha256 GoLib Digest Os Blob.

Module Upload.

Record Upload := mkUpload {
  up_ID : string;
  up_Repo : string;
  up_StartedAt : Time;
  up_Size : Z;
  up_pos : Z;          (** the offset of the open file *)
  up_hash : bytes      (** what was written to the running hash *)
}.

Record UploadManager := mkUM {
  um_root : string;
  um_uploads : gmap string Upload
}.

Definition NewUploadManager (F : Faults) (root : string) : result UploadManager :=
  match F OpMkdirAll with
  | Some e => Err (wrap "creating upload directory" e)
  | None => Ok (mkUM root ∅)
  end.

(** [timeRand.Read] into a buffer of [n] bytes: the counter, the bytes. *)
Definition timeRand_Read (cnt now : Z) (n : nat) : Z * bytes :=
  let cnt := wrap64 (cnt + 1) in
  let s := fmt_d (UnixNano now) +:+ fmt_d cnt in
  (cnt, take n (sha256 (str_bytes s))).

(** [b]: the 16 bytes read from the random source, if it could be read. *)
Definition generateUploadID (b : option bytes) (now : Time) : string :=
  match b with
  | None => fmt_d (UnixNano now)
  | Some b => EncodeToString b
  end.

Definition uploadPath (um : UploadManager) (id : string) : string :=
  Join [um_root um; "uploads"; id].

Definition set_uploads (f : gmap string Upload → gmap string Upload) (um : UploadManager) :
    UploadManager := mkUM (um_root um) (f (um_uploads um)).

Section methods.
Context (F : Faults).

Definition Start (um : UploadManager) (os : Os) (b : option bytes) (now1 now2 : Time)
    (repo : string) : result Upload * (UploadManager * Os) :=
  let id := generateUploadID b now1 in
  let path := uploadPath um id in
  match Create F os path with
  | (Err e, os) => (Err (wrap "creating upload file" e), (um, os))
  | (Panic m, os) => (Panic m, (um, os))
  | (Ok _, os) =>
    let upload := mkUpload id repo now2 0 0 [] in
    (Ok upload, (set_uploads <[id := upload]> um, os))
  end.

Definition Get (um : UploadManager) (id : string) : result Upload :=
  match um_uploads um !! id with
  | Some upload => Ok upload
  | None => Err ErrUploadNotFound
  end.

(** [io.Copy] into the open file at its position. *)
Definition file_write (os : Os) (path : string) (pos : Z) (data : bytes) : Os :=
  set_files (alter (λ c, write_at c (Z.to_nat pos) data) path) os.

(** [Upload.Write]: to the file and the running hash; the size grows by what
    was copied, also when the reader fails afterwards. *)
Definition Write (um : UploadManager) (os : Os) (u : Upload) (r : Reader)
    : result Z * (UploadManager * Os) :=
  match F OpWrite with
  | Some e => (Err e, (um, os))
  | None =>
    let n := blen (rd_data r) in
    let u' := mkUpload (up_ID u) (up_Repo u) (up_StartedAt u) (wrap64 (up_Size u + n))
                (up_pos u + n) (up_hash u ++ rd_data r) in
    let os := file_write os (uploadPath um (up_ID u)) (up_pos u) (rd_data r) in
    (match rd_err r with Some e => Err e | None => Ok n end,
     (set_uploads <[up_ID u := u']> um, os))
  end.

(** [Upload.WriteAt]: seek, then copy to the file only. *)
Definition WriteAt (um : UploadManager) (os : Os) (u : Upload) (r : Reader) (offset : Z)
    : result Z * (UploadManager * Os) :=
  match (if decide (offset < 0)%Z then Some (Errorf "invalid argument") else F OpSeek) with
  | Some e => (Err e, (um, os))
  | None =>
    let n := match F OpWrite with Some _ => 0%Z | None => blen (rd_data r) end in
    let os := match F OpWrite with
              | Some _ => os
              | None => file_write os (uploadPath um (up_ID u)) offset (rd_data r) end in
    let size := if decide (wrap64 (offset + n) > up_Size u)%Z
                then wrap64 (offset + n) else up_Size u in
    let u' := mkUpload (up_ID u) (up_Repo u) (up_StartedAt u) size (offset + n) (up_hash u) in
    (match F OpWrite, rd_err r with Some e, _ | None, Some e => Err e | None, None => Ok n end,
     (set_uploads <[up_ID u := u']> um, os))
  end.

Definition Finish (um : UploadManager) (os : Os) (id : string) (expectedDigest : Digest)
    (bs : BlobStore.BlobStore) : result unit * (UploadManager * Os) :=
  match um_uploads um !! id with
  | None => (Err ErrUploadNotFound, (um, os))
  | Some upload =>
    let um := set_uploads (delete id) um in
    match F OpSync with
    | Some e => (Err (wrap "syncing upload" e), (um, os))
    | None =>
    let path := uploadPath um id in
    match F OpSeek with
    | Some e => (Err (wrap "seeking to start" e), (um, os))
    | None =>
    match F OpRead with
    | Some e => (Err (wrap "computing digest" e), (um, os))
    | None =>
    let contents := default [] (os_files os !! path) in
    let actualDigest := "sha256:" +:+ EncodeToString (sha256 contents) in
    match F OpClose with
    | Some e => (Err (wrap "closing upload" e), (um, os))
    | None =>
    if decide (actualDigest ≠ expectedDigest) then
      (Err (Errorf ("digest mismatch: expected " +:+ expectedDigest +:+ ", got " +:+ actualDigest)),
       (um, (Remove F os path).2))
    else
    match BlobStore.blobPath bs expectedDigest with
    | Err e => (Err e, (um, os))
    | Panic m => (Panic m, (um, os))
    | Ok blobPath =>
    match F OpMkdirAll with
    | Some e => (Err (wrap "creating blob directory" e), (um, (Remove F os path).2))
    | None =>
    match Stat F os blobPath with
    | Ok _ => (Ok tt, (um, (Remove F os path).2))
    | _ =>
    match Rename F os path blobPath with
    | (Err e, os) => (Err (wrap "moving blob" e), (um, (Remove F os path).2))
    | (r, os) => (r, (um, os))
    end end end end end end end end
  end.

Definition Cancel (um : UploadManager) (os : Os) (id : string)
    : result unit * (UploadManager * Os) :=
  match um_uploads um !! id with
  | None => (Err ErrUploadNotFound, (um, os))
  | Some upload =>
    let um := set_uploads (delete id) um in
    let '(r, os) := Remove F os (uploadPath um id) in
    (r, (um, os))
  end.

(** One tick of [cleanupStale]. *)
Definition stale (now : Time) (u : Upload) : bool :=
  bool_decide (TimeSub now (up_StartedAt u) > 24 * Hour)%Z.

Definition cleanupTick (um : UploadManager) (os : Os) (now : Time) : UploadManager * Os :=
  foldl (λ '(um, os) '(id, u),
    if stale now u then
      (set_uploads (delete id) um, (Remove F os (uploadPath um id)).2)
    else (um, os)) (um, os) (map_to_list (um_uploads um)).
End methods.

(** ** Files *)

(** The identifiers [generateUploadID] makes: one path component, never as
    long as a blob's. *)
Definition good_id (id : string) : Prop := normal id ∧ String.length id ≠ 64%nat.

Definition uploadFile (root id : string) : string :=
  Clean root +:+ "/" +:+ JoinStr ["uploads"; id] "/".

Lemma uploads_normal id : normal id → Forall normal ["uploads"; id].
Proof.
  intros H. repeat apply Forall_cons_2; [by apply (bool_decide_unpack _)|done|done].
Qed.

Lemma uploadPath_good um id :
  BlobStore.good_root (um_root um) → normal id →
  uploadPath um id = uploadFile (um_root um) id.
Proof.
  intros [Hr Hc] Hn. unfold uploadPath, uploadFile, Join.
  rewrite !filter_cons_True, filter_nil; try done; [|by destruct Hn].
  rewrite JoinStr_cons by done. apply Clean_app; try done. by apply uploads_normal.
Qed.

Lemma uploadFile_Base root id : normal id → Base (uploadFile root id) = id.
Proof.
  intros Hd%uploads_normal. unfold Base, uploadFile.
  change ("/" +:+ ?t) with (String "/" t). rewrite Split_app, Split_JoinStr_normal by done.
  by rewrite last_app.
Qed.

Lemma uploadFile_inj root id1 id2 :
  normal id1 → normal id2 → uploadFile root id1 = uploadFile root id2 → id1 = id2.
Proof. intros H1 H2 E. by rewrite <-(uploadFile_Base root id1), E, uploadFile_Base. Qed.

Lemma uploadFile_not_blob root root' id d :
  good_id id → canonical d → uploadFile root id ≠ BlobStore.blobFile root' d.
Proof.
  intros [Hn Hl] Hd E. pose proof (BlobStore.blobFile_Base root' d Hd) as HB.
  rewrite <-E, uploadFile_Base in HB by done. subst id.
  destruct Hd as (h & -> & Hlen & _). by rewrite Hex_sha256 in Hl.
Qed.

Lemma generateUploadID_good b now :
  length b = 16 → good_id (generateUploadID (Some b) now).
Proof.
  intros Hb. simpl. split; [|rewrite length_EncodeToString; lia].
  apply BlobStore.normal_hex; [auto with fastreg|].
  intros E%(f_equal String.length). rewrite length_EncodeToString in E. simpl in E. lia.
Qed.

(** The session table: every session is stored under its identifier, its
    file exists and is never longer than the size reported. *)
Definition um_ok (um : UploadManager) (files : gmap string bytes) : Prop :=
  ∀ id u, um_uploads um !! id = Some u →
    up_ID u = id ∧ good_id id ∧ (0 ≤ up_pos u ≤ up_Size u)%Z ∧
    ∃ c, files !! uploadFile (um_root um) id = Some c ∧ (blen c ≤ up_Size u)%Z.

Lemma um_ok_path um files id u :
  BlobStore.good_root (um_root um) → um_ok um files → um_uploads um !! id = Some u →
  uploadPath um id = uploadFile (um_root um) id.
Proof. intros Hr Hok Hu. apply uploadPath_good; [done|]. by destruct (Hok _ _ Hu) as (_ & [] & _). Qed.

(** Files outside the sessions do not matter to the table. *)
Lemma um_ok_delete_session um files id :
  um_ok um files → um_ok (set_uploads (delete id) um) files.
Proof. intros Hok id' u Hu. simpl in Hu. apply lookup_delete_Some in Hu as [_ Hu].
  by apply (Hok id' u). Qed.

Lemma um_ok_files um files files' :
  um_ok um files →
  (∀ id u, um_uploads um !! id = Some u →
     files' !! uploadFile (um_root um) id = files !! uploadFile (um_root um) id) →
  um_ok um files'.
Proof.
  intros Hok Hf id u Hu. rewrite (Hf id u Hu). by apply Hok.
Qed.

Lemma um_ok_finish um files files' id :
  um_ok um files → good_id id →
  (∀ id', good_id id' → id' ≠ id →
     files' !! uploadFile (um_root um) id' = files !! uploadFile (um_root um) id') →
  um_ok (set_uploads (delete id) um) files'.
Proof.
  intros Hok Hid Hf. apply (um_ok_files _ files); [by apply um_ok_delete_session|].
  intros id' u Hu. simpl in Hu. apply lookup_delete_Some in Hu as [Hne Hu].
  destruct (Hok _ _ Hu) as (_ & Hg & _).
  apply Hf; auto.
Qed.

(** ** Finish *)

Lemma Finish_cases F um os id expected bs res um' os' :
  F OpRemove = None → BlobStore.good_root (um_root um) → bs.(BlobStore.bs_root) = um_root um →
  um_ok um (os_files os) →
  Finish F um os id expected bs = (res, (um', os')) →
  um' = set_uploads (delete id) um ∧
  ((∃ e, res = Err e ∧ (os_files os' = os_files os ∨
      ∃ u, um_uploads um !! id = Some u ∧
        os_files os' = delete (uploadFile (um_root um) id) (os_files os))) ∨
   (res = Ok tt ∧ ∃ u c c', um_uploads um !! id = Some u ∧
      os_files os !! uploadFile (um_root um) id = Some c ∧ expected = FromBytes c ∧
      (c' = c ∨ os_files os !! BlobStore.blobFile (um_root um) expected = Some c') ∧
      os_files os' = <[BlobStore.blobFile (um_root um) expected := c']>
        (delete (uploadFile (um_root um) id) (os_files os)))).
Proof.
  intros HF Hr Hroot Hok. unfold Finish.
  destruct (um_uploads um !! id) as [u|] eqn:Hu.
  2:{ intros [= <- <- <-]. split; [|eauto].
      destruct um as [root ups]. unfold set_uploads. simpl. by rewrite delete_id. }
  destruct (Hok id u Hu) as (_ & Hg & _ & c & Hc & _). pose proof Hg as [Hn _].
  destruct (F OpSync); [intros [= <- <- <-]; eauto 10|].
  destruct (F OpSeek); [intros [= <- <- <-]; eauto 10|].
  destruct (F OpRead); [intros [= <- <- <-]; eauto 10|].
  destruct (F OpClose); [intros [= <- <- <-]; eauto 10|].
  change (uploadPath (set_uploads (delete id) um) id) with (uploadPath um id).
  rewrite uploadPath_good, Hc by done. simpl default.
  change ("sha256:" +:+ EncodeToString (sha256 c)) with (FromBytes c).
  pose proof (BlobStore.Remove_files F HF os (uploadFile (um_root um) id)) as Hrm.
  case_decide as Hd; [intros [= <- <- <-]; eauto 10|].
  subst expected.
  assert (canonical (FromBytes c)) as Hcan by apply FromBytes_canonical.
  rewrite BlobStore.blobPath_canonical, Hroot by (done || by rewrite Hroot).
  destruct (F OpMkdirAll); [intros [= <- <- <-]; eauto 10|].
  set (p := BlobStore.blobFile (um_root um) (FromBytes c)) in *.
  assert (p ≠ uploadFile (um_root um) id) as Hp.
  { intros E. symmetry in E. by apply uploadFile_not_blob in E. }
  assert (∀ r os2, Rename F os (uploadFile (um_root um) id) p = (r, os2) →
    (∃ e, r = Err e ∧ os2 = os) ∨
    (r = Ok tt ∧ os_files os2 = <[p := c]> (delete (uploadFile (um_root um) id) (os_files os))))
    as Hren.
  { intros r os2. unfold Rename. destruct (F OpRename); [intros [= <- <-]; eauto|].
    rewrite Hc. intros [= <- <-]. by right. }
  assert (∀ r um2 os2,
    match Rename F os (uploadFile (um_root um) id) p with
    | (Err e, os) => (Err (wrap "moving blob" e),
        (set_uploads (delete id) um, (Remove F os (uploadFile (um_root um) id)).2))
    | (r, os) => (r, (set_uploads (delete id) um, os))
    end = (r, (um2, os2)) → um2 = set_uploads (delete id) um ∧
    ((∃ e, r = Err e ∧ os_files os2 = delete (uploadFile (um_root um) id) (os_files os)) ∨
     (r = Ok tt ∧ os_files os2 = <[p := c]> (delete (uploadFile (um_root um) id) (os_files os)))))
    as Htail.
  { intros r um2 os2. destruct (Rename _ _ _ _) as [r2 os3].
    destruct (Hren r2 os3 eq_refl) as [(e & -> & ->)|(-> & Hf)]; intros [= <- <- <-]; eauto 10. }
  destruct (Stat F os p) as [sz|e|m] eqn:HS.
  - intros [= <- <- <-]. split; [done|]. right. split; [done|].
    unfold Stat in HS. destruct (F OpStat); [done|].
    destruct (os_files os !! p) as [c'|] eqn:Hc'; [|done].
    exists u, c, c'. split_and!; [done..|by right|]. rewrite Hrm.
    rewrite insert_id; [done|]. by rewrite lookup_delete_ne by done.
  - intros H. destruct (Htail _ _ _ H) as [-> [(e' & -> & ?)|[-> ?]]]; (split; [done|]); [left|right]; eauto 12.
  - intros H. destruct (Htail _ _ _ H) as [-> [(e' & -> & ?)|[-> ?]]]; (split; [done|]); [left|right]; eauto 12.
Qed.

(** ** The other operations *)

(** The files of one session after another's file was written. *)
Lemma lookup_alter_other (files : gmap string bytes) f root id id' :
  normal id → normal id' → id ≠ id' →
  alter f (uploadFile root id) files !! uploadFile root id' = files !! uploadFile root id'.
Proof. intros H1 H2 Hne. apply lookup_alter_ne. by intros E%uploadFile_inj. Qed.

Lemma lookup_alter_blob (files : gmap string bytes) f root id d :
  good_id id → canonical d →
  alter f (uploadFile root id) files !! BlobStore.blobFile root d =
  files !! BlobStore.blobFile root d.
Proof. intros H1 H2. apply lookup_alter_ne. by apply uploadFile_not_blob. Qed.

(** Replacing one session and its file. *)
Lemma um_ok_update um files id u u' c f :
  um_ok um files → um_uploads um !! id = Some u →
  files !! uploadFile (um_root um) id = Some c →
  up_ID u' = id → (0 ≤ up_pos u' ≤ up_Size u')%Z → (blen (f c) ≤ up_Size u')%Z →
  um_ok (set_uploads <[id := u']> um) (alter f (uploadFile (um_root um) id) files).
Proof.
  intros Hok Hu Hc HID Hpos Hlen id' u2 H2. simpl in *.
  destruct (Hok id u Hu) as (_ & Hg & _).
  apply lookup_insert_Some in H2 as [[<- <-]|[Hne H2]].
  - repeat (split; [done|]). exists (f c). rewrite lookup_alter_eq, Hc. done.
  - destruct (Hok id' u2 H2) as (? & Hg' & ? & c2 & Hc2 & ?).
    repeat (split; [done|]). exists c2.
    rewrite lookup_alter_other; [done|apply Hg|apply Hg'|done].
Qed.

Lemma blen_write_at c off data :
  (0 ≤ off)%Z →
  (blen (write_at c (Z.to_nat off) data) ≤ Z.max (blen c) (off + blen data))%Z.
Proof.
  intros H. unfold blen. rewrite length_write_at. destruct data; simpl; lia.
Qed.

Lemma Write_ok F um os id u r :
  BlobStore.good_root (um_root um) → um_ok um (os_files os) → um_uploads um !! id = Some u →
  (up_Size u + blen (rd_data r) ≤ maxInt64)%Z →
  let '(_, (um', os')) := Write F um os u r in
  um_ok um' (os_files os') ∧ um_root um' = um_root um.
Proof.
  intros Hr Hok Hu Hov. unfold Write. destruct (F OpWrite); [done|].
  destruct (Hok id u Hu) as (HID & [Hn _] & Hpos & c & Hc & Hlen). subst id.
  split; [|done]. unfold file_write. cbn [os_files set_files]. rewrite uploadPath_good by done.
  assert (0 ≤ blen (rd_data r))%Z by (unfold blen; lia).
  rewrite wrap64_id by (unfold in64, minInt64; lia).
  apply (um_ok_update _ _ _ u _ c); try done.
  - simpl. lia.
  - simpl. pose proof (blen_write_at c (up_pos u) (rd_data r)). lia.
Qed.

Lemma WriteAt_ok F um os id u r off :
  BlobStore.good_root (um_root um) → um_ok um (os_files os) → um_uploads um !! id = Some u →
  (off + blen (rd_data r) ≤ maxInt64)%Z →
  let '(_, (um', os')) := WriteAt F um os u r off in
  um_ok um' (os_files os') ∧ um_root um' = um_root um.
Proof.
  intros Hr Hok Hu Hov. unfold WriteAt. case_decide as Hoff; [done|].
  destruct (F OpSeek); [done|].
  destruct (Hok id u Hu) as (HID & [Hn Hid] & Hpos & c & Hc & Hlen). subst id.
  assert (0 ≤ blen (rd_data r))%Z by (unfold blen; lia).
  destruct (F OpWrite); (split; [|done]).
  - rewrite wrap64_id by (unfold in64, minInt64; lia).
    intros id' u2 H2. simpl in *. apply lookup_insert_Some in H2 as [[<- <-]|[_ H2]]; [|by apply Hok].
    simpl. split_and!; [done..| | |].
    + lia.
    + case_decide; lia.
    + exists c. split; [done|]. case_decide; lia.
  - rewrite wrap64_id by (unfold in64, minInt64; lia).
    unfold file_write. cbn [os_files set_files]. rewrite uploadPath_good by done.
    apply (um_ok_update _ _ _ u _ c); try done.
    + simpl. case_decide; lia.
    + simpl. pose proof (blen_write_at c off (rd_data r)). case_decide; lia.
Qed.

Lemma Start_ok F um os b now1 now2 repo :
  BlobStore.good_root (um_root um) → length b = 16 → um_ok um (os_files os) →
  let '(_, (um', os')) := Start F um os (Some b) now1 now2 repo in
  um_ok um' (os_files os') ∧ um_root um' = um_root um.
Proof.
  intros Hr Hb Hok. unfold Start, Create. destruct (F OpCreate); [done|].
  pose proof (generateUploadID_good b now1 Hb) as [Hn Hl].
  set (id := generateUploadID _ _) in *. split; [|done].
  rewrite uploadPath_good by done. intros id' u H2. simpl in *.
  apply lookup_insert_Some in H2 as [[<- <-]|[Hne H2]].
  - simpl. split_and!; [done..|]. exists []. by rewrite lookup_insert_eq.
  - destruct (Hok id' u H2) as (? & [Hn' Hl'] & ? & c2 & Hc2 & ?).
    repeat (split; [done|]). exists c2.
    rewrite lookup_insert_ne; [done|]. by intros E%uploadFile_inj.
Qed.

(** Removing one session with its file, as [Cancel] and the clean-up do. *)
Definition drop_session (um : UploadManager) (files : gmap string bytes) (id : string) :=
  (set_uploads (delete id) um, delete (uploadFile (um_root um) id) files).

Lemma um_ok_drop um files id :
  good_id id → um_ok um files →
  um_ok (set_uploads (delete id) um) (delete (uploadFile (um_root um) id) files).
Proof.
  intros Hg Hok. apply (um_ok_finish _ files); [done..|]. intros id' Hg' Hne.
  rewrite lookup_delete_ne; [done|]. intros E%uploadFile_inj; [done|apply Hg|apply Hg'].
Qed.

Lemma Cancel_spec F um os id :
  F OpRemove = None → BlobStore.good_root (um_root um) → um_ok um (os_files os) →
  let '(res, (um', os')) := Cancel F um os id in
  match um_uploads um !! id with
  | None => res = Err ErrUploadNotFound ∧ um' = um ∧ os' = os
  | Some _ => res = Ok tt ∧ um' = set_uploads (delete id) um ∧
              os_files os' = delete (uploadFile (um_root um) id) (os_files os)
  end.
Proof.
  intros HF Hr Hok. unfold Cancel. destruct (um_uploads um !! id) as [u|] eqn:Hu; [|done].
  destruct (Hok id u Hu) as (_ & [Hn _] & _ & c & Hc & _).
  change (uploadPath (set_uploads (delete id) um) id) with (uploadPath um id).
  rewrite uploadPath_good by done. unfold Remove. by rewrite HF, Hc.
Qed.

(** The identifiers of the stale sessions of a table. *)
Definition stale_ids (now : Time) (l : list (string * Upload)) : list string :=
  (filter (λ iu, stale now iu.2 = true) l).*1.

(** The clean-up loop over any part of the table. *)
Lemma cleanup_fold F now l um os :
  F OpRemove = None → BlobStore.good_root (um_root um) →
  Forall (λ iu, good_id iu.1) l →
  let '(um', os') := foldl (λ '(um, os) '(id, u),
    if stale now u then
      (set_uploads (delete id) um, (Remove F os (uploadPath um id)).2)
    else (um, os)) (um, os) l in
  um_root um' = um_root um ∧
  (∀ id, um_uploads um' !! id =
     if decide (id ∈ stale_ids now l) then None else um_uploads um !! id) ∧
  (∀ p, os_files os' !! p =
     if decide (p ∈ uploadFile (um_root um) <$> stale_ids now l)
     then None else os_files os !! p).
Proof.
  intros HF Hr Hl. revert um os Hr. unfold stale_ids.
  induction Hl as [|[id u] l [Hn _] Hl IH]; intros um os Hr; [done|].
  cbn [foldl]. rewrite filter_cons. simpl in Hn. cbn [snd].
  destruct (stale now u) eqn:Hs.
  - rewrite decide_True by done.
    specialize (IH (set_uploads (delete id) um) (Remove F os (uploadPath um id)).2 Hr).
    destruct (foldl _ _ l) as [um' os']. destruct IH as (H1 & H2 & H3). split_and!; [done|..].
    + intros id'. rewrite H2. simpl. rewrite lookup_delete.
      repeat case_decide; set_solver.
    + intros p. rewrite H3, BlobStore.Remove_files, uploadPath_good, lookup_delete by done. simpl.
      repeat case_decide; set_solver.
  - rewrite decide_False by done. by apply IH.
Qed.

(** Finishing a session: whatever fails, the session is gone, the blob store
    stays content addressed and the other sessions keep their files.  Success
    means that the session's file had exactly the expected digest, is no
    longer among the uploads and that the blob with that digest is present;
    every error leaves all the blobs as they were; it never panics, also for
    a malformed expected digest. *)
Theorem Finish_spec F um os id expected bs res um' os' :
  F OpRemove = None → BlobStore.good_root (um_root um) → bs.(BlobStore.bs_root) = um_root um →
  um_ok um (os_files os) → BlobStore.store_ok (um_root um) (os_files os) →
  Finish F um os id expected bs = (res, (um', os')) →
  um_uploads um' !! id = None ∧
  um_ok um' (os_files os') ∧ BlobStore.store_ok (um_root um) (os_files os') ∧
  match res with
  | Ok _ => ∃ c, os_files os !! uploadFile (um_root um) id = Some c ∧ expected = FromBytes c ∧
      os_files os' !! uploadFile (um_root um) id = None ∧
      ∃ c', os_files os' !! BlobStore.blobFile (um_root um) expected = Some c' ∧
        expected = FromBytes c'
  | Err _ => ∀ d, canonical d →
      os_files os' !! BlobStore.blobFile (um_root um) d =
      os_files os !! BlobStore.blobFile (um_root um) d
  | Panic _ => False
  end.
Proof.
  intros HF Hr Hroot Hok Hst HFin.
  apply Finish_cases in HFin as [-> HFin]; [|done..].
  split; [by simpl; rewrite lookup_delete_eq|].
  destruct HFin as [(e & -> & [->|(u & Hu & ->)])|(-> & u & c & c' & Hu & Hc & -> & Hc' & ->)].
  - split_and!; [by apply um_ok_delete_session|done|done].
  - destruct (Hok id u Hu) as (_ & Hg & _). pose proof Hg as [Hn _]. split_and!.
    + apply (um_ok_finish _ (os_files os)); [done..|]. intros id' [Hn' _] Hne.
      rewrite lookup_delete_ne; [done|]. intros E%uploadFile_inj; auto.
    + by apply BlobStore.store_ok_delete.
    + intros d Hd. rewrite lookup_delete_ne; [done|]. by apply uploadFile_not_blob.
  - destruct (Hok id u Hu) as (_ & Hg & _). pose proof Hg as [Hn _].
    assert (canonical (FromBytes c)) as Hcan by apply FromBytes_canonical.
    assert (FromBytes c = FromBytes c') as Hcc.
    { destruct Hc' as [->|Hc']; [done|]. by apply Hst. }
    split_and!.
    + apply (um_ok_finish _ (os_files os)); [done..|]. intros id' Hg' Hne.
      rewrite lookup_insert_ne by (intros E; symmetry in E; by apply uploadFile_not_blob in E).
      rewrite lookup_delete_ne; [done|]. intros E%uploadFile_inj; [done|done|apply Hg'].
    + rewrite Hcc. by apply BlobStore.store_ok_insert_blob, BlobStore.store_ok_delete.
    + exists c. split_and!; [done..| |].
      * rewrite lookup_insert_ne by (intros E; symmetry in E; by apply uploadFile_not_blob in E).
        apply lookup_delete_eq.
      * exists c'. by rewrite lookup_insert_eq.
Qed.

(** One tick of the clean-up removes exactly the sessions started more than
    24 hours before, with their files: every other session and every other
    file, blobs included, is unchanged. *)
Theorem cleanupTick_spec F um os now :
  F OpRemove = None → BlobStore.good_root (um_root um) → um_ok um (os_files os) →
  let '(um', os') := cleanupTick F um os now in
  (∀ id, um_uploads um' !! id =
     u ← um_uploads um !! id;
     if decide (TimeSub now (up_StartedAt u) > 24 * Hour)%Z then None else Some u) ∧
  um_ok um' (os_files os') ∧
  (∀ d, canonical d → os_files os' !! BlobStore.blobFile (um_root um) d =
                      os_files os !! BlobStore.blobFile (um_root um) d).
Proof.
  intros HF Hr Hok. unfold cleanupTick.
  pose proof (cleanup_fold F now (map_to_list (um_uploads um)) um os HF Hr) as Hfold.
  assert (Forall (λ iu, good_id iu.1) (map_to_list (um_uploads um))) as Hall.
  { apply Forall_forall. intros [id u] Hin%elem_of_map_to_list. by apply (Hok id u). }
  specialize (Hfold Hall). destruct (foldl _ _ _) as [um' os'].
  destruct Hfold as (Hroot & Hups & Hfiles).
  assert (∀ id, id ∈ stale_ids now (map_to_list (um_uploads um)) ↔
    ∃ u, um_uploads um !! id = Some u ∧ stale now u = true) as Hst.
  { intros id. unfold stale_ids. rewrite list_elem_of_fmap. split.
    - intros ([id' u] & -> & [Hs Hin]%list_elem_of_filter).
      apply elem_of_map_to_list in Hin. eauto.
    - intros (u & Hu & Hs). exists (id, u). split; [done|].
      apply list_elem_of_filter. split; [done|]. by apply elem_of_map_to_list. }
  split_and!.
  - intros id. rewrite Hups. destruct (um_uploads um !! id) as [u|] eqn:Hu.
    + simpl. apply decide_ext. rewrite Hst, Hu. unfold stale.
      setoid_rewrite bool_decide_eq_true. naive_solver.
    + by case_decide.
  - intros id u Hu. rewrite Hups in Hu. case_decide as Hnot; [done|].
    destruct (Hok id u Hu) as (? & Hg & ? & c & Hc & ?). rewrite Hroot.
    repeat (split; [done|]). exists c. rewrite Hfiles, decide_False; [done|].
    intros (id' & E & Hin)%list_elem_of_fmap.
    apply uploadFile_inj in E as ->; [done|apply Hg|].
    apply Hst in Hin as (u' & Hu' & _). by destruct (Hok _ _ Hu') as (_ & [] & _).
  - intros d Hd. rewrite Hfiles, decide_False; [done|].
    intros (id & E & (u & Hu & _)%Hst)%list_elem_of_fmap. symmetry in E.
    apply uploadFile_not_blob in E; [done|by destruct (Hok _ _ Hu) as (_ & ? & _)|done].
Qed.

(** ** Interleaved sessions *)

Inductive uop :=
  | UStart (b : bytes) (now1 now2 : Time) (repo : string)
  | UWrite (id : string) (r : Reader)
  | UWriteAt (id : string) (r : Reader) (offset : Z)
  | UFinish (id : string) (expected : Digest)
  | UCancel (id : string)
  | UCleanup (now : Time).

Definition urun (F : Faults) (bs : BlobStore.BlobStore) (o : uop) (st : UploadManager * Os)
    : UploadManager * Os :=
  let '(um, os) := st in
  match o with
  | UStart b now1 now2 repo => (Start F um os (Some b) now1 now2 repo).2
  | UWrite id r => match Get um id with Ok u => (Write F um os u r).2 | _ => st end
  | UWriteAt id r off => match Get um id with Ok u => (WriteAt F um os u r off).2 | _ => st end
  | UFinish id d => (Finish F um os id d bs).2
  | UCancel id => (Cancel F um os id).2
  | UCleanup now => cleanupTick F um os now
  end.

(** Random identifiers of 16 bytes, and no session that reaches 2^63 bytes. *)
Definition uop_ok (o : uop) (um : UploadManager) : Prop :=
  match o with
  | UStart b _ _ _ => length b = 16
  | UWrite id r => ∀ u, um_uploads um !! id = Some u →
      (up_Size u + blen (rd_data r) ≤ maxInt64)%Z
  | UWriteAt id r off => (off + blen (rd_data r) ≤ maxInt64)%Z
  | _ => True
  end.

Inductive usteps (F : Faults) (bs : BlobStore.BlobStore)
    : UploadManager * Os → UploadManager * Os → Prop :=
  | usteps_refl st : usteps F bs st st
  | usteps_step o st st' :
      usteps F bs st st' → uop_ok o st'.1 → usteps F bs st (urun F bs o st').

Lemma store_ok_same_blobs root files files' :
  BlobStore.store_ok root files →
  (∀ d, canonical d → files' !! BlobStore.blobFile root d = files !! BlobStore.blobFile root d) →
  BlobStore.store_ok root files'.
Proof. intros Hok Hs d c Hd Hc. rewrite Hs in Hc by done. by apply Hok. Qed.

Lemma urun_blobs F um os o id u :
  BlobStore.good_root (um_root um) → um_ok um (os_files os) →
  um_uploads um !! id = Some u →
  (∃ r, o = UWrite id r) ∨ (∃ r off, o = UWriteAt id r off) →
  ∀ bs d, canonical d →
    os_files (urun F bs o (um, os)).2 !! BlobStore.blobFile (um_root um) d =
    os_files os !! BlobStore.blobFile (um_root um) d.
Proof.
  intros Hr Hok Hu Ho bs d Hd. destruct (Hok id u Hu) as (HID & Hg & _).
  destruct Ho as [[r ->]|(r & off & ->)]; simpl; unfold Get; rewrite Hu.
  - unfold Write. destruct (F OpWrite); [done|]. unfold file_write. simpl.
    rewrite HID, uploadPath_good by (done || apply Hg). by apply lookup_alter_blob.
  - unfold WriteAt. case_decide; [done|]. destruct (F OpSeek); [done|].
    destruct (F OpWrite); [done|]. unfold file_write. simpl.
    rewrite HID, uploadPath_good by (done || apply Hg). by apply lookup_alter_blob.
Qed.
Lemma Start_blobs F um os b now1 now2 repo d :
  BlobStore.good_root (um_root um) → length b = 16 → canonical d →
  os_files (Start F um os (Some b) now1 now2 repo).2.2 !! BlobStore.blobFile (um_root um) d =
  os_files os !! BlobStore.blobFile (um_root um) d.
Proof.
  intros Hr Hb Hd. unfold Start, Create. destruct (F OpCreate); [done|]. simpl.
  pose proof (generateUploadID_good b now1 Hb) as Hg. simpl in Hg.
  rewrite uploadPath_good by (done || apply Hg). apply lookup_insert_ne.
  by apply uploadFile_not_blob.
Qed.

Definition uinv (root : string) (st : UploadManager * Os) : Prop :=
  um_root st.1 = root ∧ um_ok st.1 (os_files st.2) ∧ BlobStore.store_ok root (os_files st.2).

Lemma urun_inv F bs o um os root :
  F OpRemove = None → BlobStore.good_root root → BlobStore.bs_root bs = root →
  uinv root (um, os) → uop_ok o um → uinv root (urun F bs o (um, os)).
Proof.
  intros HF Hr Hbs (Hroot & Hok & Hst) Ho. simpl in Hroot, Hok, Hst.
  destruct Hroot.
  assert (∀ st', um_ok st'.1 (os_files st'.2) → um_root st'.1 = um_root um →
    (∀ d, canonical d → os_files st'.2 !! BlobStore.blobFile (um_root um) d =
                        os_files os !! BlobStore.blobFile (um_root um) d) →
    uinv (um_root um) st') as Hintro.
  { intros st' H1 H2 H3. split; [done|]. split; [done|]. exact (store_ok_same_blobs _ _ _ Hst H3). }
  assert (uinv (um_root um) (um, os)) as Hsame by done.
  destruct o as [b n1 n2 repo|id r|id r off|id d|id|now]; simpl in Ho.
  - pose proof (Start_ok F um os b n1 n2 repo Hr Ho Hok) as Hs.
    pose proof (λ d, Start_blobs F um os b n1 n2 repo d Hr Ho) as Hb.
    unfold urun. destruct (Start _ _ _ _ _ _ _) as [res [um' os']]. apply Hintro; naive_solver.
  - destruct (um_uploads um !! id) as [u|] eqn:Hu; [|by unfold urun, Get; rewrite Hu].
    pose proof (urun_blobs F um os (UWrite id r) id u Hr Hok Hu (or_introl (ex_intro _ r eq_refl)) bs) as Hb.
    pose proof (Write_ok F um os id u r Hr Hok Hu (Ho u eq_refl)) as Hw.
    unfold urun, Get in *. rewrite Hu in *.
    destruct (Write _ _ _ _ _) as [res [um' os']]. apply Hintro; naive_solver.
  - destruct (um_uploads um !! id) as [u|] eqn:Hu; [|by unfold urun, Get; rewrite Hu].
    pose proof (urun_blobs F um os (UWriteAt id r off) id u Hr Hok Hu
      (or_intror (ex_intro _ r (ex_intro _ off eq_refl))) bs) as Hb.
    pose proof (WriteAt_ok F um os id u r off Hr Hok Hu Ho) as Hw.
    unfold urun, Get in *. rewrite Hu in *.
    destruct (WriteAt _ _ _ _ _ _) as [res [um' os']]. apply Hintro; naive_solver.
  - unfold urun. destruct (Finish F um os id d bs) as [res [um' os']] eqn:HFin.
    pose proof (Finish_cases F um os id d bs res um' os' HF Hr Hbs Hok HFin) as [-> Hcases].
    destruct Hcases as [(e & -> & [Hf|(u & Hu & Hf)])|(-> & u & c & c' & Hu & Hc & -> & Hc' & Hf)].
    + apply Hintro; simpl; rewrite ?Hf; [by apply um_ok_delete_session|done|done].
    + destruct (Hok id u Hu) as (_ & Hg & _).
      apply Hintro; simpl; rewrite ?Hf; [by apply um_ok_drop|done|].
      intros d' Hd'. rewrite lookup_delete_ne; [done|]. by apply uploadFile_not_blob.
    + destruct (Hok id u Hu) as (_ & Hg & _).
      assert (FromBytes c = FromBytes c') as Hcc.
      { destruct Hc' as [->|Hc']; [done|]. apply Hst; [apply FromBytes_canonical|done]. }
      split_and!; [done| |]; simpl; rewrite Hf.
      * apply (um_ok_files _ (delete (uploadFile (um_root um) id) (os_files os)));
          [by apply um_ok_drop|].
        intros id' u' Hu'. simpl in Hu'. apply lookup_delete_Some in Hu' as [_ Hu'].
        rewrite lookup_insert_ne; [done|]. intros E; symmetry in E.
        apply uploadFile_not_blob in E; [done|by destruct (Hok _ _ Hu') as (_ & ? & _)|].
        apply FromBytes_canonical.
      * rewrite Hcc. by apply BlobStore.store_ok_insert_blob, BlobStore.store_ok_delete.
  - pose proof (Cancel_spec F um os id HF Hr Hok) as Hc. unfold urun.
    destruct (Cancel F um os id) as [res [um' os']].
    destruct (um_uploads um !! id) as [u|] eqn:Hu; destruct Hc as (-> & -> & Hf).
    + destruct (Hok id u Hu) as (_ & Hg & _).
      apply Hintro; simpl; rewrite ?Hf; [by apply um_ok_drop|done|].
      intros d' Hd'. rewrite lookup_delete_ne; [done|]. by apply uploadFile_not_blob.
    + by rewrite Hf.
  - unfold urun. unfold cleanupTick.
    assert (Forall (λ iu, good_id iu.1) (map_to_list (um_uploads um))) as Hall.
    { apply Forall_forall. intros [id u] Hin%elem_of_map_to_list. by apply (Hok id u). }
    pose proof (cleanup_fold F now (map_to_list (um_uploads um)) um os HF Hr Hall) as Hfold.
    destruct (foldl _ _ _) as [um' os']. destruct Hfold as (Hroot & Hups & Hfiles).
    apply Hintro; simpl; [|done|].
    + intros id u Hu. rewrite Hups in Hu. case_decide as Hnot; [done|].
      destruct (Hok id u Hu) as (? & Hg & ? & c & Hc & ?). rewrite Hroot.
      repeat (split; [done|]). exists c. rewrite Hfiles, decide_False; [done|].
      intros (id' & E & Hin)%list_elem_of_fmap.
      assert (good_id id') as [Hn' _].
      { unfold stale_ids in Hin.
        apply list_elem_of_fmap in Hin as (iu & -> & [_ Hin]%list_elem_of_filter).
        rewrite Forall_forall in Hall. by apply Hall. }
      apply uploadFile_inj in E as ->; [done|apply Hg|done].
    + intros d Hd. rewrite Hfiles, decide_False; [done|].
      intros (id & E & Hin)%list_elem_of_fmap. symmetry in E.
      apply uploadFile_not_blob in E; [done| |done].
      unfold stale_ids in Hin.
      apply list_elem_of_fmap in Hin as (iu & -> & [_ Hin]%list_elem_of_filter).
      rewrite Forall_forall in Hall. by apply Hall.
Qed.
(** Whatever the interleaving of uploads, aborts, clean-ups and completions
    of any number of sessions, and whichever system call other than removal
    fails: every session's file exists and is never longer than the size
    the session reports, and the blob store stays content addressed. *)
Theorem sessions_invariant F bs um os st' :
  F OpRemove = None → BlobStore.good_root (um_root um) → BlobStore.bs_root bs = um_root um →
  um_ok um (os_files os) → BlobStore.store_ok (um_root um) (os_files os) →
  usteps F bs (um, os) st' →
  um_root st'.1 = um_root um ∧
  um_ok st'.1 (os_files st'.2) ∧ BlobStore.store_ok (um_root um) (os_files st'.2).
Proof.
  intros HF Hr Hbs Hok Hst Hsteps.
  assert (uinv (um_root um) st') as Hinv; [|exact Hinv].
  remember (um, os) as st eqn:E. induction Hsteps as [st|o st st' Hsteps IH Ho].
  - subst. split; [done|]. by split.
  - destruct st' as [um1 os1]. apply urun_inv; auto.
Qed.

(** ** Chunked uploads *)

(** A chunk, appended by [Write] or sent with its offset through [WriteAt]. *)
Definition send_chunk (F : Faults) (st : UploadManager * Os) (id : string)
    (ch : bool * bytes) : result Z * (UploadManager * Os) :=
  let '(um, os) := st in
  match Get um id with
  | Ok u => if ch.1 then WriteAt F um os u (NewReader ch.2) (up_Size u)
            else Write F um os u (NewReader ch.2)
  | Err e => (Err e, st)
  | Panic m => (Panic m, st)
  end.

Definition send_chunks (F : Faults) (st : UploadManager * Os) (id : string)
    (chs : list (bool * bytes)) : UploadManager * Os :=
  foldl (λ st ch, (send_chunk F st id ch).2) st chs.

(** The session has received exactly [data]. *)
Definition received (st : UploadManager * Os) (id : string) (data : bytes) : Prop :=
  ∃ u, um_uploads st.1 !! id = Some u ∧ up_ID u = id ∧
    up_pos u = blen data ∧ up_Size u = blen data ∧
    os_files st.2 !! uploadFile (um_root st.1) id = Some data.

Lemma send_chunk_received st id data ch :
  BlobStore.good_root (um_root st.1) → good_id id → received st id data →
  (blen data + blen ch.2 ≤ maxInt64)%Z →
  let st' := (send_chunk noFaults st id ch).2 in
  um_root st'.1 = um_root st.1 ∧ received st' id (data ++ ch.2) ∧
  ∀ p, p ≠ uploadFile (um_root st.1) id → os_files st'.2 !! p = os_files st.2 !! p.
Proof.
  destruct st as [um os], ch as [at_ d]. simpl. intros Hr [Hn _] (u & Hu & HID & Hpos & Hsz & Hf) Hov.
  simpl in Hu, Hf. unfold Get. rewrite Hu. destruct HID.
  assert (∀ a b, blen (a ++ b) = blen a + blen b)%Z as Happ.
  { intros a b. unfold blen. rewrite length_app. lia. }
  assert (0 ≤ blen data)%Z by (unfold blen; lia). assert (0 ≤ blen d)%Z by (unfold blen; lia).
  assert (Z.to_nat (blen data) = length data) as Hlen by (unfold blen; lia).
  assert (∀ b, os_files (file_write os (uploadPath um (up_ID u)) (blen data) b)
     !! uploadFile (um_root um) (up_ID u) = Some (data ++ b)) as Hw.
  { intros b. unfold file_write. simpl. rewrite uploadPath_good by done.
    by rewrite lookup_alter_eq, Hf, Hlen; simpl; rewrite write_at_end. }
  assert (∀ b p, p ≠ uploadFile (um_root um) (up_ID u) →
    os_files (file_write os (uploadPath um (up_ID u)) (blen data) b) !! p = os_files os !! p) as Ho.
  { intros b p Hp. unfold file_write. simpl. rewrite uploadPath_good by done.
    by apply lookup_alter_ne. }
  destruct at_; simpl.
  - unfold WriteAt. rewrite decide_False by lia. simpl. rewrite Hsz. split; [done|].
    split; [|apply Ho]. eexists. simpl. rewrite lookup_insert_eq. split; [done|]. simpl.
    rewrite wrap64_id by (unfold in64, minInt64; lia). rewrite Happ.
    split_and!; [done|lia|case_decide; lia|]. apply Hw.
  - unfold Write. simpl. split; [done|]. rewrite Hpos.
    split; [|apply Ho]. eexists. simpl. rewrite lookup_insert_eq. split; [done|]. simpl.
    rewrite wrap64_id by (unfold in64, minInt64; lia). rewrite Happ.
    split_and!; [done|lia|lia|]. apply Hw.
Qed.

Lemma send_chunks_received chs st id data :
  BlobStore.good_root (um_root st.1) → good_id id → received st id data →
  (blen data + blen (concat (snd <$> chs)) ≤ maxInt64)%Z →
  let st' := send_chunks noFaults st id chs in
  um_root st'.1 = um_root st.1 ∧ received st' id (data ++ concat (snd <$> chs)) ∧
  ∀ p, p ≠ uploadFile (um_root st.1) id → os_files st'.2 !! p = os_files st.2 !! p.
Proof.
  revert st data. induction chs as [|ch chs IH]; intros st data Hr Hg Hrec Hov.
  { simpl. rewrite app_nil_r. done. }
  assert (blen (concat (snd <$> ch :: chs)) = blen ch.2 + blen (concat (snd <$> chs)))%Z as Hc.
  { unfold blen. rewrite fmap_cons. cbn [concat]. rewrite length_app. lia. }
  assert (0 ≤ blen (concat (snd <$> chs)))%Z by (unfold blen; lia).
  destruct (send_chunk_received st id data ch Hr Hg Hrec) as (Hroot & Hrec' & Ho); [lia|].
  cbn [send_chunks foldl].
  destruct (IH (send_chunk noFaults st id ch).2 (data ++ ch.2)) as (Hroot' & Hrec'' & Ho').
  - by rewrite Hroot.
  - done.
  - done.
  - unfold blen in *. rewrite length_app. lia.
  - split; [exact (eq_trans Hroot' Hroot)|]. rewrite Hroot in Ho'. split.
    + rewrite fmap_cons. cbn [concat]. by rewrite app_assoc.
    + intros p Hp. exact (eq_trans (Ho' p Hp) (Ho p Hp)).
Qed.

Lemma Finish_received um os id data expected bs :
  BlobStore.good_root (um_root um) → BlobStore.bs_root bs = um_root um → good_id id →
  received (um, os) id data →
  os_files os !! BlobStore.blobFile (um_root um) (FromBytes data) = None →
  ∃ os', Finish noFaults um os id expected bs =
    (if decide (expected = FromBytes data) then Ok tt
     else Err (Errorf ("digest mismatch: expected " +:+ expected +:+ ", got " +:+ FromBytes data)),
     (set_uploads (delete id) um, os')) ∧
    os_files os' =
      let fs := delete (uploadFile (um_root um) id) (os_files os) in
      if decide (expected = FromBytes data)
      then <[BlobStore.blobFile (um_root um) expected := data]> fs else fs.
Proof.
  intros Hr Hbs [Hn _] (u & Hu & _ & _ & _ & Hf) Hnone. simpl in Hu, Hf.
  unfold Finish, noFaults. rewrite Hu.
  change (uploadPath (set_uploads (delete id) um) id) with (uploadPath um id).
  rewrite uploadPath_good, Hf by done. simpl default.
  change ("sha256:" +:+ EncodeToString (sha256 data)) with (FromBytes data).
  destruct (decide (expected = FromBytes data)) as [->|Hne].
  - rewrite decide_False by (intros H; by apply H).
    rewrite BlobStore.blobPath_canonical, Hbs by (rewrite ?Hbs; done || apply FromBytes_canonical).
    unfold Stat. rewrite Hnone. unfold Rename. rewrite Hf. eauto.
  - rewrite decide_True by auto. eexists. split; [done|].
    unfold Remove. by rewrite Hf.
Qed.

(** A chunked upload assembles the blob: after [Start] and any sequence of
    chunks, each appended or sent at the offset reached so far, [Finish]
    under the digest of their concatenation succeeds and the blob store
    holds exactly that concatenation; under any other digest it reports an
    error and every blob is as it was.  Either way the session and its file
    are gone. *)
Theorem chunked_upload um os b now1 now2 repo chs bs expected :
  let root := um_root um in
  let id := generateUploadID (Some b) now1 in
  let data := concat (snd <$> chs) in
  BlobStore.good_root root → BlobStore.bs_root bs = root → length b = 16 →
  (blen data ≤ maxInt64)%Z →
  os_files os !! BlobStore.blobFile root (FromBytes data) = None →
  let st := (Start noFaults um os (Some b) now1 now2 repo).2 in
  let st := send_chunks noFaults st id chs in
  ∃ res um' os', Finish noFaults st.1 st.2 id expected bs = (res, (um', os')) ∧
    um_uploads um' !! id = None ∧ os_files os' !! uploadFile root id = None ∧
    if decide (expected = FromBytes data) then
      res = Ok tt ∧ os_files os' !! BlobStore.blobFile root expected = Some data
    else
      (∃ e, res = Err e) ∧ os_files os' !! BlobStore.blobFile root (FromBytes data) = None.
Proof.
  intros root id data Hr Hbs Hb Hov Hnone st0 st.
  pose proof (generateUploadID_good b now1 Hb) as Hg. fold id in Hg. pose proof Hg as [Hn _].
  assert (um_root st0.1 = root ∧ received st0 id []) as [Hroot0 Hrec0].
  { split; [done|]. eexists. split; [apply lookup_insert_eq|].
    split_and!; [done..|]. unfold st0, Start. cbn. fold root.
    change (EncodeToString b) with id. rewrite uploadPath_good by done. apply lookup_insert_eq. }
  destruct (send_chunks_received chs st0 id []) as (Hroot & Hrec & Ho); [by rewrite Hroot0|done|done|done|].
  change ([] ++ concat (snd <$> chs)) with data in Hrec. fold st in Hroot, Hrec.
  rewrite Hroot0 in Hroot, Ho.
  assert (os_files st.2 !! BlobStore.blobFile root (FromBytes data) = None) as Hnone'.
  { rewrite Ho by (intros E; symmetry in E; revert E;
      apply uploadFile_not_blob, FromBytes_canonical; done).
    unfold st0. unfold root. rewrite Start_blobs by (done || apply FromBytes_canonical). done. }
  destruct st as [um1 os1]. cbn [fst snd] in *.
  destruct (Finish_received um1 os1 id data expected bs) as (os' & HFin & Hf);
    [by rewrite Hroot|by rewrite Hroot|done|done|by rewrite Hroot|].
  rewrite HFin. rewrite Hroot in Hf. eexists _, _, os'. split; [done|].
  split; [apply lookup_delete_eq|]. rewrite Hf. cbv zeta.
  assert (∀ d, canonical d → uploadFile root id ≠ BlobStore.blobFile root d) as Hne
    by (intros; by apply uploadFile_not_blob).
  case_decide as Hd.
  - subst expected. rewrite lookup_insert_ne by (apply not_eq_sym, Hne, FromBytes_canonical).
    by rewrite lookup_delete_eq, lookup_insert_eq.
  - rewrite lookup_delete_eq, lookup_delete_ne by (apply Hne, FromBytes_canonical). eauto.
Qed.

(** ** Witnesses *)

Definition exUM : UploadManager := mkUM BlobStore.srvRoot ∅.
Definition exId : bytes := repeat "a"%char 16.

Lemma exUM_ok : um_ok exUM ∅.
Proof. intros id u. simpl. by rewrite lookup_empty. Qed.

Lemma sessions_invariant_witness :
  ∃ st', usteps noFaults (BlobStore.NewBlobStore BlobStore.srvRoot) (exUM, os_empty) st' ∧
    is_Some (um_uploads st'.1 !! generateUploadID (Some exId) 1) ∧
    um_ok st'.1 (os_files st'.2).
Proof.
  pose (bs := BlobStore.NewBlobStore BlobStore.srvRoot).
  pose (st' := urun noFaults bs (UStart exId 1 2 "app") (exUM, os_empty)).
  assert (usteps noFaults bs (exUM, os_empty) st') as Hs.
  { apply usteps_step; [apply usteps_refl|reflexivity]. }
  exists st'. split; [exact Hs|]. split; [eexists; apply lookup_insert_eq|].
  exact (proj1 (proj2 (sessions_invariant noFaults bs exUM os_empty st' eq_refl
    BlobStore.good_srvRoot eq_refl exUM_ok (BlobStore.store_ok_empty _) Hs))).
Defined.

Lemma Finish_spec_witness :
  let '(res, (um', os')) := Finish noFaults exUM os_empty "x" "bad"
    (BlobStore.NewBlobStore BlobStore.srvRoot) in
  um_uploads um' !! "x" = None ∧ BlobStore.store_ok BlobStore.srvRoot (os_files os').
Proof.
  destruct (Finish_spec noFaults exUM os_empty "x" "bad"
    (BlobStore.NewBlobStore BlobStore.srvRoot) (Err ErrUploadNotFound) exUM os_empty
    eq_refl BlobStore.good_srvRoot eq_refl exUM_ok (BlobStore.store_ok_empty _) eq_refl)
    as (H1 & _ & H2 & _).
  exact (conj H1 H2).
Defined.

Lemma cleanupTick_spec_witness :
  let u := mkUpload "old" "app" 0 0 0 [] in
  let um := mkUM BlobStore.srvRoot {["old" := u]} in
  let os := mkOs {[uploadFile BlobStore.srvRoot "old" := []]} ∅ 0 in
  um_ok um (os_files os) ∧
  um_uploads (cleanupTick noFaults um os (25 * Hour)%Z).1 !! "old" = None.
Proof.
  intros u um os.
  assert (um_ok um (os_files os)) as Hok.
  { intros id u'. simpl. rewrite lookup_singleton. case_decide as Hid; [|done].
    intros [= <-]. subst id. split; [done|]. split.
    - split; [by apply (bool_decide_unpack _)|done].
    - split; [simpl; lia|]. exists []. split; [apply lookup_singleton_eq|done]. }
  split; [exact Hok|].
  pose proof (cleanupTick_spec noFaults um os (25 * Hour)%Z eq_refl BlobStore.good_srvRoot Hok) as H.
  destruct (cleanupTick _ _ _ _) as [um' os']. destruct H as [H _].
  cbn [fst]. rewrite H. by vm_compute.
Defined.

Lemma chunked_upload_witness :
  let st := (Start noFaults exUM os_empty (Some exId) 1 2 "app").2 in
  let chs := [(false, str_bytes "ab"); (true, str_bytes "cd")] in
  let st := send_chunks noFaults st (generateUploadID (Some exId) 1) chs in
  let d := FromBytes (str_bytes "abcd") in
  ∃ um' os', Finish noFaults st.1 st.2 (generateUploadID (Some exId) 1) d
      (BlobStore.NewBlobStore BlobStore.srvRoot) = (Ok tt, (um', os')) ∧
    os_files os' !! BlobStore.blobFile BlobStore.srvRoot d = Some (str_bytes "abcd").
Proof.
  intros st chs st' d.
  destruct (chunked_upload exUM os_empty exId 1 2 "app" chs
    (BlobStore.NewBlobStore BlobStore.srvRoot) d BlobStore.good_srvRoot eq_refl eq_refl
    ltac:(vm_compute; discriminate) (lookup_empty _)) as (res & um' & os' & HF & _ & _ & Hd).
  change (concat (snd <$> chs)) with (str_bytes "abcd") in Hd. fold d in Hd.
  rewrite decide_True in Hd by reflexivity. destruct Hd as [-> Hd].
  exists um', os'. exact (conj HF Hd).
Defined.

End Upload.
