(* ===== verification/Oci.v ===== *)
(** pkg/oci: the documents of the OCI distribution protocol, and the parts of a
    manifest that the code decodes. *)

From S2P Require Import Prelude GoLib Digest Os Blob Badger.

Module Oci.

Record Platform := mkPlatform {
  pl_Architecture : string;
  pl_OS : string;
  pl_OSVersion : string;
  pl_OSFeatures : list string;
  pl_Variant : string
}.

Record Descriptor := mkDescriptor {
  ds_MediaType : string;
  ds_Digest : Digest;
  ds_Size : Z;
  ds_URLs : list string;
  ds_Annotations : gmap string string;
  ds_Platform : option Platform
}.

(** A descriptor of which only the digest is given. *)
Definition blob_of (d : Digest) : Descriptor := mkDescriptor "" d 0 [] ∅ None.

(** The anonymous struct [handlePutManifest] decodes a pushed manifest or
    index into. *)
Record PutManifestBody := mkPutManifestBody {
  pm_MediaType : string;
  pm_Config : Descriptor;
  pm_Layers : list Descriptor;
  pm_Manifests : list Descriptor;
  pm_Subject : option Descriptor
}.

(** The anonymous struct [markManifest] decodes the same bytes into: only the
    digests. *)
Record GcManifest := mkGcManifest {
  gm_Config : string;
  gm_Layers : list string;
  gm_Manifests : list string
}.

Definition gc_view (m : PutManifestBody) : GcManifest :=
  mkGcManifest (ds_Digest (pm_Config m)) (ds_Digest <$> pm_Layers m)
    (ds_Digest <$> pm_Manifests m).

(** Decoding the smaller struct succeeds wherever the larger one does, with
    the same digests: encoding/json ignores the members a struct lacks. *)
Class GcJsonLaws `{!Json PutManifestBody} `{!JsonDecoder GcManifest} :=
  gc_decodes b m : json_Unmarshal b = Ok m → json_Decode b = Ok (gc_view m).

(** A concrete decoder, used by the witnesses: four lines with the media type,
    the configuration digest, the layer digests and the nested digests. *)
Definition newline : ascii := ascii_of_N 10.

Definition decodeBody (b : bytes) : result PutManifestBody :=
  match Split newline (bytes_str b) with
  | [mt; cfg; layers; nested] =>
    Ok (mkPutManifestBody mt (blob_of cfg) (blob_of <$> Fields layers)
          (blob_of <$> Fields nested) None)
  | _ => Err (Errorf "invalid character")
  end.

Definition encodeBody (mt cfg layers nested : string) : bytes :=
  str_bytes (mt +:+ String newline (cfg +:+ String newline (layers +:+ String newline nested))).

Definition jsonBody : Json PutManifestBody := {|
  json_Marshal := λ _, Err (Errorf "not encoded by the code");
  json_Unmarshal := decodeBody
|}.
Definition gcDecoder : JsonDecoder GcManifest := λ b, gc_view <$> @json_Unmarshal _ jsonBody b.

Lemma gcDecoderLaws : @GcJsonLaws jsonBody gcDecoder.
Proof. intros b m Hm. unfold json_Decode, gcDecoder. by rewrite Hm. Qed.

(** Error codes. *)
Definition ErrorCodeBlobUnknown : string := "BLOB_UNKNOWN".
Definition ErrorCodeBlobUploadInvalid : string := "BLOB_UPLOAD_INVALID".
Definition ErrorCodeBlobUploadUnknown : string := "BLOB_UPLOAD_UNKNOWN".
Definition ErrorCodeDigestInvalid : string := "DIGEST_INVALID".
Definition ErrorCodeManifestBlobUnknown : string := "MANIFEST_BLOB_UNKNOWN".
Definition ErrorCodeManifestInvalid : string := "MANIFEST_INVALID".
Definition ErrorCodeManifestUnknown : string := "MANIFEST_UNKNOWN".
Definition ErrorCodeNameUnknown : string := "NAME_UNKNOWN".
Definition ErrorCodeUnauthorized : string := "UNAUTHORIZED".
Definition ErrorCodeUnsupported : string := "UNSUPPORTED".

End Oci.

(** The stores every component of the registry shares. *)
Record World `{Badger} := mkWorld {
  w_bs : Blob.BlobStore.BlobStore;
  w_os : Os.Os;
  w_db : DB
}.
