(* ===== verification/Gc.v ===== *)
(** internal/gc/collector.go: mark-and-sweep garbage collection.

    [Run] is the collector's whole run on the shared stores; [markPhase] and
    [sweepPhase] are its two phases, which the code runs without excluding
    other requests, so interleavings with a push are sequences of the two
    phases and the push.  [sort.Slice] is not stable: the order it gives to
    equal keys is a parameter. *)

From S2P Require Import Prelude GoLib Digest Os Blob Badger Metadata Oci.

Module Gc.

Record Config := mkConfig {
  cf_Enabled : bool;
  cf_Schedule : string;
  cf_KeepRecent : Z;
  cf_DryRun : bool
}.

Record Stats := mkStats {
  st_BlobsScanned : Z;
  st_BlobsDeleted : Z;
  st_BytesFreed : Z;
  st_ManifestsKept : Z;
  st_ManifestsDeleted : Z;
  st_Errors : list string
}.

Definition noStats : Stats := mkStats 0 0 0 0 0 [].

Record tagInfo := mkTagInfo {
  ti_name : string;
  ti_digest : string;
  ti_time : Time
}.

(** [sort.Slice(tagInfos, newest first)]: sorted, in some order of the ties. *)
Class SortSlice := sortSlice : list tagInfo → list tagInfo.
Class SortSliceLaws `{SortSlice} := {
  sortSlice_perm l : sortSlice l ≡ₚ l;
  sortSlice_sorted l : StronglySorted (λ a b, ti_time b ≤ ti_time a)%Z (sortSlice l)
}.

Section gc.
Context `{Badger} `{!Json MetadataStore.ManifestMeta} `{!Json MetadataStore.RepoMeta}.
Context `{!JsonDecoder Oci.GcManifest} `{SortSlice}.
Context (F : Faults).

Definition add_error (s : Stats) (e : string) : Stats :=
  mkStats (st_BlobsScanned s) (st_BlobsDeleted s) (st_BytesFreed s) (st_ManifestsKept s)
    (st_ManifestsDeleted s) (st_Errors s ++ [e]).

(** The set of digests marked so far is a [map\[string\]bool] shared by the
    recursive calls.  [None]: out of fuel. *)
Fixpoint markManifest (fuel : nat) (w : World) (dgstStr : string) (referenced : gset string)
    : option (gset string * World) :=
  match fuel with
  | O => None
  | S fuel =>
    let referenced := {[dgstStr]} ∪ referenced in
    match Parse dgstStr with
    | Ok dgst =>
      match BlobStore.Get F (w_bs w) (w_os w) dgst with
      | (Ok (reader, _), (bs, os)) =>
        let w := mkWorld _ bs os (w_db w) in
        match json_Decode (BlobStore.reader_data reader) with
        | Ok manifest =>
          let referenced :=
            if decide (Oci.gm_Config manifest ≠ "") then {[Oci.gm_Config manifest]} ∪ referenced
            else referenced in
          let referenced := foldl (λ r l, {[l]} ∪ r) referenced (Oci.gm_Layers manifest) in
          foldl (λ st m, '(referenced, w) ← st; markManifest fuel w m referenced)
            (Some (referenced, w)) (Oci.gm_Manifests manifest)
        | _ => Some (referenced, w)
        end
      | (_, (bs, os)) => Some (referenced, mkWorld _ bs os (w_db w))
      end
    | _ => Some (referenced, w)
    end
  end.

(** The tags that resolve, with the creation time of their manifest. *)
Definition tagInfos (w : World) (repo : string) (tags : list string) : list tagInfo :=
  omap (λ tag,
    match MetadataStore.GetManifest (w_db w) repo tag with
    | Ok meta => Some (mkTagInfo tag (MetadataStore.mm_Digest meta)
                         (MetadataStore.mm_CreatedAt meta))
    | _ => None
    end) tags.

Definition keepCount (cfg : Config) (n : nat) : nat :=
  if decide (cf_KeepRecent cfg > 0 ∧ Z.of_nat n > cf_KeepRecent cfg)%Z
  then Z.to_nat (cf_KeepRecent cfg) else n.

Definition deleteTag (repo : string) (db : DB) (t : tagInfo) : DB :=
  (MetadataStore.DeleteManifest db repo (ti_name t)).2.

Definition markRepo (fuel : nat) (cfg : Config) (repo : string)
    (st : Stats * gset string * World) : option (Stats * gset string * World) :=
  let '(stats, referenced, w) := st in
  match MetadataStore.ListTags (w_db w) repo with
  | Ok tags =>
    let infos := sortSlice (tagInfos w repo tags) in
    let keep := keepCount cfg (length infos) in
    '(referenced, w) ← foldl (λ st t, '(referenced, w) ← st;
                               markManifest fuel w (ti_digest t) referenced)
                             (Some (referenced, w)) (take keep infos);
    let old := drop keep infos in
    let db := if cf_DryRun cfg then w_db w else foldl (deleteTag repo) (w_db w) old in
    Some (mkStats (st_BlobsScanned stats) (st_BlobsDeleted stats) (st_BytesFreed stats)
            (st_ManifestsKept stats + Z.of_nat (length (take keep infos)))
            (st_ManifestsDeleted stats + Z.of_nat (length old)) (st_Errors stats),
          referenced, mkWorld _ (w_bs w) (w_os w) db)
  | Err e => Some (add_error stats ("listing tags for " +:+ repo +:+ ": " +:+ err_msg e),
                   referenced, w)
  | Panic _ => Some (stats, referenced, w)
  end.

Definition markPhase (fuel : nat) (cfg : Config) (stats : Stats) (w : World)
    : option (Stats * gset string * World) :=
  match MetadataStore.ListRepositories (w_db w) with
  | Ok repos => foldl (λ st repo, st ← st; markRepo fuel cfg repo st) (Some (stats, ∅, w)) repos
  | Err e => Some (add_error stats ("listing repos: " +:+ err_msg e), ∅, w)
  | Panic _ => Some (stats, ∅, w)
  end.

(** The regular files [filepath.Walk] visits below a directory. *)
Definition walk (dir : string) (os : Os) : list (string * bytes) :=
  scan_prefix (dir +:+ "/") (os_files os).

(** The callback of the walk on one file. *)
Definition sweepFile (cfg : Config) (referenced : gset string) (st : Stats * Os)
    (file : string * bytes) : Stats * Os :=
  let '(stats, os) := st in
  let '(path, contents) := file in
  let s := mkStats (st_BlobsScanned stats + 1) (st_BlobsDeleted stats) (st_BytesFreed stats)
             (st_ManifestsKept stats) (st_ManifestsDeleted stats) (st_Errors stats) in
  let filename := Base path in
  if decide (String.length filename ≠ 64) then (s, os)
  else
    let dgstStr := "sha256:" +:+ filename in
    if decide (dgstStr ∈ referenced) then (s, os)
    else
      let deleted os := (mkStats (st_BlobsScanned s) (st_BlobsDeleted s + 1)
                           (wrap64 (st_BytesFreed s + blen contents))
                           (st_ManifestsKept s) (st_ManifestsDeleted s) (st_Errors s), os) in
      if cf_DryRun cfg then deleted os
      else match Remove F os path with
           | (Ok _, os) => deleted os
           | (Err e, os) => (add_error s ("deleting " +:+ dgstStr +:+ ": " +:+ err_msg e), os)
           | (Panic _, os) => (s, os)
           end.

Definition blobsDir (storagePath : string) : string := Join [storagePath; "blobs"; "sha256"].

Definition sweepPhase (cfg : Config) (storagePath : string) (stats : Stats)
    (referenced : gset string) (w : World) : Stats * World :=
  let '(stats, os) :=
    foldl (sweepFile cfg referenced) (stats, w_os w) (walk (blobsDir storagePath) (w_os w)) in
  (stats, mkWorld _ (w_bs w) os (w_db w)).

Record Collector := mkCollector {
  co_storagePath : string;
  co_config : Config;
  co_running : bool
}.

(** [Run]: refused while another run is in progress (the inner [None]); the
    flag is cleared when the run ends. *)
Definition Run (fuel : nat) (c : Collector) (w : World)
    : option (option Stats * Collector * World) :=
  if co_running c then Some (None, c, w)
  else
    '(stats, referenced, w) ← markPhase fuel (co_config c) noStats w;
    let '(stats, w) := sweepPhase (co_config c) (co_storagePath c) stats referenced w in
    Some (Some stats, mkCollector (co_storagePath c) (co_config c) false, w).

End gc.

(** ** What a manifest digest reaches *)

Section reach.
Context `{!JsonDecoder Oci.GcManifest}.

(** The manifest stored under a digest string, as the collector reads it. *)
Definition manifest_of (bs : BlobStore.BlobStore) (files : gmap string bytes) (d : string)
    : option Oci.GcManifest :=
  match Parse d with
  | Ok dgst =>
    match BlobStore.blobPath bs dgst with
    | Ok p => match files !! p with
              | Some c => match json_Decode c with Ok m => Some m | _ => None end
              | None => None
              end
    | _ => None
    end
  | _ => None
  end.

(** The digests an image consists of: its manifest, the configuration and the
    layers, and those of the nested manifests. *)
Inductive reach (bs : BlobStore.BlobStore) (files : gmap string bytes) (d : string)
    : string → Prop :=
  | reach_self : reach bs files d d
  | reach_config m :
      manifest_of bs files d = Some m → Oci.gm_Config m ≠ "" →
      reach bs files d (Oci.gm_Config m)
  | reach_layer m l :
      manifest_of bs files d = Some m → l ∈ Oci.gm_Layers m → reach bs files d l
  | reach_nested m n x :
      manifest_of bs files d = Some m → n ∈ Oci.gm_Manifests m → reach bs files n x →
      reach bs files d x.

(** Nesting has a bound: a manifest contains the SHA-256 of the manifests it
    nests, so they cannot nest it back. *)
Definition ranked (bs : BlobStore.BlobStore) (files : gmap string bytes) (rank : string → nat)
    : Prop :=
  ∀ d m n, manifest_of bs files d = Some m → n ∈ Oci.gm_Manifests m → rank n < rank d.
End reach.

Lemma Parse_blobPath bs d d' : Parse d = Ok d' → d' = d ∧ ∃ p, BlobStore.blobPath bs d = Ok p.
Proof.
  intros [<- (h & -> & Hl)]%Parse_Ok. split; [done|].
  unfold BlobStore.blobPath, slice_to. rewrite Hex_sha256, decide_True by lia.
  cbn. eauto.
Qed.

(** Reading any blob whose path exists, nothing failing. *)
Lemma Get_at bs os d p :
  BlobStore.blobPath bs d = Ok p →
  match os_files os !! p with
  | Some c => ∃ r bs' os', BlobStore.Get noFaults bs os d = (Ok (r, blen c), (bs', os')) ∧
      BlobStore.reader_data r = c ∧ os_files os' = os_files os ∧
      BlobStore.bs_root bs' = BlobStore.bs_root bs
  | None => BlobStore.Get noFaults bs os d = (Err ErrBlobNotFound, (bs, os))
  end.
Proof.
  intros Hp. unfold BlobStore.Get. rewrite Hp. unfold Stat, noFaults.
  destruct (os_files os !! p) as [c|] eqn:Hc; [|done].
  unfold BlobStore.bs_mmap, Open, Mmap, noFaults. rewrite Hc. simpl.
  case_decide; [eauto 10|]. case_decide; simpl; eauto 10.
Qed.

Lemma blobPath_root bs bs' d :
  BlobStore.bs_root bs' = BlobStore.bs_root bs →
  BlobStore.blobPath bs' d = BlobStore.blobPath bs d.
Proof. intros H. unfold BlobStore.blobPath. by rewrite H. Qed.

(** ** The mark phase *)

Section theorems.
Context `{BadgerLaws}.
Context `{!Json MetadataStore.ManifestMeta} `{!Json MetadataStore.RepoMeta}.
Context `{!JsonLaws MetadataStore.ManifestMeta MetadataStore.meta_ok}.
Context `{!JsonLaws MetadataStore.RepoMeta MetadataStore.repo_ok}.
Context `{!JsonDecoder Oci.GcManifest} `{SortSliceLaws}.

(** Reading leaves everything but the memory mappings alone. *)
Definition same_stores (w w' : World) : Prop :=
  BlobStore.bs_root (w_bs w') = BlobStore.bs_root (w_bs w) ∧
  os_files (w_os w') = os_files (w_os w) ∧ w_db w' = w_db w.

Lemma same_stores_refl w : same_stores w w.
Proof. done. Qed.

Lemma same_stores_trans w1 w2 w3 : same_stores w1 w2 → same_stores w2 w3 → same_stores w1 w3.
Proof. unfold same_stores. intros (-> & -> & ->) (-> & -> & ->). done. Qed.

Lemma manifest_of_same w w' d :
  same_stores w w' →
  manifest_of (w_bs w') (os_files (w_os w')) d = manifest_of (w_bs w) (os_files (w_os w)) d.
Proof.
  intros (Hr & -> & _). unfold manifest_of. case_match; [|done..].
  by rewrite (blobPath_root (w_bs w) (w_bs w')).
Qed.

Lemma reach_same w w' d x :
  same_stores w w' →
  reach (w_bs w') (os_files (w_os w')) d x ↔ reach (w_bs w) (os_files (w_os w)) d x.
Proof.
  intros Hs. split; (induction 1 as [d|d m Hm Hc|d m l Hm Hl|d m n x Hm Hn _ IH];
    [by constructor|rewrite ?(manifest_of_same w w') in Hm by done..]).
  - by eapply reach_config.
  - by eapply reach_layer.
  - by eapply reach_nested.
  - eapply reach_config; [|done]. by rewrite (manifest_of_same w w').
  - eapply reach_layer; [|done]. by rewrite (manifest_of_same w w').
  - eapply reach_nested; [|done..]. by rewrite (manifest_of_same w w').
Qed.

(** Marking a list one after another marks the union. *)
Definition marks (w : World) (ds : list string) (referenced : gset string)
    (res : option (gset string * World)) : Prop :=
  ∃ referenced' w', res = Some (referenced', w') ∧ same_stores w w' ∧
    ∀ x, x ∈ referenced' ↔ x ∈ referenced ∨
      ∃ d, d ∈ ds ∧ reach (w_bs w) (os_files (w_os w)) d x.

Lemma marks_trans w w1 ds1 ds2 r1 r2 res :
  same_stores w w1 →
  (∀ x, x ∈ r2 ↔ x ∈ r1 ∨ ∃ d, d ∈ ds1 ∧ reach (w_bs w) (os_files (w_os w)) d x) →
  marks w1 ds2 r2 res → marks w (ds1 ++ ds2) r1 res.
Proof.
  intros Hs Hm1 (r' & w' & -> & Hs' & Hm2). exists r', w'. split; [done|].
  split; [by eapply same_stores_trans|]. intros x. rewrite Hm2, Hm1.
  setoid_rewrite (reach_same w w1); [|done]. set_solver.
Qed.

Lemma marks_foldl {A} (f : A → string) step w (l : list A) r :
  (∀ a r w', a ∈ l → same_stores w w' → marks w' [f a] r (step a r w')) →
  marks w (f <$> l) r (foldl (λ st a, '(r, w) ← st; step a r w) (Some (r, w)) l).
Proof.
  revert w r. induction l as [|a l IH]; intros w r Hstep.
  { exists r, w. simpl. split; [done|]. split; [done|]. set_solver. }
  destruct (Hstep a r w) as (r1 & w1 & Ha & Hs1 & Hr1); [by left|done|].
  simpl. rewrite Ha. apply (marks_trans w w1 [f a] (f <$> l) r r1); [done|done|].
  apply IH. intros a' r' w' Ha' Hs'. apply Hstep; [by right|]. by eapply same_stores_trans.
Qed.

Lemma foldl_add (ls : list string) (r : gset string) x :
  x ∈ foldl (λ r l, {[l]} ∪ r) r ls ↔ x ∈ r ∨ x ∈ ls.
Proof. revert r. induction ls as [|l ls IH]; intros r; simpl; [set_solver|]. rewrite IH. set_solver. Qed.

Lemma reach_no_manifest bs files d x :
  manifest_of bs files d = None → reach bs files d x ↔ x = d.
Proof.
  intros Hm. split; [|intros ->; constructor]. by destruct 1; simplify_eq.
Qed.

Lemma reach_manifest bs files d m x :
  manifest_of bs files d = Some m →
  reach bs files d x ↔ x = d ∨ (Oci.gm_Config m ≠ "" ∧ x = Oci.gm_Config m) ∨
    x ∈ Oci.gm_Layers m ∨ ∃ n, n ∈ Oci.gm_Manifests m ∧ reach bs files n x.
Proof.
  intros Hm. split.
  - destruct 1; simplify_eq; eauto 10.
  - intros [->|[[? ->]|[?|(n & ? & ?)]]];
      [constructor|by eapply reach_config|by eapply reach_layer|by eapply reach_nested].
Qed.

Lemma manifest_of_Get w d p :
  Parse d = Ok d → BlobStore.blobPath (w_bs w) d = Ok p →
  manifest_of (w_bs w) (os_files (w_os w)) d =
    c ← os_files (w_os w) !! p; match json_Decode c with Ok m => Some m | _ => None end.
Proof. intros Hd Hp. unfold manifest_of. rewrite Hd, Hp. by destruct (_ !! p). Qed.

(** The recursion over nested manifests ends, and marks what the digest
    reaches. *)
Lemma markManifest_marks rank fuel w d r :
  ranked (w_bs w) (os_files (w_os w)) rank → rank d < fuel →
  marks w [d] r (markManifest noFaults fuel w d r).
Proof.
  revert w d r. induction fuel as [|fuel IH]; intros w d r Hrank Hf; [lia|].
  assert (∀ w' : World, same_stores w w' → manifest_of (w_bs w) (os_files (w_os w)) d = None →
    marks w [d] r (Some ({[d]} ∪ r, w'))) as Hstop.
  { intros w' Hs Hm. exists ({[d]} ∪ r), w'. split; [done|]. split; [done|]. intros x.
    setoid_rewrite list_elem_of_singleton. rewrite elem_of_union, elem_of_singleton. split.
    - intros [->|?]; [|by left]. right. exists d. split; [done|]. constructor.
    - intros [?|(d' & -> & Hx)]; [by right|]. left. by apply reach_no_manifest in Hx. }
  cbn [markManifest]. destruct (Parse d) as [d'|e|m] eqn:HP.
  2,3: apply Hstop; [done|]; unfold manifest_of; by rewrite HP.
  destruct (Parse_blobPath (w_bs w) d d' HP) as [-> [p Hp]].
  pose proof (Get_at (w_bs w) (w_os w) d p Hp) as HG.
  pose proof (manifest_of_Get w d p HP Hp) as Hman.
  destruct (os_files (w_os w) !! p) as [c|] eqn:Hc; simpl in Hman.
  - destruct HG as (rd & bs' & os' & -> & -> & Hfs & Hroot).
    assert (same_stores w (mkWorld _ bs' os' (w_db w))) as Hs by done.
    destruct (json_Decode c) as [m|e|e]; [|by apply Hstop..].
    set (w1 := mkWorld _ bs' os' (w_db w)) in *.
    set (r1 := foldl (λ (r : gset string) (l : string), {[l]} ∪ r) _ (Oci.gm_Layers m)).
    destruct (marks_foldl id (λ m referenced w, markManifest noFaults fuel w m referenced)
      w1 (Oci.gm_Manifests m) r1) as (r2 & w2 & Hfold & Hs2 & Hr2).
    { intros n r' w' Hn Hs'. apply IH.
      - intros d1 m1 n1 Hm1. rewrite (manifest_of_same w w') in Hm1
          by (by eapply same_stores_trans). by apply Hrank.
      - specialize (Hrank d m n Hman Hn). unfold id. lia. }
    exists r2, w2. split; [exact Hfold|]. split; [by eapply same_stores_trans|].
    intros x. rewrite Hr2. unfold r1. rewrite foldl_add.
    setoid_rewrite list_elem_of_singleton. setoid_rewrite (reach_same w w1); [|done].
    rewrite list_fmap_id. transitivity (x ∈ r ∨ reach (w_bs w) (os_files (w_os w)) d x).
    + rewrite (reach_manifest _ _ _ _ _ Hman). case_decide; set_solver.
    + split; [intros [?|?]; [by left|right; eauto]|intros [?|(? & -> & ?)]; [by left|by right]].
  - rewrite HG. by apply Hstop.
Qed.

(** ** Tags to keep *)

(** The resolved tags of a repository in the order the collector sorts them,
    and those it keeps. *)
Definition repoInfos (w : World) (repo : string) : list tagInfo :=
  match MetadataStore.ListTags (w_db w) repo with
  | Ok tags => sortSlice (tagInfos w repo tags)
  | _ => []
  end.

Definition kept (cfg : Config) (w : World) (repo : string) : list tagInfo :=
  take (keepCount cfg (length (repoInfos w repo))) (repoInfos w repo).

(** Two indices that agree on one repository. *)
Definition agree (repo : string) (ix ix' : MetadataStore.Index) : Prop :=
  (∀ t, MetadataStore.ix_tags ix' !! (repo, t) = MetadataStore.ix_tags ix !! (repo, t)) ∧
  (∀ d, MetadataStore.ix_manifests ix' !! (repo, d) = MetadataStore.ix_manifests ix !! (repo, d)).

Lemma agree_refl repo ix : agree repo ix ix.
Proof. done. Qed.

Lemma agree_trans repo ix1 ix2 ix3 : agree repo ix1 ix2 → agree repo ix2 ix3 → agree repo ix1 ix3.
Proof. intros [Ha1 Hb1] [Ha2 Hb2]. split; intros; by rewrite ?Ha2, ?Hb2. Qed.

Lemma lists_unique l1 l2 P Q :
  MetadataStore.lists l1 P → MetadataStore.lists l2 Q → (∀ x, P x ↔ Q x) → l1 = l2.
Proof.
  intros (Hs1 & Hn1 & Hm1) (Hs2 & Hn2 & Hm2) Hiff.
  apply (StronglySorted_unique String.le); [done..|].
  apply NoDup_Permutation; [done..|]. intros x. by rewrite Hm1, Hm2.
Qed.

Lemma repoInfos_agree w w' ix ix' repo :
  not_in ":" repo →
  MetadataStore.represents (view (w_db w)) ix → MetadataStore.represents (view (w_db w')) ix' →
  agree repo ix ix' → repoInfos w' repo = repoInfos w repo.
Proof.
  intros Hr Hrep Hrep' [Ht Hm].
  destruct (MetadataStore.ListTags_spec (w_db w) ix repo Hrep Hr) as (l & Hl & Hls).
  destruct (MetadataStore.ListTags_spec (w_db w') ix' repo Hrep' Hr) as (l' & Hl' & Hls').
  unfold repoInfos. rewrite Hl, Hl'.
  assert (l' = l) as -> by (eapply lists_unique; [done..|]; intros t; simpl; by rewrite Ht).
  f_equal. unfold tagInfos. apply list_omap_ext.
  apply Forall2_same_length_lookup. split; [done|]. intros i t t' H1' H2'. simplify_eq.
  rewrite (MetadataStore.GetManifest_spec _ ix'), (MetadataStore.GetManifest_spec _ ix) by done.
  unfold MetadataStore.ix_resolve. rewrite Ht.
  destruct (if HasPrefix t "sha256:" then _ else _) as [d|]; simpl; [|done]. by rewrite Hm.
Qed.

(** Deleting tags of one repository. *)
Lemma deleteTags_agree db ix repo l :
  not_in ":" repo → MetadataStore.represents (view db) ix →
  ∃ ix', MetadataStore.represents (view (foldl (deleteTag repo) db l)) ix' ∧
    MetadataStore.ix_repos ix' = MetadataStore.ix_repos ix ∧
    ∀ repo', repo' ≠ repo → agree repo' ix ix'.
Proof.
  intros Hr. revert db ix. induction l as [|t l IH]; intros db ix Hrep; simpl.
  { exists ix. by split_and!. }
  destruct (MetadataStore.DeleteManifest_refines db ix repo (ti_name t) Hr Hrep) as [_ Hrep1].
  destruct (IH _ _ Hrep1) as (ix' & Hrep' & Hrepos & Hag). exists ix'. split; [done|].
  assert (MetadataStore.ix_repos (MetadataStore.spec
      (MetadataStore.OpDeleteManifest repo (ti_name t)) ix).2 = MetadataStore.ix_repos ix ∧
    ∀ repo', repo' ≠ repo → agree repo' ix
      (MetadataStore.spec (MetadataStore.OpDeleteManifest repo (ti_name t)) ix).2) as [Hrepos1 Hag1].
  { simpl. destruct (MetadataStore.ix_resolve ix repo (ti_name t)); [|done].
    split; [done|]. intros repo' Hne. split; intros; simpl.
    - case_match; [done|]. rewrite lookup_delete_ne; naive_solver.
    - rewrite lookup_delete_ne; naive_solver. }
  split; [by rewrite Hrepos|]. intros repo' Hne. eapply agree_trans; auto.
Qed.

(** What marking one repository does. *)
Lemma markRepo_spec rank fuel cfg repo stats r w ix :
  ranked (w_bs w) (os_files (w_os w)) rank → (∀ d, rank d < fuel) →
  not_in ":" repo → MetadataStore.represents (view (w_db w)) ix →
  ∃ stats' r' w' ix', markRepo noFaults fuel cfg repo (stats, r, w) = Some (stats', r', w') ∧
    BlobStore.bs_root (w_bs w') = BlobStore.bs_root (w_bs w) ∧
    os_files (w_os w') = os_files (w_os w) ∧
    MetadataStore.represents (view (w_db w')) ix' ∧
    (∀ repo', repo' ≠ repo → agree repo' ix ix') ∧
    (cf_DryRun cfg = true ∨ (cf_KeepRecent cfg ≤ 0)%Z → w_db w' = w_db w) ∧
    ∀ x, x ∈ r' ↔ x ∈ r ∨ ∃ t, t ∈ kept cfg w repo ∧
      reach (w_bs w) (os_files (w_os w)) (ti_digest t) x.
Proof.
  intros Hrank Hfuel Hr Hrep. unfold markRepo, kept, repoInfos.
  destruct (MetadataStore.ListTags_spec (w_db w) ix repo Hrep Hr) as (tags & -> & _).
  set (infos := sortSlice (tagInfos w repo tags)).
  destruct (marks_foldl ti_digest
    (λ t referenced w, markManifest noFaults fuel w (ti_digest t) referenced) w
    (take (keepCount cfg (length infos)) infos) r) as (r' & w1 & Hfold & (Hs1 & Hs2 & Hs3) & Hr').
  { intros t r1 w1 _ Hs. apply (markManifest_marks rank); [|apply Hfuel].
    intros d m n Hm. rewrite (manifest_of_same w w1) in Hm by done. by apply Hrank. }
  rewrite Hfold. cbn [mbind option_bind].
  destruct (deleteTags_agree (w_db w1) ix repo (drop (keepCount cfg (length infos)) infos) Hr)
    as (ix' & Hrep' & _ & Hag); [by rewrite Hs3|].
  exists (mkStats (st_BlobsScanned stats) (st_BlobsDeleted stats) (st_BytesFreed stats)
            (st_ManifestsKept stats + Z.of_nat (length (take (keepCount cfg (length infos)) infos)))
            (st_ManifestsDeleted stats + Z.of_nat (length (drop (keepCount cfg (length infos)) infos)))
            (st_Errors stats)), r'.
  eexists. exists (if cf_DryRun cfg then ix else ix'). split; [done|]. simpl.
  split_and!; [done|done| | | |].
  - destruct (cf_DryRun cfg); [by rewrite Hs3|done].
  - intros repo' Hne. destruct (cf_DryRun cfg); [done|auto].
  - intros Hk. destruct (cf_DryRun cfg); [done|]. destruct Hk as [?|Hk]; [done|].
    unfold keepCount. rewrite decide_False by lia. by rewrite drop_all.
  - intros x. rewrite Hr'. setoid_rewrite list_elem_of_fmap. naive_solver.
Qed.

(** The whole mark phase: what the kept tags of all repositories reach. *)
Lemma markRepos_spec rank fuel cfg l : ∀ stats r w ix,
  ranked (w_bs w) (os_files (w_os w)) rank → (∀ d, rank d < fuel) →
  NoDup l → Forall (not_in ":") l → MetadataStore.represents (view (w_db w)) ix →
  ∃ stats' r' w', foldl (λ st repo, st ← st; markRepo noFaults fuel cfg repo st)
      (Some (stats, r, w)) l = Some (stats', r', w') ∧
    BlobStore.bs_root (w_bs w') = BlobStore.bs_root (w_bs w) ∧
    os_files (w_os w') = os_files (w_os w) ∧
    (cf_DryRun cfg = true ∨ (cf_KeepRecent cfg ≤ 0)%Z → w_db w' = w_db w) ∧
    ∀ x, x ∈ r' ↔ x ∈ r ∨ ∃ repo t, repo ∈ l ∧ t ∈ kept cfg w repo ∧
      reach (w_bs w) (os_files (w_os w)) (ti_digest t) x.
Proof.
  induction l as [|repo l IH]; intros stats r w ix Hrank Hfuel Hnd Hl Hrep.
  { exists stats, r, w. simpl. split_and!; [done..|set_solver]. }
  apply NoDup_cons in Hnd as [Hnin Hnd]. apply Forall_cons in Hl as [Hr Hl].
  destruct (markRepo_spec rank fuel cfg repo stats r w ix Hrank Hfuel Hr Hrep)
    as (s1 & r1 & w1 & ix1 & Hm & Hroot & Hfs & Hrep1 & Hag & Hdb & Hr1).
  destruct (IH s1 r1 w1 ix1) as (s2 & r2 & w2 & Hfold & Hroot2 & Hfs2 & Hdb2 & Hr2); [|done..|].
  { intros d m n Hmm. rewrite Hfs in Hmm. apply Hrank. rewrite <-Hmm. unfold manifest_of.
    case_match; [|done..]. by rewrite (blobPath_root (w_bs w) (w_bs w1)). }
  exists s2, r2, w2. split; [cbn [foldl mbind option_bind]; by rewrite Hm|].
  split_and!; [congruence|congruence| |].
  - intros Hk. by rewrite Hdb2, Hdb.
  - intros x. rewrite Hr2, Hr1.
    assert (∀ repo', repo' ∈ l → kept cfg w1 repo' = kept cfg w repo') as Hkept.
    { intros repo' Hin. unfold kept. rewrite Forall_forall in Hl.
      rewrite (repoInfos_agree w w1 ix ix1 repo'); auto.
      apply Hag. intros ->. done. }
    assert (∀ d x, reach (w_bs w1) (os_files (w_os w1)) d x ↔
                   reach (w_bs w) (os_files (w_os w)) d x) as Hreach.
    { intros d y. set (w1' := mkWorld _ (w_bs w1) (w_os w1) (w_db w)).
      apply (reach_same w w1'). done. }
    setoid_rewrite Hreach. split.
    + intros [[?|(t & Ht & ?)]|(repo' & t & Hin & Ht & ?)]; [by left| |].
      * right. exists repo, t. split_and!; [by left|done..].
      * right. exists repo', t. rewrite Hkept in Ht by done. split_and!; [by right|done..].
    + intros [?|(repo' & t & Hin & Ht & Hx)]; [by left; left|].
      apply elem_of_cons in Hin as [->|Hin]; [left; right; eauto|].
      right. exists repo', t. rewrite Hkept by done. done.
Qed.

Lemma markPhase_spec rank fuel cfg stats w ix :
  ranked (w_bs w) (os_files (w_os w)) rank → (∀ d, rank d < fuel) →
  MetadataStore.represents (view (w_db w)) ix →
  ∃ stats' r' w', markPhase noFaults fuel cfg stats w = Some (stats', r', w') ∧
    BlobStore.bs_root (w_bs w') = BlobStore.bs_root (w_bs w) ∧
    os_files (w_os w') = os_files (w_os w) ∧
    (cf_DryRun cfg = true ∨ (cf_KeepRecent cfg ≤ 0)%Z → w_db w' = w_db w) ∧
    ∀ x, x ∈ r' ↔ ∃ repo t, not_in ":" repo ∧ is_Some (MetadataStore.ix_repos ix !! repo) ∧
      t ∈ kept cfg w repo ∧ reach (w_bs w) (os_files (w_os w)) (ti_digest t) x.
Proof.
  intros Hrank Hfuel Hrep. unfold markPhase.
  destruct (MetadataStore.ListRepositories_spec (w_db w) ix Hrep) as (l & -> & _ & Hnd & Hl).
  destruct (markRepos_spec rank fuel cfg l stats ∅ w ix)
    as (s' & r' & w' & Hf & ? & ? & ? & Hr'); [done..| |done|].
  { apply Forall_forall. intros x Hx. by apply Hl. }
  exists s', r', w'. split_and!; [done..|]. intros x. rewrite Hr'. split.
  - intros [?|(repo & t & Hin & ?)]; [set_solver|]. apply Hl in Hin as [? ?]. eauto 10.
  - intros (repo & t & ? & ? & ? & ?). right. exists repo, t. split; [by apply Hl|done].
Qed.

(** ** The sweep phase *)

(** The files a sweep removes: those with a 64-character name that was not
    marked. *)
Definition swept (referenced : gset string) (p : string) : Prop :=
  String.length (Base p) = 64%nat ∧ "sha256:" +:+ Base p ∉ referenced.

Global Instance swept_dec r p : Decision (swept r p) := _.

Lemma sweep_fold cfg referenced l stats os :
  ∀ p, os_files (foldl (sweepFile noFaults cfg referenced) (stats, os) l).2 !! p =
    if decide (cf_DryRun cfg = false ∧ p ∈ l.*1 ∧ swept referenced p)
    then None else os_files os !! p.
Proof.
  revert stats os. induction l as [|[q c] l IH]; intros stats os p; [by rewrite decide_False by set_solver|].
  cbn [foldl].
  assert (∃ stats', sweepFile noFaults cfg referenced (stats, os) (q, c) =
    (stats', if decide (cf_DryRun cfg = false ∧ swept referenced q)
             then (Remove noFaults os q).2 else os)) as [stats' ->].
  { unfold sweepFile, swept. destruct (decide (String.length (Base q) ≠ 64)).
    { rewrite decide_False by tauto. eauto. }
    destruct (decide (_ ∈ referenced)); [rewrite decide_False by tauto; eauto|].
    destruct (cf_DryRun cfg); [rewrite decide_False by naive_solver; eauto|].
    rewrite decide_True by (split; [done|]; split; [lia|done]).
    unfold Remove. simpl. destruct (os_files os !! q); eauto. }
  rewrite IH. clear IH.
  assert (∀ os, os_files (Remove noFaults os q).2 !! p =
    if decide (q = p) then None else os_files os !! p) as Hrm.
  { intros os'. rewrite (BlobStore.Remove_files noFaults) by done. apply lookup_delete. }
  destruct (decide (cf_DryRun cfg = false ∧ swept referenced q)) as [[Hd Hq]|Hq].
  - rewrite Hrm. repeat case_decide; try done; set_solver.
  - repeat case_decide; try done; set_solver.
Qed.

Lemma blobsDir_blobFile root d :
  BlobStore.good_root root → canonical d →
  ∃ r, BlobStore.blobFile root d = (blobsDir root +:+ "/") +:+ r.
Proof.
  intros [Hr Hc] Hd. exists (stake 2 (Hex d) +:+ "/" +:+ Hex d).
  assert (blobsDir root = Clean root +:+ "/" +:+ JoinStr ["blobs"; "sha256"] "/") as ->.
  { unfold blobsDir, Join. rewrite !filter_cons_True, filter_nil by done.
    rewrite JoinStr_cons by done. apply Clean_app; [done..| |done].
    repeat apply Forall_cons_2; [by apply (bool_decide_unpack _)..|done]. }
  unfold BlobStore.blobFile, BlobStore.blobComps. cbn [JoinStr]. by rewrite !sapp_assoc.
Qed.

(** What a sweep does to the blobs. *)
Lemma sweepPhase_spec cfg stats referenced w :
  let root := BlobStore.bs_root (w_bs w) in
  BlobStore.good_root root →
  let w' := (sweepPhase noFaults cfg root stats referenced w).2 in
  w_db w' = w_db w ∧ BlobStore.bs_root (w_bs w') = root ∧
  ∀ d, canonical d → os_files (w_os w') !! BlobStore.blobFile root d =
    if decide (cf_DryRun cfg = true ∨ d ∈ referenced)
    then os_files (w_os w) !! BlobStore.blobFile root d else None.
Proof.
  intros root Hr w'. unfold w', sweepPhase.
  pose proof (sweep_fold cfg referenced (walk (blobsDir root) (w_os w)) stats (w_os w)) as Hf.
  destruct (foldl _ _ _) as [stats' os']. simpl in *. split_and!; [done..|].
  intros d Hd. rewrite Hf.
  assert (swept referenced (BlobStore.blobFile root d) ↔ d ∉ referenced) as Hsw.
  { unfold swept. rewrite BlobStore.blobFile_Base by done.
    destruct Hd as (h & -> & Hlen & _). rewrite Hex_sha256. naive_solver. }
  destruct (blobsDir_blobFile root d Hr Hd) as [r Hpre].
  destruct (os_files (w_os w) !! BlobStore.blobFile root d) as [c|] eqn:Hc.
  2:{ by repeat case_decide. }
  assert (BlobStore.blobFile root d ∈ (walk (blobsDir root) (w_os w)).*1) as Hin.
  { apply list_elem_of_fmap. exists (BlobStore.blobFile root d, c). split; [done|].
    apply elem_of_scan_prefix. eauto. }
  destruct (cf_DryRun cfg); repeat case_decide; try done; naive_solver.
Qed.

Lemma Run_spec rank fuel c w ix :
  let root := BlobStore.bs_root (w_bs w) in
  BlobStore.good_root root → co_storagePath c = root → co_running c = false →
  ranked (w_bs w) (os_files (w_os w)) rank → (∀ d, rank d < fuel) →
  MetadataStore.represents (view (w_db w)) ix →
  ∃ stats w' (r' : gset string), Run noFaults fuel c w = Some (Some stats, mkCollector root (co_config c) false, w') ∧
    (cf_DryRun (co_config c) = true ∨ (cf_KeepRecent (co_config c) ≤ 0)%Z → w_db w' = w_db w) ∧
    (∀ d, canonical d → os_files (w_os w') !! BlobStore.blobFile root d =
       if decide (cf_DryRun (co_config c) = true ∨ d ∈ r')
       then os_files (w_os w) !! BlobStore.blobFile root d else None) ∧
    ∀ x, x ∈ r' ↔ ∃ repo t, not_in ":" repo ∧ is_Some (MetadataStore.ix_repos ix !! repo) ∧
      t ∈ kept (co_config c) w repo ∧ reach (w_bs w) (os_files (w_os w)) (ti_digest t) x.
Proof.
  intros root Hr Hsp Hrun Hrank Hfuel Hrep. unfold Run. rewrite Hrun, Hsp.
  destruct (markPhase_spec rank fuel (co_config c) noStats w ix Hrank Hfuel Hrep)
    as (s1 & r1 & w1 & -> & Hroot1 & Hfs1 & Hdb1 & Hr1). cbn [mbind option_bind].
  pose proof (sweepPhase_spec (co_config c) s1 r1 w1) as Hsw. rewrite Hroot1 in Hsw.
  fold root in Hsw. destruct (Hsw Hr) as (Hdb2 & _ & Hf2). clear Hsw.
  destruct (sweepPhase noFaults (co_config c) root s1 r1 w1) as [s2 w2]. simpl in Hdb2, Hf2.
  exists s2, w2, r1. split_and!; [done| | |done].
  - intros Hk. by rewrite Hdb2, Hdb1.
  - intros d Hd. rewrite Hf2 by done. by rewrite Hfs1.
Qed.

(** ** Properties *)

(** C9 A collection run ends and decides every blob exactly: when the nesting of
    manifests is bounded and no system call fails, a blob survives if the
    run is dry or if one of the kept tags reaches its digest (as manifest,
    configuration, layer or nested manifest), and is removed otherwise. *)
Theorem Run_exact rank fuel c w ix :
  let root := BlobStore.bs_root (w_bs w) in
  BlobStore.good_root root → co_storagePath c = root → co_running c = false →
  ranked (w_bs w) (os_files (w_os w)) rank → (∀ d, rank d < fuel) →
  MetadataStore.represents (view (w_db w)) ix →
  ∃ stats w', Run noFaults fuel c w = Some (Some stats, mkCollector root (co_config c) false, w') ∧
    ∀ d, canonical d →
      let survives := cf_DryRun (co_config c) = true ∨
        ∃ repo t, not_in ":" repo ∧ is_Some (MetadataStore.ix_repos ix !! repo) ∧
          t ∈ kept (co_config c) w repo ∧
          reach (w_bs w) (os_files (w_os w)) (ti_digest t) d in
      (survives → os_files (w_os w') !! BlobStore.blobFile root d =
                  os_files (w_os w) !! BlobStore.blobFile root d) ∧
      (¬ survives → os_files (w_os w') !! BlobStore.blobFile root d = None).
Proof.
  intros root Hr Hsp Hrun Hrank Hfuel Hrep.
  destruct (Run_spec rank fuel c w ix Hr Hsp Hrun Hrank Hfuel Hrep)
    as (stats & w' & r' & HRun & _ & Hfiles & Hr').
  exists stats, w'. split; [done|]. intros d Hd. fold root in Hfiles. cbv zeta.
  rewrite <-(Hr' d). rewrite (Hfiles d Hd). 
  split; intros Hs; [by rewrite decide_True|by rewrite decide_False].
Qed.


(** Reading for the marking changes no file and no metadata, whatever fails. *)
Lemma markManifest_same F fuel w d r r' w' :
  markManifest F fuel w d r = Some (r', w') → same_stores w w'.
Proof.
  revert w d r r' w'. induction fuel as [|fuel IH]; intros w d r r' w'; [done|].
  cbn [markManifest]. destruct (Parse d); [|by intros [= <- <-]..].
  pose proof (BlobStore.Get_files F (w_bs w) (w_os w) a) as [Hf Hroot].
  destruct (BlobStore.Get F (w_bs w) (w_os w) a) as [[[rd n]|e|e] [bs os]]; simpl in Hf, Hroot;
    [|by intros [= <- <-]..].
  destruct (json_Decode _) as [m|e|e]; [|by intros [= <- <-]..].
  set (r0 := foldl _ _ (Oci.gm_Layers m)). clearbody r0.
  assert (same_stores w (mkWorld _ bs os (w_db w))) as Hs by done. revert Hs.
  generalize (mkWorld _ bs os (w_db w)) as w1. intros w1 Hs Hfold.
  apply (foldl_option_inv (λ st : gset string * World, same_stores w st.2)
    (λ n '(r, w), markManifest F fuel w n r)) in Hfold; [done| |done].
  intros n1 [r1 w2] [r2 w3] Hw2 Hm. eapply same_stores_trans; [exact Hw2|]. by eapply IH.
Qed.

Lemma markPhase_same F fuel cfg stats w stats' r' w' :
  cf_DryRun cfg = true → markPhase F fuel cfg stats w = Some (stats', r', w') → same_stores w w'.
Proof.
  intros Hdry. unfold markPhase.
  destruct (MetadataStore.ListRepositories _) as [repos|e|e]; [|by intros [= _ _ <-]..].
  intros Hfold. apply (foldl_option_inv (λ st : Stats * gset string * World, same_stores w st.2)
    (λ repo st, markRepo F fuel cfg repo st)) in Hfold; [done| |done].
  intros repo [[s1 r1] w1] [[s2 r2] w2] Hw1. unfold markRepo. simpl in Hw1.
  destruct (MetadataStore.ListTags _ _) as [tags|e|e]; [|by intros [= _ _ <-]..].
  set (l := take _ _). intros Hb. rewrite Hdry in Hb.
  destruct (foldl _ _ l) as [[r3 w3]|] eqn:Hf; simplify_eq/=.
  apply (foldl_option_inv (λ st : gset string * World, same_stores w st.2)
    (λ t '(r, w), markManifest F fuel w (ti_digest t) r)) in Hf; [done| |done].
  intros t [ra wa] [rb wb] Hwa Hm. eapply same_stores_trans; [exact Hwa|].
  by eapply markManifest_same.
Qed.

(** A dry run changes nothing: whatever fails, every file and the whole
    metadata database are as before, while the statistics report what a real
    run would have removed. *)
Theorem Run_dry fuel F c w stats c' w' :
  cf_DryRun (co_config c) = true → Run F fuel c w = Some (stats, c', w') →
  os_files (w_os w') = os_files (w_os w) ∧ w_db w' = w_db w.
Proof.
  intros Hdry. unfold Run. destruct (co_running c); [by intros [= _ _ <-]|].
  destruct (markPhase F fuel (co_config c) noStats w) as [[[s1 r1] w1]|] eqn:Hm; [|done].
  cbn [mbind option_bind]. apply markPhase_same in Hm as (_ & Hf1 & Hdb1); [|done].
  unfold sweepPhase. destruct (foldl _ _ _) as [s2 os2] eqn:Hfold. intros [= _ _ <-].
  simpl. split; [|done]. rewrite <-Hf1.
  revert Hfold. generalize (walk (blobsDir (co_storagePath c)) (w_os w1)).
  intros l. revert s1. generalize (w_os w1). induction l as [|[q x] l IH]; intros os s1; cbn [foldl].
  { by intros [= _ <-]. }
  unfold sweepFile at 2. rewrite Hdry. by repeat case_decide; apply IH.
Qed.

(** Marking and sweeping do not exclude a push: a blob stored after the mark
    phase, whose digest was not marked, is removed by the sweep phase of the
    same run, also when its manifest has been recorded in the meantime. *)
Theorem sweep_removes_concurrent_push cfg stats stats' r w w1 fuel rnds data n os2 db2 :
  let root := BlobStore.bs_root (w_bs w) in
  BlobStore.good_root root → cf_DryRun cfg = false →
  markPhase noFaults fuel cfg stats w = Some (stats', r, w1) →
  BlobStore.bs_root (w_bs w1) = root →
  FromBytes data ∉ r →
  BlobStore.Put noFaults (w_bs w1) (w_os w1) rnds (FromBytes data) (NewReader data) n
    = (Ok tt, os2) →
  let w2 := (sweepPhase noFaults cfg root stats' r (mkWorld _ (w_bs w1) os2 db2)).2 in
  is_Some (os_files os2 !! BlobStore.blobFile root (FromBytes data)) ∧
  BlobStore.Get noFaults (w_bs w2) (w_os w2) (FromBytes data) =
    (Err ErrBlobNotFound, (w_bs w2, w_os w2)) ∧ w_db w2 = db2.
Proof.
  intros root Hr Hdry Hmark Hroot Hnin Hput w2.
  assert (canonical (FromBytes data)) as Hcan by apply FromBytes_canonical.
  pose proof (sweepPhase_spec cfg stats' r (mkWorld _ (w_bs w1) os2 db2)) as Hsw.
  cbn [w_bs w_os w_db] in Hsw. rewrite Hroot in Hsw. destruct (Hsw Hr) as (Hdb & Hroot2 & Hf).
  fold w2 in Hdb, Hroot2, Hf. split; [|split; [|done]].
  - apply (BlobStore.Put_cases noFaults) in Hput; [|done|by rewrite Hroot|done].
    rewrite Hroot in Hput.
    destruct Hput as [(e & ? & _)|[(_ & -> & c & Hc & _)|(_ & _ & _ & _ & ->)]]; [done|eauto|].
    rewrite lookup_insert_eq. eauto.
  - apply BlobStore.Get_absent; [by rewrite Hroot2|done|].
    rewrite Hroot2, Hf by done. apply decide_False. rewrite Hdry. naive_solver.
Qed.

(** Deleting the old tags removes the manifest record of every one of them. *)
Lemma deleteTags_gone db ix repo l u d :
  not_in ":" repo → MetadataStore.represents (view db) ix →
  HasPrefix (ti_name u) "sha256:" = false →
  MetadataStore.ix_manifests ix !! (repo, d) = None ∨
    (u ∈ l ∧ MetadataStore.ix_tags ix !! (repo, ti_name u) = Some d) →
  ∃ ix', MetadataStore.represents (view (foldl (deleteTag repo) db l)) ix' ∧
    MetadataStore.ix_manifests ix' !! (repo, d) = None ∧
    ∀ t d', MetadataStore.ix_tags ix' !! (repo, t) = Some d' →
            MetadataStore.ix_tags ix !! (repo, t) = Some d'.
Proof.
  intros Hr. revert db ix. induction l as [|t l IH]; intros db ix Hrep Hu Hd; simpl.
  { exists ix. destruct Hd as [?|[?%not_elem_of_nil _]]; done. }
  set (o := MetadataStore.OpDeleteManifest repo (ti_name t)).
  destruct (MetadataStore.DeleteManifest_refines db ix repo (ti_name t) Hr Hrep) as [_ Hrep1].
  assert (∀ t' d', MetadataStore.ix_tags (MetadataStore.spec o ix).2 !! (repo, t') = Some d' →
    MetadataStore.ix_tags ix !! (repo, t') = Some d') as Hsub.
  { intros t' d'. simpl. destruct (MetadataStore.ix_resolve _ _ _); [|done]. simpl.
    case_match; [done|]. by intros [_ ?]%lookup_delete_Some. }
  destruct (IH _ (MetadataStore.spec o ix).2 Hrep1 Hu) as (ix' & Hrep' & Hgone & Htags).
  - simpl. destruct (MetadataStore.ix_resolve ix repo (ti_name t)) as [d1|] eqn:E; simpl.
    + destruct Hd as [Hnone|[Hin Htag]]; [left; by rewrite lookup_delete_None; right|].
      destruct (decide (ti_name t = ti_name u)) as [Hname|Hname].
      * left. unfold MetadataStore.ix_resolve in E. rewrite Hname, Hu, Htag in E.
        injection E as <-. apply lookup_delete_eq.
      * right. apply elem_of_cons in Hin as [->|Hin]; [done|]. split; [done|].
        case_match; [done|]. rewrite lookup_delete_ne; [done|naive_solver].
    + destruct Hd as [Hnone|[Hin Htag]]; [by left|].
      right. split; [|done]. apply elem_of_cons in Hin as [->|Hin]; [|done].
      unfold MetadataStore.ix_resolve in E. rewrite Hu, Htag in E. done.
  - exists ix'. split_and!; [done..|]. intros t' d' Ht'. by apply Hsub, Htags.
Qed.

(** Keeping only the most recent tags can break a kept one: when an old tag
    that is removed points to the same manifest as any other tag of the
    repository (a kept one included), the latter stops resolving. *)
Theorem KeepRecent_breaks_shared_tag rank fuel cfg repo stats r w ix u tag d :
  ranked (w_bs w) (os_files (w_os w)) rank → (∀ d, rank d < fuel) →
  not_in ":" repo → MetadataStore.represents (view (w_db w)) ix →
  cf_DryRun cfg = false →
  u ∈ drop (keepCount cfg (length (repoInfos w repo))) (repoInfos w repo) →
  HasPrefix (ti_name u) "sha256:" = false → HasPrefix tag "sha256:" = false →
  MetadataStore.ix_tags ix !! (repo, ti_name u) = Some d →
  MetadataStore.ix_tags ix !! (repo, tag) = Some d →
  ∃ stats' r' w', markRepo noFaults fuel cfg repo (stats, r, w) = Some (stats', r', w') ∧
    MetadataStore.GetManifest (w_db w') repo tag = Err ErrManifestNotFound.
Proof.
  intros Hrank Hfuel Hr Hrep Hdry Hin Hu Htag Htu Htt. unfold markRepo, repoInfos in *.
  destruct (MetadataStore.ListTags_spec (w_db w) ix repo Hrep Hr) as (tags & Hl & _).
  rewrite Hl in *. set (infos := sortSlice (tagInfos w repo tags)) in *.
  destruct (marks_foldl ti_digest
    (λ t referenced w, markManifest noFaults fuel w (ti_digest t) referenced) w
    (take (keepCount cfg (length infos)) infos) r) as (r' & w1 & Hfold & (Hs1 & Hs2 & Hs3) & Hr').
  { intros t r1 w1 _ Hs. apply (markManifest_marks rank); [|apply Hfuel].
    intros d1 m n1 Hm. rewrite (manifest_of_same w w1) in Hm by done. by apply Hrank. }
  rewrite Hfold. cbn [mbind option_bind]. rewrite Hdry, Hs3.
  destruct (deleteTags_gone (w_db w) ix repo (drop (keepCount cfg (length infos)) infos) u d
    Hr Hrep Hu) as (ix' & Hrep' & Hgone & Hsub); [by right|].
  eexists _, r', _. split; [done|]. cbn [w_db].
  rewrite (MetadataStore.GetManifest_spec _ ix') by done.
  unfold MetadataStore.ix_resolve. rewrite Htag.
  destruct (MetadataStore.ix_tags ix' !! (repo, tag)) as [d'|] eqn:E; [|done].
  apply Hsub in E. rewrite Htt in E. injection E as <-. simpl. by rewrite Hgone.
Qed.

End theorems.

(** ** A concrete registry *)

(** Insertion sort by creation time, newest first, ties in the given order. *)
Fixpoint ti_insert (t : tagInfo) (l : list tagInfo) : list tagInfo :=
  match l with
  | [] => [t]
  | u :: l => if decide (ti_time u ≤ ti_time t)%Z then t :: u :: l else u :: ti_insert t l
  end.

Definition ti_sort : SortSlice := foldr ti_insert [].

Lemma ti_insert_perm t l : ti_insert t l ≡ₚ t :: l.
Proof.
  induction l as [|u l IH]; simpl; [done|]. case_decide; [done|]. rewrite IH. constructor.
Qed.

Lemma ti_insert_sorted t l :
  StronglySorted (λ a b, ti_time b ≤ ti_time a)%Z l →
  StronglySorted (λ a b, ti_time b ≤ ti_time a)%Z (ti_insert t l).
Proof.
  induction 1 as [|u l Hs IH Hu]; simpl; [by repeat constructor|].
  case_decide as Ht.
  - constructor; [by constructor|]. constructor; [done|].
    eapply Forall_impl; [exact Hu|]. simpl. lia.
  - constructor; [done|]. rewrite Forall_forall. intros x Hx.
    rewrite ti_insert_perm in Hx. apply elem_of_cons in Hx as [->|Hx]; [lia|].
    rewrite Forall_forall in Hu. by apply Hu.
Qed.

Lemma ti_sortLaws : @SortSliceLaws ti_sort.
Proof.
  split; intros l; unfold sortSlice, ti_sort; induction l as [|t l IH]; simpl.
  - done.
  - by rewrite ti_insert_perm, IH.
  - constructor.
  - by apply ti_insert_sorted.
Qed.

Definition exBs : BlobStore.BlobStore := BlobStore.NewBlobStore BlobStore.srvRoot.
Definition exData : bytes := str_bytes "layer bytes".
Definition exLayer : Digest := Eval vm_compute in FromBytes exData.
Definition exBody : bytes := Oci.encodeBody "m" "" exLayer "".
Definition exImage : Digest := Eval vm_compute in FromBytes exBody.
Definition exImgMeta (t : Time) : MetadataStore.ManifestMeta :=
  MetadataStore.mkManifestMeta exImage "m" 1 t [exLayer] "" ∅.

Definition exOs : Os :=
  mkOs (<[BlobStore.blobFile BlobStore.srvRoot exLayer := exData]>
       (<[BlobStore.blobFile BlobStore.srvRoot exImage := exBody]> ∅)) ∅ 0.

(** An image under two tags. *)
Definition exGcOps : list MetadataStore.op :=
  [MetadataStore.OpPutManifest 5 6 "app" "v1" (exImgMeta 10);
   MetadataStore.OpPutManifest 7 8 "app" "v2" (exImgMeta 10)].

Definition exDb : @DB mapBadger :=
  (@MetadataStore.run_all mapBadger MetadataStore.jsonMeta MetadataStore.jsonRepo exGcOps ∅).2.
Definition exIx : MetadataStore.Index :=
  (MetadataStore.spec_all exGcOps MetadataStore.ix_empty).2.

Definition exWorld : @World mapBadger := @mkWorld mapBadger exBs exOs exDb.

Lemma exImgMeta_ok t : MetadataStore.time_ok t → MetadataStore.meta_ok (exImgMeta t).
Proof. intros Ht. unfold MetadataStore.meta_ok, in64. split_and!; simpl; try done; by repeat constructor. Qed.

Lemma exGcOps_ok : Forall MetadataStore.op_ok exGcOps.
Proof.
  pose proof MetadataStore.app_good. pose proof exImgMeta_ok.
  repeat constructor; try apply MetadataStore.app_good; done.
Qed.

Lemma exGcDb_represents :
  @MetadataStore.represents MetadataStore.jsonMeta MetadataStore.jsonRepo
    (@view _ mapBadgerLaws exDb) exIx.
Proof.
  apply (@MetadataStore.run_all_refines mapBadger mapBadgerLaws MetadataStore.jsonMeta
    MetadataStore.jsonRepo (countableJsonLaws _ _) (countableJsonLaws _ _)); [apply exGcOps_ok|].
  apply MetadataStore.represents_empty.
Qed.

Definition exRun (F : Faults) (cfg : Config) :
    option (option Stats * Collector * @World mapBadger) :=
  @Run mapBadger MetadataStore.jsonMeta Oci.gcDecoder ti_sort F 2
    (mkCollector BlobStore.srvRoot cfg false) exWorld.

Definition exCollector (cfg : Config) : Collector := mkCollector BlobStore.srvRoot cfg false.

Lemma exRanked : @ranked Oci.gcDecoder (w_bs exWorld) (os_files (w_os exWorld)) (λ _, 0).
Proof.
  intros d m n Hm Hn. exfalso. revert Hm Hn. unfold manifest_of, exWorld. cbn [w_bs w_os].
  destruct (Parse d) as [d'|e|e]; [|done..].
  destruct (BlobStore.blobPath exBs d') as [p|e|e]; [|done..].
  destruct (os_files exOs !! p) as [c|] eqn:Hc; [|done].
  unfold exOs in Hc. cbn [os_files] in Hc.
  apply lookup_insert_Some in Hc as [[_ <-]|[_ Hc]];
    [|apply lookup_insert_Some in Hc as [[_ <-]|[_ Hc]]; [|done]].
  - by vm_compute.
  - intros Hm. vm_compute in Hm. injection Hm as <-. by apply not_elem_of_nil.
Qed.

Lemma Run_exact_witness :
  ∃ stats w', exRun noFaults (mkConfig true "" 0 false) =
    Some (Some stats, exCollector (mkConfig true "" 0 false), w') ∧
    os_files (w_os w') !! BlobStore.blobFile BlobStore.srvRoot exImage = Some exBody.
Proof.
  destruct (@Run_exact mapBadger mapBadgerLaws MetadataStore.jsonMeta MetadataStore.jsonRepo
    (countableJsonLaws _ _) (countableJsonLaws _ _) Oci.gcDecoder ti_sort ti_sortLaws
    (λ _, 0) 2 (exCollector (mkConfig true "" 0 false)) exWorld exIx
    BlobStore.good_srvRoot eq_refl eq_refl exRanked (λ _, le_S _ _ (le_n 1)) exGcDb_represents)
    as (stats & w' & HRun & _).
  exists stats, w'. split; [exact HRun|].
  apply (f_equal (λ r, match r with Some (_, _, w) =>
    os_files (w_os w) !! BlobStore.blobFile BlobStore.srvRoot exImage | None => None end)) in HRun.
  rewrite <-HRun. by vm_compute.
Defined.

Lemma exLayer_canonical : canonical exLayer.
Proof. exact (FromBytes_canonical exData). Qed.

Lemma exLayer_reached :
  @reach Oci.gcDecoder (w_bs exWorld) (os_files (w_os exWorld)) exImage exLayer.
Proof.
  apply (@reach_layer Oci.gcDecoder _ _ _ (Oci.mkGcManifest "" [exLayer] [])).
  - by vm_compute.
  - by left.
Qed.


Lemma Run_dry_witness :
  match exRun noFaults (mkConfig true "" 1 true) with
  | Some (_, _, w') => os_files (w_os w') = os_files exOs ∧ w_db w' = exDb
  | None => False
  end.
Proof.
  destruct (exRun noFaults (mkConfig true "" 1 true)) as [[[stats c'] w']|] eqn:HRun.
  - exact (@Run_dry mapBadger MetadataStore.jsonMeta Oci.gcDecoder ti_sort
      2 noFaults (exCollector (mkConfig true "" 1 true)) exWorld stats c' w' eq_refl HRun).
  - apply (f_equal (λ r, match r with Some _ => true | None => false end)) in HRun.
    vm_compute in HRun. discriminate.
Defined.

Lemma exWorld0_mark :
  ∃ stats r w1, @markPhase mapBadger MetadataStore.jsonMeta Oci.gcDecoder ti_sort
    noFaults 2 (mkConfig true "" 0 false) noStats (@mkWorld mapBadger exBs exOs ∅) =
    Some (stats, r, w1) ∧ r = ∅ ∧ w1 = @mkWorld mapBadger exBs exOs ∅.
Proof. eexists _, _, _. split; [reflexivity|done]. Qed.

(** A push of [data] while a run on a registry without tags is between its
    phases. *)
Lemma sweep_removes_concurrent_push_witness :
  let cfg := mkConfig true "" 0 false in
  let w := @mkWorld mapBadger exBs os_empty ∅ in
  ∃ stats r os2, @markPhase mapBadger MetadataStore.jsonMeta Oci.gcDecoder ti_sort
      noFaults 2 cfg noStats w = Some (stats, r, w) ∧
    BlobStore.Put noFaults exBs os_empty [3%N] (FromBytes exData) (NewReader exData) 0 =
      (Ok tt, os2) ∧
    let w2 := (sweepPhase noFaults cfg BlobStore.srvRoot stats r (@mkWorld mapBadger exBs os2 exDb)).2 in
    BlobStore.Get noFaults (w_bs w2) (w_os w2) (FromBytes exData) =
      (Err ErrBlobNotFound, (w_bs w2, w_os w2)) ∧ w_db w2 = exDb.
Proof.
  intros cfg w.
  destruct (BlobStore.Put noFaults exBs os_empty [3%N] (FromBytes exData) (NewReader exData) 0)
    as [res os2] eqn:HP.
  assert (res = Ok tt) as ->.
  { apply (f_equal (λ r, is_ok r.1)) in HP. vm_compute in HP. by destruct res as [[]| |]. }
  exists noStats, ∅, os2. split; [reflexivity|]. split; [reflexivity|].
  exact (proj2 (@sweep_removes_concurrent_push mapBadger MetadataStore.jsonMeta MetadataStore.jsonRepo
    (countableJsonLaws _ _) (countableJsonLaws _ _) Oci.gcDecoder ti_sort ti_sortLaws cfg noStats noStats ∅ w w 2 [3%N] exData 0 os2 exDb BlobStore.good_srvRoot eq_refl
    eq_refl eq_refl (not_elem_of_empty _) HP)).
Defined.

Lemma KeepRecent_breaks_shared_tag_witness :
  ∃ stats' r' w', @markRepo mapBadger MetadataStore.jsonMeta Oci.gcDecoder ti_sort noFaults 2
      (mkConfig true "" 1 false) "app" (noStats, ∅, exWorld) = Some (stats', r', w') ∧
    @MetadataStore.GetManifest mapBadger MetadataStore.jsonMeta (w_db w') "app" "v1" =
      Err ErrManifestNotFound.
Proof.
  exact (@KeepRecent_breaks_shared_tag mapBadger mapBadgerLaws MetadataStore.jsonMeta
    MetadataStore.jsonRepo (countableJsonLaws _ _) (countableJsonLaws _ _) Oci.gcDecoder ti_sort ti_sortLaws
    (λ _, 0) 2 (mkConfig true "" 1 false) "app" noStats ∅ exWorld exIx
    (mkTagInfo "v2" exImage 10) "v1" exImage exRanked (λ _, le_S _ _ (le_n 1))
    (proj1 MetadataStore.app_good) exGcDb_represents eq_refl
    ltac:(vm_compute; left) eq_refl eq_refl eq_refl eq_refl).
Defined.

(** The marking stage treats a blob it cannot read like one without
    references, and records no error. *)
Definition statFails : Faults := λ o, match o with OpStat => Some ErrNotExist | _ => None end.

(** A read error during the marking loses live data: when the status call on
    the manifest blob fails, a run that keeps every tag deletes the layer of
    an image that is still tagged, and reports no error. *)
Theorem read_error_deletes_live_layer :
  match exRun statFails (mkConfig true "" 0 false) with
  | Some (Some stats, _, w') =>
    os_files (w_os exWorld) !! BlobStore.blobFile BlobStore.srvRoot exLayer = Some exData ∧
    @reach Oci.gcDecoder (w_bs exWorld) (os_files (w_os exWorld)) exImage exLayer ∧
    @MetadataStore.GetManifest mapBadger MetadataStore.jsonMeta (w_db w') "app" "v1" =
      Ok (exImgMeta 10) ∧
    os_files (w_os w') !! BlobStore.blobFile BlobStore.srvRoot exLayer = None ∧
    st_Errors stats = []
  | _ => False
  end.
Proof.
  destruct (exRun statFails (mkConfig true "" 0 false)) as [[[[stats|] c'] w']|] eqn:HRun;
    [|apply (f_equal (λ r, match r with Some (Some _, _, _) => true | _ => false end)) in HRun;
      vm_compute in HRun; discriminate..].
  split_and!.
  - by vm_compute.
  - exact exLayer_reached.
  - apply (f_equal (λ r, match r with Some (_, _, w) =>
      @MetadataStore.GetManifest mapBadger MetadataStore.jsonMeta (w_db w) "app" "v1"
      | _ => Err ErrNotExist end)) in HRun.
    rewrite <-HRun. by vm_compute.
  - apply (f_equal (λ r, match r with Some (_, _, w) =>
      os_files (w_os w) !! BlobStore.blobFile BlobStore.srvRoot exLayer
      | _ => None end)) in HRun.
    rewrite <-HRun. by vm_compute.
  - apply (f_equal (λ r, match r with Some (Some s, _, _) => st_Errors s | _ => [] end)) in HRun.
    rewrite <-HRun. by vm_compute.
Qed.

End Gc.
