(* ===== verification/Regexp.v ===== *)
(** The fragment of package regexp that the router uses: anchored patterns made
    of literals, character classes, repetitions and alternatives, with capture
    groups at the top level.

    [matches] decides membership by derivatives; [lang] is the language it is
    proved to decide.  [find_groups] is [FindStringSubmatch] of an anchored
    sequence of literals and groups. *)

From S2P Require Import Prelude GoLib.

Module Regexp.

Inductive re :=
  | Empty
  | Eps
  | Chr (p : ascii → bool)
  | Cat (r1 r2 : re)
  | Alt (r1 r2 : re)
  | Star (r : re).

Fixpoint nullable (r : re) : bool :=
  match r with
  | Empty | Chr _ => false
  | Eps | Star _ => true
  | Cat r1 r2 => nullable r1 && nullable r2
  | Alt r1 r2 => nullable r1 || nullable r2
  end.

(** Constructors that keep derivatives small. *)
Definition cat (r1 r2 : re) : re :=
  match r1, r2 with
  | Empty, _ | _, Empty => Empty
  | Eps, r => r
  | _, _ => Cat r1 r2
  end.

Definition alt (r1 r2 : re) : re :=
  match r1, r2 with
  | Empty, r => r
  | r, Empty => r
  | _, _ => Alt r1 r2
  end.

Fixpoint deriv (c : ascii) (r : re) : re :=
  match r with
  | Empty | Eps => Empty
  | Chr p => if p c then Eps else Empty
  | Cat r1 r2 =>
    if nullable r1 then alt (cat (deriv c r1) r2) (deriv c r2) else cat (deriv c r1) r2
  | Alt r1 r2 => alt (deriv c r1) (deriv c r2)
  | Star r => cat (deriv c r) (Star r)
  end.

Fixpoint matches (r : re) (s : string) : bool :=
  match s with
  | EmptyString => nullable r
  | String c s => matches (deriv c r) s
  end.

(** [\[a-z0-9\]], [r+], [r?], [r{n}], [r{0,n}]. *)
Definition range (a b c : ascii) : bool :=
  bool_decide (N_of_ascii a ≤ N_of_ascii c ≤ N_of_ascii b)%N.
Definition one_of (s : string) (c : ascii) : bool := bool_decide (c ∈ str_bytes s).
Definition plus (r : re) : re := Cat r (Star r).
Definition opt (r : re) : re := Alt Eps r.
Fixpoint rep (n : nat) (r : re) : re := match n with O => Eps | S n => Cat r (rep n r) end.
Fixpoint upto (n : nat) (r : re) : re := match n with O => Eps | S n => opt (Cat r (upto n r)) end.
Fixpoint lit (s : string) : re :=
  match s with
  | EmptyString => Eps
  | String c s => Cat (Chr (λ d, bool_decide (d = c))) (lit s)
  end.

(** A top-level piece of an anchored pattern: outside or inside a group. *)
Inductive piece := Plain (r : re) | Group (r : re).

(** The prefixes of a string with the rest, longest prefix first. *)
Fixpoint splits (s : string) : list (string * string) :=
  match s with
  | EmptyString => [(EmptyString, EmptyString)]
  | String c t => ((λ '(a, b), (String c a, b)) <$> splits t) ++ [(EmptyString, s)]
  end.

Fixpoint first_some {A B} (f : A → option B) (l : list A) : option B :=
  match l with
  | [] => None
  | a :: l => match f a with Some b => Some b | None => first_some f l end
  end.

Fixpoint find_groups (ps : list piece) (s : string) : option (list string) :=
  match ps with
  | [] => match s with EmptyString => Some [] | _ => None end
  | Plain r :: ps =>
    first_some (λ '(a, b), if matches r a then find_groups ps b else None) (splits s)
  | Group r :: ps =>
    first_some (λ '(a, b), if matches r a then cons a <$> find_groups ps b else None) (splits s)
  end.

(** ** The language of an expression *)

Inductive lang : re → string → Prop :=
  | lang_eps : lang Eps ""
  | lang_chr p c : p c = true → lang (Chr p) (String c "")
  | lang_cat r1 r2 s1 s2 : lang r1 s1 → lang r2 s2 → lang (Cat r1 r2) (s1 +:+ s2)
  | lang_alt_l r1 r2 s : lang r1 s → lang (Alt r1 r2) s
  | lang_alt_r r1 r2 s : lang r2 s → lang (Alt r1 r2) s
  | lang_star_nil r : lang (Star r) ""
  | lang_star_cons r s1 s2 : lang r s1 → lang (Star r) s2 → lang (Star r) (s1 +:+ s2).

Lemma lang_cat_inv r1 r2 s : lang (Cat r1 r2) s → ∃ s1 s2, s = s1 +:+ s2 ∧ lang r1 s1 ∧ lang r2 s2.
Proof. intros H. inv H. eauto. Qed.

Lemma lang_cat_smart r1 r2 s : lang (cat r1 r2) s ↔ lang (Cat r1 r2) s.
Proof.
  split.
  - assert (lang r2 s → lang (Cat Eps r2) s) as HEps.
    { intros H. change s with ("" +:+ s). apply lang_cat; [constructor|done]. }
    destruct r1, r2; simpl; intros H; try (by inv H); try done; by apply HEps.
  - intros (s1 & s2 & -> & H1 & H2)%lang_cat_inv.
    destruct r1; try (by inv H1); destruct r2; simpl; try (by inv H2); try (by constructor);
      inv H1; done.
Qed.

Lemma lang_alt_smart r1 r2 s : lang (alt r1 r2) s ↔ lang (Alt r1 r2) s.
Proof.
  split.
  - destruct r1, r2; simpl; intros H; try done; by constructor.
  - intros H. inv H; destruct r1, r2; simpl; try done; try (by constructor);
      match goal with H : lang Empty _ |- _ => inv H end.
Qed.

Lemma nullable_lang r : nullable r = true ↔ lang r "".
Proof.
  split.
  - induction r; simpl; intros H; try done; try by constructor.
    + apply andb_true_iff in H as [? ?]. rewrite <-(sapp_nil_l ""). constructor; auto.
    + apply orb_true_iff in H as [?|?]; [apply lang_alt_l|apply lang_alt_r]; auto.
  - remember "" as s eqn:E. intros H. revert E.
    induction H; intros E; simpl; try done; auto.
    + destruct s1; [|done]. rewrite sapp_nil_l in E. rewrite IHlang1, IHlang2 by done. done.
    + by rewrite IHlang.
    + rewrite IHlang by done. by rewrite orb_true_r.
Qed.

Lemma deriv_lang c r s : lang (deriv c r) s ↔ lang r (String c s).
Proof.
  revert s. induction r as [| |p|r1 IH1 r2 IH2|r1 IH1 r2 IH2|r IH]; intros s; simpl.
  - split; intros H; inv H.
  - split; intros H; inv H.
  - split.
    + destruct (p c) eqn:E; intros H; inv H. by constructor.
    + intros H. inv H. match goal with E : p c = true |- _ => rewrite E end. constructor.
  - assert (lang (cat (deriv c r1) r2) s ↔
      ∃ s1 s2, s = s1 +:+ s2 ∧ lang r1 (String c s1) ∧ lang r2 s2) as Hcat.
    { rewrite lang_cat_smart. split.
      - intros (s1 & s2 & -> & ?%IH1 & ?)%lang_cat_inv. eauto.
      - intros (s1 & s2 & -> & ?%IH1 & ?). by constructor. }
    assert (lang (Cat r1 r2) (String c s) ↔
      (∃ s1 s2, s = s1 +:+ s2 ∧ lang r1 (String c s1) ∧ lang r2 s2) ∨
      (nullable r1 = true ∧ lang r2 (String c s))) as Hr.
    { split.
      - intros ([|d s1] & s2 & E & H1 & H2)%lang_cat_inv.
        + right. rewrite sapp_nil_l in E. rewrite <-E in H2. split; [by apply nullable_lang|done].
        + left. rewrite sapp_cons in E. injection E as -> ->. eauto.
      - intros [(s1 & s2 & -> & ? & ?)|[?%nullable_lang ?]].
        + rewrite <-sapp_cons. by constructor.
        + rewrite <-(sapp_nil_l (String c s)). by constructor. }
    rewrite Hr. destruct (nullable r1).
    + rewrite lang_alt_smart. split.
      * intros H. inv H; [left; by apply Hcat|right; by rewrite <-IH2].
      * intros [?|[_ ?]]; [apply lang_alt_l; by apply Hcat|apply lang_alt_r; by apply IH2].
    + rewrite Hcat. naive_solver.
  - rewrite lang_alt_smart. split; intros H; inv H.
    + apply lang_alt_l. by apply IH1.
    + apply lang_alt_r. by apply IH2.
    + apply lang_alt_l. by apply IH1.
    + apply lang_alt_r. by apply IH2.
  - rewrite lang_cat_smart. split.
    + intros (s1 & s2 & -> & ?%IH & ?)%lang_cat_inv. rewrite <-sapp_cons. by constructor.
    + remember (Star r) as r' eqn:Er. remember (String c s) as s' eqn:Es. intros H.
      revert s Es. induction H; intros t Es; simplify_eq.
      destruct s1 as [|d s1].
      * rewrite sapp_nil_l in Es. by apply IHlang2.
      * rewrite sapp_cons in Es. injection Es as -> <-. constructor; [by apply IH|done].
Qed.

Lemma matches_lang r s : matches r s = true ↔ lang r s.
Proof.
  revert r. induction s as [|c s IH]; intros r; simpl; [apply nullable_lang|].
  by rewrite IH, deriv_lang.
Qed.

(** ** Facts about the patterns *)

Lemma lang_lit s x : lang (lit s) x ↔ x = s.
Proof.
  revert x. induction s as [|c s IH]; intros x; simpl.
  - split; intros H; [by inv H|subst; constructor].
  - split.
    + intros (s1 & s2 & -> & H1 & H2)%lang_cat_inv. apply IH in H2 as ->. inv H1.
      match goal with E : bool_decide _ = true |- _ => apply bool_decide_eq_true in E as -> end.
      done.
    + intros ->. change (String c s) with (String c "" +:+ s). constructor; [|by apply IH].
      constructor. by apply bool_decide_eq_true.
Qed.

Lemma lang_rep_chr n p x :
  lang (rep n (Chr p)) x ↔ String.length x = n ∧ Forall (λ c, p c = true) (str_bytes x).
Proof.
  revert x. induction n as [|n IH]; intros x; simpl.
  - split.
    + intros H. inv H. done.
    + intros [Hx _]. destruct x; [constructor|done].
  - split.
    + intros (s1 & s2 & -> & H1 & H2)%lang_cat_inv. apply IH in H2 as [<- H2]. inv H1.
      split; [done|]. by constructor.
    + intros [Hx Hp]. destruct x as [|c x]; [done|]. simpl in Hp.
      apply Forall_cons in Hp as [Hc Hp].
      change (String c x) with (String c "" +:+ x). constructor; [by constructor|].
      apply IH. split; [simpl in Hx; congruence|done].
Qed.

(** The characters an expression can match. *)
Fixpoint alphabet (r : re) (c : ascii) : bool :=
  match r with
  | Empty | Eps => false
  | Chr p => p c
  | Cat r1 r2 | Alt r1 r2 => alphabet r1 c || alphabet r2 c
  | Star r => alphabet r c
  end.

Lemma lang_alphabet r s : lang r s → Forall (λ c, alphabet r c = true) (str_bytes s).
Proof.
  induction 1; simpl; rewrite ?str_bytes_app; try constructor; auto;
    rewrite ?Forall_app; try (eapply Forall_impl; [eassumption|]; simpl; intros x Hx;
      rewrite Hx; auto using orb_true_r); try split; auto;
    (eapply Forall_impl; [eassumption|]; simpl; intros x Hx; rewrite Hx; auto using orb_true_r).
Qed.

(** A pattern all of whose characters differ from [c] matches no string with
    [c]. *)
Lemma lang_not_in r s c : lang r s → alphabet r c = false → not_in c s.
Proof.
  intros H Hc Hin. apply lang_alphabet in H. rewrite Forall_forall in H.
  specialize (H c Hin). by rewrite Hc in H.
Qed.

(** ** Capture groups *)

Inductive decomp : list piece → string → list string → Prop :=
  | decomp_nil : decomp [] "" []
  | decomp_plain r ps s1 s2 gs :
      lang r s1 → decomp ps s2 gs → decomp (Plain r :: ps) (s1 +:+ s2) gs
  | decomp_group r ps s1 s2 gs :
      lang r s1 → decomp ps s2 gs → decomp (Group r :: ps) (s1 +:+ s2) (s1 :: gs).

Lemma elem_of_splits s a b : (a, b) ∈ splits s ↔ s = a +:+ b.
Proof.
  revert a. induction s as [|c s IH]; intros a; simpl.
  - rewrite list_elem_of_singleton. split.
    + by intros [= -> ->].
    + intros H. destruct a as [|d a]; [by rewrite sapp_nil_l in H; subst|].
      by rewrite sapp_cons in H.
  - rewrite elem_of_app, list_elem_of_singleton, list_elem_of_fmap. split.
    + intros [([a' b'] & [= -> ->] & Hin)|[= -> ->]]; [|done].
      apply IH in Hin as ->. done.
    + intros H. destruct a as [|d a].
      * right. rewrite sapp_nil_l in H. by subst.
      * left. rewrite sapp_cons in H. injection H as -> ->. exists (a, b).
        split; [done|]. by apply IH.
Qed.

Lemma first_some_Some {A B} (f : A → option B) l b :
  first_some f l = Some b → ∃ a, a ∈ l ∧ f a = Some b.
Proof.
  induction l as [|a l IH]; simpl; [done|]. destruct (f a) eqn:E.
  - intros [= ->]. exists a. split; [by left|done].
  - intros (a' & ? & ?)%IH. exists a'. split; [by right|done].
Qed.

Lemma first_some_exists {A B} (f : A → option B) l a :
  a ∈ l → is_Some (f a) → is_Some (first_some f l).
Proof.
  induction 1 as [a l|a a' l _ IH]; intros [b Hb]; simpl; [by rewrite Hb|].
  case_match; [done|]. apply IH. by exists b.
Qed.

Lemma find_groups_sound ps s gs : find_groups ps s = Some gs → decomp ps s gs.
Proof.
  revert s gs. induction ps as [|[r|r] ps IH]; intros s gs; simpl.
  - destruct s; [|done]. intros [= <-]. constructor.
  - intros ([a b] & Hin%elem_of_splits & Hf)%first_some_Some.
    destruct (matches r a) eqn:Hm; [|done]. subst s.
    constructor; [by apply matches_lang|auto].
  - intros ([a b] & Hin%elem_of_splits & Hf)%first_some_Some.
    destruct (matches r a) eqn:Hm; [|done].
    apply fmap_Some in Hf as (gs' & Hf & ->). subst s.
    constructor; [by apply matches_lang|auto].
Qed.

Lemma find_groups_complete ps s gs : decomp ps s gs → is_Some (find_groups ps s).
Proof.
  induction 1 as [|r ps s1 s2 gs Hr _ IH|r ps s1 s2 gs Hr _ IH]; simpl; [done| |];
    apply (first_some_exists _ _ (s1, s2)); try (by apply elem_of_splits);
    apply matches_lang in Hr; rewrite Hr; [done|]. by rewrite fmap_is_Some.
Qed.

(** A match whose groups are determined is the one that is found. *)
Lemma find_groups_unique ps s gs :
  decomp ps s gs → (∀ gs', decomp ps s gs' → gs' = gs) → find_groups ps s = Some gs.
Proof.
  intros Hd Hu. destruct (find_groups_complete _ _ _ Hd) as [gs' Hf].
  rewrite Hf. f_equal. by apply Hu, find_groups_sound.
Qed.

End Regexp.
