(* ===== verification/Base64.v ===== *)
(** encoding/base64 of the Go standard library, standard alphabet with
    padding: what [EncodeToString] writes, [DecodeString] reads back. *)

From S2P Require Import Prelude.

Module Base64.

(** The character of a 6-bit value, and back. *)
Definition enc_char (z : Z) : ascii :=
  byte_of_Z (if decide (z < 26)%Z then 65 + z
             else if decide (z < 52)%Z then 71 + z
             else if decide (z < 62)%Z then z - 4
             else if decide (z = 62)%Z then 43 else 47).

Definition dec_char (c : ascii) : option Z :=
  let n := Z_of_byte c in
  if decide (65 ≤ n ≤ 90)%Z then Some (n - 65)%Z
  else if decide (97 ≤ n ≤ 122)%Z then Some (n - 71)%Z
  else if decide (48 ≤ n ≤ 57)%Z then Some (n + 4)%Z
  else if decide (n = 43)%Z then Some 62%Z
  else if decide (n = 47)%Z then Some 63%Z
  else None.

Definition pad : ascii := "=".

(** Three bytes are four characters; a rest of one or two bytes is padded. *)
Fixpoint encode (l : bytes) : bytes :=
  match l with
  | [] => []
  | [a] =>
    let x := Z_of_byte a in
    [enc_char (x / 4); enc_char (x mod 4 * 16); pad; pad]
  | [a; b] =>
    let x := Z_of_byte a in let y := Z_of_byte b in
    [enc_char (x / 4); enc_char (x mod 4 * 16 + y / 16); enc_char (y mod 16 * 4); pad]
  | a :: b :: c :: l =>
    let x := Z_of_byte a in let y := Z_of_byte b in let z := Z_of_byte c in
    enc_char (x / 4) :: enc_char (x mod 4 * 16 + y / 16) ::
    enc_char (y mod 16 * 4 + z / 64) :: enc_char (z mod 64) :: encode l
  end.

(** Padding ends the input; the bits it leaves over are not looked at. *)
Fixpoint decode (l : bytes) : option bytes :=
  match l with
  | [] => Some []
  | a :: b :: c :: d :: l =>
    x ← dec_char a; y ← dec_char b;
    if decide (d = pad) then
      match l with
      | [] =>
        if decide (c = pad) then Some [byte_of_Z (x * 4 + y / 16)]
        else z ← dec_char c;
             Some [byte_of_Z (x * 4 + y / 16); byte_of_Z (y mod 16 * 16 + z / 4)]
      | _ => None
      end
    else
      z ← dec_char c; w ← dec_char d; r ← decode l;
      Some (byte_of_Z (x * 4 + y / 16) :: byte_of_Z (y mod 16 * 16 + z / 4) ::
            byte_of_Z (z mod 4 * 64 + w) :: r)
  | _ => None
  end.

(** Line ends are skipped wherever they stand. *)
Definition line_end (c : ascii) : Prop := c = "010"%char ∨ c = "013"%char.

Definition EncodeToString (l : bytes) : string := bytes_str (encode l).
Definition DecodeString (s : string) : option bytes :=
  decode (filter (λ c, ¬ line_end c) (str_bytes s)).

(** ** The round trip *)

Lemma dec_enc_char z : (0 ≤ z < 64)%Z → dec_char (enc_char z) = Some z.
Proof.
  intros Hz. unfold dec_char, enc_char.
  repeat case_decide; rewrite Z_of_byte_of_Z, Z.mod_small in * by lia; try lia; f_equal; lia.
Qed.

Lemma enc_char_code z : (0 ≤ z < 64)%Z → (Z_of_byte (enc_char z) = 43 ∨ 47 ≤ Z_of_byte (enc_char z) ≤ 57 ∨
  65 ≤ Z_of_byte (enc_char z))%Z.
Proof.
  intros Hz. unfold enc_char. repeat case_decide; rewrite Z_of_byte_of_Z, Z.mod_small by lia; lia.
Qed.

Lemma enc_char_plain z : (0 ≤ z < 64)%Z → enc_char z ≠ pad ∧ ¬ line_end (enc_char z).
Proof.
  intros Hz. pose proof (enc_char_code z Hz) as Hc. unfold line_end.
  split; [|intros [E|E]]; try intros E; rewrite E in Hc; vm_compute in Hc; naive_solver lia.
Qed.

Lemma encode_ind (P : bytes → Prop) :
  P [] → (∀ a, P [a]) → (∀ a b, P [a; b]) → (∀ a b c l, P l → P (a :: b :: c :: l)) → ∀ l, P l.
Proof.
  intros H0 H1 H2 H3. fix IH 1. intros [|a [|b [|c l]]]; [done|apply H1|apply H2|].
  apply H3, IH.
Qed.

Lemma bound_x a : let x := Z_of_byte a in (0 ≤ x / 4 < 64 ∧ 0 ≤ x mod 4 * 16 < 64)%Z.
Proof. pose proof (Z_of_byte_bound a). cbv zeta. Z.div_mod_to_equations. lia. Qed.

Lemma bound_xy a b :
  let x := Z_of_byte a in let y := Z_of_byte b in
  (0 ≤ x mod 4 * 16 + y / 16 < 64 ∧ 0 ≤ y mod 16 * 4 < 64)%Z.
Proof.
  pose proof (Z_of_byte_bound a). pose proof (Z_of_byte_bound b). cbv zeta.
  Z.div_mod_to_equations. lia.
Qed.

Lemma bound_yz b c :
  let y := Z_of_byte b in let z := Z_of_byte c in
  (0 ≤ y mod 16 * 4 + z / 64 < 64 ∧ 0 ≤ z mod 64 < 64)%Z.
Proof.
  pose proof (Z_of_byte_bound b). pose proof (Z_of_byte_bound c). cbv zeta.
  Z.div_mod_to_equations. lia.
Qed.

Lemma join_x a t : (0 ≤ t < 16)%Z →
  byte_of_Z (Z_of_byte a / 4 * 4 + (Z_of_byte a mod 4 * 16 + t) / 16) = a.
Proof.
  intros Ht. rewrite <-(byte_of_Z_of_byte a) at 3. f_equal.
  Z.div_mod_to_equations. lia.
Qed.

Lemma join_y b t u : (0 ≤ t)%Z → (0 ≤ u < 4)%Z →
  byte_of_Z ((t * 16 + Z_of_byte b / 16) mod 16 * 16 + (Z_of_byte b mod 16 * 4 + u) / 4) = b.
Proof.
  intros Ht Hu. rewrite <-(byte_of_Z_of_byte b) at 3. f_equal. pose proof (Z_of_byte_bound b).
  Z.div_mod_to_equations. lia.
Qed.

Lemma join_z c t : (0 ≤ t)%Z →
  byte_of_Z ((t * 4 + Z_of_byte c / 64) mod 4 * 64 + Z_of_byte c mod 64) = c.
Proof.
  intros Ht. rewrite <-(byte_of_Z_of_byte c) at 3. f_equal. pose proof (Z_of_byte_bound c).
  Z.div_mod_to_equations. lia.
Qed.

Lemma decode_encode l : decode (encode l) = Some l.
Proof.
  induction l as [|a|a b|a b c l IH] using encode_ind; [done|..]; cbn [encode decode];
    pose proof (bound_x a) as [Hx1 Hx2].
  - rewrite !dec_enc_char by done. simpl. do 2 f_equal.
    rewrite <-(Z.add_0_r (_ mod _ * _)). apply join_x. lia.
  - pose proof (bound_xy a b) as [Hy1 Hy2]. rewrite !dec_enc_char by done. cbn [mbind option_bind].
    rewrite decide_True, decide_False by (done || by apply enc_char_plain). rewrite join_x by (pose proof (Z_of_byte_bound b); Z.div_mod_to_equations; lia).
    do 3 f_equal. rewrite <-(Z.add_0_r (_ mod 16 * 4)). apply join_y; [apply Z.mod_pos_bound|]; lia.
  - pose proof (bound_xy a b) as [Hy1 Hy2]. pose proof (bound_yz b c) as [Hz1 Hz2].
    rewrite !dec_enc_char by done. cbn [mbind option_bind].
    rewrite decide_False by by apply enc_char_plain.
    rewrite IH. cbn [mbind option_bind].
    rewrite join_x by (pose proof (Z_of_byte_bound b); Z.div_mod_to_equations; lia).
    rewrite join_y by (try apply Z.mod_pos_bound; pose proof (Z_of_byte_bound c); Z.div_mod_to_equations; lia).
    by rewrite join_z by (apply Z.mod_pos_bound; lia).
Qed.

Lemma encode_plain l : Forall (λ c, ¬ line_end c) (encode l).
Proof.
  assert (¬ line_end pad) as Hp by (intros [|]; discriminate).
  induction l as [|a|a b|a b c l IH] using encode_ind; [apply Forall_nil_2|..]; cbn [encode];
    pose proof (bound_x a) as [? ?]; try pose proof (bound_xy a b) as [? ?];
    try pose proof (bound_yz b c) as [? ?];
    repeat (apply Forall_cons_2; [solve [done|apply enc_char_plain; assumption]|]); by try apply Forall_nil_2.
Qed.

(** What is encoded is read back. *)
Lemma DecodeString_EncodeToString l : DecodeString (EncodeToString l) = Some l.
Proof.
  unfold DecodeString, EncodeToString. rewrite bytes_str_bytes.
  replace (filter _ (encode l)) with (encode l); [apply decode_encode|].
  induction (encode_plain l) as [|c cs Hc _ IH]; [done|].
  rewrite filter_cons_True by done. by f_equal.
Qed.

Example encode_man : EncodeToString (str_bytes "Many") = "TWFueQ==".
Proof. by vm_compute. Qed.
Example decode_lines : DecodeString ("TWFu" +:+ String "010" "eQ==") = Some (str_bytes "Many").
Proof. by vm_compute. Qed.
Example decode_bad : DecodeString "TWFueQ=" = None ∧ DecodeString "TW=u" = None ∧ DecodeString "TWFueQ==A" = None.
Proof. by vm_compute. Qed.
End Base64.
