(* ===== verification/Glob.v ===== *)
(** Package path of the Go standard library: [path.Match], the shell patterns
    of tag filters, with the language of a pattern and the proof that [Match]
    decides it. *)

From S2P Require Import Prelude GoLib.

Module Glob.

(** [utf8.DecodeRune]: the rune and its width; U+FFFD of width 1 for a byte
    that starts no valid encoding. *)
Definition cont (lo hi : Z) (c : option byte) : option Z :=
  match c with
  | Some c => if decide (lo ≤ Z_of_byte c ≤ hi)%Z then Some (Z_of_byte c mod 64)%Z else None
  | None => None
  end.

Definition DecodeRune (l : bytes) : Z * nat :=
  match l with
  | [] => (65533%Z, O)
  | c :: l =>
    let n := Z_of_byte c in
    let any := cont 128 191 in
    default (65533%Z, 1)
      (if decide (n < 128)%Z then Some (n, 1)
       else if decide (194 ≤ n ≤ 223)%Z then
         a ← any (l !! 0); Some ((n mod 32 * 64 + a)%Z, 2)
       else if decide (224 ≤ n ≤ 239)%Z then
         a ← cont (if decide (n = 224)%Z then 160 else 128) (if decide (n = 237)%Z then 159 else 191) (l !! 0);
         b ← any (l !! 1); Some ((n mod 16 * 4096 + a * 64 + b)%Z, 3)
       else if decide (240 ≤ n ≤ 244)%Z then
         a ← cont (if decide (n = 240)%Z then 144 else 128) (if decide (n = 244)%Z then 143 else 191) (l !! 0);
         b ← any (l !! 1); d ← any (l !! 2);
         Some ((n mod 8 * 262144 + a * 4096 + b * 64 + d)%Z, 4)
       else None)
  end.

(** ** Patterns *)

(** One item of a pattern: a literal byte, [?], a character class, [*]. *)
Inductive tok :=
  | TChar (c : byte)
  | TAny
  | TClass (negated : bool) (ranges : list (Z * Z))
  | TStar.

(** [getEsc]: one possibly escaped character of a class, which may not end
    the pattern; [None] is [ErrBadPattern]. *)
Definition getEsc (chunk : bytes) : option (Z * bytes) :=
  chunk ← match chunk with
          | [] => None
          | c :: l =>
            if decide (c = "-"%char ∨ c = "]"%char) then None
            else if decide (c = "\"%char) then match l with [] => None | _ => Some l end
            else Some chunk
          end;
  let '(r, n) := DecodeRune chunk in
  if decide (r = 65533%Z ∧ n = 1) then None
  else match drop n chunk with [] => None | rest => Some (r, rest) end.

(** The rest of a chunk behind a given character. *)
Definition after (c : byte) (chunk : bytes) : option bytes :=
  match chunk with d :: rest => if decide (d = c) then Some rest else None | [] => None end.

(** The ranges of a class, up to the closing bracket. *)
Fixpoint class_ranges (fuel : nat) (acc : list (Z * Z)) (chunk : bytes)
    : option (list (Z * Z) * bytes) :=
  match fuel with
  | O => None
  | S fuel =>
    match (match acc with [] => None | _ => after "]" chunk end) with
    | Some rest => Some (reverse acc, rest)
    | None =>
      '(lo, rest) ← getEsc chunk;
      match after "-" rest with
      | Some rest => '(hi, rest) ← getEsc rest; class_ranges fuel ((lo, hi) :: acc) rest
      | None => class_ranges fuel ((lo, lo) :: acc) rest
      end
    end
  end.

(** The first item of a chunk. *)
Definition item (c : byte) (l : bytes) : option (tok * bytes) :=
  if decide (c = "["%char) then
    let '(neg, l) := match after "^" l with Some l => (true, l) | None => (false, l) end in
    '(rs, rest) ← class_ranges (S (length l)) [] l;
    Some (TClass neg rs, rest)
  else if decide (c = "?"%char) then Some (TAny, l)
  else if decide (c = "\"%char) then
    match l with [] => None | c :: l => Some (TChar c, l) end
  else Some (TChar c, l).

(** One item takes its part of the name. *)
Definition eat (t : tok) (s : bytes) : option bytes :=
  match s with
  | [] => None
  | c :: s' =>
    match t with
    | TChar d => if decide (c = d) then Some s' else None
    | TAny => if decide (c = "/"%char) then None else Some (drop (DecodeRune s).2 s)
    | TClass neg rs =>
      let '(r, n) := DecodeRune s in
      if Bool.eqb (existsb (λ lh, bool_decide (lh.1 ≤ r ≤ lh.2)%Z) rs) neg then None
      else Some (drop n s)
    | TStar => None
    end
  end.

(** [matchChunk]: the items of a chunk one after the other; once the name fails
    ([None] inside) the rest of the chunk is still checked. *)
Fixpoint matchItems (fuel : nat) (chunk : bytes) (st : option bytes) : option (option bytes) :=
  match fuel, chunk with
  | _, [] => Some st
  | O, _ => None
  | S fuel, c :: l => '(t, rest) ← item c l; matchItems fuel rest (st ≫= eat t)
  end.
Definition matchChunk (chunk s : bytes) : option (option bytes) :=
  matchItems (length chunk) chunk (Some s).

(** [scanChunk]: whether the pattern starts with stars, the chunk up to the
    next star outside a class, and the rest. *)
Fixpoint strip_stars (p : bytes) : bool * bytes :=
  match p with
  | c :: q => if decide (c = "*"%char) then (true, (strip_stars q).2) else (false, p)
  | [] => (false, [])
  end.

Definition bracket (inrange : bool) (c : byte) : bool :=
  if decide (c = "["%char) then true else if decide (c = "]"%char) then false else inrange.

Fixpoint scan (inrange : bool) (p : bytes) : bytes * bytes :=
  match p with
  | [] => ([], [])
  | c :: q =>
    if decide (c = "\"%char) then
      match q with
      | [] => ([c], [])
      | d :: q => let '(a, b) := scan inrange q in (c :: d :: a, b)
      end
    else if decide (c = "*"%char ∧ inrange = false) then ([], p)
    else let '(a, b) := scan (bracket inrange c) q in (c :: a, b)
  end.

Definition scanChunk (p : bytes) : bool * bytes * bytes :=
  let '(star, p) := strip_stars p in
  let '(chunk, rest) := scan false p in (star, chunk, rest).

(** ** Match *)

(** The search behind a star: the outcome of the chunk at the first later
    position, before a slash, where it matches (and ends, for the last
    chunk). *)
Fixpoint skip (last : bool) (chunk : bytes) (name : bytes) : option (option bytes) :=
  match name with
  | [] => Some None
  | c :: name =>
    if decide (c = "/"%char) then Some None
    else
      match matchChunk chunk name with
      | None => None
      | Some (Some t) =>
        if last && bool_decide (t ≠ []) then skip last chunk name else Some (Some t)
      | Some None => skip last chunk name
      end
  end.

(** The rest of the pattern is only checked. *)
Fixpoint checkRest (fuel : nat) (p : bytes) : option bool :=
  match fuel, p with
  | _, [] => Some false
  | O, _ => None
  | S fuel, _ =>
    let '(_, chunk, rest) := scanChunk p in
    match matchChunk chunk [] with None => None | Some _ => checkRest fuel rest end
  end.

Definition nilb (l : bytes) : bool := match l with [] => true | _ => false end.

(** [Match]; [None] is [ErrBadPattern]. *)
Fixpoint matchLoop (fuel : nat) (p name : bytes) : option bool :=
  match fuel, p with
  | _, [] => Some (nilb name)
  | O, _ => None
  | S fuel, _ =>
    let '(star, chunk, rest) := scanChunk p in
    if star && nilb chunk then Some (bool_decide ("/"%char ∉ name))
    else
      match matchChunk chunk name with
      | None => None
      | Some r =>
        let here := match r with
                    | Some t => if nilb t || negb (nilb rest) then Some t else None
                    | None => None
                    end in
        match here with
        | Some t => matchLoop fuel rest t
        | None =>
          match (if star then skip (nilb rest) chunk name else Some None) with
          | None => None
          | Some (Some t) => matchLoop fuel rest t
          | Some None => checkRest fuel rest
          end
        end
      end
  end.

Definition Match (pattern name : string) : option bool :=
  matchLoop (String.length pattern) (str_bytes pattern) (str_bytes name).

(** ** The language of a pattern *)

(** The items of a pattern, in order; [None] when it is malformed. *)
Fixpoint items (fuel : nat) (chunk : bytes) : option (list tok) :=
  match fuel, chunk with
  | _, [] => Some []
  | O, _ => None
  | S fuel, c :: l => '(t, rest) ← item c l; ts ← items fuel rest; Some (t :: ts)
  end.

Fixpoint parse_go (fuel : nat) (p : bytes) : option (list tok) :=
  match fuel, p with
  | _, [] => Some []
  | O, _ => None
  | S fuel, _ =>
    let '(star, chunk, rest) := scanChunk p in
    ts ← items (length chunk) chunk; us ← parse_go fuel rest;
    Some ((if star : bool then [TStar] else []) ++ ts ++ us)
  end.

Definition parse (pattern : string) : option (list tok) :=
  parse_go (String.length pattern) (str_bytes pattern).

(** What an item other than [*] stands for. *)
Definition tok_ok (t : tok) (c : byte) : Prop :=
  match t with
  | TChar d => c = d
  | TAny => True
  | TClass neg rs => existsb (λ lh, bool_decide (lh.1 ≤ Z_of_byte c ≤ lh.2)%Z) rs ≠ neg
  | TStar => False
  end.

(** Names of ASCII characters other than the slash. *)
Inductive globs : list tok → bytes → Prop :=
  | globs_nil : globs [] []
  | globs_one t ts c s : tok_ok t c → globs ts s → globs (t :: ts) (c :: s)
  | globs_star ts s : globs ts s → globs (TStar :: ts) s
  | globs_more ts c s : globs (TStar :: ts) s → globs (TStar :: ts) (c :: s).

Definition plain (s : bytes) : Prop := Forall (λ c, (Z_of_byte c < 128)%Z ∧ c ≠ "/"%char) s.

(** ** [Match] decides it *)

Lemma plain_drop n s : plain s → plain (drop n s).
Proof. apply Forall_drop. Qed.

Lemma DecodeRune_ascii c s : (Z_of_byte c < 128)%Z → DecodeRune (c :: s) = (Z_of_byte c, 1).
Proof. intros Hc. unfold DecodeRune. by rewrite decide_True. Qed.

Lemma eat_spec t c s : (Z_of_byte c < 128)%Z → c ≠ "/"%char → t ≠ TStar →
  tok_ok t c ↔ is_Some (eat t (c :: s)).
Proof.
  intros Hc Hs Ht. destruct t as [d| |neg rs|]; cbn [eat tok_ok]; [..|done].
  - case_decide as Hd; split; try done; by intros [? ?].
  - rewrite decide_False by done. split; [by eexists|done].
  - rewrite DecodeRune_ascii by done. destruct (Bool.eqb _ neg) eqn:E.
    + apply eqb_prop in E. split; [done|by intros [? ?]].
    + apply eqb_false_iff in E. split; [by eexists|done].
Qed.

Lemma eat_rest t c s s' : (Z_of_byte c < 128)%Z → eat t (c :: s) = Some s' → s' = s.
Proof.
  intros Hc. destruct t as [d| |neg rs|]; cbn [eat]; rewrite ?DecodeRune_ascii by done; [..|done].
  - case_decide; by intros [= <-].
  - case_decide; by intros [= <-].
  - destruct (Bool.eqb _ neg); by intros [= <-].
Qed.

Definition eats (ts : list tok) (s : bytes) : option bytes := foldl (λ st t, st ≫= eat t) (Some s) ts.

Lemma eats_none ts : foldl (λ st t, st ≫= eat t) None ts = (None : option bytes).
Proof. by induction ts. Qed.

Lemma eats_cons t ts s : eats (t :: ts) s = eat t s ≫= eats ts.
Proof. unfold eats. simpl. destruct (eat t s); [done|]. apply eats_none. Qed.

Lemma item_not_star c l t rest : item c l = Some (t, rest) → t ≠ TStar.
Proof.
  unfold item. case_decide; [|repeat case_decide; destruct l; naive_solver].
  destruct (match after _ _ with Some _ => _ | None => _ end) as [neg l'].
  destruct (class_ranges _ _ _) as [[rs rest']|]; [|done]. by intros [= <- <-].
Qed.

Lemma items_not_star n chunk ts : items n chunk = Some ts → Forall (λ t, t ≠ TStar) ts.
Proof.
  revert chunk ts. induction n as [|n IH]; intros [|c l] ts; simpl; try done; try (intros [= <-]; constructor).
  destruct (item c l) as [[t rest]|] eqn:E; simpl; [|done].
  destruct (items n rest) eqn:E'; simpl; [|done]. intros [= <-].
  constructor; [by eapply item_not_star|by eapply IH].
Qed.

Lemma matchItems_items n chunk st :
  matchItems n chunk st = (λ ts, foldl (λ st t, st ≫= eat t) st ts) <$> items n chunk.
Proof.
  revert chunk st. induction n as [|n IH]; intros [|c l] st; simpl; try done.
  destruct (item c l) as [[t rest]|]; simpl; [|done]. rewrite IH. by destruct (items n rest).
Qed.

Lemma matchChunk_items chunk s : matchChunk chunk s = (λ ts, eats ts s) <$> items (length chunk) chunk.
Proof. apply matchItems_items. Qed.

(** A chunk takes one byte per item. *)
Lemma eats_drop ts s t : plain s → eats ts s = Some t → t = drop (length ts) s.
Proof.
  revert s. induction ts as [|x ts IH]; intros s Hs; simpl; [by intros [= <-]|].
  rewrite eats_cons. destruct s as [|c s]; [done|]. apply Forall_cons in Hs as [[Hc _] Hs].
  destruct (eat x (c :: s)) as [s'|] eqn:E; [|done]. apply eat_rest in E as ->; [|done].
  by apply IH.
Qed.

Lemma eats_globs ts us s :
  plain s → Forall (λ t, t ≠ TStar) ts →
  globs (ts ++ us) s ↔ ∃ t, eats ts s = Some t ∧ globs us t.
Proof.
  revert s. induction ts as [|x ts IH]; intros s Hs Hts; simpl; [unfold eats; simpl; naive_solver|].
  apply Forall_cons in Hts as [Hx Hts]. rewrite eats_cons. destruct s as [|c s].
  { split; [|by intros (? & ? & _)]. intros H. inversion H; simplify_eq. }
  apply Forall_cons in Hs as [[Hc Hsl] Hs]. pose proof (eat_spec x c s Hc Hsl Hx) as He.
  split.
  - intros H. inversion H as [|? ? ? ? Hok Hg| |]; simplify_eq.
    apply He in Hok as [s' Es]. rewrite Es. apply eat_rest in Es as ->; [|done]. simpl. by apply IH.
  - intros (t & Ht & Hg). destruct (eat x (c :: s)) as [s'|] eqn:Es; [|done].
    pose proof (eat_rest _ _ _ _ Hc Es) as ->. constructor; [apply He; by eexists|].
    simpl in Ht. apply IH; [done..|]. by exists t.
Qed.

Lemma globs_star_iff us s : globs (TStar :: us) s ↔ ∃ n, globs us (drop n s).
Proof.
  split.
  - remember (TStar :: us) as p eqn:Hp. intros H. revert us Hp.
    induction H as [|t ts c s Hok H IH|ts s H IH|ts c s H IH]; intros us Hp; simplify_eq.
    + done.
    + by exists 0.
    + destruct (IH us eq_refl) as [n Hn]. by exists (S n).
  - intros [n H]. revert s H. induction n as [|n IH]; intros s H; [by apply globs_star|].
    destruct s as [|c s]; [by apply globs_star|]. by apply globs_more, IH.
Qed.

(** What a star may follow: nothing, or another star. *)
Definition open_ended (us : list tok) : Prop := us = [] ∨ ∃ vs, us = TStar :: vs.

Lemma globs_absorb us m n s :
  open_ended us → m ≤ n → (us = [] → drop m s = []) → globs us (drop n s) → globs us (drop m s).
Proof.
  intros [->|[vs ->]] Hmn Hnil H.
  - rewrite Hnil by done. constructor.
  - apply globs_star_iff in H as [k H]. apply globs_star_iff. exists (n - m + k).
    rewrite drop_drop in *. by replace (m + (n - m + k)) with (n + k) by lia.
Qed.

(** ** Progress of the scan *)

Lemma strip_stars_spec p star q : strip_stars p = (star, q) →
  length q + (if star then 1 else 0) ≤ length p ∧ head q ≠ Some "*"%char ∧
  (star = false → q = p) ∧ (head p = Some "*"%char → star = true).
Proof.
  revert star q. induction p as [|c p IH]; intros star q; simpl; [by intros [= <- <-]|].
  case_decide as Hc; intros [= <- <-].
  2:{ simpl. split_and!; [lia|by intros [= ->]|done|by intros [= ->]]. }
  destruct (strip_stars p) as [b q'] eqn:E. destruct (IH b q' eq_refl) as (? & ? & _).
  split; [simpl; lia|]. done.
Qed.

Lemma scan_spec p b chunk rest : scan b p = (chunk, rest) →
  p = chunk ++ rest ∧ (rest = [] ∨ head rest = Some "*"%char) ∧
  (chunk = [] → p = [] ∨ head p = Some "*"%char).
Proof.
  remember (length p) as n eqn:Hn. revert b p chunk rest Hn.
  induction n as [n IH] using lt_wf_ind. intros b [|c p] chunk rest ->; simpl; [naive_solver|].
  case_decide as H1.
  - destruct p as [|d p]; [naive_solver|]. destruct (scan b p) as [a q] eqn:E. intros [= <- <-].
    destruct (IH (length p)) with (p := p) (3 := E) as (-> & ? & _); [simpl; lia|done|]. naive_solver.
  - case_decide as H2; [destruct H2 as [-> ?]; intros [= <- <-]; naive_solver|].
    destruct (scan (bracket b c) p) as [a q] eqn:E. intros [= <- <-].
    destruct (IH (length p)) with (p := p) (3 := E) as (-> & ? & _); [simpl; lia|done|]. naive_solver.
Qed.

Lemma scanChunk_spec p star chunk rest : scanChunk p = (star, chunk, rest) → p ≠ [] →
  length rest < length p ∧ (rest = [] ∨ head rest = Some "*"%char) ∧
  (star = true → chunk = [] → rest = []).
Proof.
  unfold scanChunk. destruct (strip_stars p) as [b q] eqn:Es.
  destruct (scan false q) as [a r] eqn:Ec. intros [= <- <- <-] Hp.
  destruct (strip_stars_spec _ _ _ Es) as (Hl & Hh & Hf & Ht).
  destruct (scan_spec _ _ _ _ Ec) as (-> & Hr & Hne). rewrite length_app in Hl.
  split; [|split; [done|intros _ ->; naive_solver]].
  destruct a as [|c a]; [|simpl in *; lia]. destruct b; [lia|].
  destruct (Hne eq_refl) as [Hq|Hq]; simpl in *; subst; naive_solver.
Qed.

Lemma parse_open n p us : parse_go n p = Some us → p = [] ∨ head p = Some "*"%char →
  (p = [] ∧ us = []) ∨ p ≠ [] ∧ ∃ vs, us = TStar :: vs.
Proof.
  intros Hp [->|Hh]; [destruct n; injection Hp as <-; by left|]. right.
  split; [by intros ->|]. destruct n as [|n], p as [|c p]; try done. simpl in Hh. injection Hh as ->.
  cbn [parse_go] in Hp. unfold scanChunk in Hp.
  destruct (strip_stars ("*"%char :: p)) as [star q] eqn:Es.
  destruct (strip_stars_spec _ _ _ Es) as (_ & _ & _ & Ht). rewrite (Ht eq_refl) in Hp. clear Ht Es.
  destruct (scan false q) as [chunk rest].
  destruct (items _ chunk); [|done]. simpl in Hp. destruct (parse_go n rest); [|done].
  injection Hp as <-. by eexists.
Qed.

(** ** The two searches *)

Lemma nilb_spec l : nilb l = true ↔ l = [].
Proof. by destruct l. Qed.

(** [skip] finds the first position behind the star, if there is one. *)
Lemma skip_spec last chunk ts s :
  items (length chunk) chunk = Some ts → plain s →
  let rejected m := ∀ t', eats ts (drop m s) = Some t' → last = true ∧ t' ≠ [] in
  match skip last chunk s with
  | None => False
  | Some (Some t) => ∃ n, n ≠ 0 ∧ eats ts (drop n s) = Some t ∧ (last = true → t = []) ∧
      ∀ m, m ≠ 0 → m < n → rejected m
  | Some None => ∀ m, m ≠ 0 → m ≤ length s → rejected m
  end.
Proof.
  intros Hts Hs rejected. subst rejected. induction s as [|c s IH]; simpl; [lia|].
  apply Forall_cons in Hs as [[_ Hc] Hs]. rewrite decide_False by done. specialize (IH Hs).
  rewrite matchChunk_items, Hts. simpl.
  destruct (match eats ts s with Some t => negb (last && bool_decide (t ≠ [])) | None => false end) eqn:Eh.
  { destruct (eats ts s) as [t0|] eqn:Et; [|done]. apply negb_true_iff in Eh. rewrite Eh.
    exists 1. simpl. rewrite drop_0. split_and!; [done|done| |lia].
    intros ->. simpl in Eh. by apply bool_decide_eq_false, dec_stable in Eh. }
  assert (∀ t', eats ts s = Some t' → last = true ∧ t' ≠ []) as H0.
  { intros t' Et. rewrite Et in Eh. apply negb_false_iff, andb_true_iff in Eh as [? Hb].
    by apply bool_decide_eq_true in Hb. }
  replace (match eats ts s with Some _ => _ | None => _ end) with (skip last chunk s)
    by (destruct (eats ts s); [apply negb_false_iff in Eh; by rewrite Eh|done]).
  destruct (skip last chunk s) as [[t|]|]; [| |done].
  - destruct IH as (n & ? & ? & ? & Hf). exists (S n). split_and!; [done..|].
    intros [|[|m]] Hm Hlt; [done|by simpl; rewrite drop_0|apply (Hf (S m)); [done|lia]].
  - intros [|[|m]] Hm Hle; [done|by simpl; rewrite drop_0|apply (IH (S m)); [done|lia]].
Qed.

Lemma checkRest_not_true n p : checkRest n p ≠ Some true.
Proof.
  revert p. induction n as [|n IH]; intros [|c p]; try done. cbn [checkRest].
  destruct (scanChunk (c :: p)) as [[b chunk] rest]. by destruct (matchChunk chunk []).
Qed.

Lemma plain_no_slash s : plain s → "/"%char ∉ s.
Proof. intros Hs Hin. eapply Forall_forall in Hs; [|exact Hin]. by destruct Hs. Qed.

(** The rest of a pattern after a chunk found at one position accepts exactly
    when it does after one found at some position. *)
Lemma star_first ts us n s t :
  plain s → Forall (λ t, t ≠ TStar) ts → open_ended us → (us = [] → t = []) →
  eats ts (drop n s) = Some t →
  (∀ m, m < n → ∀ t', eats ts (drop m s) = Some t' → us = [] ∧ t' ≠ []) →
  globs (TStar :: ts ++ us) s ↔ globs us t.
Proof.
  intros Hs Hts Hus Hnil Ht Hfirst. rewrite globs_star_iff. split.
  - intros [m Hm]. apply eats_globs in Hm as (t' & Ht' & Hg); [|by apply plain_drop|done].
    apply eats_drop in Ht as Et; [|by apply plain_drop].
    apply eats_drop in Ht' as Et'; [|by apply plain_drop].
    rewrite drop_drop in Et, Et'. destruct (decide (m < n)) as [Hlt|Hge].
    + destruct (Hfirst m Hlt t' Ht') as [-> Hne]. by inversion Hg.
    + rewrite Et. apply (globs_absorb us (n + length ts) (m + length ts)); [done|lia| |by rewrite <-Et'].
      intros Hus'. rewrite <-Et. by apply Hnil.
  - intros Hg. exists n. apply eats_globs; [by apply plain_drop|done|]. by exists t.
Qed.

(** Nothing found: no name is accepted. *)
Lemma star_none ts us s :
  plain s → Forall (λ t, t ≠ TStar) ts →
  (∀ m, m ≤ length s → ∀ t', eats ts (drop m s) = Some t' → us = [] ∧ t' ≠ []) →
  ¬ globs (TStar :: ts ++ us) s.
Proof.
  intros Hs Hts Hnone. rewrite globs_star_iff. intros [m Hm].
  apply eats_globs in Hm as (t' & Ht' & Hg); [|by apply plain_drop|done].
  assert (∃ k, k ≤ length s ∧ drop k s = drop m s) as (k & Hk & Ek).
  { destruct (decide (m ≤ length s)); [by exists m|]. exists (length s). split; [done|].
    by rewrite !drop_ge by lia. }
  rewrite <-Ek in Ht'. destruct (Hnone k Hk t' Ht') as [-> Hne]. by inversion Hg.
Qed.

Lemma matchLoop_spec n p s :
  length p ≤ n → plain s →
  matchLoop n p s = Some true ↔ ∃ ts, parse_go n p = Some ts ∧ globs ts s.
Proof.
  revert p s. induction n as [|n IH]; intros [|c p] s Hn Hs; try (simpl in Hn; lia).
  1,2: simpl; split; [intros [= ->%nilb_spec]; exists []; split; [done|constructor]
                     |intros (ts & [= <-] & H); by inversion H].
  cbn [matchLoop parse_go]. destruct (scanChunk (c :: p)) as [[star chunk] rest] eqn:Esc.
  destruct (scanChunk_spec _ _ _ _ Esc) as (Hlt & Hrest & Hempty); [done|].
  assert (length rest ≤ n) as Hn' by (simpl in *; lia).
  destruct (star && nilb chunk) eqn:Esn.
  { apply andb_true_iff in Esn as [-> ->%nilb_spec]. rewrite Hempty by done.
    rewrite bool_decide_true by by apply plain_no_slash. split; [|done]. intros _.
    exists [TStar]. split; [by destruct n|]. apply globs_star_iff. exists (length s).
    rewrite drop_ge by done. constructor. }
  rewrite matchChunk_items. destruct (items (length chunk) chunk) as [ts|] eqn:Ets; simpl; [|naive_solver].
  pose proof (items_not_star _ _ _ Ets) as Hts.
  assert (∀ t, plain t → matchLoop n rest t = Some true ↔ ∃ us, parse_go n rest = Some us ∧ globs us t)
    as IH' by (intros; by apply IH). clear IH.
  assert (∀ us, parse_go n rest = Some us → open_ended us ∧ (us = [] ↔ nilb rest = true)) as Hopen.
  { intros us Hus. rewrite nilb_spec.
    destruct (parse_open n rest us Hus Hrest) as [[-> ->]|[? [vs ->]]]; unfold open_ended; naive_solver. }
  set (pre := if star then [TStar] else []).
  (* a way to go on that stands for all others *)
  assert (∀ t, plain t →
    (∀ us : list tok, open_ended us → (us = [] ↔ nilb rest = true) → globs (pre ++ ts ++ us) s ↔ globs us t) →
    matchLoop n rest t = Some true ↔
    ∃ ts' : list tok, (us ← parse_go n rest; Some (pre ++ ts ++ us)) = Some ts' ∧ globs ts' s) as Hgo.
  { intros t Ht Hiff. rewrite IH' by done. split.
    - intros (us & Hus & Hg). rewrite Hus. eexists. split; [done|]. by apply Hiff; [apply Hopen..|].
    - destruct (parse_go n rest) as [us|] eqn:Hus; simpl; [|naive_solver].
      intros (? & [= <-] & Hg). exists us. split; [done|]. by apply Hiff in Hg; [|by apply Hopen..]. }
  (* no way to go on *)
  assert ((∀ us : list tok, open_ended us → (us = [] ↔ nilb rest = true) → ¬ globs (pre ++ ts ++ us) s) →
    checkRest n rest = Some true ↔
    ∃ ts' : list tok, (us ← parse_go n rest; Some (pre ++ ts ++ us)) = Some ts' ∧ globs ts' s) as Hstop.
  { intros Hno. split; [by intros ?%checkRest_not_true|]. intros (ts' & Hp & Hg).
    destruct (parse_go n rest) as [us|] eqn:Hus; simpl in Hp; [|done]. injection Hp as <-.
    by apply Hno in Hg; [|apply Hopen..]. }
  assert (∀ m t, eats ts (drop m s) = Some t → plain t) as Hpl.
  { intros m t Ht. apply eats_drop in Ht as ->; by repeat apply plain_drop. }
  destruct (match eats ts s with Some t => nilb t || negb (nilb rest) | None => false end) eqn:Eh.
  - destruct (eats ts s) as [t|] eqn:Et; [|done]. rewrite Eh. rewrite <-(drop_0 s) in Et.
    apply Hgo; [by eapply Hpl|]. intros us Hus Hnil. subst pre. destruct star; simpl.
    + apply (star_first ts us 0); [done..| |done|lia]. intros Hu%Hnil. rewrite Hu, orb_false_r in Eh.
      by apply nilb_spec.
    + rewrite eats_globs by done. rewrite drop_0 in Et. rewrite Et. naive_solver.
  - assert (∀ us : list tok, (us = [] ↔ nilb rest = true) → ∀ t', eats ts (drop 0 s) = Some t' → us = [] ∧ t' ≠ []) as H0.
    { intros us Hnil t' Et. rewrite drop_0 in Et. rewrite Et in Eh.
      apply orb_false_iff in Eh as [E1 E2%negb_false_iff]. split; [by apply Hnil|]. by intros ->. }
    replace (match eats ts s with
             | Some t => if nilb t || negb (nilb rest) then Some t else None
             | None => None end) with (@None bytes)
      by (destruct (eats ts s); [by rewrite Eh|done]).
    subst pre. destruct star; simpl.
    + pose proof (skip_spec (nilb rest) chunk ts s Ets Hs) as Hskip.
      destruct (skip (nilb rest) chunk s) as [[t|]|]; [| |done].
      * destruct Hskip as (k & Hk & Ht & Hlast & Hf). apply Hgo; [by eapply Hpl|]. intros us Hus Hnil.
        apply (star_first ts us k); [done..|by intros ?%Hnil%Hlast|done|].
        intros [|m] Hm t' Ht'; [by apply (H0 us Hnil)|].
        destruct (Hf (S m)) with (3 := Ht') as [? ?]; [done..|]. by split; [apply Hnil|].
      * apply Hstop. intros us Hus Hnil. apply (star_none ts us s); [done..|].
        intros [|m] Hm t' Ht'; [by apply (H0 us Hnil)|].
        destruct (Hskip (S m)) with (3 := Ht') as [? ?]; [done..|]. by split; [apply Hnil|].
    + apply Hstop. intros us Hus Hnil [t' [Ht' Hg]]%(eats_globs ts us); [|done..].
      rewrite <-(drop_0 s) in Ht'. destruct (H0 us Hnil t' Ht') as [-> ?]. by inversion Hg.
Qed.

Theorem Match_globs pattern name :
  plain (str_bytes name) →
  Match pattern name = Some true ↔ ∃ ts, parse pattern = Some ts ∧ globs ts (str_bytes name).
Proof. intros Hn. unfold Match, parse. apply matchLoop_spec; [by rewrite length_str_bytes|done]. Qed.

Example match_star : Match "v4.*-x86*" "v4.18.2-x86_64" = Some true. Proof. by vm_compute. Qed.
Example match_class : Match "[^a-c]?\*" "dx*" = Some true. Proof. by vm_compute. Qed.
Example match_slash : Match "*" "a/b" = Some false. Proof. by vm_compute. Qed.
Example match_bad : Match "a[" "b" = None. Proof. by vm_compute. Qed.
Example match_last : Match "*a" "banana" = Some true. Proof. by vm_compute. Qed.
Example match_rune : Match "?" (bytes_str [byte_of_Z 195; byte_of_Z 169]) = Some true. Proof. by vm_compute. Qed.
End Glob.
