(* ===== verification/Mirror.v ===== *)
(** internal/mirror/proxy.go: the pull-through proxy.

    The upstream registry is the parameter [HttpClient].  [GetManifest] and
    [GetBlob] return what the client is served together with what was cached;
    the goroutine of [GetBlob] streams the response to the client through a
    pipe while [BlobStore.Put] reads it, so what the client can read is what
    [Put] has read. *)

From S2P Require Import Prelude GoLib Digest Os Blob Badger Metadata Oci.

Module Mirror.

Record upstream := mkUpstream {
  us_name : string;
  us_url : string;
  us_cacheTTL : Z;
  us_token : string;
  us_tokenExp : Time
}.

(** The configuration of one mirror (config.Mirror). *)
Record MirrorConfig := mkMirrorConfig {
  mc_Name : string;
  mc_Upstream : string;
  mc_CacheTTL : Z
}.

Record Proxy := mkProxy { px_mirrors : gmap string upstream }.

Record HttpResponse := mkHttpResponse {
  hr_StatusCode : Z;
  hr_ContentType : string;
  hr_ContentLength : Z;
  hr_Body : Reader
}.

(** The network: building a request can fail, and so can sending it.  The
    second argument of [client_Do] is the bearer token, if one is set. *)
Class HttpClient := {
  NewRequest : string → option error;
  client_Do : string → option string → result HttpResponse
}.

Record tokenResp := mkTokenResp { tr_Token : string; tr_ExpiresIn : Z }.

Definition NewProxy (cfg : list MirrorConfig) : Proxy :=
  mkProxy (foldl (λ ms m, <[mc_Name m :=
    mkUpstream (mc_Name m) (TrimSuffix (mc_Upstream m) "/") (mc_CacheTTL m) "" 0]> ms) ∅ cfg).

(** The part of a repository name before its first slash. *)
Definition first_component (repo : string) : string := default "" (head (Split "/" repo)).

Definition IsMirrored (p : Proxy) (repo : string) : option string :=
  let first := first_component repo in
  match px_mirrors p !! first with Some _ => Some first | None => None end.

(** The repository name at the upstream. *)
Definition upstreamRepo (mirrorName repo : string) : string :=
  let r := TrimPrefix repo (mirrorName +:+ "/") in
  if decide (mirrorName = "docker.io") then
    if Contains r "/" then r else "library/" +:+ r
  else r.

Section proxy.
Context `{Badger} `{!Json MetadataStore.ManifestMeta} `{!Json MetadataStore.RepoMeta}.
Context `{HttpClient} `{!JsonDecoder tokenResp}.
Context (F : Faults).

Definition getDockerHubToken (p : Proxy) (now1 now2 : Time) (repo : string)
    : result string * Proxy :=
  let up := px_mirrors p !! "docker.io" in
  let cached :=
    match up with
    | Some u => if decide (us_token u ≠ "" ∧ Before now1 (us_tokenExp u) = true)
                then Some (us_token u) else None
    | None => None
    end in
  match cached with
  | Some token => (Ok token, p)
  | None =>
    let url := "https://auth.docker.io/token?service=registry.docker.io&scope=repository:" +:+
               repo +:+ ":pull" in
    match NewRequest url with
    | Some e => (Err e, p)
    | None =>
      match client_Do url None with
      | Err e => (Err e, p)
      | Panic m => (Panic m, p)
      | Ok resp =>
        if decide (hr_StatusCode resp ≠ 200)%Z then
          (Err (Errorf ("token request returned " +:+ fmt_d (hr_StatusCode resp))), p)
        else
          match json_Decode (rd_data (hr_Body resp)) with
          | Err e => (Err e, p)
          | Panic m => (Panic m, p)
          | Ok tr =>
            let p' := match up with
              | Some u => mkProxy (<["docker.io" := mkUpstream (us_name u) (us_url u)
                  (us_cacheTTL u) (tr_Token tr)
                  (now2 + (tr_ExpiresIn tr - 60) * Second)%Z]> (px_mirrors p))
              | None => p
              end in
            (Ok (tr_Token tr), p')
          end
      end
    end
  end.

(** The request for [url], with a token for Docker Hub when one is obtained
    (a failure to get one is only logged). *)
Definition authorize (p : Proxy) (now1 now2 : Time) (mirrorName repo : string)
    : option string * Proxy :=
  if decide (mirrorName = "docker.io") then
    match getDockerHubToken p now1 now2 repo with
    | (Ok token, p) => (Some token, p)
    | (_, p) => (None, p)
    end
  else (None, p).

Definition GetManifest (p : Proxy) (w : World) (rnds : list N) (now1 now2 now3 now4 : Time)
    (mirrorName repo ref : string)
    : result (MetadataStore.ManifestMeta * bytes) * (Proxy * World) :=
  match px_mirrors p !! mirrorName with
  | None => (Err (Errorf ("unknown mirror: " +:+ mirrorName)), (p, w))
  | Some up =>
    let r := upstreamRepo mirrorName repo in
    let url := us_url up +:+ "/v2/" +:+ r +:+ "/manifests/" +:+ ref in
    match NewRequest url with
    | Some e => (Err e, (p, w))
    | None =>
      let '(token, p) := authorize p now1 now2 mirrorName r in
      match client_Do url token with
      | Err e => (Err (wrap "fetching manifest" e), (p, w))
      | Panic m => (Panic m, (p, w))
      | Ok resp =>
        if decide (hr_StatusCode resp = 404)%Z then (Err ErrManifestNotFound, (p, w))
        else if decide (hr_StatusCode resp ≠ 200)%Z then
          (Err (Errorf ("upstream returned " +:+ fmt_d (hr_StatusCode resp))), (p, w))
        else
          match rd_err (hr_Body resp) with
          | Some e => (Err (wrap "reading manifest" e), (p, w))
          | None =>
            let body := rd_data (hr_Body resp) in
            let dgst := FromBytes body in
            let contentType := hr_ContentType resp in
            (* failures to cache are only logged *)
            let '(_, os) := BlobStore.Put F (w_bs w) (w_os w) rnds dgst (NewReader body) (blen body) in
            let meta := MetadataStore.mkManifestMeta dgst contentType (blen body) 0 [] "" ∅ in
            let '(_, db) := MetadataStore.PutManifest (w_db w) now3 now4 repo ref meta in
            let '(_, db) := MetadataStore.LinkBlobToRepo db dgst repo in
            (Ok (meta, body), (p, mkWorld _ (w_bs w) os db))
          end
      end
    end
  end.

(** Whether [Put] comes to read its reader at all. *)
Definition Put_reads (w : World) (rnds : list N) (d : Digest) (size : Z) : bool :=
  match BlobStore.blobPath (w_bs w) d with
  | Ok path =>
    match Stat F (w_os w) path with
    | Ok n => if decide (n = size) then false else is_ok (CreateTemp F (w_os w) (Dir path) rnds).1
    | _ => is_ok (CreateTemp F (w_os w) (Dir path) rnds).1
    end && match Validate d with None => true | Some _ => false end
  | _ => false
  end.

(** What [GetBlob] returns: the store's own reader, or the read end of the pipe,
    which delivers the given bytes. *)
Inductive ProxyReader :=
  | Cached (r : BlobStore.BlobReader)
  | Piped (data : bytes).

(** [reads]: whether the client reads the pipe, or closes it at once (a HEAD
    request), which makes the tee fail on its first write. *)
Definition GetBlob (p : Proxy) (w : World) (rnds : list N) (now1 now2 : Time)
    (mirrorName repo : string) (dgst : Digest) (reads : bool)
    : result (ProxyReader * Z) * (Proxy * World) :=
  match px_mirrors p !! mirrorName with
  | None => (Err (Errorf ("unknown mirror: " +:+ mirrorName)), (p, w))
  | Some up =>
    match BlobStore.Exists F (w_bs w) (w_os w) dgst with
    | Panic m => (Panic m, (p, w))
    | Err e => (Err e, (p, w))
    | Ok true =>
      match BlobStore.Get F (w_bs w) (w_os w) dgst with
      | (Ok (r, n), (bs, os)) => (Ok (Cached r, n), (p, mkWorld _ bs os (w_db w)))
      | (Err e, (bs, os)) => (Err e, (p, mkWorld _ bs os (w_db w)))
      | (Panic m, (bs, os)) => (Panic m, (p, mkWorld _ bs os (w_db w)))
      end
    | Ok false =>
      let r := upstreamRepo mirrorName repo in
      let url := us_url up +:+ "/v2/" +:+ r +:+ "/blobs/" +:+ dgst in
      match NewRequest url with
      | Some e => (Err e, (p, w))
      | None =>
        let '(token, p) := authorize p now1 now2 mirrorName r in
        match client_Do url token with
        | Err e => (Err (wrap "fetching blob" e), (p, w))
        | Panic m => (Panic m, (p, w))
        | Ok resp =>
          if decide (hr_StatusCode resp = 404)%Z then (Err ErrBlobNotFound, (p, w))
          else if decide (hr_StatusCode resp ≠ 200)%Z then
            (Err (Errorf ("upstream returned " +:+ fmt_d (hr_StatusCode resp))), (p, w))
          else
            let tee := if reads then hr_Body resp
                       else match rd_data (hr_Body resp) with
                            | [] => hr_Body resp
                            | _ => mkReader [] (Some (Errorf "io: read/write on closed pipe"))
                            end in
            let delivered := if Put_reads w rnds dgst (hr_ContentLength resp)
                             then rd_data tee else [] in
            let '(_, os) := BlobStore.Put F (w_bs w) (w_os w) rnds dgst tee (hr_ContentLength resp) in
            let '(_, db) := MetadataStore.LinkBlobToRepo (w_db w) dgst repo in
            (Ok (Piped delivered, hr_ContentLength resp), (p, mkWorld _ (w_bs w) os db))
        end
      end
    end
  end.
End proxy.

End Mirror.
