(* ===== verification/V2.v ===== *)
(** internal/api/v2/handlers.go: the OCI distribution API.

    A request is dispatched by [ServeHTTP] to a handler, a function from the
    state of the handler (the shared stores, the upload sessions, the manifest
    cache and the proxy) to a response and the state after it.  A panic of a
    handler is kept as such: net/http recovers it and drops the connection. *)

From S2P Require Import Prelude GoLib Digest Os Blob Badger Metadata Cache Upload Oci Regexp Mirror.

Module V2.
Import Regexp.

Record Request := mkRequest {
  rq_Method : string;
  rq_Path : string;
  rq_Query : string → string;
  rq_Header : string → string;
  rq_ContentLength : Z;
  rq_Body : Reader
}.

Inductive Body :=
  | NoBody
  | Bytes (b : bytes)
  | ErrorBody (code message : string)
  | CatalogBody (repos : list string)
  | TagListBody (name : string) (tags : list string).

Record Response := mkResponse {
  rs_Status : Z;
  rs_Header : list (string * string);
  rs_Body : Body
}.

(** ** Routing patterns *)

Definition lower_digit : ascii → bool := λ c, range "a" "z" c || range "0" "9" c.
Definition repoComponent : re :=
  Cat (plus (Chr lower_digit)) (Star (Cat (Chr (one_of "._-")) (plus (Chr lower_digit)))).
Definition repoNamePattern : re := Cat repoComponent (Star (Cat (lit "/") repoComponent)).

Definition tagFirst : ascii → bool :=
  λ c, range "a" "z" c || range "A" "Z" c || range "0" "9" c || one_of "_" c.
Definition tagChar : ascii → bool := λ c, tagFirst c || one_of ".-" c.
Definition tagPattern : re := Cat (Chr tagFirst) (upto 127 (Chr tagChar)).

Definition hexChar : ascii → bool := λ c, range "a" "f" c || range "0" "9" c.
Definition digestPattern : re := Cat (lit "sha256:") (rep 64 (Chr hexChar)).
Definition referencePattern : re := Alt tagPattern digestPattern.
Definition uuidPattern : re := plus (Chr (λ c, hexChar c || one_of "-" c)).

Definition manifestPathRe : list piece :=
  [Plain (lit "/v2/"); Group repoNamePattern; Plain (lit "/manifests/"); Group referencePattern].
Definition blobPathRe : list piece :=
  [Plain (lit "/v2/"); Group repoNamePattern; Plain (lit "/blobs/"); Group digestPattern].
Definition uploadStartRe : list piece :=
  [Plain (lit "/v2/"); Group repoNamePattern; Plain (Cat (lit "/blobs/uploads") (opt (lit "/")))].
Definition uploadPathRe : list piece :=
  [Plain (lit "/v2/"); Group repoNamePattern; Plain (lit "/blobs/uploads/"); Group uuidPattern].
Definition tagsListRe : list piece :=
  [Plain (lit "/v2/"); Group repoNamePattern; Plain (lit "/tags/list")].

(** ** State *)

(** What a request reads from its environment: random numbers for temporary
    files, the bytes of a new upload identifier, successive clock readings. *)
Record Env := mkEnv {
  ev_rnds : list N;
  ev_id : option bytes;
  ev_now : nat → Time
}.

Section handlers.
Context `{Badger} `{!Json MetadataStore.ManifestMeta} `{!Json MetadataStore.RepoMeta}.
Context `{!Json Oci.PutManifestBody}.
Context `{Mirror.HttpClient} `{!JsonDecoder Mirror.tokenResp}.
Context (F : Faults).

Record Handler := mkHandler {
  h_world : World;
  h_uploads : Upload.UploadManager;
  h_cache : Cache.LRUCache MetadataStore.ManifestMeta;
  h_proxy : option Mirror.Proxy
}.

Definition NewHandler (w : World) (um : Upload.UploadManager) : Handler :=
  mkHandler w um (Cache.NewLRUCache 10000) None.

Definition SetProxy (h : Handler) (p : Mirror.Proxy) : Handler :=
  mkHandler (h_world h) (h_uploads h) (h_cache h) (Some p).

Definition set_world (h : Handler) (w : World) : Handler :=
  mkHandler w (h_uploads h) (h_cache h) (h_proxy h).
Definition set_db (h : Handler) (db : DB) : Handler :=
  set_world h (mkWorld _ (w_bs (h_world h)) (w_os (h_world h)) db).
Definition set_os (h : Handler) (os : Os) : Handler :=
  set_world h (mkWorld _ (w_bs (h_world h)) os (w_db (h_world h))).
Definition set_cache (h : Handler) (c : Cache.LRUCache MetadataStore.ManifestMeta) : Handler :=
  mkHandler (h_world h) (h_uploads h) c (h_proxy h).
Definition set_uploads (h : Handler) (um : Upload.UploadManager) (os : Os) : Handler :=
  mkHandler (mkWorld _ (w_bs (h_world h)) os (w_db (h_world h))) um (h_cache h) (h_proxy h).

(** The cache after [Set]; its eviction loop ends for every capacity that is
    not negative. *)
Definition cache_set (c : Cache.LRUCache MetadataStore.ManifestMeta) (k : string)
    (v : MetadataStore.ManifestMeta) : Cache.LRUCache MetadataStore.ManifestMeta :=
  default c (Cache.Set_ (Cache.enough c) 0 c k v).

Definition errorResponse (status : Z) (code message : string) : Response :=
  mkResponse status [("Content-Type", "application/json")] (ErrorBody code message).

Definition jsonResponse (status : Z) (hs : list (string * string)) (data : Body) : Response :=
  mkResponse status (hs ++ [("Content-Type", "application/json")]) data.

Definition handleBase : Response :=
  mkResponse 200 [("Docker-Distribution-API-Version", "registry/2.0")] NoBody.

Definition handleCatalog (h : Handler) : result Response * Handler :=
  match MetadataStore.ListRepositories (w_db (h_world h)) with
  | Ok repos => (Ok (jsonResponse 200 [] (CatalogBody repos)), h)
  | Err e => (Ok (errorResponse 500 Oci.ErrorCodeUnauthorized (err_msg e)), h)
  | Panic m => (Panic m, h)
  end.

(** ** Manifests *)

Definition manifest_headers (meta : MetadataStore.ManifestMeta) (size : Z)
    : list (string * string) :=
  [("Content-Type", MetadataStore.mm_MediaType meta);
   ("Content-Length", fmt_d size);
   ("Docker-Content-Digest", MetadataStore.mm_Digest meta);
   ("Docker-Distribution-API-Version", "registry/2.0")].

Definition serveManifest (h : Handler) (rq : Request) (meta : MetadataStore.ManifestMeta)
    : result Response * Handler :=
  let w := h_world h in
  match BlobStore.Get F (w_bs w) (w_os w) (MetadataStore.mm_Digest meta) with
  | (Err e, (bs, os)) =>
    (Ok (errorResponse 500 Oci.ErrorCodeManifestBlobUnknown (err_msg e)),
     set_world h (mkWorld _ bs os (w_db w)))
  | (Panic m, (bs, os)) => (Panic m, set_world h (mkWorld _ bs os (w_db w)))
  | (Ok (reader, size), (bs, os)) =>
    let body := if decide (rq_Method rq = "HEAD") then NoBody
                else Bytes (BlobStore.reader_data reader) in
    (Ok (mkResponse 200 (manifest_headers meta size) body),
     set_world h (mkWorld _ bs os (w_db w)))
  end.

Definition manifestNotFound : Response :=
  errorResponse 404 Oci.ErrorCodeManifestUnknown "manifest not found".

Definition handleGetManifest (h : Handler) (ev : Env) (rq : Request) (repo ref : string)
    : result Response * Handler :=
  let cacheKey := repo +:+ ":" +:+ ref in
  let '(cached, c) := Cache.Get (ev_now ev 0) (h_cache h) cacheKey in
  let h := set_cache h c in
  match cached with
  | Some meta => serveManifest h rq meta
  | None =>
    match MetadataStore.GetManifest (w_db (h_world h)) repo ref with
    | Ok meta =>
      serveManifest (set_cache h (cache_set (h_cache h) cacheKey meta)) rq meta
    | Err ErrManifestNotFound =>
      match h_proxy h with
      | None => (Ok manifestNotFound, h)
      | Some p =>
        match Mirror.IsMirrored p repo with
        | None => (Ok manifestNotFound, h)
        | Some mirrorName =>
          let '(res, (p, w)) := Mirror.GetManifest F p (h_world h) (ev_rnds ev)
            (ev_now ev 1) (ev_now ev 2) (ev_now ev 3) (ev_now ev 4) mirrorName repo ref in
          let h := mkHandler w (h_uploads h) (h_cache h) (Some p) in
          match res with
          | Ok (proxyMeta, body) =>
            (Ok (mkResponse 200 (manifest_headers proxyMeta (blen body))
                   (if decide (rq_Method rq = "HEAD") then NoBody else Bytes body)), h)
          | Err _ => (Ok manifestNotFound, h)
          | Panic m => (Panic m, h)
          end
        end
      end
    | Err e => (Ok (errorResponse 500 Oci.ErrorCodeManifestInvalid (err_msg e)), h)
    | Panic m => (Panic m, h)
    end
  end.

(** The checks that every referenced blob exists: the response of the first
    that does not. *)
Fixpoint checkLayers (h : Handler) (layers : list Oci.Descriptor) : result (option Response) :=
  match layers with
  | [] => Ok None
  | layer :: layers =>
    ok ← BlobStore.Exists F (w_bs (h_world h)) (w_os (h_world h)) (Oci.ds_Digest layer);
    if (ok : bool) then checkLayers h layers
    else Ok (Some (errorResponse 400 Oci.ErrorCodeManifestBlobUnknown
                     ("layer blob unknown: " +:+ Oci.ds_Digest layer)))
  end.

Definition checkConfig (h : Handler) (d : Digest) : result (option Response) :=
  if decide (d = "") then Ok None
  else
    ok ← BlobStore.Exists F (w_bs (h_world h)) (w_os (h_world h)) d;
    if (ok : bool) then Ok None
    else Ok (Some (errorResponse 400 Oci.ErrorCodeManifestBlobUnknown
                     ("config blob unknown: " +:+ d))).

Definition manifestLimit : Z := 10 * 1024 * 1024.

(** [io.ReadAll(io.LimitReader(r.Body, limit))]. *)
Definition readLimited (r : Reader) : result bytes :=
  if decide (blen (rd_data r) < manifestLimit)%Z then
    match rd_err r with Some e => Err e | None => Ok (rd_data r) end
  else Ok (take (Z.to_nat manifestLimit) (rd_data r)).

Definition link (repo : string) (db : DB) (d : Digest) : DB :=
  (MetadataStore.LinkBlobToRepo db d repo).2.

Definition handlePutManifest (h : Handler) (ev : Env) (rq : Request) (repo ref : string)
    : result Response * Handler :=
  match readLimited (rq_Body rq) with
  | Panic m => (Panic m, h)
  | Err _ => (Ok (errorResponse 400 Oci.ErrorCodeManifestInvalid "failed to read body"), h)
  | Ok body =>
    let dgst := FromBytes body in
    match json_Unmarshal body with
    | Panic m => (Panic m, h)
    | Err _ => (Ok (errorResponse 400 Oci.ErrorCodeManifestInvalid "invalid manifest JSON"), h)
    | Ok manifest =>
      let mediaType := if decide (Oci.pm_MediaType manifest = "")
                       then rq_Header rq "Content-Type" else Oci.pm_MediaType manifest in
      let config := Oci.ds_Digest (Oci.pm_Config manifest) in
      match checkConfig h config with
      | Panic m => (Panic m, h)
      | Err e => (Err e, h)
      | Ok (Some resp) => (Ok resp, h)
      | Ok None =>
      match checkLayers h (Oci.pm_Layers manifest) with
      | Panic m => (Panic m, h)
      | Err e => (Err e, h)
      | Ok (Some resp) => (Ok resp, h)
      | Ok None =>
        let w := h_world h in
        match BlobStore.Put F (w_bs w) (w_os w) (ev_rnds ev) dgst (NewReader body) (blen body) with
        | (Panic m, os) => (Panic m, set_os h os)
        | (Err e, os) =>
          (Ok (errorResponse 500 Oci.ErrorCodeManifestInvalid (err_msg e)), set_os h os)
        | (Ok _, os) =>
          let h := set_os h os in
          let layers := Oci.ds_Digest <$> Oci.pm_Layers manifest in
          let subject := match Oci.pm_Subject manifest with
                         | Some s => Oci.ds_Digest s | None => "" end in
          let meta := MetadataStore.mkManifestMeta dgst mediaType (blen body) 0 layers subject ∅ in
          match MetadataStore.PutManifest (w_db w) (ev_now ev 0) (ev_now ev 1) repo ref meta with
          | (Panic m, db) => (Panic m, set_db h db)
          | (Err e, db) =>
            (Ok (errorResponse 500 Oci.ErrorCodeManifestInvalid (err_msg e)), set_db h db)
          | (Ok _, db) =>
            let db := link repo db dgst in
            let db := if decide (config ≠ "") then link repo db config else db in
            let db := foldl (link repo) db layers in
            let h := set_db h db in
            let c := Cache.Delete (h_cache h) (repo +:+ ":" +:+ ref) in
            let c := Cache.Delete c (repo +:+ ":" +:+ dgst) in
            (Ok (mkResponse 201
                   [("Docker-Content-Digest", dgst);
                    ("Location", "/v2/" +:+ repo +:+ "/manifests/" +:+ dgst)] NoBody),
             set_cache h c)
          end
        end
      end end
    end
  end.

Definition handleDeleteManifest (h : Handler) (repo ref : string)
    : result Response * Handler :=
  match MetadataStore.DeleteManifest (w_db (h_world h)) repo ref with
  | (Err ErrManifestNotFound, db) => (Ok manifestNotFound, set_db h db)
  | (Err e, db) =>
    (Ok (errorResponse 500 Oci.ErrorCodeManifestInvalid (err_msg e)), set_db h db)
  | (Panic m, db) => (Panic m, set_db h db)
  | (Ok _, db) =>
    let h := set_db h db in
    (Ok (mkResponse 202 [] NoBody),
     set_cache h (Cache.Delete (h_cache h) (repo +:+ ":" +:+ ref)))
  end.

(** ** Blobs *)

(** The bounds a Range header asks for, after [bytes=] and split at [-]. *)
Definition parseRange (size : Z) (p0 p1 : string) : Z * Z :=
  if decide (p0 = "") then (wrap64 (size - (ParseInt p1).1), (size - 1)%Z)
  else if decide (p1 = "") then ((ParseInt p0).1, (size - 1)%Z)
  else ((ParseInt p0).1, (ParseInt p1).1).

Definition handleRangeRequest (h : Handler) (rq : Request) (dgst : Digest) (rangeHeader : string)
    : result Response * Handler :=
  let w := h_world h in
  if negb (HasPrefix rangeHeader "bytes=") then
    (Ok (errorResponse 400 Oci.ErrorCodeUnsupported "invalid range header"), h)
  else
    match BlobStore.Size F (w_bs w) (w_os w) dgst with
    | Panic m => (Panic m, h)
    | Err _ => (Ok (errorResponse 404 Oci.ErrorCodeBlobUnknown "blob not found"), h)
    | Ok size =>
      match Split "-" (TrimPrefix rangeHeader "bytes=") with
      | [p0; p1] =>
        let '(start, end_) := parseRange size p0 p1 in
        if decide (start < 0 ∨ end_ >= size ∨ start > end_)%Z then
          (Ok (mkResponse 416 [("Content-Range", "bytes */" +:+ fmt_d size)] NoBody), h)
        else
          match BlobStore.GetRange F (w_bs w) (w_os w) dgst start end_ with
          | Panic m => (Panic m, h)
          | Err e => (Ok (errorResponse 500 Oci.ErrorCodeBlobUnknown (err_msg e)), h)
          | Ok data =>
            (Ok (mkResponse 206
                   [("Content-Type", "application/octet-stream");
                    ("Content-Length", fmt_d (wrap64 (end_ - start + 1)));
                    ("Content-Range", "bytes " +:+ fmt_d start +:+ "-" +:+ fmt_d end_ +:+ "/" +:+ fmt_d size);
                    ("Docker-Content-Digest", dgst)]
                   (if decide (rq_Method rq = "HEAD") then NoBody else Bytes data)), h)
          end
      | _ => (Ok (errorResponse 400 Oci.ErrorCodeUnsupported "invalid range"), h)
      end
    end.

Definition blob_headers (dgst : Digest) (size : Z) : list (string * string) :=
  [("Content-Type", "application/octet-stream"); ("Content-Length", fmt_d size);
   ("Docker-Content-Digest", dgst); ("Accept-Ranges", "bytes")].

Definition blobNotFound : Response :=
  errorResponse 404 Oci.ErrorCodeBlobUnknown "blob not found".

Definition proxy_data (r : Mirror.ProxyReader) : bytes :=
  match r with
  | Mirror.Cached r => BlobStore.reader_data r
  | Mirror.Piped data => data
  end.

Definition handleGetBlob (h : Handler) (ev : Env) (rq : Request) (repo dgstStr : string)
    : result Response * Handler :=
  match Parse dgstStr with
  | Panic m => (Panic m, h)
  | Err e => (Ok (errorResponse 400 Oci.ErrorCodeDigestInvalid (err_msg e)), h)
  | Ok dgst =>
    let rangeHeader := rq_Header rq "Range" in
    if decide (rangeHeader ≠ "") then handleRangeRequest h rq dgst rangeHeader
    else
      let w := h_world h in
      let '(res, (bs, os)) := BlobStore.Get F (w_bs w) (w_os w) dgst in
      let h := set_world h (mkWorld _ bs os (w_db w)) in
      match res with
      | Ok (reader, size) =>
        (Ok (mkResponse 200 (blob_headers dgst size)
               (if decide (rq_Method rq = "HEAD") then NoBody
                else Bytes (BlobStore.reader_data reader))), h)
      | Err ErrBlobNotFound =>
        match h_proxy h with
        | None => (Ok blobNotFound, h)
        | Some p =>
          match Mirror.IsMirrored p repo with
          | None => (Ok blobNotFound, h)
          | Some mirrorName =>
            let '(res, (p, w)) := Mirror.GetBlob F p (h_world h) (ev_rnds ev)
              (ev_now ev 1) (ev_now ev 2) mirrorName repo dgst
              (negb (bool_decide (rq_Method rq = "HEAD"))) in
            let h := mkHandler w (h_uploads h) (h_cache h) (Some p) in
            match res with
            | Ok (reader, size) =>
              (Ok (mkResponse 200 (blob_headers dgst size)
                     (if decide (rq_Method rq = "HEAD") then NoBody
                      else Bytes (proxy_data reader))), h)
            | Err _ => (Ok blobNotFound, h)
            | Panic m => (Panic m, h)
            end
          end
        end
      | Err e => (Ok (errorResponse 500 Oci.ErrorCodeBlobUnknown (err_msg e)), h)
      | Panic m => (Panic m, h)
      end
  end.

Definition handleDeleteBlob (h : Handler) (repo dgstStr : string) : result Response * Handler :=
  match Parse dgstStr with
  | Panic m => (Panic m, h)
  | Err e => (Ok (errorResponse 400 Oci.ErrorCodeDigestInvalid (err_msg e)), h)
  | Ok dgst =>
    let h := set_db h (MetadataStore.UnlinkBlobFromRepo (w_db (h_world h)) dgst repo).2 in
    let repos := match MetadataStore.GetBlobRepos (w_db (h_world h)) dgst with
                 | Ok l => l | _ => [] end in
    if decide (repos = []) then
      match BlobStore.Delete F (w_bs (h_world h)) (w_os (h_world h)) dgst with
      | (Ok _, os) | (Err ErrBlobNotFound, os) => (Ok (mkResponse 202 [] NoBody), set_os h os)
      | (Err e, os) =>
        (Ok (errorResponse 500 Oci.ErrorCodeBlobUnknown (err_msg e)), set_os h os)
      | (Panic m, os) => (Panic m, set_os h os)
      end
    else (Ok (mkResponse 202 [] NoBody), h)
  end.

(** ** Uploads *)

Definition created (repo dgst : string) : Response :=
  mkResponse 201 [("Location", "/v2/" +:+ repo +:+ "/blobs/" +:+ dgst);
                  ("Docker-Content-Digest", dgst)] NoBody.

(** [None]: the mount is not possible and the upload goes on. *)
Definition handleMountBlob (h : Handler) (repo dgstStr from : string)
    : result (option Response) * Handler :=
  match Parse dgstStr with
  | Ok dgst =>
    if decide (from ≠ "" ∧ MetadataStore.HasBlob (w_db (h_world h)) from dgst = false)
    then (Ok None, h)
    else
      match BlobStore.Exists F (w_bs (h_world h)) (w_os (h_world h)) dgst with
      | Panic m => (Panic m, h)
      | Err e => (Err e, h)
      | Ok false => (Ok None, h)
      | Ok true =>
        (Ok (Some (created repo dgst)), set_db h (link repo (w_db (h_world h)) dgst))
      end
  | _ => (Ok None, h)
  end.

Definition uploadLocation (repo id : string) : string * string :=
  ("Location", "/v2/" +:+ repo +:+ "/blobs/uploads/" +:+ id).

Definition handleStartUpload (h : Handler) (ev : Env) (rq : Request) (repo : string)
    : result Response * Handler :=
  let mount := rq_Query rq "mount" in
  let '(mounted, h) := if decide (mount ≠ "")
                       then handleMountBlob h repo mount (rq_Query rq "from")
                       else (Ok None, h) in
  match mounted with
  | Panic m => (Panic m, h)
  | Err e => (Err e, h)
  | Ok (Some resp) => (Ok resp, h)
  | Ok None =>
    let dgstStr := rq_Query rq "digest" in
    let w := h_world h in
    if decide (dgstStr ≠ "") then
      match Parse dgstStr with
      | Panic m => (Panic m, h)
      | Err e => (Ok (errorResponse 400 Oci.ErrorCodeDigestInvalid (err_msg e)), h)
      | Ok dgst =>
        let contentLength := (ParseInt (rq_Header rq "Content-Length")).1 in
        match BlobStore.Put F (w_bs w) (w_os w) (ev_rnds ev) dgst (rq_Body rq) contentLength with
        | (Panic m, os) => (Panic m, set_os h os)
        | (Err e, os) =>
          (Ok (errorResponse 400 Oci.ErrorCodeDigestInvalid (err_msg e)), set_os h os)
        | (Ok _, os) =>
          let h := set_os h os in
          (Ok (created repo dgst), set_db h (link repo (w_db (h_world h)) dgst))
        end
      end
    else
      match Upload.Start F (h_uploads h) (w_os w) (ev_id ev) (ev_now ev 0) (ev_now ev 1) repo with
      | (Panic m, (um, os)) => (Panic m, set_uploads h um os)
      | (Err e, (um, os)) =>
        (Ok (errorResponse 500 Oci.ErrorCodeBlobUploadInvalid (err_msg e)), set_uploads h um os)
      | (Ok upload, (um, os)) =>
        (Ok (mkResponse 202 [uploadLocation repo (Upload.up_ID upload);
                             ("Docker-Upload-UUID", Upload.up_ID upload); ("Range", "0-0")] NoBody),
         set_uploads h um os)
      end
  end.

Definition uploadNotFound : Response :=
  errorResponse 404 Oci.ErrorCodeBlobUploadUnknown "upload not found".

(** [fmt.Sscanf(s, "bytes %d-", &start)]: the number scanned, 0 if none. *)
Definition is_sign (c : ascii) : bool := one_of "+-" c.

Fixpoint take_digits (s : bytes) : bytes :=
  match s with
  | c :: s => if digit_val c then c :: take_digits s else []
  | [] => []
  end.

Definition scan_start (s : string) : Z :=
  match strip_prefix "bytes" s with
  | None => 0
  | Some rest =>
    let l := trim_left (str_bytes rest) in
    let '(sign, l) := match l with
                      | c :: l' => if is_sign c then ([c], l') else ([], l)
                      | [] => ([], l)
                      end in
    match ParseInt (bytes_str (sign ++ take_digits l)) with
    | (n, true) => n
    | _ => 0
    end
  end.

Definition sizeRange (size : Z) : string := "0-" +:+ fmt_d (wrap64 (size - 1)).

Definition handleUploadChunk (h : Handler) (rq : Request) (repo uploadID : string)
    : result Response * Handler :=
  match Upload.Get (h_uploads h) uploadID with
  | Panic m => (Panic m, h)
  | Err ErrUploadNotFound => (Ok uploadNotFound, h)
  | Err e => (Ok (errorResponse 500 Oci.ErrorCodeBlobUploadInvalid (err_msg e)), h)
  | Ok upload =>
    let contentRange := rq_Header rq "Content-Range" in
    let '(res, (um, os)) :=
      if decide (contentRange ≠ "")
      then Upload.WriteAt F (h_uploads h) (w_os (h_world h)) upload (rq_Body rq) (scan_start contentRange)
      else Upload.Write F (h_uploads h) (w_os (h_world h)) upload (rq_Body rq) in
    let h := set_uploads h um os in
    match res with
    | Panic m => (Panic m, h)
    | Err e => (Ok (errorResponse 500 Oci.ErrorCodeBlobUploadInvalid (err_msg e)), h)
    | Ok _ =>
      let size := match Upload.um_uploads um !! uploadID with
                  | Some u => Upload.up_Size u | None => Upload.up_Size upload end in
      (Ok (mkResponse 202 [uploadLocation repo uploadID; ("Docker-Upload-UUID", uploadID);
                           ("Range", sizeRange size); ("Content-Length", "0")] NoBody), h)
    end
  end.

Definition handleFinishUpload (h : Handler) (rq : Request) (repo uploadID : string)
    : result Response * Handler :=
  let dgstStr := rq_Query rq "digest" in
  if decide (dgstStr = "") then
    (Ok (errorResponse 400 Oci.ErrorCodeDigestInvalid "digest required"), h)
  else
    match Parse dgstStr with
    | Panic m => (Panic m, h)
    | Err e => (Ok (errorResponse 400 Oci.ErrorCodeDigestInvalid (err_msg e)), h)
    | Ok dgst =>
      match Upload.Get (h_uploads h) uploadID with
      | Panic m => (Panic m, h)
      | Err ErrUploadNotFound => (Ok uploadNotFound, h)
      | Err e => (Ok (errorResponse 500 Oci.ErrorCodeBlobUploadInvalid (err_msg e)), h)
      | Ok upload =>
        let h :=
          if decide (rq_ContentLength rq > 0)%Z then
            let '(_, (um, os)) := Upload.Write F (h_uploads h) (w_os (h_world h)) upload (rq_Body rq) in
            set_uploads h um os
          else h in
        let '(res, (um, os)) :=
          Upload.Finish F (h_uploads h) (w_os (h_world h)) uploadID dgst (w_bs (h_world h)) in
        let h := set_uploads h um os in
        match res with
        | Panic m => (Panic m, h)
        | Err e => (Ok (errorResponse 400 Oci.ErrorCodeDigestInvalid (err_msg e)), h)
        | Ok _ => (Ok (created repo dgst), set_db h (link repo (w_db (h_world h)) dgst))
        end
      end
    end.

Definition handleUploadStatus (h : Handler) (repo uploadID : string) : result Response * Handler :=
  match Upload.Get (h_uploads h) uploadID with
  | Panic m => (Panic m, h)
  | Err ErrUploadNotFound => (Ok uploadNotFound, h)
  | Err e => (Ok (errorResponse 500 Oci.ErrorCodeBlobUploadInvalid (err_msg e)), h)
  | Ok upload =>
    (Ok (mkResponse 204 [uploadLocation repo uploadID; ("Docker-Upload-UUID", uploadID);
                         ("Range", sizeRange (Upload.up_Size upload))] NoBody), h)
  end.

Definition handleCancelUpload (h : Handler) (uploadID : string) : result Response * Handler :=
  let '(res, (um, os)) := Upload.Cancel F (h_uploads h) (w_os (h_world h)) uploadID in
  let h := set_uploads h um os in
  match res with
  | Panic m => (Panic m, h)
  | Err ErrUploadNotFound => (Ok uploadNotFound, h)
  | Err e => (Ok (errorResponse 500 Oci.ErrorCodeBlobUploadInvalid (err_msg e)), h)
  | Ok _ => (Ok (mkResponse 204 [] NoBody), h)
  end.

(** ** Tags *)

(** The tags after [last], if it is among them. *)
Fixpoint after_last (last : string) (tags : list string) : option (list string) :=
  match tags with
  | [] => None
  | t :: tags => if decide (t = last) then Some tags else after_last last tags
  end.

Definition tagPage (tags : list string) (n : Z) (last_ : string) : list string * bool :=
  let tags := if decide (last_ ≠ "") then default tags (after_last last_ tags) else tags in
  if decide (n > 0 ∧ Z.of_nat (length tags) > n)%Z then (take (Z.to_nat n) tags, true)
  else (tags, false).

Definition linkHeader (repo : string) (n : Z) (last_ : string) : string * string :=
  ("Link", "</v2/" +:+ repo +:+ "/tags/list?n=" +:+ fmt_d n +:+ "&last=" +:+ last_ +:+
           ">; rel=" +:+ String (ascii_of_N 34) ("next" +:+ String (ascii_of_N 34) "")).

Definition handleListTags (h : Handler) (rq : Request) (repo : string) : result Response * Handler :=
  match MetadataStore.ListTags (w_db (h_world h)) repo with
  | Panic m => (Panic m, h)
  | Err e => (Ok (errorResponse 500 Oci.ErrorCodeNameUnknown (err_msg e)), h)
  | Ok tags =>
    let n := (ParseInt (rq_Query rq "n")).1 in
    let '(page, more) := tagPage tags n (rq_Query rq "last") in
    let hs := if more then [linkHeader repo n (default "" (last page))] else [] in
    (Ok (jsonResponse 200 hs (TagListBody repo page)), h)
  end.

(** ** Routing *)

Definition methodNotAllowed : Response :=
  errorResponse 405 Oci.ErrorCodeUnsupported "method not allowed".

Definition ServeHTTP (h : Handler) (ev : Env) (rq : Request) : result Response * Handler :=
  let path := rq_Path rq in
  let method := rq_Method rq in
  if decide (path = "/v2/" ∨ path = "/v2") then (Ok handleBase, h)
  else if decide (path = "/v2/_catalog") then handleCatalog h
  else match find_groups manifestPathRe path with
  | Some [repo; ref] =>
    if decide (method = "GET" ∨ method = "HEAD") then handleGetManifest h ev rq repo ref
    else if decide (method = "PUT") then handlePutManifest h ev rq repo ref
    else if decide (method = "DELETE") then handleDeleteManifest h repo ref
    else (Ok methodNotAllowed, h)
  | _ => match find_groups blobPathRe path with
  | Some [repo; dgst] =>
    if decide (method = "GET" ∨ method = "HEAD") then handleGetBlob h ev rq repo dgst
    else if decide (method = "DELETE") then handleDeleteBlob h repo dgst
    else (Ok methodNotAllowed, h)
  | _ => match find_groups uploadStartRe path with
  | Some [repo] =>
    if decide (method = "POST") then handleStartUpload h ev rq repo
    else (Ok methodNotAllowed, h)
  | _ => match find_groups uploadPathRe path with
  | Some [repo; uploadID] =>
    if decide (method = "PATCH") then handleUploadChunk h rq repo uploadID
    else if decide (method = "PUT") then handleFinishUpload h rq repo uploadID
    else if decide (method = "GET") then handleUploadStatus h repo uploadID
    else if decide (method = "DELETE") then handleCancelUpload h uploadID
    else (Ok methodNotAllowed, h)
  | _ => match find_groups tagsListRe path with
  | Some [repo] =>
    if decide (method = "GET") then handleListTags h rq repo
    else (Ok methodNotAllowed, h)
  | _ => (Ok (errorResponse 404 Oci.ErrorCodeNameUnknown "not found"), h)
  end end end end end.
End handlers.
End V2.
