(* ===== verification/V2Example.v ===== *)
(** A concrete registry for the instances of the theorems about the API: an
    empty store under /srv/registry, the map database, the line-based manifest
    decoder, and an upstream that answers every request with the same bytes. *)

From S2P Require Import Prelude GoLib Digest Os Blob Badger Metadata Cache Upload.
From S2P Require Import Oci Regexp Mirror V2.

Module V2Example.
Import V2 Regexp.

#[export] Existing Instances mapBadger mapBadgerLaws MetadataStore.jsonMeta MetadataStore.jsonRepo
  Oci.jsonBody.

Definition exData : bytes := str_bytes "abcd".

Definition exHttp : Mirror.HttpClient := {|
  Mirror.NewRequest _ := None;
  Mirror.client_Do _ _ := Ok (Mirror.mkHttpResponse 200 "" (blen exData) (NewReader exData))
|}.
Definition exTokens : JsonDecoder Mirror.tokenResp := λ _, Err (Errorf "no token").
#[export] Existing Instances exHttp exTokens.

#[export] Instance exMetaLaws : JsonLaws MetadataStore.ManifestMeta MetadataStore.meta_ok :=
  countableJsonLaws _ _.
#[export] Instance exRepoLaws : JsonLaws MetadataStore.RepoMeta MetadataStore.repo_ok :=
  countableJsonLaws _ _.

Definition exWorldWith (files : gmap string bytes) (db : DB) : World :=
  mkWorld _ (BlobStore.NewBlobStore BlobStore.srvRoot) (mkOs files ∅ 0) db.

Definition exHandlerWith (files : gmap string bytes) (db : DB) : Handler :=
  NewHandler (exWorldWith files db) (Upload.mkUM BlobStore.srvRoot ∅).

(** The empty registry, and one with the metadata of [MetadataStore.exDb]. *)
Definition exHandler : Handler := exHandlerWith ∅ ∅.
Definition exStocked : Handler := exHandlerWith ∅ MetadataStore.exDb.

Definition exEnv : Env := mkEnv [7%N] (Some Upload.exId) (λ n, Z.of_nat n).

Definition exRequest (method path : string) (body : bytes) : Request :=
  mkRequest method path (λ _, "") (λ _, "") (blen body) (NewReader body).

(** A manifest without configuration and layers. *)
Definition exManifest : bytes := Oci.encodeBody "image" "" "" "".
Definition exBody : Oci.PutManifestBody :=
  Oci.mkPutManifestBody "image" (Oci.blob_of "") [] [] None.

Lemma exManifest_decodes : json_Unmarshal exManifest = Ok exBody.
Proof. by vm_compute. Qed.

Lemma exRepo_pattern : lang repoNamePattern "app".
Proof. by apply matches_lang. Qed.

Lemma exTag_pattern : lang referencePattern "v1".
Proof. by apply matches_lang. Qed.

Lemma exDigest_canonical : canonical MetadataStore.exDigest.
Proof.
  exists (Hex MetadataStore.exDigest). split_and!; [by vm_compute..|].
  unfold all_hex. by apply (bool_decide_unpack _).
Qed.

(** A digest that no short text has. *)
Definition exOther : Digest :=
  "sha256:0000000000000000000000000000000000000000000000000000000000000000".

Lemma exOther_canonical : canonical exOther.
Proof.
  exists (Hex exOther). split_and!; [by vm_compute..|]. unfold all_hex. by apply (bool_decide_unpack _).
Qed.

End V2Example.
