(* ===== verification/V2Safety.v ===== *)
(** Safety of the distribution API: what no sequence of requests can break,
    and what a response can contain. *)

From S2P Require Import Prelude GoLib Digest Os Blob Badger Metadata Cache Upload.
From S2P Require Import Oci Regexp Mirror V2 V2Example.

Module V2Safety.
Import V2 Regexp.

(** ** Names the router lets through *)

Lemma repoNamePattern_good r : lang repoNamePattern r → MetadataStore.good_repo r.
Proof.
  intros H. split; [by apply (lang_not_in _ _ _ H)|].
  apply lang_alphabet in H. unfold MetadataStore.is_ascii. eapply Forall_impl; [exact H|].
  intros c. destruct c as [[] [] [] [] [] [] [] []]; by vm_compute.
Qed.

Lemma repoNamePattern_no_colon r : lang repoNamePattern r → not_in ":" r.
Proof. intros H. apply (repoNamePattern_good r H). Qed.

Lemma hexChar_is_hex c : hexChar c = is_hex c.
Proof. by destruct c as [[] [] [] [] [] [] [] []]; vm_compute. Qed.

Lemma digestPattern_canonical d : lang digestPattern d ↔ canonical d.
Proof.
  unfold digestPattern, canonical. split.
  - intros (s1 & h & -> & ->%lang_lit & [Hl Hh]%lang_rep_chr)%lang_cat_inv.
    exists h. split_and!; [done..|]. eapply Forall_impl; [exact Hh|].
    intros c Hc. simpl in Hc. rewrite hexChar_is_hex in Hc. by rewrite Hc.
  - intros (h & -> & Hl & Hh). constructor; [by apply lang_lit|].
    apply lang_rep_chr. split; [done|]. eapply Forall_impl; [exact Hh|].
    intros c Hc. simpl in *. rewrite hexChar_is_hex. by apply Is_true_true.
Qed.

(** What the groups of each pattern are. *)
Ltac inv_decomp H :=
  repeat match type of H with
  | decomp (_ :: _) _ _ => inv H
  | decomp [] _ _ => inv H
  end.

Lemma decomp_cons p ps s gs :
  decomp (p :: ps) s gs → ∃ s1 s2, s = s1 +:+ s2 ∧
    match p with
    | Plain r => lang r s1 ∧ decomp ps s2 gs
    | Group r => lang r s1 ∧ ∃ gs', gs = s1 :: gs' ∧ decomp ps s2 gs'
    end.
Proof. intros H. inv H; eauto 10. Qed.

Lemma decomp_end s gs : decomp [] s gs → s = "" ∧ gs = [].
Proof. intros H. by inv H. Qed.

(** A pattern of a literal, a group, a literal and a last group. *)
Lemma decomp_two a r1 b r2 s gs :
  decomp [Plain (lit a); Group r1; Plain (lit b); Group r2] s gs →
  ∃ x y, gs = [x; y] ∧ lang r1 x ∧ lang r2 y ∧ s = a +:+ x +:+ b +:+ y.
Proof.
  intros (s1 & s2 & -> & ->%lang_lit & (x & s3 & -> & Hx & gs' & -> &
    (s4 & s5 & -> & ->%lang_lit & (y & s6 & -> & Hy & gs'' & -> & [-> ->]%decomp_end)%decomp_cons)
    %decomp_cons)%decomp_cons)%decomp_cons.
  exists x, y. by rewrite sapp_nil_r.
Qed.

Lemma decomp_one a r1 r2 s gs :
  decomp [Plain (lit a); Group r1; Plain r2] s gs →
  ∃ x y, gs = [x] ∧ lang r1 x ∧ lang r2 y ∧ s = a +:+ x +:+ y.
Proof.
  intros (s1 & s2 & -> & ->%lang_lit & (x & s3 & -> & Hx & gs' & -> &
    (y & s5 & -> & Hy & [-> ->]%decomp_end)%decomp_cons)%decomp_cons)%decomp_cons.
  exists x, y. by rewrite sapp_nil_r.
Qed.

(** ** The invariant *)

Section invariant.
Context `{Badger} `{!Json MetadataStore.ManifestMeta} `{!Json MetadataStore.RepoMeta}.
Context `{!Json Oci.PutManifestBody}.
Context `{Mirror.HttpClient} `{!JsonDecoder Mirror.tokenResp}.
Context (F : Faults) (HRemove : F OpRemove = None) (root : string) (Hroot : BlobStore.good_root root).

(** The stores: every blob has its digest, every session its file. *)
Definition winv (um : Upload.UploadManager) (w : World) : Prop :=
  BlobStore.bs_root (w_bs w) = root ∧ Upload.uinv root (um, w_os w).

Definition hinv (h : Handler) : Prop :=
  winv (h_uploads h) (h_world h) ∧ Cache.wf (h_cache h) ∧ (0 ≤ Cache.lc_capacity (h_cache h))%Z.

Lemma uinv_files um os os' :
  Upload.uinv root (um, os) → os_files os' = os_files os → Upload.uinv root (um, os').
Proof. unfold Upload.uinv. simpl. by intros ? ->. Qed.

Lemma uinv_insert_blob um os os' data :
  Upload.uinv root (um, os) →
  os_files os' = <[BlobStore.blobFile root (FromBytes data) := data]> (os_files os) →
  Upload.uinv root (um, os').
Proof.
  intros (Hr & Hok & Hst) Hf. split; [done|]. simpl in *. rewrite Hf. split.
  - apply (Upload.um_ok_files _ (os_files os)); [done|]. intros id u Hu.
    apply lookup_insert_ne. rewrite Hr. intros E. symmetry in E.
    apply Upload.uploadFile_not_blob in E; [done| |apply FromBytes_canonical].
    by destruct (Hok _ _ Hu) as (_ & ? & _).
  - by apply BlobStore.store_ok_insert_blob.
Qed.

Lemma uinv_Put um w rnds d r n :
  winv um w → Upload.uinv root (um, (BlobStore.Put F (w_bs w) (w_os w) rnds d r n).2).
Proof.
  intros [Hbs Hu]. destruct (BlobStore.Put F _ _ _ _ _ _) as [res os'] eqn:HP. cbn [snd].
  destruct (BlobStore.blobPath (w_bs w) d) as [p|e|m] eqn:Hp.
  - eapply BlobStore.Put_cases_path in HP; [|done|by rewrite Hbs|exact Hp].
    destruct HP as [(e & _ & Hf)|[(_ & -> & _)|(_ & -> & _ & _ & Hp' & Hf)]].
    + by eapply uinv_files.
    + done.
    + eapply uinv_insert_blob; [done|]. by rewrite Hf, Hp', Hbs.
  - unfold BlobStore.Put in HP. rewrite Hp in HP. by injection HP as _ <-.
  - unfold BlobStore.Put in HP. rewrite Hp in HP. by injection HP as _ <-.
Qed.

Lemma winv_Get um w d bs os res :
  winv um w → BlobStore.Get F (w_bs w) (w_os w) d = (res, (bs, os)) →
  winv um (mkWorld _ bs os (w_db w)).
Proof.
  intros [Hbs Hu] HG. pose proof (BlobStore.Get_files F (w_bs w) (w_os w) d) as [Hf Hr].
  rewrite HG in Hf, Hr. simpl in Hf, Hr. split; simpl; [by rewrite Hr|]. by eapply uinv_files.
Qed.

Lemma winv_db um w db : winv um w → winv um (mkWorld _ (w_bs w) (w_os w) db).
Proof. done. Qed.

Lemma winv_os um w os : winv um w → Upload.uinv root (um, os) →
  winv um (mkWorld _ (w_bs w) os (w_db w)).
Proof. intros [? _] ?. by split. Qed.

Lemma Delete_files bs os d :
  canonical d → BlobStore.bs_root bs = root →
  os_files (BlobStore.Delete F bs os d).2 = delete (BlobStore.blobFile root d) (os_files os).
Proof.
  intros Hd Hbs. unfold BlobStore.Delete.
  rewrite BlobStore.blobPath_canonical by (rewrite ?Hbs; done). rewrite Hbs.
  pose proof (BlobStore.Remove_files F HRemove os (BlobStore.blobFile root d)) as Hrm.
  destruct (Remove F os _) as [[]]; exact Hrm.
Qed.

Lemma uinv_delete_blob um os os' d :
  canonical d → Upload.uinv root (um, os) →
  os_files os' = delete (BlobStore.blobFile root d) (os_files os) →
  Upload.uinv root (um, os').
Proof.
  intros Hd (Hr & Hok & Hst) Hf. split; [done|]. simpl in *. rewrite Hf. split.
  - apply (Upload.um_ok_files _ (os_files os)); [done|]. intros id u Hu.
    apply lookup_delete_ne. rewrite Hr. intros E. symmetry in E.
    apply Upload.uploadFile_not_blob in E; [done| |done].
    by destruct (Hok _ _ Hu) as (_ & ? & _).
  - by apply BlobStore.store_ok_delete.
Qed.

Lemma hinv_cache_set h k v :
  hinv h → hinv (set_cache h (cache_set (h_cache h) k v)).
Proof.
  intros (Hw & Hwf & Hcap). unfold hinv, set_cache, cache_set, Cache.Set_. simpl.
  destruct (Cache.Set_refines 0 (h_cache h) k v 0 Hwf Hcap) as (c & -> & ? & Hc & _).
  simpl. by rewrite Hc.
Qed.

Lemma hinv_cache_get h now k :
  hinv h → hinv (set_cache h (Cache.Get now (h_cache h) k).2).
Proof.
  intros (Hw & Hwf & Hcap). unfold hinv, set_cache. simpl.
  pose proof (Cache.Get_refines now (h_cache h) k Hwf) as HG.
  destruct (Cache.Get now (h_cache h) k) as [v c]. destruct HG as (? & Hc & _).
  simpl. by rewrite Hc.
Qed.

Lemma hinv_cache_delete h k :
  hinv h → hinv (set_cache h (Cache.Delete (h_cache h) k)).
Proof.
  intros (Hw & Hwf & Hcap). unfold hinv, set_cache. simpl.
  destruct (Cache.Delete_refines (h_cache h) k Hwf) as (? & Hc & _). by rewrite Hc.
Qed.

Lemma hinv_world h w : hinv h → winv (h_uploads h) w → hinv (set_world h w).
Proof. intros (_ & ?) ?. by split. Qed.

Lemma serveManifest_inv h rq meta : hinv h → hinv (serveManifest F h rq meta).2.
Proof.
  intros Hinv. unfold serveManifest.
  destruct (BlobStore.Get _ _ _ _) as [res [bs os]] eqn:HG.
  assert (winv (h_uploads h) (mkWorld _ bs os (w_db (h_world h)))) as Hw.
  { eapply winv_Get; [apply Hinv|exact HG]. }
  destruct res as [[]| |]; by apply hinv_world.
Qed.

Lemma proxyGetManifest_inv h p ev now1 now2 now3 now4 m repo ref :
  hinv h →
  let r := Mirror.GetManifest F p (h_world h) (ev_rnds ev) now1 now2 now3 now4 m repo ref in
  winv (h_uploads h) r.2.2.
Proof.
  intros (Hw & _). unfold Mirror.GetManifest. cbv zeta.
  destruct (Mirror.px_mirrors p !! m) as [up|]; [|done].
  destruct (Mirror.NewRequest _); [done|].
  destruct (Mirror.authorize _ _ _ _ _) as [token p'].
  destruct (Mirror.client_Do _ _) as [resp|e|e]; [|done..].
  case_decide; [done|]. case_decide; [done|].
  destruct (rd_err _); [done|].
  pose proof (uinv_Put (h_uploads h) (h_world h) (ev_rnds ev)
    (FromBytes (rd_data (Mirror.hr_Body resp))) (NewReader (rd_data (Mirror.hr_Body resp)))
    (blen (rd_data (Mirror.hr_Body resp))) Hw) as Hput.
  destruct (BlobStore.Put _ _ _ _ _ _ _) as [res os].
  destruct (MetadataStore.PutManifest _ _ _ _ _ _) as [? db].
  destruct (MetadataStore.LinkBlobToRepo _ _ _) as [? db']. simpl.
  destruct Hw as [? _]. by split.
Qed.

Lemma proxyGetBlob_inv h p ev now1 now2 m repo d reads :
  hinv h →
  let r := Mirror.GetBlob F p (h_world h) (ev_rnds ev) now1 now2 m repo d reads in
  winv (h_uploads h) r.2.2.
Proof.
  intros (Hw & _). unfold Mirror.GetBlob. cbv zeta.
  destruct (Mirror.px_mirrors p !! m) as [up|]; [|done].
  destruct (BlobStore.Exists _ _ _ _) as [[]| |]; [| |done..].
  - destruct (BlobStore.Get _ _ _ _) as [res [bs os]] eqn:HG.
    pose proof (winv_Get _ _ _ _ _ _ Hw HG) as Hw'. by destruct res as [[]| |].
  - destruct (Mirror.NewRequest _); [done|].
    destruct (Mirror.authorize _ _ _ _ _) as [token p'].
    destruct (Mirror.client_Do _ _) as [resp|e|e]; [|done..].
    case_decide; [done|]. case_decide; [done|].
    set (tee := if reads then _ else _).
    pose proof (uinv_Put (h_uploads h) (h_world h) (ev_rnds ev) d tee
      (Mirror.hr_ContentLength resp) Hw) as Hput.
    destruct (BlobStore.Put _ _ _ _ _ _ _) as [res os].
    destruct (MetadataStore.LinkBlobToRepo _ _ _) as [? db']. simpl.
    destruct Hw as [? _]. by split.
Qed.

Lemma handleGetManifest_inv h ev rq repo ref :
  hinv h → hinv (handleGetManifest F h ev rq repo ref).2.
Proof.
  intros Hinv. unfold handleGetManifest.
  pose proof (hinv_cache_get h (ev_now ev 0) (repo +:+ ":" +:+ ref) Hinv) as Hc.
  destruct (Cache.Get _ _ _) as [[meta|] c]; simpl in Hc; [by apply serveManifest_inv|].
  destruct (MetadataStore.GetManifest _ _ _) as [meta|e|m]; [| |done].
  { apply serveManifest_inv. by apply hinv_cache_set. }
  destruct e; try done. destruct (h_proxy (set_cache h c)) as [p|]; [|done].
  destruct (Mirror.IsMirrored p repo) as [m|]; [|done].
  pose proof (proxyGetManifest_inv (set_cache h c) p ev (ev_now ev 1) (ev_now ev 2)
    (ev_now ev 3) (ev_now ev 4) m repo ref Hc) as Hw. cbv zeta in Hw.
  destruct (Mirror.GetManifest _ _ _ _ _ _ _ _ _ _ _) as [res [p' w]].
  destruct Hc as (_ & ? & ?). by destruct res as [[]| |]; split.
Qed.

Lemma handlePutManifest_inv h ev rq repo ref :
  hinv h → hinv (handlePutManifest F h ev rq repo ref).2.
Proof.
  intros Hinv. unfold handlePutManifest.
  destruct (readLimited _) as [body|e|m]; [|done..].
  destruct (json_Unmarshal _) as [manifest|e|m]; [|done..].
  destruct (checkConfig _ _ _) as [[]| |]; [done| |done..].
  destruct (checkLayers _ _ _) as [[]| |]; [done| |done..].
  pose proof (uinv_Put (h_uploads h) (h_world h) (ev_rnds ev) (FromBytes body) (NewReader body)
    (blen body) (proj1 Hinv)) as Hput.
  destruct (BlobStore.Put _ _ _ _ _ _ _) as [res os]. cbn [snd] in Hput.
  assert (hinv (set_os h os)) as Hos.
  { apply hinv_world; [done|]. apply winv_os; [apply Hinv|done]. }
  destruct res as [|e|m]; [|done..].
  destruct (MetadataStore.PutManifest _ _ _ _ _ _) as [[[]|e|m] db]; [|exact Hos..].
  cbn [snd]. set (h1 := set_db (set_os h os) _).
  pose proof (hinv_cache_delete h1 (repo +:+ ":" +:+ ref) Hos) as H1'.
  exact (hinv_cache_delete _ (repo +:+ ":" +:+ FromBytes body) H1').
Qed.

Lemma handleDeleteManifest_inv h repo ref :
  hinv h → hinv (handleDeleteManifest h repo ref).2.
Proof.
  intros Hinv. unfold handleDeleteManifest.
  destruct (MetadataStore.DeleteManifest _ _ _) as [[[]|[]|] db]; try exact Hinv.
  cbn [snd]. by apply (hinv_cache_delete (set_db h db)).
Qed.

Lemma handleRangeRequest_same h rq d range_ : (handleRangeRequest F h rq d range_).2 = h.
Proof.
  unfold handleRangeRequest. destruct (negb _); [done|].
  destruct (BlobStore.Size _ _ _ _); [|done..].
  destruct (Split _ _) as [|p0 [|p1 []]]; try done.
  destruct (parseRange _ _ _). case_decide; [done|].
  by destruct (BlobStore.GetRange _ _ _ _ _ _).
Qed.

Lemma handleGetBlob_inv h ev rq repo d : hinv h → hinv (handleGetBlob F h ev rq repo d).2.
Proof.
  intros Hinv. unfold handleGetBlob. destruct (Parse d) as [dgst|e|m]; [|done..].
  case_decide; [by rewrite handleRangeRequest_same|].
  destruct (BlobStore.Get _ _ _ _) as [res [bs os]] eqn:HG.
  assert (hinv (set_world h (mkWorld _ bs os (w_db (h_world h))))) as Hw.
  { apply hinv_world; [done|]. eapply winv_Get; [apply Hinv|exact HG]. }
  destruct res as [[]|e|m]; [done| |done].
  destruct e; try done. set (h1 := set_world h _) in *.
  destruct (h_proxy h1) as [p|]; [|done].
  destruct (Mirror.IsMirrored p repo) as [m|]; [|done].
  pose proof (proxyGetBlob_inv h1 p ev (ev_now ev 1) (ev_now ev 2) m repo dgst
    (negb (bool_decide (rq_Method rq = "HEAD"))) Hw) as Hw'. cbv zeta in Hw'.
  destruct (Mirror.GetBlob _ _ _ _ _ _ _ _ _ _) as [res [p' w]].
  destruct Hw as (_ & ? & ?). by destruct res as [[]| |]; split.
Qed.

Lemma handleDeleteBlob_inv h repo d :
  canonical d → hinv h → hinv (handleDeleteBlob F h repo d).2.
Proof.
  intros Hd Hinv. unfold handleDeleteBlob. destruct (Parse d) as [d'|e|m] eqn:HP; [|done..].
  apply Parse_Ok in HP as [<- _]. case_decide; [|done].
  set (h1 := set_db h _). assert (hinv h1) as Hinv1 by exact Hinv.
  pose proof (Delete_files (w_bs (h_world h1)) (w_os (h_world h1)) d Hd (proj1 (proj1 Hinv1))) as Hf.
  destruct (BlobStore.Delete _ _ _ _) as [res os]. cbn [snd] in Hf.
  assert (hinv (set_os h1 os)) as Hos.
  { apply hinv_world; [done|]. apply winv_os; [apply Hinv1|].
    eapply uinv_delete_blob; [done|apply Hinv1|done]. }
  by destruct res as [|[]|].
Qed.

(** What the environment provides, and a body that keeps the session within
    2^63 bytes. *)
Definition env_ok (ev : Env) : Prop := ∃ b, ev_id ev = Some b ∧ length b = 16.

Definition body_fits (h : Handler) (rq : Request) : Prop :=
  (∀ id u, Upload.um_uploads (h_uploads h) !! id = Some u →
     (Upload.up_Size u + blen (rd_data (rq_Body rq)) ≤ maxInt64)%Z) ∧
  (scan_start (rq_Header rq "Content-Range") + blen (rd_data (rq_Body rq)) ≤ maxInt64)%Z.

(** A session operation keeps the invariant of the handler. *)
Lemma hinv_urun h o :
  hinv h → Upload.uop_ok o (h_uploads h) →
  let st := Upload.urun F (w_bs (h_world h)) o (h_uploads h, w_os (h_world h)) in
  hinv (set_uploads h st.1 st.2).
Proof.
  intros ([Hbs Hu] & ? & ?) Ho st. split; [|done]. split; [done|]. simpl.
  pose proof (Upload.urun_inv F (w_bs (h_world h)) o (h_uploads h) (w_os (h_world h)) root
    HRemove Hroot Hbs Hu Ho) as Hst. by destruct (Upload.urun _ _ _ _).
Qed.

Lemma handleMountBlob_inv h repo d from : hinv h → hinv (handleMountBlob F h repo d from).2.
Proof.
  intros Hinv. unfold handleMountBlob. destruct (Parse d); [|done..].
  case_decide; [done|]. by destruct (BlobStore.Exists _ _ _ _) as [[]| |].
Qed.

Lemma handleStartUpload_inv h ev rq repo :
  env_ok ev → hinv h → hinv (handleStartUpload F h ev rq repo).2.
Proof.
  intros (b & Hid & Hb) Hinv. unfold handleStartUpload.
  set (mnt := if decide (rq_Query rq "mount" ≠ "") then _ else _).
  assert (hinv mnt.2) as Hm.
  { unfold mnt. case_decide; [by apply handleMountBlob_inv|done]. }
  destruct mnt as [mounted h1]. cbn [snd] in Hm.
  destruct mounted as [[resp|]|e|m]; [done| |done..].
  case_decide.
  - destruct (Parse _) as [dgst|e|m]; [|done..].
    pose proof (uinv_Put (h_uploads h1) (h_world h1) (ev_rnds ev) dgst (rq_Body rq)
      (ParseInt (rq_Header rq "Content-Length")).1 (proj1 Hm)) as Hput.
    destruct (BlobStore.Put _ _ _ _ _ _ _) as [res os]. cbn [snd] in Hput.
    assert (hinv (set_os h1 os)) as Hos.
    { apply hinv_world; [done|]. apply winv_os; [apply Hm|done]. }
    by destruct res.
  - pose proof (hinv_urun h1 (Upload.UStart b (ev_now ev 0) (ev_now ev 1) repo) Hm Hb) as Hs.
    simpl in Hs. rewrite Hid.
    destruct (Upload.Start _ _ _ _ _ _ _) as [res [um os]]. by destruct res.
Qed.

Lemma hinv_Write h id u r :
  hinv h → Upload.um_uploads (h_uploads h) !! id = Some u →
  (Upload.up_Size u + blen (rd_data r) ≤ maxInt64)%Z →
  let st := (Upload.Write F (h_uploads h) (w_os (h_world h)) u r).2 in
  hinv (set_uploads h st.1 st.2).
Proof.
  intros Hinv Hu Hov.
  pose proof (hinv_urun h (Upload.UWrite id r) Hinv) as Hs. simpl in Hs.
  unfold Upload.Get in Hs. rewrite Hu in Hs. apply Hs. by intros u' [= <-].
Qed.

Lemma hinv_WriteAt h id u r off :
  hinv h → Upload.um_uploads (h_uploads h) !! id = Some u →
  (off + blen (rd_data r) ≤ maxInt64)%Z →
  let st := (Upload.WriteAt F (h_uploads h) (w_os (h_world h)) u r off).2 in
  hinv (set_uploads h st.1 st.2).
Proof.
  intros Hinv Hu Hov.
  pose proof (hinv_urun h (Upload.UWriteAt id r off) Hinv Hov) as Hs. simpl in Hs.
  unfold Upload.Get in Hs. by rewrite Hu in Hs.
Qed.

Lemma Get_upload um id u : Upload.Get um id = Ok u → Upload.um_uploads um !! id = Some u.
Proof. unfold Upload.Get. case_match; by intros [= ->]. Qed.

Lemma handleUploadChunk_inv h rq repo id :
  body_fits h rq → hinv h → hinv (handleUploadChunk F h rq repo id).2.
Proof.
  intros [Hf1 Hf2] Hinv. unfold handleUploadChunk.
  destruct (Upload.Get _ _) as [u|[]|m] eqn:Hu; try done. apply Get_upload in Hu.
  case_decide.
  - pose proof (hinv_WriteAt h id u (rq_Body rq) (scan_start (rq_Header rq "Content-Range"))
      Hinv Hu Hf2) as Hs.
    destruct (Upload.WriteAt _ _ _ _ _ _) as [res [um os]]. by destruct res.
  - pose proof (hinv_Write h id u (rq_Body rq) Hinv Hu (Hf1 id u Hu)) as Hs.
    destruct (Upload.Write _ _ _ _ _) as [res [um os]]. by destruct res.
Qed.

Lemma handleFinishUpload_inv h rq repo id :
  body_fits h rq → hinv h → hinv (handleFinishUpload F h rq repo id).2.
Proof.
  intros [Hf1 _] Hinv. unfold handleFinishUpload. case_decide; [done|].
  destruct (Parse _) as [dgst|e|m]; [|done..].
  destruct (Upload.Get _ _) as [u|[]|m] eqn:Hu; try done. apply Get_upload in Hu.
  set (h1 := if decide (rq_ContentLength rq > 0)%Z then _ else h).
  assert (hinv h1) as Hinv1.
  { unfold h1. case_decide; [|done].
    pose proof (hinv_Write h id u (rq_Body rq) Hinv Hu (Hf1 id u Hu)) as Hs.
    by destruct (Upload.Write _ _ _ _ _) as [res [um os]]. }
  pose proof (hinv_urun h1 (Upload.UFinish id dgst) Hinv1 I) as Hs. simpl in Hs.
  destruct (Upload.Finish _ _ _ _ _ _) as [res [um os]]. by destruct res.
Qed.

Lemma handleCancelUpload_inv h id : hinv h → hinv (handleCancelUpload F h id).2.
Proof.
  intros Hinv. unfold handleCancelUpload.
  pose proof (hinv_urun h (Upload.UCancel id) Hinv I) as Hs. simpl in Hs.
  destruct (Upload.Cancel _ _ _ _) as [res [um os]]. by destruct res as [|[]|].
Qed.

(** Every way a request can be dispatched. *)
Inductive dispatched (h : Handler) (ev : Env) (rq : Request) : result Response * Handler → Prop :=
  | d_base : dispatched h ev rq (Ok handleBase, h)
  | d_catalog : dispatched h ev rq (handleCatalog h)
  | d_getManifest repo ref :
      lang repoNamePattern repo → lang referencePattern ref →
      dispatched h ev rq (handleGetManifest F h ev rq repo ref)
  | d_putManifest repo ref :
      lang repoNamePattern repo → lang referencePattern ref →
      dispatched h ev rq (handlePutManifest F h ev rq repo ref)
  | d_deleteManifest repo ref :
      lang repoNamePattern repo → lang referencePattern ref →
      dispatched h ev rq (handleDeleteManifest h repo ref)
  | d_getBlob repo d :
      lang repoNamePattern repo → canonical d →
      dispatched h ev rq (handleGetBlob F h ev rq repo d)
  | d_deleteBlob repo d :
      lang repoNamePattern repo → canonical d →
      dispatched h ev rq (handleDeleteBlob F h repo d)
  | d_startUpload repo :
      lang repoNamePattern repo → dispatched h ev rq (handleStartUpload F h ev rq repo)
  | d_uploadChunk repo id :
      lang repoNamePattern repo → dispatched h ev rq (handleUploadChunk F h rq repo id)
  | d_finishUpload repo id :
      lang repoNamePattern repo → dispatched h ev rq (handleFinishUpload F h rq repo id)
  | d_uploadStatus repo id :
      lang repoNamePattern repo → dispatched h ev rq (handleUploadStatus h repo id)
  | d_cancelUpload id : dispatched h ev rq (handleCancelUpload F h id)
  | d_listTags repo :
      lang repoNamePattern repo → dispatched h ev rq (handleListTags h rq repo)
  | d_error status code msg :
      dispatched h ev rq (Ok (errorResponse status code msg), h).

Lemma find_two a r1 b r2 s x y :
  find_groups [Plain (lit a); Group r1; Plain (lit b); Group r2] s = Some [x; y] →
  lang r1 x ∧ lang r2 y.
Proof. intros (x' & y' & [= -> ->] & ? & ? & _)%find_groups_sound%decomp_two. done. Qed.

Lemma find_one a r1 r2 s x :
  find_groups [Plain (lit a); Group r1; Plain r2] s = Some [x] → lang r1 x.
Proof. intros (x' & y' & [= ->] & ? & _)%find_groups_sound%decomp_one. done. Qed.

Lemma ServeHTTP_dispatched h ev rq : dispatched h ev rq (ServeHTTP F h ev rq).
Proof.
  unfold ServeHTTP. case_decide; [constructor|]. case_decide; [constructor|].
  set (k1 := match find_groups blobPathRe _ with Some _ => _ | None => _ end).
  assert (dispatched h ev rq k1) as Hk1.
  { unfold k1. clear k1.
    set (k2 := match find_groups uploadStartRe _ with Some _ => _ | None => _ end).
    assert (dispatched h ev rq k2) as Hk2.
    { unfold k2. clear k2.
      set (k3 := match find_groups uploadPathRe _ with Some _ => _ | None => _ end).
      assert (dispatched h ev rq k3) as Hk3.
      { unfold k3. clear k3.
        set (k4 := match find_groups tagsListRe _ with Some _ => _ | None => _ end).
        assert (dispatched h ev rq k4) as Hk4.
        { unfold k4. clear k4.
          destruct (find_groups tagsListRe _) as [[|repo [|]]|] eqn:E; try constructor.
          apply find_one in E. case_decide; by constructor. }
        destruct (find_groups uploadPathRe _) as [[|repo [|id [|]]]|] eqn:E; try exact Hk4.
        apply find_two in E as [? _]. repeat case_decide; by constructor. }
      destruct (find_groups uploadStartRe _) as [[|repo [|]]|] eqn:E; try exact Hk3.
      apply find_one in E. case_decide; by constructor. }
    destruct (find_groups blobPathRe _) as [[|repo [|d [|]]]|] eqn:E; try exact Hk2.
    apply find_two in E as [? Hd]. apply digestPattern_canonical in Hd.
    repeat case_decide; by constructor. }
  destruct (find_groups manifestPathRe _) as [[|repo [|ref [|]]]|] eqn:E; try exact Hk1.
  apply find_two in E as [? ?]. repeat case_decide; by constructor.
Qed.

Lemma handleCatalog_inv h : hinv h → hinv (handleCatalog h).2.
Proof. unfold handleCatalog. by destruct (MetadataStore.ListRepositories _). Qed.

Lemma handleUploadStatus_inv h repo id : hinv h → hinv (handleUploadStatus h repo id).2.
Proof. unfold handleUploadStatus. by destruct (Upload.Get _ _) as [|[]|]. Qed.

Lemma handleListTags_inv h rq repo : hinv h → hinv (handleListTags h rq repo).2.
Proof.
  unfold handleListTags. destruct (MetadataStore.ListTags _ _); [|done..].
  by destruct (tagPage _ _ _).
Qed.

Lemma ServeHTTP_inv h ev rq :
  env_ok ev → body_fits h rq → hinv h → hinv (ServeHTTP F h ev rq).2.
Proof.
  intros Hev Hfit Hinv.
  destruct (ServeHTTP_dispatched h ev rq); auto using handleGetManifest_inv,
    handlePutManifest_inv, handleDeleteManifest_inv, handleGetBlob_inv, handleDeleteBlob_inv,
    handleStartUpload_inv, handleUploadChunk_inv, handleFinishUpload_inv, handleCancelUpload_inv,
    handleCatalog_inv, handleUploadStatus_inv, handleListTags_inv.
Qed.


(** The states the API can be in: any sequence of requests and clean-up ticks. *)
Inductive reachable (h0 : Handler) : Handler → Prop :=
  | r_init : reachable h0 h0
  | r_request h ev rq :
      reachable h0 h → env_ok ev → body_fits h rq → reachable h0 (ServeHTTP F h ev rq).2
  | r_cleanup h now :
      reachable h0 h →
      reachable h0 (let st := Upload.cleanupTick F (h_uploads h) (w_os (h_world h)) now in
                    set_uploads h st.1 st.2).

Lemma reachable_inv h0 h : hinv h0 → reachable h0 h → hinv h.
Proof.
  intros Hinv. induction 1 as [|h ev rq _ IH Hev Hfit|h now _ IH]; [done|by apply ServeHTTP_inv|].
  exact (hinv_urun h (Upload.UCleanup now) IH I).
Qed.

(** ** What a response may contain *)

Lemma Get_Ok bs os d r n st :
  BlobStore.Get F bs os d = (Ok (r, n), st) →
  ∃ p, BlobStore.blobPath bs d = Ok p ∧ os_files os !! p = Some (BlobStore.reader_data r) ∧
       n = blen (BlobStore.reader_data r).
Proof.
  unfold BlobStore.Get. destruct (BlobStore.blobPath bs d) as [p|e|m]; [|done..].
  unfold Stat, BlobStore.bs_mmap, Open, Mmap.
  destruct (F OpStat); [done|]. destruct (os_files os !! p) as [c|] eqn:Hc; [|done].
  intros H1. exists p. split; [done|].
  repeat case_match; simplify_eq/=; done.
Qed.

(** A body is trusted when it has the digest the response announces, or is the
    announced part of a blob with that digest. *)
Definition trusted (resp : Response) : Prop :=
  ∀ b d, rs_Body resp = Bytes b → ("Docker-Content-Digest", d) ∈ rs_Header resp → canonical d →
    d = FromBytes b ∨
    (rs_Status resp = 206%Z ∧ ∃ c i n, d = FromBytes c ∧ b = take n (drop i c)).

Lemma Get_trusted h d r n st :
  hinv h → canonical d →
  BlobStore.Get F (w_bs (h_world h)) (w_os (h_world h)) d = (Ok (r, n), st) →
  d = FromBytes (BlobStore.reader_data r).
Proof.
  intros ((Hbs & Hr & _ & Hst) & _) Hd (p & Hp & Hf & _)%Get_Ok. simpl in *.
  rewrite BlobStore.blobPath_canonical, Hbs in Hp by (rewrite ?Hbs; done).
  injection Hp as <-. by apply Hst.
Qed.

Lemma header_unique k v1 v2 (l1 l2 : list (string * string)) :
  (k, v1) ∈ l1 ++ (k, v2) :: l2 → k ∉ l1.*1 → k ∉ l2.*1 → v1 = v2.
Proof.
  intros [Hin|[[= ->]|Hin]%elem_of_cons]%elem_of_app H1' H2'; [|done|].
  - exfalso. apply H1'. apply list_elem_of_fmap. by exists (k, v1).
  - exfalso. apply H2'. apply list_elem_of_fmap. by exists (k, v1).
Qed.

Ltac header_case Hin :=
  repeat (apply elem_of_cons in Hin as [[= ->]|Hin]); try (by apply not_elem_of_nil in Hin).

Lemma serveManifest_trusted h rq meta resp h' :
  hinv h → serveManifest F h rq meta = (Ok resp, h') → trusted resp.
Proof.
  intros Hinv. unfold serveManifest.
  destruct (BlobStore.Get _ _ _ _) as [[[r n]|e|m] [bs os]] eqn:HG; intros [= <- _];
    [|by intros b d].
  intros b d Hb Hin Hd. simpl in *. case_decide; [done|]. injection Hb as <-.
  unfold manifest_headers in Hin. header_case Hin. left. by eapply Get_trusted.
Qed.

Lemma handleGetManifest_trusted h ev rq repo ref resp h' :
  hinv h → handleGetManifest F h ev rq repo ref = (Ok resp, h') → trusted resp.
Proof.
  intros Hinv. unfold handleGetManifest.
  pose proof (hinv_cache_get h (ev_now ev 0) (repo +:+ ":" +:+ ref) Hinv) as Hc.
  destruct (Cache.Get _ _ _) as [[meta|] c]; simpl in Hc; [by apply serveManifest_trusted|].
  destruct (MetadataStore.GetManifest _ _ _) as [meta|e|m]; [| |done].
  { apply serveManifest_trusted. by apply hinv_cache_set. }
  destruct e; try (by intros [= <- _] b d). destruct (h_proxy (set_cache h c)) as [p|];
    [|by intros [= <- _] b d].
  destruct (Mirror.IsMirrored p repo) as [m|]; [|by intros [= <- _] b d].
  destruct (Mirror.GetManifest _ _ _ _ _ _ _ _ _ _ _) as [res [p' w]] eqn:HG.
  destruct res as [[meta body]|e|e]; intros [= <- _]; [|by intros b d].
  intros b d Hb Hin Hd. simpl in *. case_decide; [done|]. injection Hb as <-.
  unfold manifest_headers in Hin. header_case Hin. left.
  revert HG. unfold Mirror.GetManifest.
  destruct (Mirror.px_mirrors p !! m); [|done]. destruct (Mirror.NewRequest _); [done|].
  destruct (Mirror.authorize _ _ _ _ _). destruct (Mirror.client_Do _ _); [|done..].
  case_decide; [done|]. case_decide; [done|]. destruct (rd_err _); [done|].
  destruct (BlobStore.Put _ _ _ _ _ _ _). destruct (MetadataStore.PutManifest _ _ _ _ _ _).
  destruct (MetadataStore.LinkBlobToRepo _ _ _). by intros [= <- <- _].
Qed.

Lemma GetRange_Ok bs os d a b c :
  BlobStore.GetRange F bs os d a b = Ok c →
  ∃ p c0, BlobStore.blobPath bs d = Ok p ∧ os_files os !! p = Some c0 ∧
    c = take (Z.to_nat (b - a + 1)) (drop (Z.to_nat a) c0).
Proof.
  unfold BlobStore.GetRange. destruct (BlobStore.blobPath bs d) as [p|e|m]; [|done..]. simpl.
  unfold Open. destruct (F OpOpen); [done|]. destruct (os_files os !! p) as [c0|] eqn:E; [|done].
  destruct (F OpSeek); [done|]. case_decide; [done|]. intros [= <-]. eauto.
Qed.

Lemma handleRangeRequest_trusted h rq d range_ resp h' :
  hinv h → canonical d → handleRangeRequest F h rq d range_ = (Ok resp, h') → trusted resp.
Proof.
  intros ((Hbs & Hr & _ & Hst) & _) Hd. unfold handleRangeRequest. simpl in *.
  destruct (negb _); [by intros [= <- _] b d'|].
  destruct (BlobStore.Size _ _ _ _); [|by intros [= <- _] b d'|done].
  destruct (Split _ _) as [|p0 [|p1 [|]]]; try (by intros [= <- _] b d').
  destruct (parseRange _ _ _) as [start end_]. case_decide; [by intros [= <- _] b d'|].
  destruct (BlobStore.GetRange _ _ _ _ _ _) as [data|e|m] eqn:HG; intros [= <- _]; [|by intros b d'].
  apply GetRange_Ok in HG as (p & c0 & Hp & Hf & ->).
  intros b d' Hb Hin Hd'. simpl in *. case_decide; [done|]. injection Hb as <-.
  header_case Hin. right. split; [done|]. eexists c0, _, _. split; [|done].
  rewrite BlobStore.blobPath_canonical, Hbs in Hp by (rewrite ?Hbs; done).
  injection Hp as <-. by apply Hst.
Qed.

Lemma handleGetBlob_trusted h ev rq repo d resp h' :
  hinv h → canonical d → h_proxy h = None →
  handleGetBlob F h ev rq repo d = (Ok resp, h') → trusted resp.
Proof.
  intros Hinv Hd Hpx. unfold handleGetBlob.
  destruct (Parse d) as [dgst|e|m] eqn:HP; [|by intros [= <- _] b d'|done].
  apply Parse_Ok in HP as [<- _].
  case_decide; [by apply handleRangeRequest_trusted|].
  destruct (BlobStore.Get _ _ _ _) as [[[r n]|e|m] [bs os]] eqn:HG.
  - intros [= <- _] b d' Hb Hin Hd'. simpl in *. case_decide; [done|]. injection Hb as <-.
    unfold blob_headers in Hin. header_case Hin. left. by eapply Get_trusted.
  - simpl. rewrite Hpx. destruct e; by intros [= <- _] b d'.
  - done.
Qed.

(** Responses without blob contents. *)
Definition no_bytes (r : result Response * Handler) : Prop :=
  ∀ resp h', r = (Ok resp, h') → ∀ b, rs_Body resp ≠ Bytes b.

Lemma no_bytes_trusted r resp h' : no_bytes r → r = (Ok resp, h') → trusted resp.
Proof. intros Hn Hr b d Hb. by destruct (Hn resp h' Hr b). Qed.

Lemma check_no_bytes h ls resp :
  checkLayers F h ls = Ok (Some resp) → ∀ b, rs_Body resp ≠ Bytes b.
Proof.
  induction ls as [|l ls IH]; simpl; [done|].
  destruct (BlobStore.Exists _ _ _ _) as [[]| |]; simpl; [done| |done..]. by intros [= <-].
Qed.

Lemma handlePutManifest_no_bytes h ev rq repo ref :
  no_bytes (handlePutManifest F h ev rq repo ref).
Proof.
  intros resp h'. unfold handlePutManifest.
  destruct (readLimited _); [|by intros [= <- _]|done].
  destruct (json_Unmarshal _) as [m|e|e]; [|by intros [= <- _]|done].
  destruct (checkConfig F h _) as [[r|]|e|e] eqn:Hc; [| |done..].
  { intros [= <- _]. revert Hc. unfold checkConfig. case_decide; [done|].
    destruct (BlobStore.Exists _ _ _ _) as [[]| |]; simpl; [done| |done..]. by intros [= <-]. }
  destruct (checkLayers F h _) as [[r|]|e|e] eqn:Hl; [| |done..].
  { intros [= <- _]. by eapply check_no_bytes. }
  destruct (BlobStore.Put _ _ _ _ _ _ _) as [[]]; [|by intros [= <- _]|done].
  destruct (MetadataStore.PutManifest _ _ _ _ _ _) as [[]]; [|by intros [= <- _]|done].
  by intros [= <- _].
Qed.

Lemma handleDeleteManifest_no_bytes h repo ref : no_bytes (handleDeleteManifest h repo ref).
Proof.
  intros resp h'. unfold handleDeleteManifest.
  destruct (MetadataStore.DeleteManifest _ _ _) as [[[]|[]|]]; by intros [= <- _].
Qed.

Lemma handleDeleteBlob_no_bytes h repo d : no_bytes (handleDeleteBlob F h repo d).
Proof.
  intros resp h'. unfold handleDeleteBlob. destruct (Parse d); [|by intros [= <- _]|done].
  case_decide; [|by intros [= <- _]].
  destruct (BlobStore.Delete _ _ _ _) as [[|[]|]]; by intros [= <- _].
Qed.

Lemma handleStartUpload_no_bytes h ev rq repo : no_bytes (handleStartUpload F h ev rq repo).
Proof.
  intros resp h'. unfold handleStartUpload.
  set (mnt := if decide (rq_Query rq "mount" ≠ "") then _ else _).
  assert (∀ r, mnt.1 = Ok (Some r) → ∀ b, rs_Body r ≠ Bytes b) as Hm.
  { unfold mnt. case_decide; [|done]. intros r. unfold handleMountBlob.
    destruct (Parse _); [|done..]. case_decide; [done|].
    destruct (BlobStore.Exists _ _ _ _) as [[]| |]; [|done..]. by intros [= <-]. }
  destruct mnt as [[[r|]|e|e] h1]; [| |done..].
  { intros [= <- _]. by apply Hm. }
  case_decide.
  - destruct (Parse _); [|by intros [= <- _]|done].
    destruct (BlobStore.Put _ _ _ _ _ _ _) as [[]]; by intros [= <- _].
  - destruct (Upload.Start _ _ _ _ _ _ _) as [[] []]; by intros [= <- _].
Qed.

Lemma handleUploadChunk_no_bytes h rq repo id : no_bytes (handleUploadChunk F h rq repo id).
Proof.
  intros resp h'. unfold handleUploadChunk.
  destruct (Upload.Get _ _) as [u|[]|]; try (by intros [= <- _]).
  destruct (if decide _ then _ else _) as [[] []]; by intros [= <- _].
Qed.

Lemma handleFinishUpload_no_bytes h rq repo id : no_bytes (handleFinishUpload F h rq repo id).
Proof.
  intros resp h'. unfold handleFinishUpload. case_decide; [by intros [= <- _]|].
  destruct (Parse _); [|by intros [= <- _]|done].
  destruct (Upload.Get _ _) as [u|[]|]; try (by intros [= <- _]).
  destruct (Upload.Finish _ _ _ _ _ _) as [[] []]; by intros [= <- _].
Qed.

Lemma other_no_bytes h rq repo id :
  no_bytes (handleCatalog h) ∧ no_bytes (handleUploadStatus h repo id) ∧
  no_bytes (handleCancelUpload F h id) ∧ no_bytes (handleListTags h rq repo).
Proof.
  split_and!; intros resp h'.
  - unfold handleCatalog. destruct (MetadataStore.ListRepositories _); by intros [= <- _].
  - unfold handleUploadStatus. destruct (Upload.Get _ _) as [|[]|]; by intros [= <- _].
  - unfold handleCancelUpload.
    destruct (Upload.Cancel _ _ _ _) as [[|[]|] []]; by intros [= <- _].
  - unfold handleListTags.
    destruct (MetadataStore.ListTags _ _); [|by intros [= <- _]|done].
    destruct (tagPage _ _ _). by intros [= <- _].
Qed.

Lemma ServeHTTP_trusted h ev rq resp h' :
  hinv h → h_proxy h = None → ServeHTTP F h ev rq = (Ok resp, h') → trusted resp.
Proof.
  intros Hinv Hpx Hr. pose proof (ServeHTTP_dispatched h ev rq) as Hd. rewrite Hr in Hd.
  remember (Ok resp, h') as r eqn:E.
  destruct Hd.
  - injection E as <- _. by intros b d.
  - eapply no_bytes_trusted; [exact (proj1 (other_no_bytes h rq "" ""))|exact E].
  - by eapply handleGetManifest_trusted.
  - eapply no_bytes_trusted; [apply handlePutManifest_no_bytes|exact E].
  - eapply no_bytes_trusted; [apply handleDeleteManifest_no_bytes|exact E].
  - by eapply handleGetBlob_trusted.
  - eapply no_bytes_trusted; [apply handleDeleteBlob_no_bytes|exact E].
  - eapply no_bytes_trusted; [apply handleStartUpload_no_bytes|exact E].
  - eapply no_bytes_trusted; [apply handleUploadChunk_no_bytes|exact E].
  - eapply no_bytes_trusted; [apply handleFinishUpload_no_bytes|exact E].
  - eapply no_bytes_trusted; [exact (proj1 (proj2 (other_no_bytes h rq repo id)))|exact E].
  - eapply no_bytes_trusted; [exact (proj1 (proj2 (proj2 (other_no_bytes h rq "" id))))|exact E].
  - eapply no_bytes_trusted; [exact (proj2 (proj2 (proj2 (other_no_bytes h rq repo ""))))|exact E].
  - injection E as <- _. by intros b d.
Qed.

(** ** Properties *)

(** No sequence of requests and clean-ups breaks the registry's stores: from
    any consistent state, whichever system call other than removal fails,
    every blob's bytes have the digest they are stored under, every upload
    session has its file, and the manifest cache is consistent. *)
Theorem requests_preserve_stores h0 h :
  hinv h0 → reachable h0 h →
  BlobStore.store_ok root (os_files (w_os (h_world h))) ∧
  Upload.um_ok (h_uploads h) (os_files (w_os (h_world h))) ∧
  Cache.wf (h_cache h).
Proof.
  intros Hinv Hr. destruct (reachable_inv h0 h Hinv Hr) as ((_ & _ & ? & ?) & ? & _). done.
Qed.

(** C1 What is served has the digest that is announced: after any history, a
    response with contents and a canonical [Docker-Content-Digest] carries
    bytes with that SHA-256, or, with status 206, a part of such bytes, for
    every request that the local stores answer. *)
Theorem served_content_is_trusted h0 h ev rq resp h' :
  hinv h0 → reachable h0 h → h_proxy h = None →
  ServeHTTP F h ev rq = (Ok resp, h') →
  ∀ b d, rs_Body resp = Bytes b → ("Docker-Content-Digest", d) ∈ rs_Header resp → canonical d →
    d = FromBytes b ∨
    (rs_Status resp = 206%Z ∧ ∃ c i n, d = FromBytes c ∧ b = take n (drop i c)).
Proof.
  intros Hinv Hr Hpx Hs. eapply ServeHTTP_trusted; [|done..]. by eapply reachable_inv.
Qed.
End invariant.

(** ** Witnesses *)

Section witnesses.
Import V2Example.

Lemma exStocked_inv : hinv BlobStore.srvRoot exStocked.
Proof.
  split.
  - split; [done|]. split; [done|]. split; [exact Upload.exUM_ok|apply BlobStore.store_ok_empty].
  - split; [apply Cache.wf_new|done].
Qed.

(** An upload is opened, then the stores are still consistent. *)
Definition exPost : Request := exRequest "POST" "/v2/app/blobs/uploads/" [].

Lemma exPost_reachable :
  reachable noFaults exStocked (ServeHTTP noFaults exStocked exEnv exPost).2.
Proof.
  apply r_request; [apply r_init| |].
  - exists Upload.exId. by split.
  - split; [|by vm_compute]. intros id u. unfold exStocked, exHandlerWith. cbn. by rewrite lookup_empty.
Qed.

Lemma requests_preserve_stores_witness :
  let h := (ServeHTTP noFaults exStocked exEnv exPost).2 in
  Upload.um_ok (h_uploads h) (os_files (w_os (h_world h))) ∧
  (Upload.up_Repo <$> Upload.um_uploads (h_uploads h) !!
    Upload.generateUploadID (Some Upload.exId) 0) = Some "app".
Proof.
  intros h. split.
  - exact (proj1 (proj2 (requests_preserve_stores noFaults eq_refl BlobStore.srvRoot
      BlobStore.good_srvRoot exStocked h exStocked_inv exPost_reachable))).
  - vm_compute. reflexivity.
Defined.

Definition exWithBlob : Handler :=
  exHandlerWith {[BlobStore.blobFile BlobStore.srvRoot (FromBytes exData) := exData]} ∅.

Lemma exWithBlob_inv : hinv BlobStore.srvRoot exWithBlob.
Proof.
  split.
  - split; [done|]. split; [done|]. split.
    + intros id u. unfold exWithBlob, exHandlerWith. cbn. by rewrite lookup_empty.
    + apply (BlobStore.store_ok_insert_blob _ ∅), BlobStore.store_ok_empty.
  - split; [apply Cache.wf_new|done].
Qed.

Lemma served_content_is_trusted_witness :
  match ServeHTTP noFaults exWithBlob exEnv
    (exRequest "GET" ("/v2/app/blobs/" +:+ FromBytes exData) []) with
  | (Ok resp, _) => rs_Status resp = 200%Z ∧ rs_Body resp = Bytes exData ∧
      ∀ d, ("Docker-Content-Digest", d) ∈ rs_Header resp → canonical d → d = FromBytes exData
  | _ => False
  end.
Proof.
  destruct (ServeHTTP _ _ _ _) as [res h'] eqn:HS.
  assert (match res with Ok r => rs_Status r = 200%Z ∧ rs_Body r = Bytes exData | _ => False end) as Hb.
  { apply (f_equal (λ r, match r.1 with Ok r => Some (rs_Status r, rs_Body r) | _ => None end)) in HS.
    destruct res as [[st hs b]| |]; vm_compute in HS; [|discriminate HS..].
    injection HS as <- <-. by vm_compute. }
  destruct res as [resp| |]; [|destruct Hb..].
  split; [exact (proj1 Hb)|]. split; [exact (proj2 Hb)|]. intros d Hin Hd.
  destruct (served_content_is_trusted noFaults eq_refl BlobStore.srvRoot BlobStore.good_srvRoot
    exWithBlob exWithBlob exEnv _ resp h' exWithBlob_inv (r_init _ _) eq_refl HS
    exData d (proj2 Hb) Hin Hd) as [H|[H _]]; [exact H|].
  rewrite (proj1 Hb) in H. discriminate H.
Defined.
End witnesses.
End V2Safety.
