(* ===== verification/V2Flow.v ===== *)
(** What clients of the distribution API rely on: routing, pushing and pulling
    manifests and blobs, ranges, listings and deletions, request after
    request through [ServeHTTP]. *)

From S2P Require Import Prelude GoLib Digest Os Blob Badger Metadata Cache Upload.
From S2P Require Import Oci Regexp Mirror V2 V2Example V2Safety.

Module V2Flow.
Import V2 V2Safety Regexp.

(** ** Routing *)

Lemma referencePattern_no_slash r : lang referencePattern r → not_in "/" r.
Proof. intros H. by apply (lang_not_in _ _ _ H). Qed.

Lemma digestPattern_no_slash r : lang digestPattern r → not_in "/" r.
Proof. intros H. by apply (lang_not_in _ _ _ H). Qed.

Lemma uuidPattern_no_slash r : lang uuidPattern r → not_in "/" r.
Proof. intros H. by apply (lang_not_in _ _ _ H). Qed.

Lemma referencePattern_nonempty : ¬ lang referencePattern "".
Proof. by rewrite <-matches_lang. Qed.

Lemma digestPattern_nonempty : ¬ lang digestPattern "".
Proof. by rewrite <-matches_lang. Qed.

Lemma uuidPattern_nonempty : ¬ lang uuidPattern "".
Proof. by rewrite <-matches_lang. Qed.

Lemma digestPattern_reference d : canonical d → lang referencePattern d.
Proof. intros H. apply lang_alt_r. by apply digestPattern_canonical. Qed.

(** Two paths that end in a slash and a component. *)
Lemma last_slash a b x y :
  not_in "/" x → not_in "/" y → a +:+ "/" +:+ x = b +:+ "/" +:+ y → a = b ∧ x = y.
Proof. intros Hx Hy H. by apply (MetadataStore.str_split_last "/") in H. Qed.

Lemma find_none ps s : (∀ gs, ¬ decomp ps s gs) → find_groups ps s = None.
Proof.
  intros H. destruct (find_groups ps s) as [gs|] eqn:E; [|done].
  by apply find_groups_sound, H in E.
Qed.

Definition manifestPath (repo ref : string) : string :=
  "/v2/" +:+ repo +:+ "/manifests/" +:+ ref.
Definition blobURL (repo d : string) : string := "/v2/" +:+ repo +:+ "/blobs/" +:+ d.
Definition uploadsURL (repo : string) : string := "/v2/" +:+ repo +:+ "/blobs/uploads/".
Definition uploadURL (repo id : string) : string := "/v2/" +:+ repo +:+ "/blobs/uploads/" +:+ id.
Definition tagsURL (repo : string) : string := "/v2/" +:+ repo +:+ "/tags/list".

(** Splitting a path before its last component. *)
Lemma path_split a x m y :
  a +:+ x +:+ ("/" +:+ m +:+ "/") +:+ y = ((a +:+ x) +:+ "/" +:+ m) +:+ "/" +:+ y.
Proof. by rewrite !sapp_assoc. Qed.

Lemma two_unique a m r1 r2 x y s :
  (∀ y, lang r2 y → not_in "/" y) → lang r1 x → lang r2 y →
  s = a +:+ x +:+ ("/" +:+ m +:+ "/") +:+ y →
  find_groups [Plain (lit a); Group r1; Plain (lit ("/" +:+ m +:+ "/")); Group r2] s = Some [x; y].
Proof.
  intros Hns Hx Hy ->. apply find_groups_unique.
  - repeat (constructor; [by (done || apply lang_lit)|]).
    rewrite <-(sapp_nil_r y) at 1. repeat constructor. done.
  - intros gs (x' & y' & -> & Hx' & Hy' & E)%decomp_two.
    rewrite !path_split in E. apply last_slash in E as [E ->]; auto.
    rewrite !sapp_assoc in E. apply sapp_inj_r, sapp_inj_l in E as ->. done.
Qed.

(** A path whose last component or the component before it is different does
    not match. *)
Lemma two_none a m r1 r2 b y s :
  (∀ y, lang r2 y → not_in "/" y) → not_in "/" y →
  s = b +:+ "/" +:+ y →
  (lang r2 y → ∀ x, a +:+ x +:+ "/" +:+ m ≠ b) →
  find_groups [Plain (lit a); Group r1; Plain (lit ("/" +:+ m +:+ "/")); Group r2] s = None.
Proof.
  intros Hns Hy -> Hb. apply find_none. intros gs (x' & y' & _ & _ & Hy' & E)%decomp_two.
  rewrite path_split in E. apply last_slash in E as [E <-]; auto.
  apply (Hb Hy' x'). by rewrite E, sapp_assoc.
Qed.

Lemma not_special t u :
  let s := "/v2/" +:+ t +:+ "/" +:+ u in
  ¬ (s = "/v2/" ∨ s = "/v2") ∧ s ≠ "/v2/_catalog".
Proof.
  intros s. unfold s. split.
  - intros [H|H].
    + apply (sapp_inj_r "/v2/" _ "") in H. by destruct t.
    + discriminate H.
  - intros H. apply (sapp_inj_r "/v2/" _ "_catalog") in H.
    assert (not_in "/" "_catalog") as Hn by (unfold not_in; simpl; set_solver).
    rewrite <-H in Hn. apply not_in_app in Hn as [_ [Hn _]%not_in_app].
    unfold not_in in Hn. simpl in Hn. set_solver.
Qed.

(** The last two components of two paths. *)
Lemma last_two_slash a b m m' :
  not_in "/" m → not_in "/" m' → m ≠ m' → a +:+ "/" +:+ m ≠ b +:+ "/" +:+ m'.
Proof. intros H1 H2 Hne E. by apply last_slash in E as [_ ?]. Qed.

Ltac no_slash := unfold not_in; simpl; set_solver.

Lemma manifest_not_blobs b m y s :
  not_in "/" m → not_in "/" y → m ≠ "manifests" → s = (b +:+ "/" +:+ m) +:+ "/" +:+ y →
  find_groups manifestPathRe s = None.
Proof.
  intros Hm Hy Hne ->.
  apply (two_none "/v2/" "manifests" _ _ (b +:+ "/" +:+ m) y);
    [apply referencePattern_no_slash|done|done|].
  intros _ x. rewrite <-sapp_assoc. apply last_two_slash; [no_slash|done|done].
Qed.

Lemma blob_not_other b m y s :
  not_in "/" m → not_in "/" y → (lang digestPattern y → m ≠ "blobs") →
  s = (b +:+ "/" +:+ m) +:+ "/" +:+ y →
  find_groups blobPathRe s = None.
Proof.
  intros Hm Hy Hne ->.
  apply (two_none "/v2/" "blobs" _ _ (b +:+ "/" +:+ m) y);
    [apply digestPattern_no_slash|done|done|].
  intros Hd x. rewrite <-sapp_assoc. apply last_two_slash; [no_slash|done|].
  intros E. by apply Hne.
Qed.

Lemma upload_not_other b m y s :
  not_in "/" m → not_in "/" y → (lang uuidPattern y → m ≠ "uploads") →
  s = (b +:+ "/" +:+ m) +:+ "/" +:+ y →
  find_groups uploadPathRe s = None.
Proof.
  intros Hm Hy Hne ->. apply find_none.
  intros gs (x' & y' & _ & _ & Hy' & E)%decomp_two.
  change ("/blobs/uploads/") with ("/" +:+ "blobs" +:+ "/" +:+ "uploads" +:+ "/") in E.
  assert ((b +:+ "/" +:+ m) +:+ "/" +:+ y =
    (("/v2/" +:+ x' +:+ "/" +:+ "blobs") +:+ "/" +:+ "uploads") +:+ "/" +:+ y') as E'.
  { rewrite E. by rewrite !sapp_assoc. }
  apply last_slash in E' as [E' <-]; [|done|by apply uuidPattern_no_slash].
  apply last_slash in E' as [_ ->]; [|done|no_slash]. by apply Hne.
Qed.

Lemma opt_slash y : lang (opt (lit "/")) y → y = "" ∨ y = "/".
Proof.
  intros H. inv H.
  - match goal with E : lang Eps _ |- _ => inv E end. by left.
  - right. by apply lang_lit.
Qed.

Lemma start_not_other b m y s :
  not_in "/" m → not_in "/" y →
  (y = "" → m ≠ "uploads") → (m ≠ "blobs" ∨ y ≠ "uploads") →
  s = (b +:+ "/" +:+ m) +:+ "/" +:+ y →
  find_groups uploadStartRe s = None.
Proof.
  intros Hm Hy Hne1 Hne2 ->. apply find_none.
  intros gs (x' & y' & _ & _ & (s1 & s2 & -> & ->%lang_lit & Hs2)%lang_cat_inv & E)%decomp_one.
  apply opt_slash in Hs2 as [-> | ->].
  - assert ((b +:+ "/" +:+ m) +:+ "/" +:+ y =
      (("/v2/" +:+ x') +:+ "/" +:+ "blobs") +:+ "/" +:+ "uploads") as E'.
    { rewrite E. by rewrite !sapp_assoc. }
    apply last_slash in E' as [E' ->]; [|done|no_slash].
    apply last_slash in E' as [_ ->]; [|done|no_slash]. naive_solver.
  - assert ((b +:+ "/" +:+ m) +:+ "/" +:+ y =
      (("/v2/" +:+ x' +:+ "/" +:+ "blobs") +:+ "/" +:+ "uploads") +:+ "/" +:+ "") as E'.
    { rewrite E. by rewrite !sapp_assoc. }
    apply last_slash in E' as [E' ->]; [|done|no_slash].
    apply last_slash in E' as [_ ->]; [|done|no_slash]. by apply Hne1.
Qed.

Section routes.
Context `{Badger} `{!Json MetadataStore.ManifestMeta} `{!Json MetadataStore.RepoMeta}.
Context `{!Json Oci.PutManifestBody}.
Context `{Mirror.HttpClient} `{!JsonDecoder Mirror.tokenResp}.
Context (F : Faults) (h : Handler) (ev : Env) (rq : Request) (repo : string).
Context (Hrepo : lang repoNamePattern repo).

Lemma special_false t u :
  rq_Path rq = "/v2/" +:+ t +:+ "/" +:+ u →
  ∀ (k : result Response * Handler),
  (if decide (rq_Path rq = "/v2/" ∨ rq_Path rq = "/v2") then (Ok handleBase, h)
   else if decide (rq_Path rq = "/v2/_catalog") then handleCatalog h else k) = k.
Proof.
  intros Hp k. destruct (not_special t u) as [H1' H2']. rewrite Hp.
  by rewrite decide_False, decide_False by done.
Qed.

Lemma route_manifest ref :
  lang referencePattern ref → rq_Path rq = manifestPath repo ref →
  ServeHTTP F h ev rq =
    if decide (rq_Method rq = "GET" ∨ rq_Method rq = "HEAD") then handleGetManifest F h ev rq repo ref
    else if decide (rq_Method rq = "PUT") then handlePutManifest F h ev rq repo ref
    else if decide (rq_Method rq = "DELETE") then handleDeleteManifest h repo ref
    else (Ok methodNotAllowed, h).
Proof.
  intros Href Hp. unfold ServeHTTP.
  rewrite (special_false repo ("manifests/" +:+ ref)) by done.
  assert (find_groups manifestPathRe (rq_Path rq) = Some [repo; ref]) as ->; [|done].
  apply (two_unique "/v2/" "manifests"); [apply referencePattern_no_slash|done..].
Qed.

Lemma route_blob d :
  canonical d → rq_Path rq = blobURL repo d →
  ServeHTTP F h ev rq =
    if decide (rq_Method rq = "GET" ∨ rq_Method rq = "HEAD") then handleGetBlob F h ev rq repo d
    else if decide (rq_Method rq = "DELETE") then handleDeleteBlob F h repo d
    else (Ok methodNotAllowed, h).
Proof.
  intros Hd Hp. apply digestPattern_canonical in Hd. unfold ServeHTTP.
  rewrite (special_false repo ("blobs/" +:+ d)) by done.
  assert (rq_Path rq = (("/v2/" +:+ repo) +:+ "/" +:+ "blobs") +:+ "/" +:+ d) as Hp'.
  { rewrite Hp. unfold blobURL. by rewrite !sapp_assoc. }
  rewrite (manifest_not_blobs ("/v2/" +:+ repo) "blobs" d _ ltac:(no_slash) (digestPattern_no_slash d Hd)
    ltac:(done) Hp').
  assert (find_groups blobPathRe (rq_Path rq) = Some [repo; d]) as ->; [|done].
  apply (two_unique "/v2/" "blobs"); [apply digestPattern_no_slash|done..].
Qed.

Lemma route_start :
  rq_Path rq = uploadsURL repo →
  ServeHTTP F h ev rq =
    if decide (rq_Method rq = "POST") then handleStartUpload F h ev rq repo
    else (Ok methodNotAllowed, h).
Proof.
  intros Hp. unfold ServeHTTP. rewrite (special_false repo "blobs/uploads/") by done.
  assert (rq_Path rq = (("/v2/" +:+ repo +:+ "/" +:+ "blobs") +:+ "/" +:+ "uploads") +:+ "/" +:+ "") as Hp'.
  { rewrite Hp. unfold uploadsURL. by rewrite !sapp_assoc. }
  rewrite (manifest_not_blobs ("/v2/" +:+ repo +:+ "/" +:+ "blobs") "uploads" "" _ ltac:(no_slash) ltac:(no_slash) ltac:(done) Hp').
  rewrite (blob_not_other ("/v2/" +:+ repo +:+ "/" +:+ "blobs") "uploads" "" _ ltac:(no_slash) ltac:(no_slash) ltac:(done) Hp').
  assert (find_groups uploadStartRe (rq_Path rq) = Some [repo]) as ->; [|done].
  rewrite Hp. apply find_groups_unique.
  - repeat (constructor; [by (done || apply lang_lit)|]).
    rewrite <-(sapp_nil_r "/blobs/uploads/"). constructor; [|constructor].
    change "/blobs/uploads/" with ("/blobs/uploads" +:+ "/").
    constructor; [by apply lang_lit|]. apply lang_alt_r. by apply lang_lit.
  - intros gs (x' & y' & -> & Hx' & (s1 & s2 & -> & ->%lang_lit & Hs2)%lang_cat_inv & E)%decomp_one.
    apply opt_slash in Hs2 as [-> | ->].
    + assert (((("/v2/" +:+ repo) +:+ "/" +:+ "blobs") +:+ "/" +:+ "uploads") +:+ "/" +:+ "" =
        (("/v2/" +:+ x') +:+ "/" +:+ "blobs") +:+ "/" +:+ "uploads") as E'.
      { rewrite !sapp_assoc. exact E. }
      apply last_slash in E' as [_ E']; [done|no_slash..].
    + unfold uploadsURL in E. apply sapp_inj_r in E.
      change ("/blobs/uploads" +:+ "/") with "/blobs/uploads/" in E.
      by apply sapp_inj_l in E as ->.
Qed.

Lemma route_upload id :
  lang uuidPattern id → rq_Path rq = uploadURL repo id →
  ServeHTTP F h ev rq =
    if decide (rq_Method rq = "PATCH") then handleUploadChunk F h rq repo id
    else if decide (rq_Method rq = "PUT") then handleFinishUpload F h rq repo id
    else if decide (rq_Method rq = "GET") then handleUploadStatus h repo id
    else if decide (rq_Method rq = "DELETE") then handleCancelUpload F h id
    else (Ok methodNotAllowed, h).
Proof.
  intros Hid Hp. pose proof (uuidPattern_no_slash id Hid) as Hns. unfold ServeHTTP.
  rewrite (special_false repo ("blobs/uploads/" +:+ id)) by done.
  assert (rq_Path rq = (("/v2/" +:+ repo +:+ "/" +:+ "blobs") +:+ "/" +:+ "uploads") +:+ "/" +:+ id) as Hp'.
  { rewrite Hp. unfold uploadURL. by rewrite !sapp_assoc. }
  rewrite (manifest_not_blobs ("/v2/" +:+ repo +:+ "/" +:+ "blobs") "uploads" id _ ltac:(no_slash) Hns ltac:(done) Hp').
  rewrite (blob_not_other ("/v2/" +:+ repo +:+ "/" +:+ "blobs") "uploads" id _ ltac:(no_slash) Hns ltac:(done) Hp').
  rewrite (start_not_other ("/v2/" +:+ repo +:+ "/" +:+ "blobs") "uploads" id _);
    [|no_slash|done|intros ->; by apply uuidPattern_nonempty in Hid|by left|done].
  assert (find_groups uploadPathRe (rq_Path rq) = Some [repo; id]) as ->; [|done].
  rewrite Hp. apply find_groups_unique.
  - repeat (constructor; [by (done || apply lang_lit)|]).
    rewrite <-(sapp_nil_r id) at 1. repeat constructor. done.
  - intros gs (x' & y' & -> & Hx' & Hy' & E)%decomp_two. unfold uploadURL in E.
    assert ((("/v2/" +:+ repo +:+ "/" +:+ "blobs") +:+ "/" +:+ "uploads") +:+ "/" +:+ id =
      (("/v2/" +:+ x' +:+ "/" +:+ "blobs") +:+ "/" +:+ "uploads") +:+ "/" +:+ y') as E'.
    { rewrite !sapp_assoc. exact E. }
    apply last_slash in E' as [E' ->]; [|done|by apply uuidPattern_no_slash].
    rewrite !sapp_assoc in E'. apply sapp_inj_r, sapp_inj_l in E' as ->. done.
Qed.

Lemma route_tags :
  rq_Path rq = tagsURL repo →
  ServeHTTP F h ev rq =
    if decide (rq_Method rq = "GET") then handleListTags h rq repo
    else (Ok methodNotAllowed, h).
Proof.
  intros Hp. unfold ServeHTTP. rewrite (special_false repo "tags/list") by done.
  assert (rq_Path rq = (("/v2/" +:+ repo) +:+ "/" +:+ "tags") +:+ "/" +:+ "list") as Hp'.
  { rewrite Hp. unfold tagsURL. by rewrite !sapp_assoc. }
  rewrite (manifest_not_blobs ("/v2/" +:+ repo) "tags" "list" _ ltac:(no_slash) ltac:(no_slash) ltac:(done) Hp').
  rewrite (blob_not_other ("/v2/" +:+ repo) "tags" "list" _ ltac:(no_slash) ltac:(no_slash) ltac:(done) Hp').
  rewrite (start_not_other ("/v2/" +:+ repo) "tags" "list" _);
    [|no_slash|no_slash|done|by left|done].
  rewrite (upload_not_other ("/v2/" +:+ repo) "tags" "list" _ ltac:(no_slash) ltac:(no_slash) ltac:(done) Hp').
  assert (find_groups tagsListRe (rq_Path rq) = Some [repo]) as ->; [|done].
  rewrite Hp. apply find_groups_unique.
  - repeat (constructor; [by (done || apply lang_lit)|]).
    rewrite <-(sapp_nil_r "/tags/list"). constructor; [by apply lang_lit|constructor].
  - intros gs (x' & y' & -> & Hx' & ->%lang_lit & E)%decomp_one.
    unfold tagsURL in E. by apply sapp_inj_r, sapp_inj_l in E as ->.
Qed.
End routes.

(** ** Manifests: push, then pull *)

Section flows.
Context `{BadgerLaws} `{!Json MetadataStore.ManifestMeta} `{!Json MetadataStore.RepoMeta}.
Context `{!JsonLaws MetadataStore.ManifestMeta MetadataStore.meta_ok}.
Context `{!JsonLaws MetadataStore.RepoMeta MetadataStore.repo_ok}.
Context `{!Json Oci.PutManifestBody}.
Context `{Mirror.HttpClient} `{!JsonDecoder Mirror.tokenResp}.
Context (root : string) (Hroot : BlobStore.good_root root).

Lemma link_represents db ix repo d :
  MetadataStore.good_repo repo → valid d → MetadataStore.represents (view db) ix →
  MetadataStore.represents (view (link repo db d))
    (MetadataStore.spec (MetadataStore.OpLink d repo) ix).2.
Proof.
  intros Hr Hd Hrep. destruct (MetadataStore.Link_refines db ix d repo) as [_ ?]; done.
Qed.

Lemma links_represent db ix repo ds :
  MetadataStore.good_repo repo → Forall valid ds → MetadataStore.represents (view db) ix →
  ∃ ix', MetadataStore.represents (view (foldl (link repo) db ds)) ix' ∧
    MetadataStore.ix_manifests ix' = MetadataStore.ix_manifests ix ∧
    MetadataStore.ix_tags ix' = MetadataStore.ix_tags ix.
Proof.
  intros Hr Hds. revert db ix. induction Hds as [|d ds Hd _ IH]; intros db ix Hrep; simpl; [eauto|].
  destruct (IH (link repo db d) (MetadataStore.spec (MetadataStore.OpLink d repo) ix).2)
    as (ix' & Hrep' & Hm & Ht); [by apply link_represents|].
  exists ix'. split; [done|]. by rewrite Hm, Ht.
Qed.

(** A cache without an entry for a key answers nothing. *)
Lemma Cache_Get_none now (c : Cache.LRUCache MetadataStore.ManifestMeta) k :
  Cache.lc_items c !! k = None → Cache.Get now c k = (None, c).
Proof. unfold Cache.Get. by intros ->. Qed.

Lemma Cache_Delete_none (c : Cache.LRUCache MetadataStore.ManifestMeta) k k' :
  k = k' ∨ Cache.lc_items c !! k' = None → Cache.lc_items (Cache.Delete c k) !! k' = None.
Proof.
  unfold Cache.Delete. intros Hk. destruct (Cache.lc_items c !! k) eqn:E; simpl.
  - rewrite lookup_delete. case_decide; [done|]. naive_solver.
  - by destruct Hk as [<-|?].
Qed.

(** Serving a record whose blob is present. *)
Lemma serveManifest_present h rq meta c :
  BlobStore.bs_root (w_bs (h_world h)) = root → canonical (MetadataStore.mm_Digest meta) →
  os_files (w_os (h_world h)) !! BlobStore.blobFile root (MetadataStore.mm_Digest meta) = Some c →
  ∃ h', serveManifest noFaults h rq meta =
    (Ok (mkResponse 200 (manifest_headers meta (blen c))
           (if decide (rq_Method rq = "HEAD") then NoBody else Bytes c)), h').
Proof.
  intros Hr Hd Hc. unfold serveManifest.
  destruct (BlobStore.Get_present (w_bs (h_world h)) (w_os (h_world h))
    (MetadataStore.mm_Digest meta) c) as (r & bs' & os' & -> & <- & _); rewrite ?Hr; eauto.
Qed.

(** Pulling a reference that the cache does not hold. *)
Lemma handleGetManifest_present h ev rq repo ref ix d meta c :
  BlobStore.bs_root (w_bs (h_world h)) = root →
  MetadataStore.represents (view (w_db (h_world h))) ix → not_in ":" repo →
  Cache.lc_items (h_cache h) !! (repo +:+ ":" +:+ ref) = None →
  MetadataStore.ix_resolve ix repo ref = Some d →
  MetadataStore.ix_manifests ix !! (repo, d) = Some meta →
  canonical (MetadataStore.mm_Digest meta) →
  os_files (w_os (h_world h)) !! BlobStore.blobFile root (MetadataStore.mm_Digest meta) = Some c →
  ∃ h', handleGetManifest noFaults h ev rq repo ref =
    (Ok (mkResponse 200 (manifest_headers meta (blen c))
           (if decide (rq_Method rq = "HEAD") then NoBody else Bytes c)), h').
Proof.
  intros Hr Hrep Hrepo Hcache Hres Hman Hcan Hc. unfold handleGetManifest.
  rewrite (Cache_Get_none _ _ _ Hcache). cbn [h_world set_cache].
  rewrite (MetadataStore.GetManifest_spec _ ix) by done. rewrite Hres. simpl. rewrite Hman.
  by apply serveManifest_present.
Qed.

Lemma checkLayers_ok h ls :
  Forall (λ l, BlobStore.Exists noFaults (w_bs (h_world h)) (w_os (h_world h))
                 (Oci.ds_Digest l) = Ok true) ls →
  checkLayers noFaults h ls = Ok None.
Proof. induction 1 as [|l ls Hl _ IH]; simpl; [done|]. by rewrite Hl. Qed.

(** The record a push stores. *)
Definition pushed (rq : Request) (body : bytes) (m : Oci.PutManifestBody)
    : MetadataStore.ManifestMeta :=
  MetadataStore.mkManifestMeta (FromBytes body)
    (if decide (Oci.pm_MediaType m = "") then rq_Header rq "Content-Type" else Oci.pm_MediaType m)
    (blen body) 0 (Oci.ds_Digest <$> Oci.pm_Layers m)
    (match Oci.pm_Subject m with Some s => Oci.ds_Digest s | None => "" end) ∅.

(** The digests a manifest refers to: its configuration, if any, and layers. *)
Definition ds_refs (m : Oci.PutManifestBody) : list Digest :=
  (if decide (Oci.ds_Digest (Oci.pm_Config m) ≠ "") then [Oci.ds_Digest (Oci.pm_Config m)] else [])
  ++ (Oci.ds_Digest <$> Oci.pm_Layers m).

(** A manifest that [handlePutManifest] accepts in a state: every blob it
    refers to exists, and the store has room for it. *)
Record pushable (h : Handler) (ev : Env) (rq : Request) (body : bytes) (m : Oci.PutManifestBody)
    : Prop := {
  pu_body : readLimited (rq_Body rq) = Ok body;
  pu_json : json_Unmarshal body = Ok m;
  pu_exists d : d ∈ ds_refs m → valid d ∧
    BlobStore.Exists noFaults (w_bs (h_world h)) (w_os (h_world h)) d = Ok true;
  pu_meta : MetadataStore.meta_ok (pushed rq body m);
  pu_times : MetadataStore.time_ok (ev_now ev 0) ∧ MetadataStore.time_ok (ev_now ev 1);
  pu_temp : List.Exists (λ k, os_files (w_os (h_world h)) !!
    tempName (Dir (BlobStore.blobFile root (FromBytes body))) k = None) (ev_rnds ev);
  pu_same c : os_files (w_os (h_world h)) !! BlobStore.blobFile root (FromBytes body) = Some c →
    c = body
}.

(** The answer to an accepted push. *)
Definition pushedResponse (repo : string) (body : bytes) : Response :=
  mkResponse 201 [("Docker-Content-Digest", FromBytes body);
                  ("Location", "/v2/" +:+ repo +:+ "/manifests/" +:+ FromBytes body)] NoBody.

Lemma checkRefs_ok h ev rq body m :
  pushable h ev rq body m →
  checkConfig noFaults h (Oci.ds_Digest (Oci.pm_Config m)) = Ok None ∧
  checkLayers noFaults h (Oci.pm_Layers m) = Ok None.
Proof.
  intros Hp. pose proof (pu_exists _ _ _ _ _ Hp) as Hex. unfold ds_refs in Hex. split.
  - unfold checkConfig.
    destruct (decide (Oci.ds_Digest (Oci.pm_Config m) = "")) as [Hc|Hc]; [done|].
    rewrite (decide_True _ _ Hc) in Hex.
    destruct (Hex (Oci.ds_Digest (Oci.pm_Config m))) as [_ He]; [set_solver|]. by rewrite He.
  - apply checkLayers_ok, Forall_forall. intros l Hl. apply Hex, elem_of_app. right.
    apply list_elem_of_fmap. eauto.
Qed.

(** Storing the body: it is there afterwards, and nothing else changed. *)
Lemma Put_body h ev rq body m :
  BlobStore.bs_root (w_bs (h_world h)) = root → pushable h ev rq body m →
  ∃ os, BlobStore.Put noFaults (w_bs (h_world h)) (w_os (h_world h)) (ev_rnds ev)
          (FromBytes body) (NewReader body) (blen body) = (Ok tt, os) ∧
    os_files os = <[BlobStore.blobFile root (FromBytes body) := body]> (os_files (w_os (h_world h))).
Proof.
  intros Hr Hp. destruct (os_files (w_os (h_world h)) !! BlobStore.blobFile root (FromBytes body))
    as [c|] eqn:E.
  - pose proof (pu_same _ _ _ _ _ Hp c E) as ->. eexists. split.
    + unfold BlobStore.Put.
      rewrite BlobStore.blobPath_canonical by (rewrite ?Hr; done || apply FromBytes_canonical).
      rewrite Hr. unfold Stat, noFaults. rewrite E. by rewrite decide_True.
    + by rewrite insert_id.
  - destruct (BlobStore.Put_new (w_bs (h_world h)) (w_os (h_world h)) (ev_rnds ev) body (blen body))
      as (os & HP & Hf & _); rewrite ?Hr.
    { done. } { done. } { by apply (pu_temp _ _ _ _ _ Hp). } { by right. }
    exists os. by rewrite Hr in Hf.
Qed.

Lemma handlePutManifest_ok h ev rq repo ref ix body m :
  BlobStore.bs_root (w_bs (h_world h)) = root →
  MetadataStore.represents (view (w_db (h_world h))) ix → MetadataStore.good_repo repo →
  pushable h ev rq body m →
  ∃ h' ix', handlePutManifest noFaults h ev rq repo ref = (Ok (pushedResponse repo body), h') ∧
    BlobStore.bs_root (w_bs (h_world h')) = root ∧
    os_files (w_os (h_world h')) =
      <[BlobStore.blobFile root (FromBytes body) := body]> (os_files (w_os (h_world h))) ∧
    MetadataStore.represents (view (w_db (h_world h'))) ix' ∧
    MetadataStore.ix_manifests ix' =
      <[(repo, FromBytes body) := pushed rq body m]> (MetadataStore.ix_manifests ix) ∧
    MetadataStore.ix_tags ix' =
      (if HasPrefix ref "sha256:" then MetadataStore.ix_tags ix
       else <[(repo, ref) := FromBytes body]> (MetadataStore.ix_tags ix)) ∧
    h_proxy h' = h_proxy h ∧
    h_cache h' = Cache.Delete (Cache.Delete (h_cache h) (repo +:+ ":" +:+ ref))
                   (repo +:+ ":" +:+ FromBytes body).
Proof.
  intros Hr Hrep Hrepo Hp. unfold handlePutManifest.
  rewrite (pu_body _ _ _ _ _ Hp), (pu_json _ _ _ _ _ Hp). cbv zeta.
  destruct (checkRefs_ok _ _ _ _ _ Hp) as [-> ->].
  destruct (Put_body h ev rq body m Hr Hp) as (os & -> & Hf).
  fold (pushed rq body m).
  set (o := MetadataStore.OpPutManifest (ev_now ev 0) (ev_now ev 1) repo ref (pushed rq body m)).
  destruct (MetadataStore.PutManifest_refines (w_db (h_world h)) ix (ev_now ev 0) (ev_now ev 1)
    repo ref (pushed rq body m)) as [Hres Hrep'].
  { split; [done|]. split; [apply Hp|]. apply Hp. }
  { done. }
  destruct (MetadataStore.PutManifest _ _ _ _ _ _) as [res db']. cbn [fst snd] in Hres, Hrep'.
  subst res. cbn [MetadataStore.spec fst].
  fold o in Hrep'.
  assert (Forall valid (FromBytes body :: ds_refs m)) as Hv.
  { constructor; [apply canonical_valid, FromBytes_canonical|].
    apply Forall_forall. intros d Hd. by apply (pu_exists _ _ _ _ _ Hp). }
  destruct (links_represent db' (MetadataStore.spec o ix).2 repo (FromBytes body :: ds_refs m)
    Hrepo Hv Hrep') as (ix' & Hrep'' & Hm & Ht).
  assert (foldl (link repo) (if decide (Oci.ds_Digest (Oci.pm_Config m) ≠ "")
      then link repo (link repo db' (FromBytes body)) (Oci.ds_Digest (Oci.pm_Config m))
      else link repo db' (FromBytes body)) (Oci.ds_Digest <$> Oci.pm_Layers m) =
    foldl (link repo) db' (FromBytes body :: ds_refs m)) as Hl.
  { unfold ds_refs. cbn [foldl]. rewrite foldl_app. by case_decide. }
  rewrite Hl. eexists _, ix'. split; [done|]. cbn. split_and!; try done.
Qed.

(** A reference that a push of [body] makes resolve to it. *)
Lemma pulled h ev rq repo ref ix body meta :
  BlobStore.bs_root (w_bs (h_world h)) = root →
  MetadataStore.represents (view (w_db (h_world h))) ix → lang repoNamePattern repo →
  lang referencePattern ref →
  Cache.lc_items (h_cache h) !! (repo +:+ ":" +:+ ref) = None →
  MetadataStore.ix_resolve ix repo ref = Some (FromBytes body) →
  MetadataStore.ix_manifests ix !! (repo, FromBytes body) = Some meta →
  MetadataStore.mm_Digest meta = FromBytes body →
  os_files (w_os (h_world h)) !! BlobStore.blobFile root (FromBytes body) = Some body →
  rq_Method rq = "GET" → rq_Path rq = manifestPath repo ref →
  (ServeHTTP noFaults h ev rq).1 =
    Ok (mkResponse 200 (manifest_headers meta (blen body)) (Bytes body)).
Proof.
  intros Hr Hrep Hrepo Href Hc Hres Hman Hd Hf Hm Hp.
  rewrite (route_manifest _ _ _ _ repo Hrepo ref Href Hp), Hm, decide_True by auto.
  destruct (handleGetManifest_present h ev rq repo ref ix (FromBytes body) meta body) as (h' & HG);
    try done.
  { by apply repoNamePattern_no_colon. }
  { rewrite Hd. apply FromBytes_canonical. }
  { by rewrite Hd. }
  by rewrite HG, Hm.
Qed.

(** C4 A pushed manifest can be pulled: when every blob the manifest refers to
    is present, [PUT /v2/<repo>/manifests/<ref>] under a tag or the digest of
    the body answers 201 with that digest, and afterwards GET by the same
    reference and by the digest answer 200 with exactly the pushed bytes, the
    digest, the length and the media type, whatever was cached before. *)
Theorem push_then_pull h ev rq repo ref ix body m :
  BlobStore.bs_root (w_bs (h_world h)) = root →
  MetadataStore.represents (view (w_db (h_world h))) ix →
  lang repoNamePattern repo → lang referencePattern ref →
  (HasPrefix ref "sha256:" = true → ref = FromBytes body) →
  rq_Method rq = "PUT" → rq_Path rq = manifestPath repo ref →
  pushable h ev rq body m →
  (ServeHTTP noFaults h ev rq).1 = Ok (pushedResponse repo body) ∧
  let h' := (ServeHTTP noFaults h ev rq).2 in
  ∀ ev' rq' ref', ref' = ref ∨ ref' = FromBytes body →
    rq_Method rq' = "GET" → rq_Path rq' = manifestPath repo ref' →
    (ServeHTTP noFaults h' ev' rq').1 =
      Ok (mkResponse 200 (manifest_headers (pushed rq body m) (blen body)) (Bytes body)).
Proof.
  intros Hr Hrep Hrepo Href Hrefd Hm Hp Hpu.
  rewrite (route_manifest _ _ _ _ repo Hrepo ref Href Hp), Hm.
  rewrite decide_False, decide_True by naive_solver.
  destruct (handlePutManifest_ok h ev rq repo ref ix body m) as
    (h' & ix' & -> & Hr' & Hf & Hrep' & Hman & Htags & _ & Hc);
    [done..|by apply repoNamePattern_good|done|].
  split; [done|]. cbn [snd]. intros ev' rq' ref' Hor Hm' Hp'.
  apply (pulled h' ev' rq' repo ref' ix' body (pushed rq body m)); try done.
  - destruct Hor as [-> | ->]; [done|]. apply digestPattern_reference, FromBytes_canonical.
  - rewrite Hc. destruct Hor as [-> | ->].
    + apply Cache_Delete_none. right. apply Cache_Delete_none. by left.
    + apply Cache_Delete_none. by left.
  - unfold MetadataStore.ix_resolve. rewrite Htags. destruct Hor as [-> | ->].
    + destruct (HasPrefix ref "sha256:") eqn:E; [by rewrite Hrefd|]. by rewrite lookup_insert_eq.
    + by rewrite valid_sha256_prefix by apply canonical_valid, FromBytes_canonical.
  - by rewrite Hman, lookup_insert_eq.
  - by rewrite Hf, lookup_insert_eq.
Qed.

(** *** Pushes that are refused, and one that should be *)

Definition present (h : Handler) (d : Digest) : Prop :=
  is_Some (os_files (w_os (h_world h)) !! BlobStore.blobFile root d).

Lemma Exists_present h d :
  BlobStore.bs_root (w_bs (h_world h)) = root → canonical d →
  BlobStore.Exists noFaults (w_bs (h_world h)) (w_os (h_world h)) d =
    Ok (bool_decide (present h d)).
Proof. intros Hr Hd. by rewrite BlobStore.Exists_canonical, Hr by (rewrite ?Hr; done). Qed.

Definition unknownBlob (what : string) (d : Digest) : Response :=
  errorResponse 400 Oci.ErrorCodeManifestBlobUnknown (what +:+ " blob unknown: " +:+ d).

Lemma checkLayers_first h ls :
  BlobStore.bs_root (w_bs (h_world h)) = root →
  Forall (λ l, canonical (Oci.ds_Digest l)) ls →
  (Forall (λ l, present h (Oci.ds_Digest l)) ls ∧ checkLayers noFaults h ls = Ok None) ∨
  ∃ l, l ∈ ls ∧ ¬ present h (Oci.ds_Digest l) ∧
    checkLayers noFaults h ls = Ok (Some (unknownBlob "layer" (Oci.ds_Digest l))).
Proof.
  intros Hr. induction 1 as [|l ls Hl _ IH]; simpl; [by left|].
  rewrite Exists_present by done. case_bool_decide as E; simpl.
  - destruct IH as [[? ?]|(l' & ? & ? & ?)]; [left; auto|]. right. exists l'.
    split; [by apply list_elem_of_further|done].
  - right. exists l. split; [by apply list_elem_of_here|done].
Qed.

(** C23 A manifest that refers to a blob the registry does not have is refused
    with 400 and the unknown digest, and the refused push changes nothing at
    all; for canonical digests there is no other way a reference check can
    end. *)
Theorem push_unknown_blob h ev rq repo ref body m :
  BlobStore.bs_root (w_bs (h_world h)) = root →
  lang repoNamePattern repo → lang referencePattern ref →
  rq_Method rq = "PUT" → rq_Path rq = manifestPath repo ref →
  readLimited (rq_Body rq) = Ok body → json_Unmarshal body = Ok m →
  Forall canonical (ds_refs m) → ¬ Forall (present h) (ds_refs m) →
  ∃ what d, d ∈ ds_refs m ∧ ¬ present h d ∧
    ServeHTTP noFaults h ev rq = (Ok (unknownBlob what d), h).
Proof.
  intros Hr Hrepo Href Hm Hp Hb Hj Hcan Hmiss.
  rewrite (route_manifest _ _ _ _ repo Hrepo ref Href Hp), Hm.
  rewrite decide_False, decide_True by naive_solver.
  unfold handlePutManifest. rewrite Hb, Hj. cbv zeta. unfold ds_refs in *.
  apply Forall_app in Hcan as [Hcfg Hls]. rewrite Forall_fmap in Hls.
  unfold checkConfig.
  destruct (decide (Oci.ds_Digest (Oci.pm_Config m) = "")) as [E|E].
  - assert (¬ Oci.ds_Digest (Oci.pm_Config m) ≠ "") as E' by auto.
    rewrite (decide_False _ _ E') in Hcfg, Hmiss. rewrite (decide_False _ _ E').
    destruct (checkLayers_first h (Oci.pm_Layers m) Hr Hls) as [[Hall _]|(l & Hl & Hn & ->)].
    + exfalso. apply Hmiss. by rewrite Forall_app, Forall_fmap.
    + exists "layer", (Oci.ds_Digest l). split; [|done]. set_solver.
  - rewrite (decide_True _ _ E) in Hcfg, Hmiss. rewrite (decide_True _ _ E).
    rewrite Forall_singleton in Hcfg.
    rewrite Exists_present by done. case_bool_decide as Hpr; simpl.
    + destruct (checkLayers_first h (Oci.pm_Layers m) Hr Hls) as [[Hall _]|(l & Hl & Hn & ->)].
      * exfalso. apply Hmiss. rewrite Forall_app, Forall_fmap. by rewrite Forall_singleton.
      * exists "layer", (Oci.ds_Digest l). split; [|done]. set_solver.
    + exists "config", (Oci.ds_Digest (Oci.pm_Config m)). split; [set_solver|done].
Qed.

(** Before that check the digests of a pushed manifest are not validated: a
    configuration digest with fewer than two hexadecimal digits makes the
    handler panic in [blobPath], so the connection is dropped instead of a
    400 answered. *)
Theorem push_short_digest_panics h ev rq repo ref body m :
  lang repoNamePattern repo → lang referencePattern ref →
  rq_Method rq = "PUT" → rq_Path rq = manifestPath repo ref →
  readLimited (rq_Body rq) = Ok body → json_Unmarshal body = Ok m →
  Oci.ds_Digest (Oci.pm_Config m) ≠ "" →
  String.length (Hex (Oci.ds_Digest (Oci.pm_Config m))) < 2 →
  ∃ msg, ServeHTTP noFaults h ev rq = (Panic msg, h).
Proof.
  intros Hrepo Href Hm Hp Hb Hj Hne Hshort.
  rewrite (route_manifest _ _ _ _ repo Hrepo ref Href Hp), Hm.
  rewrite decide_False, decide_True by naive_solver.
  unfold handlePutManifest. rewrite Hb, Hj. cbv zeta.
  unfold checkConfig. rewrite (decide_False _ _ Hne).
  unfold BlobStore.Exists, BlobStore.blobPath, slice_to.
  rewrite decide_False by lia. cbn. eauto.
Qed.

(** A push by digest is not checked against the body: under a canonical
    digest that is not the body's, the answer is still 201, and a GET of the
    very reference that was pushed answers 404. *)
Theorem push_wrong_digest_accepted h ev rq repo d ix body m :
  BlobStore.bs_root (w_bs (h_world h)) = root →
  MetadataStore.represents (view (w_db (h_world h))) ix →
  lang repoNamePattern repo → canonical d → d ≠ FromBytes body →
  MetadataStore.ix_manifests ix !! (repo, d) = None → h_proxy h = None →
  rq_Method rq = "PUT" → rq_Path rq = manifestPath repo d →
  pushable h ev rq body m →
  (ServeHTTP noFaults h ev rq).1 = Ok (pushedResponse repo body) ∧
  ∀ ev' rq', rq_Method rq' = "GET" → rq_Path rq' = manifestPath repo d →
    (ServeHTTP noFaults (ServeHTTP noFaults h ev rq).2 ev' rq').1 = Ok manifestNotFound.
Proof.
  intros Hr Hrep Hrepo Hd Hne Hnone Hpx Hm Hp Hpu.
  pose proof (digestPattern_reference d Hd) as Href.
  rewrite (route_manifest _ _ _ _ repo Hrepo d Href Hp), Hm.
  rewrite decide_False, decide_True by naive_solver.
  destruct (handlePutManifest_ok h ev rq repo d ix body m) as
    (h' & ix' & -> & Hr' & Hf & Hrep' & Hman & Htags & Hpx' & Hc);
    [done..|by apply repoNamePattern_good|done|].
  split; [done|]. cbn [snd]. intros ev' rq' Hm' Hp'.
  rewrite (route_manifest _ _ _ _ repo Hrepo d Href Hp'), Hm', decide_True by auto.
  unfold handleGetManifest. rewrite Cache_Get_none; cbn [h_world h_proxy set_cache].
  - rewrite (MetadataStore.GetManifest_spec _ ix') by (done || by apply repoNamePattern_no_colon).
    unfold MetadataStore.ix_resolve.
    rewrite valid_sha256_prefix by by apply canonical_valid. simpl.
    rewrite Hman, lookup_insert_ne by naive_solver. by rewrite Hnone, Hpx', Hpx.
  - rewrite Hc. apply Cache_Delete_none. right. apply Cache_Delete_none. by left.
Qed.

(** *** Deletions *)

(** Deleting a blob from a repository removes only that repository's claim:
    the answer is 202, the two link records are gone, and the blob's file is
    removed exactly when no other repository still links the digest. *)
Theorem delete_blob_keeps_shared h ev rq repo d ix :
  BlobStore.bs_root (w_bs (h_world h)) = root →
  MetadataStore.represents (view (w_db (h_world h))) ix →
  lang repoNamePattern repo → canonical d →
  rq_Method rq = "DELETE" → rq_Path rq = blobURL repo d →
  let '(resp, h') := ServeHTTP noFaults h ev rq in
  let file := BlobStore.blobFile root d in
  let shared := ∃ r, r ≠ repo ∧ not_in ":" r ∧ (d, r) ∈ MetadataStore.ix_blobRepos ix in
  resp = Ok (mkResponse 202 [] NoBody) ∧
  MetadataStore.represents (view (w_db (h_world h')))
    (MetadataStore.spec (MetadataStore.OpUnlink d repo) ix).2 ∧
  (shared → os_files (w_os (h_world h')) = os_files (w_os (h_world h))) ∧
  (¬ shared → os_files (w_os (h_world h')) = delete file (os_files (w_os (h_world h)))).
Proof.
  intros Hr Hrep Hrepo Hd Hm Hp.
  rewrite (route_blob _ _ _ _ repo Hrepo d Hd Hp), Hm, decide_False, decide_True by naive_solver.
  unfold handleDeleteBlob. rewrite Parse_canonical by done.
  pose proof (canonical_valid d Hd) as Hv.
  destruct (MetadataStore.Unlink_refines (w_db (h_world h)) ix d repo) as [_ Hrep'];
    [by split; [apply repoNamePattern_good|]|done|].
  destruct (MetadataStore.UnlinkBlobFromRepo _ _ _) as [res db']. cbn [snd] in *.
  cbn [h_world set_db set_world w_db w_bs w_os].
  set (ix' := (MetadataStore.spec (MetadataStore.OpUnlink d repo) ix).2) in *.
  destruct (MetadataStore.GetBlobRepos_spec db' ix' d Hrep' Hv) as (l & -> & _ & _ & Hl).
  assert (∀ r, r ∈ l ↔ r ≠ repo ∧ not_in ":" r ∧ (d, r) ∈ MetadataStore.ix_blobRepos ix) as Hl'.
  { intros r. rewrite Hl. cbn. rewrite elem_of_difference, elem_of_singleton. naive_solver. }
  destruct (decide (l = [])) as [->|Hne].
  - destruct (BlobStore.Delete_canonical (w_bs (h_world h)) (w_os (h_world h)) d)
      as (res' & os' & -> & Hf & Hor); [by rewrite Hr|done|]. rewrite Hr in Hf.
    assert (¬ ∃ r, r ≠ repo ∧ not_in ":" r ∧ (d, r) ∈ MetadataStore.ix_blobRepos ix) as Hno.
    { intros [r Hr']. apply Hl' in Hr'. by apply not_elem_of_nil in Hr'. }
    destruct Hor as [-> | ->]; cbn; done.
  - split; [done|]. split; [done|]. split; [done|]. intros Hno. exfalso. apply Hno.
    destruct l as [|r l]; [done|]. exists r. apply Hl', list_elem_of_here.
Qed.

Lemma Cache_Get_Delete now (c : Cache.LRUCache MetadataStore.ManifestMeta) k k' :
  k ≠ k' → (Cache.Get now (Cache.Delete c k) k').1 = (Cache.Get now c k').1.
Proof.
  intros Hne. unfold Cache.Delete. destruct (Cache.lc_items c !! k) as [id|]; [|done].
  unfold Cache.Get. cbn. rewrite lookup_delete_ne by done.
  destruct (Cache.lc_items c !! k') as [id'|]; [|done].
  destruct (Cache.lc_heap c !! id') as [e|]; [|done]. by destruct (Cache.expired now e).
Qed.

(** A manifest deleted by tag can still be pulled by digest: when its record
    is in the handler's cache, DELETE by tag answers 202 and removes the
    record, but only the cache entry of the tag is dropped, so a GET by the
    digest still answers 200 with the manifest. *)
Theorem deleted_manifest_served_from_cache h ev rq ev' rq' repo t d ix meta c :
  BlobStore.bs_root (w_bs (h_world h)) = root →
  MetadataStore.represents (view (w_db (h_world h))) ix →
  lang repoNamePattern repo → lang referencePattern t →
  HasPrefix t "sha256:" = false → canonical d →
  MetadataStore.ix_tags ix !! (repo, t) = Some d →
  (Cache.Get (ev_now ev' 0) (h_cache h) (repo +:+ ":" +:+ d)).1 = Some meta →
  MetadataStore.mm_Digest meta = d →
  os_files (w_os (h_world h)) !! BlobStore.blobFile root d = Some c →
  rq_Method rq = "DELETE" → rq_Path rq = manifestPath repo t →
  rq_Method rq' = "GET" → rq_Path rq' = manifestPath repo d →
  let '(resp, h') := ServeHTTP noFaults h ev rq in
  resp = Ok (mkResponse 202 [] NoBody) ∧
  MetadataStore.GetManifest (w_db (h_world h')) repo d = Err ErrManifestNotFound ∧
  (ServeHTTP noFaults h' ev' rq').1 = Ok (mkResponse 200 (manifest_headers meta (blen c)) (Bytes c)).
Proof.
  intros Hr Hrep Hrepo Ht Hpre Hd Htag Hcache Hmd Hc Hm Hp Hm' Hp'.
  pose proof (repoNamePattern_no_colon repo Hrepo) as Hrc.
  rewrite (route_manifest _ h ev rq repo Hrepo t Ht Hp), Hm, decide_False, decide_False,
    decide_True by naive_solver.
  unfold handleDeleteManifest.
  destruct (MetadataStore.DeleteManifest_refines (w_db (h_world h)) ix repo t Hrc Hrep) as [Hres Hrep'].
  cbn [MetadataStore.spec] in Hres, Hrep'. unfold MetadataStore.ix_resolve in Hres, Hrep'.
  rewrite Hpre, Htag in Hres, Hrep'.
  destruct (MetadataStore.DeleteManifest _ _ _) as [res db']. cbn in Hres, Hrep'. subst res.
  split; [done|]. cbn [h_world set_cache set_db set_world w_db]. split.
  - rewrite (MetadataStore.GetManifest_spec _ _ repo d Hrc Hrep').
    unfold MetadataStore.ix_resolve. rewrite valid_sha256_prefix by by apply canonical_valid.
    cbn. by rewrite lookup_delete_eq.
  - rewrite (route_manifest _ _ ev' rq' repo Hrepo d (digestPattern_reference d Hd) Hp'), Hm',
      decide_True by auto.
    unfold handleGetManifest. cbn [h_cache set_cache].
    assert (repo +:+ ":" +:+ t ≠ repo +:+ ":" +:+ d) as Hk.
    { intros E%sapp_inj_r%(sapp_inj_r ":"). subst t.
      by rewrite valid_sha256_prefix in Hpre by by apply canonical_valid. }
    pose proof (Cache_Get_Delete (ev_now ev' 0) (h_cache h) _ _ Hk) as HG.
    rewrite Hcache in HG. cbn [h_cache set_db set_world].
    destruct (Cache.Get _ (Cache.Delete _ _) _) as [cached c']. cbn in HG. subst cached.
    edestruct serveManifest_present as [h'' ->]; [| | |by rewrite Hm']; cbn; rewrite ?Hmd; done.
Qed.
End flows.

(** ** Witnesses *)

Section witnesses.
Import V2Example.

Lemma exPushable db path :
  pushable BlobStore.srvRoot (exHandlerWith ∅ db) exEnv (exRequest "PUT" path exManifest)
    exManifest exBody.
Proof.
  split.
  - by vm_compute.
  - exact exManifest_decodes.
  - intros d Hd. by apply not_elem_of_nil in Hd.
  - unfold MetadataStore.meta_ok, in64, pushed.
    cbn [MetadataStore.mm_Digest MetadataStore.mm_MediaType MetadataStore.mm_Size
      MetadataStore.mm_CreatedAt MetadataStore.mm_Layers MetadataStore.mm_Subject
      MetadataStore.mm_Annotations].
    split; [apply MetadataStore.canonical_ascii, FromBytes_canonical|].
    split; [by apply (bool_decide_unpack _)|]. split; [by vm_compute|]. split; [by vm_compute|].
    split; [constructor|]. split; [constructor|]. apply map_Forall_empty.
  - by vm_compute.
  - left. apply lookup_empty.
  - intros c. cbn. by rewrite lookup_empty.
Qed.

Lemma exEmpty_represents : MetadataStore.represents (view (∅ : DB)) MetadataStore.ix_empty.
Proof. apply MetadataStore.represents_empty. Qed.

Definition exPut (ref : string) : Request := exRequest "PUT" (manifestPath "app" ref) exManifest.

Lemma push_then_pull_witness :
  let '(resp, h) := ServeHTTP noFaults exHandler exEnv (exPut "v1") in
  resp = Ok (pushedResponse "app" exManifest) ∧
  (ServeHTTP noFaults h exEnv (exRequest "GET" (manifestPath "app" "v1") [])).1 =
    Ok (mkResponse 200 (manifest_headers (pushed (exPut "v1") exManifest exBody) (blen exManifest))
          (Bytes exManifest)).
Proof.
  destruct (push_then_pull BlobStore.srvRoot BlobStore.good_srvRoot exHandler exEnv (exPut "v1")
    "app" "v1" MetadataStore.ix_empty exManifest exBody eq_refl exEmpty_represents exRepo_pattern
    exTag_pattern ltac:(discriminate) eq_refl eq_refl (exPushable _ _)) as [H1' H2'].
  destruct (ServeHTTP noFaults exHandler exEnv (exPut "v1")) as [resp h].
  split; [exact H1'|]. exact (H2' exEnv (exRequest "GET" (manifestPath "app" "v1") []) "v1"
    (or_introl eq_refl) eq_refl eq_refl).
Defined.

(** A manifest with one layer that was never uploaded. *)
Definition exDangling : bytes := Oci.encodeBody "image" "" exOther "".

Definition exDanglingBody : Oci.PutManifestBody :=
  Oci.mkPutManifestBody "image" (Oci.blob_of "") [Oci.blob_of exOther] [] None.

Lemma exDangling_decodes : json_Unmarshal exDangling = Ok exDanglingBody.
Proof. by vm_compute. Qed.

Lemma push_unknown_blob_witness :
  ServeHTTP noFaults exHandler exEnv (exRequest "PUT" (manifestPath "app" "v1") exDangling) =
    (Ok (unknownBlob "layer" exOther), exHandler).
Proof.
  destruct (push_unknown_blob BlobStore.srvRoot BlobStore.good_srvRoot exHandler exEnv
    (exRequest "PUT" (manifestPath "app" "v1") exDangling) "app" "v1" exDangling
    exDanglingBody
    eq_refl exRepo_pattern exTag_pattern eq_refl eq_refl eq_refl
    exDangling_decodes) as (what & d & Hd & _ & HS).
  - constructor; [exact exOther_canonical|constructor].
  - intros Hall. apply Forall_inv in Hall as [c Hc]. cbn in Hc. by rewrite lookup_empty in Hc.
  - reflexivity.
Defined.

Definition exShort : bytes := Oci.encodeBody "image" "sha256:0" "" "".

Definition exShortBody : Oci.PutManifestBody :=
  Oci.mkPutManifestBody "image" (Oci.blob_of "sha256:0") [] [] None.

Lemma exShort_decodes : json_Unmarshal exShort = Ok exShortBody.
Proof. by vm_compute. Qed.

Lemma push_short_digest_panics_witness :
  ∃ msg, ServeHTTP noFaults exHandler exEnv
    (exRequest "PUT" (manifestPath "app" "v1") exShort) = (Panic msg, exHandler).
Proof.
  exact (push_short_digest_panics exHandler exEnv
    (exRequest "PUT" (manifestPath "app" "v1") exShort) "app" "v1" exShort
    exShortBody exRepo_pattern exTag_pattern eq_refl eq_refl eq_refl exShort_decodes
    ltac:(discriminate) (le_n 2)).
Defined.

Lemma exOther_not_manifest : exOther ≠ FromBytes exManifest.
Proof. intros E%(f_equal (String.eqb exOther)). vm_compute in E. discriminate E. Qed.

Lemma push_wrong_digest_accepted_witness :
  let '(resp, h) := ServeHTTP noFaults exHandler exEnv (exPut exOther) in
  resp = Ok (pushedResponse "app" exManifest) ∧
  (ServeHTTP noFaults h exEnv (exRequest "GET" (manifestPath "app" exOther) [])).1 =
    Ok manifestNotFound.
Proof.
  destruct (push_wrong_digest_accepted BlobStore.srvRoot BlobStore.good_srvRoot exHandler exEnv
    (exPut exOther) "app" exOther MetadataStore.ix_empty exManifest exBody eq_refl
    exEmpty_represents exRepo_pattern exOther_canonical exOther_not_manifest eq_refl eq_refl eq_refl
    eq_refl (exPushable _ _)) as [H1' H2'].
  destruct (ServeHTTP noFaults exHandler exEnv (exPut exOther)) as [resp h].
  split; [exact H1'|]. exact (H2' exEnv (exRequest "GET" (manifestPath "app" exOther) []) eq_refl eq_refl).
Defined.

(** Another repository does not link the digest: deleting it removes the file. *)
Lemma delete_blob_keeps_shared_witness :
  let '(resp, h) := ServeHTTP noFaults exStocked exEnv
    (exRequest "DELETE" (blobURL "app" MetadataStore.exDigest) []) in
  resp = Ok (mkResponse 202 [] NoBody) ∧
  MetadataStore.represents (view (w_db (h_world h)))
    (MetadataStore.spec (MetadataStore.OpUnlink MetadataStore.exDigest "app") MetadataStore.exIx).2.
Proof.
  pose proof (delete_blob_keeps_shared BlobStore.srvRoot BlobStore.good_srvRoot exStocked exEnv
    (exRequest "DELETE" (blobURL "app" MetadataStore.exDigest) []) "app" MetadataStore.exDigest
    MetadataStore.exIx eq_refl MetadataStore.exDb_represents exRepo_pattern exDigest_canonical
    eq_refl eq_refl) as HD.
  destruct (ServeHTTP _ _ _ _) as [resp h]. exact (conj (proj1 HD) (proj1 (proj2 HD))).
Defined.

(** A registry in which the record of the tagged digest is cached. *)
Definition exCached : Handler :=
  set_cache (exHandlerWith
      {[BlobStore.blobFile BlobStore.srvRoot MetadataStore.exDigest := []]} MetadataStore.exDb)
    (cache_set (Cache.NewLRUCache 10000) ("app" +:+ ":" +:+ MetadataStore.exDigest)
       MetadataStore.exMeta).

Lemma deleted_manifest_served_from_cache_witness :
  let '(resp, h) := ServeHTTP noFaults exCached exEnv (exRequest "DELETE" (manifestPath "app" "v1") []) in
  resp = Ok (mkResponse 202 [] NoBody) ∧
  (ServeHTTP noFaults h exEnv (exRequest "GET" (manifestPath "app" MetadataStore.exDigest) [])).1 =
    Ok (mkResponse 200 (manifest_headers MetadataStore.exMeta 0) (Bytes [])).
Proof.
  pose proof (deleted_manifest_served_from_cache BlobStore.srvRoot BlobStore.good_srvRoot exCached exEnv
    (exRequest "DELETE" (manifestPath "app" "v1") []) exEnv
    (exRequest "GET" (manifestPath "app" MetadataStore.exDigest) []) "app" "v1"
    MetadataStore.exDigest MetadataStore.exIx MetadataStore.exMeta []
    eq_refl MetadataStore.exDb_represents exRepo_pattern exTag_pattern eq_refl exDigest_canonical
    eq_refl ltac:(vm_compute; reflexivity) eq_refl (lookup_singleton_eq _ _) eq_refl eq_refl
    eq_refl eq_refl) as HD.
  destruct (ServeHTTP _ _ _ _) as [resp h]. exact (conj (proj1 HD) (proj2 (proj2 HD))).
Defined.
End witnesses.
End V2Flow.
