(* ===== verification/V2Blob.v ===== *)
(** Blobs through the distribution API: byte ranges, upload sessions request
    by request, deletion, pull-through, and the pages of a tag listing. *)

From S2P Require Import Prelude GoLib Digest Os Blob Badger Metadata Cache Upload.
From S2P Require Import Oci Regexp Mirror V2 V2Example V2Safety V2Flow.

Module V2Blob.
Import V2 V2Safety V2Flow Regexp.

Section blobs.
Context `{Badger} `{!Json MetadataStore.ManifestMeta} `{!Json MetadataStore.RepoMeta}.
Context `{!Json Oci.PutManifestBody}.
Context `{Mirror.HttpClient} `{!JsonDecoder Mirror.tokenResp}.
Context (root : string) (Hroot : BlobStore.good_root root).

(** The contents of a blob. *)
Definition blob_at (h : Handler) (d : Digest) : option bytes :=
  os_files (w_os (h_world h)) !! BlobStore.blobFile root d.

(** ** Ranges *)

Inductive range_spec :=
  | Closed (a b : Z)
  | From (a : Z)
  | Suffix (n : Z).

Definition range_ok (r : range_spec) : Prop :=
  match r with
  | Closed a b => (0 ≤ a ≤ maxInt64 ∧ 0 ≤ b ≤ maxInt64)%Z
  | From a => (0 ≤ a ≤ maxInt64)%Z
  | Suffix n => (0 ≤ n ≤ maxInt64)%Z
  end.

Definition range_header (r : range_spec) : string :=
  match r with
  | Closed a b => "bytes=" +:+ fmt_d a +:+ "-" +:+ fmt_d b
  | From a => "bytes=" +:+ fmt_d a +:+ "-"
  | Suffix n => "bytes=-" +:+ fmt_d n
  end.

(** First and last byte of a satisfiable range of a blob of the given size. *)
Definition range_bounds (size : Z) (r : range_spec) : option (Z * Z) :=
  match r with
  | Closed a b => if decide (a ≤ b < size)%Z then Some (a, b) else None
  | From a => if decide (a < size)%Z then Some (a, size - 1)%Z else None
  | Suffix n => if decide (0 < n ≤ size)%Z then Some (size - n, size - 1)%Z else None
  end.

Lemma fmt_d_no_dash z : (0 ≤ z)%Z → not_in "-" (fmt_d z).
Proof. intros Hz. apply all_digits_not_in; [done|by apply fmt_d_digits]. Qed.

(** What the handler parses a range header to. *)
Lemma range_parts r :
  range_ok r → ∃ p0 p1, Split "-" (TrimPrefix (range_header r) "bytes=") = [p0; p1] ∧
    HasPrefix (range_header r) "bytes=" = true ∧
    ∀ size, (0 ≤ size ≤ maxInt64)%Z → parseRange size p0 p1 =
      match r with
      | Closed a b => (a, b) | From a => (a, size - 1) | Suffix n => (size - n, size - 1)
      end%Z.
Proof.
  assert (∀ z, (0 ≤ z ≤ maxInt64)%Z → ParseInt (fmt_d z) = (z, true)) as HP.
  { intros z Hz. apply ParseInt_fmt_d. unfold in64, minInt64. lia. }
  assert (∀ a b, not_in "-" a → not_in "-" b → Split "-" (a +:+ "-" +:+ b) = [a; b]) as HS.
  { intros a b Ha Hb. change ("-" +:+ b) with (String "-" b). by rewrite Split_app, !Split_none. }
  assert (not_in "-" "") as He by by apply not_elem_of_nil.
  destruct r as [a b|a|n]; simpl range_header; intros Hr; simpl in Hr.
  - exists (fmt_d a), (fmt_d b). rewrite TrimPrefix_app, HasPrefix_app.
    split; [apply HS; apply fmt_d_no_dash; lia|]. split; [done|]. intros size Hs.
    unfold parseRange. rewrite decide_False by (apply fmt_d_nonempty; lia).
    rewrite decide_False by (apply fmt_d_nonempty; lia). by rewrite !HP by lia.
  - exists (fmt_d a), "". rewrite TrimPrefix_app, HasPrefix_app.
    split; [apply (HS _ ""); [apply fmt_d_no_dash; lia|done]|]. split; [done|]. intros size Hs.
    unfold parseRange. rewrite decide_False by (apply fmt_d_nonempty; lia).
    rewrite decide_True by done. by rewrite !HP by lia.
  - change ("bytes=-" +:+ fmt_d n) with ("bytes=" +:+ "" +:+ "-" +:+ fmt_d n).
    exists "", (fmt_d n). rewrite TrimPrefix_app, HasPrefix_app.
    split; [apply (HS ""); [done|apply fmt_d_no_dash; lia]|]. split; [done|]. intros size Hs.
    unfold parseRange. rewrite decide_True by done. rewrite !HP by lia. cbn [fst].
    rewrite wrap64_id; [done|]. unfold in64, minInt64, maxInt64 in *. lia.
Qed.

Lemma range_header_nonempty r : range_header r ≠ "".
Proof. by destruct r. Qed.

(** C22 Byte ranges are exact: a GET of a blob with [bytes=a-b], [bytes=a-] or
    [bytes=-n] answers 206 with precisely the bytes of the range, its length
    and position, when the range lies inside the blob, and 416 with the size
    otherwise (a last byte at or past the end and a suffix longer than the
    blob are not clamped); neither changes any state. *)
Theorem range_request_exact h ev rq repo d c r :
  BlobStore.bs_root (w_bs (h_world h)) = root → lang repoNamePattern repo → canonical d →
  rq_Method rq = "GET" → rq_Path rq = blobURL repo d →
  rq_Header rq "Range" = range_header r → range_ok r →
  blob_at h d = Some c → (blen c ≤ maxInt64)%Z →
  ServeHTTP noFaults h ev rq =
    (Ok match range_bounds (blen c) r with
        | Some (a, b) =>
          mkResponse 206
            [("Content-Type", "application/octet-stream"); ("Content-Length", fmt_d (b - a + 1));
             ("Content-Range", "bytes " +:+ fmt_d a +:+ "-" +:+ fmt_d b +:+ "/" +:+ fmt_d (blen c));
             ("Docker-Content-Digest", d)]
            (Bytes (take (Z.to_nat (b - a + 1)) (drop (Z.to_nat a) c)))
        | None => mkResponse 416 [("Content-Range", "bytes */" +:+ fmt_d (blen c))] NoBody
        end, h).
Proof.
  intros Hr Hrepo Hd Hm Hp Hrng Hok Hc Hmax.
  rewrite (route_blob _ _ _ _ repo Hrepo d Hd Hp), Hm, decide_True by auto.
  unfold handleGetBlob. rewrite Parse_canonical, Hrng by done.
  rewrite decide_True by apply range_header_nonempty. unfold handleRangeRequest.
  destruct (range_parts r Hok) as (p0 & p1 & Hsp & -> & Hparse). simpl negb. cbv iota.
  unfold blob_at in Hc. rewrite <-Hr in Hc, Hroot.
  rewrite BlobStore.Size_canonical, Hc, Hsp by done. cbv iota.
  assert (0 ≤ blen c)%Z as H0' by (unfold blen; lia).
  rewrite Hparse by lia.
  set (ab := match r with Closed a b => (a, b) | From a => (a, blen c - 1) | Suffix n =>
    (blen c - n, blen c - 1) end%Z).
  assert (range_bounds (blen c) r = if decide (ab.1 < 0 ∨ ab.2 >= blen c ∨ ab.1 > ab.2)%Z
    then None else Some ab) as ->.
  { destruct r; simpl in *; repeat case_decide; try done; lia. }
  destruct ab as [a b]. simpl. destruct (decide _) as [?|Hin]; [done|].
  rewrite (BlobStore.GetRange_canonical _ _ _ c) by (done || lia). rewrite Hm.
  rewrite decide_False by done. rewrite wrap64_id; [done|].
  unfold in64, minInt64, maxInt64 in *. lia.
Qed.

(** ** Upload sessions *)

Lemma lang_plus_all (p : ascii → bool) s :
  s ≠ "" → Forall (λ c, p c = true) (str_bytes s) → lang (plus (Chr p)) s.
Proof.
  destruct s as [|c s]; [done|]. intros _ [Hc Hs]%Forall_cons.
  change (String c s) with (String c "" +:+ s). constructor; [by constructor|].
  induction s as [|c' s IH]; [constructor|]. apply Forall_cons in Hs as [Hc' Hs].
  change (String c' s) with (String c' "" +:+ s). constructor; [by constructor|auto].
Qed.

(** A generated session identifier is one the router accepts. *)
Lemma upload_id_pattern b now :
  length b = 16 → lang uuidPattern (Upload.generateUploadID (Some b) now).
Proof.
  intros Hb. unfold Upload.generateUploadID. apply lang_plus_all.
  - intros E%(f_equal String.length). by rewrite length_EncodeToString, Hb in E.
  - eapply Forall_impl; [apply all_hex_EncodeToString|].
    intros c Hc. simpl in *. rewrite hexChar_is_hex. by destruct (is_hex c).
Qed.

Lemma take_digits_all s r :
  all_digits s → (∀ c l, r = c :: l → digit_val c = None) → take_digits (str_bytes s ++ r) = str_bytes s.
Proof.
  unfold all_digits. intros Hs Hr. induction Hs as [|c l [v Hc] _ IH].
  - simpl. destruct r as [|c l]; [done|]. simpl. by rewrite (Hr c l).
  - simpl. rewrite Hc. by rewrite IH.
Qed.

Lemma digits_head s :
  all_digits s → s ≠ "" → ∃ c l, str_bytes s = c :: l ∧ is_space c = false ∧ is_sign c = false.
Proof.
  intros Hs Hne. destruct s as [|c s]; [done|]. apply Forall_cons in Hs as [Hc _].
  exists c, (str_bytes s). split; [done|].
  destruct c as [[] [] [] [] [] [] [] []]; first [by split; vm_compute|by destruct Hc].
Qed.

(** The offset the handler scans from a header [bytes <offset>-...]. *)
Lemma scan_start_offset n e :
  (0 ≤ n ≤ maxInt64)%Z → scan_start ("bytes " +:+ fmt_d n +:+ "-" +:+ e) = n.
Proof.
  intros Hn. unfold scan_start.
  change ("bytes " +:+ fmt_d n +:+ "-" +:+ e) with ("bytes" +:+ " " +:+ fmt_d n +:+ "-" +:+ e).
  rewrite strip_prefix_app.
  assert (all_digits (fmt_d n)) as Hd by (apply fmt_d_digits; lia).
  destruct (digits_head (fmt_d n)) as (c & l & Hcl & Hsp & Hsg);
    [done|apply fmt_d_nonempty; lia|].
  change (" " +:+ fmt_d n +:+ "-" +:+ e) with (String " " (fmt_d n +:+ "-" +:+ e)).
  assert (trim_left (str_bytes (String " " (fmt_d n +:+ "-" +:+ e))) =
    str_bytes (fmt_d n) ++ str_bytes ("-" +:+ e)) as ->.
  { change (str_bytes (String " " (fmt_d n +:+ "-" +:+ e)))
      with (" "%char :: str_bytes (fmt_d n +:+ "-" +:+ e)).
    rewrite str_bytes_app, Hcl. simpl. by rewrite Hsp. }
  assert (∀ r, match str_bytes (fmt_d n) ++ r with
    | c :: l' => if is_sign c then ([c], l') else ([], str_bytes (fmt_d n) ++ r)
    | [] => ([], str_bytes (fmt_d n) ++ r) end = ([], str_bytes (fmt_d n) ++ r)) as ->.
  { intros r. rewrite Hcl. simpl. by rewrite Hsg. }
  simpl app. rewrite take_digits_all; [|done|].
  - rewrite str_bytes_str. rewrite ParseInt_fmt_d; [done|]. unfold in64, minInt64. lia.
  - intros c' l' E. change (str_bytes ("-" +:+ e)) with ("-"%char :: str_bytes e) in E.
    by injection E as <- <-.
Qed.

(** The requests of a session: each PATCH carries a chunk, either without a
    range or with [Content-Range: bytes <offset>-...] at the offset reached. *)
Inductive patches (repo id : string) : bytes → list (Env * Request) → bytes → Prop :=
  | patches_nil data : patches repo id data [] data
  | patches_cons data ev rq d rqs data' :
      rq_Method rq = "PATCH" → rq_Path rq = uploadURL repo id → rq_Body rq = NewReader d →
      (rq_Header rq "Content-Range" = "" ∨
       ∃ e, rq_Header rq "Content-Range" = "bytes " +:+ fmt_d (blen data) +:+ "-" +:+ e) →
      patches repo id (data ++ d) rqs data' →
      patches repo id data ((ev, rq) :: rqs) data'.

Definition serve_all (h : Handler) (rqs : list (Env * Request)) : Handler :=
  foldl (λ h '(ev, rq), (ServeHTTP noFaults h ev rq).2) h rqs.

(** The session has received exactly [data], in a handler over this root. *)
Definition session (h : Handler) (id : string) (data : bytes) : Prop :=
  BlobStore.bs_root (w_bs (h_world h)) = root ∧ Upload.um_root (h_uploads h) = root ∧
  Upload.received (h_uploads h, w_os (h_world h)) id data.

Lemma set_uploads_session h id data st :
  BlobStore.bs_root (w_bs (h_world h)) = root → Upload.um_root st.1 = root →
  Upload.received st id data → session (set_uploads h st.1 st.2) id data.
Proof. intros Hr Hu Hrec. split_and!; [done..|]. by destruct st. Qed.

Lemma patch_chunk h ev rq repo id data d :
  lang repoNamePattern repo → lang uuidPattern id → Upload.good_id id →
  session h id data → (blen data + blen d ≤ maxInt64)%Z →
  rq_Method rq = "PATCH" → rq_Path rq = uploadURL repo id → rq_Body rq = NewReader d →
  (rq_Header rq "Content-Range" = "" ∨
   ∃ e, rq_Header rq "Content-Range" = "bytes " +:+ fmt_d (blen data) +:+ "-" +:+ e) →
  let h' := (ServeHTTP noFaults h ev rq).2 in
  session h' id (data ++ d) ∧
  ∀ p, p ≠ Upload.uploadFile root id →
    os_files (w_os (h_world h')) !! p = os_files (w_os (h_world h)) !! p.
Proof.
  intros Hrepo Hid Hg (Hbs & Hum & Hrec) Hov Hm Hp Hb Hcr.
  rewrite (route_upload _ _ _ _ repo Hrepo id Hid Hp), Hm, decide_True by done.
  pose proof Hrec as (u & Hu & HID & Hpos & Hsz & Hf). cbn [fst snd] in *.
  assert (0 ≤ blen data)%Z as Hd0 by (unfold blen; lia).
  assert (0 ≤ blen d)%Z as Hd1 by (unfold blen; lia).
  set (at_ := bool_decide (rq_Header rq "Content-Range" ≠ "")).
  assert ((if decide (rq_Header rq "Content-Range" ≠ "")
     then Upload.WriteAt noFaults (h_uploads h) (w_os (h_world h)) u (rq_Body rq)
            (scan_start (rq_Header rq "Content-Range"))
     else Upload.Write noFaults (h_uploads h) (w_os (h_world h)) u (rq_Body rq)) =
    Upload.send_chunk noFaults (h_uploads h, w_os (h_world h)) id (at_, d)) as Hsend.
  { unfold Upload.send_chunk, Upload.Get. rewrite Hu, Hb. unfold at_. simpl.
    destruct (decide (rq_Header rq "Content-Range" ≠ "")) as [Hne|Hne].
    - rewrite bool_decide_true by done. destruct Hcr as [?|[e He]]; [done|].
      rewrite He, Hsz. by rewrite scan_start_offset by lia.
    - by rewrite bool_decide_false. }
  pose proof (Upload.send_chunk_received (h_uploads h, w_os (h_world h)) id data (at_, d))
    as Hstep. cbn [fst snd] in Hstep. rewrite Hum in Hstep.
  specialize (Hstep Hroot Hg Hrec Hov) as (Hr' & Hrec' & Ho).
  unfold handleUploadChunk, Upload.Get. rewrite Hu, Hsend.
  destruct (Upload.send_chunk _ _ _ _) as [res st]. cbn [snd] in *.
  assert (session (set_uploads h st.1 st.2) id (data ++ d) ∧
    ∀ p, p ≠ Upload.uploadFile root id →
      os_files st.2 !! p = os_files (w_os (h_world h)) !! p) as Hgoal.
  { split; [by apply set_uploads_session|]. exact Ho. }
  destruct st as [um os], res; exact Hgoal.
Qed.

Lemma patches_received repo id rqs data data' h :
  lang repoNamePattern repo → lang uuidPattern id → Upload.good_id id →
  patches repo id data rqs data' → session h id data → (blen data' ≤ maxInt64)%Z →
  session (serve_all h rqs) id data' ∧
  ∀ p, p ≠ Upload.uploadFile root id →
    os_files (w_os (h_world (serve_all h rqs))) !! p = os_files (w_os (h_world h)) !! p.
Proof.
  intros Hrepo Hid Hg Hps. revert h.
  induction Hps as [data|data ev rq d rqs data' Hm Hp Hb Hcr Hps IH]; intros h Hs Hov; [done|].
  assert (blen data + blen d ≤ maxInt64)%Z as Hov'.
  { assert (∃ t, data' = (data ++ d) ++ t) as [t Ht].
    { clear -Hps. induction Hps as [|data0 ev rq d0 rqs data' _ _ _ _ _ [t Ht]];
        [exists []; by rewrite app_nil_r|]. exists (d0 ++ t). by rewrite app_assoc. }
    unfold blen in *. rewrite Ht, !length_app in Hov. lia. }
  destruct (patch_chunk h ev rq repo id data d Hrepo Hid Hg Hs Hov' Hm Hp Hb Hcr) as [Hs' Ho].
  destruct (IH _ Hs' Hov) as [Hs'' Ho']. split; [exact Hs''|].
  intros p Hpp. unfold serve_all in *. simpl. by rewrite Ho', Ho.
Qed.

(** The session a POST opens. *)
Lemma start_session h ev rq repo b :
  BlobStore.bs_root (w_bs (h_world h)) = root → Upload.um_root (h_uploads h) = root →
  lang repoNamePattern repo → ev_id ev = Some b → length b = 16 →
  rq_Method rq = "POST" → rq_Path rq = uploadsURL repo →
  rq_Query rq "mount" = "" → rq_Query rq "digest" = "" →
  let id := Upload.generateUploadID (Some b) (ev_now ev 0) in
  (ServeHTTP noFaults h ev rq).1 =
    Ok (mkResponse 202 [uploadLocation repo id; ("Docker-Upload-UUID", id); ("Range", "0-0")] NoBody) ∧
  let h' := (ServeHTTP noFaults h ev rq).2 in
  session h' id [] ∧
  ∀ d, canonical d → blob_at h' d = blob_at h d.
Proof.
  intros Hr Hum Hrepo Hb Hl Hm Hp Hq1 Hq2 id.
  pose proof (Upload.generateUploadID_good b (ev_now ev 0) Hl) as Hg. fold id in Hg.
  rewrite (route_start _ _ _ _ repo Hrepo Hp), Hm, decide_True by done.
  unfold handleStartUpload. rewrite Hq1, decide_False by auto. cbv zeta. rewrite Hq2.
  rewrite decide_False by auto. rewrite Hb.
  pose proof (Upload.Start_blobs noFaults (h_uploads h) (w_os (h_world h)) b (ev_now ev 0)
    (ev_now ev 1) repo) as Hblobs.
  rewrite Hum in Hblobs. unfold blob_at.
  assert (os_files (Upload.Start noFaults (h_uploads h) (w_os (h_world h)) (Some b) (ev_now ev 0)
    (ev_now ev 1) repo).2.2 !! Upload.uploadFile root id = Some []) as Hfile.
  { cbn. fold id. change (EncodeToString b) with id. rewrite Upload.uploadPath_good, Hum.
    - apply lookup_insert_eq.
    - by rewrite Hum.
    - by destruct Hg. }
  destruct (Upload.Start _ _ _ _ _ _ _) as [res [um os]] eqn:HS. cbn [fst snd] in *.
  unfold Upload.Start, Create, noFaults in HS. cbn in HS. injection HS as <- <- Hos.
  split; [done|]. split.
  - split_and!; [done..|]. eexists. split; [apply lookup_insert_eq|]. split_and!; [done..|].
    cbn. rewrite Hum. exact Hfile.
  - intros d Hd. cbn. by apply Hblobs.
Qed.

(** The body of the request that finishes a session, used when its length is
    announced. *)
Definition final_chunk (rq : Request) : bytes :=
  if decide (rq_ContentLength rq > 0)%Z then rd_data (rq_Body rq) else [].

Lemma final_write h rq id data u :
  Upload.good_id id → session h id data →
  Upload.um_uploads (h_uploads h) !! id = Some u →
  (blen data + blen (final_chunk rq) ≤ maxInt64)%Z → rd_err (rq_Body rq) = None →
  let h' := if decide (rq_ContentLength rq > 0)%Z then
              let '(_, (um, os)) := Upload.Write noFaults (h_uploads h) (w_os (h_world h)) u (rq_Body rq) in
              set_uploads h um os
            else h in
  session h' id (data ++ final_chunk rq) ∧ w_db (h_world h') = w_db (h_world h) ∧
  h_proxy h' = h_proxy h ∧
  ∀ d, canonical d → blob_at h' d = blob_at h d.
Proof.
  intros Hg Hs Hu Hov Herr. cbv zeta. unfold final_chunk in *.
  destruct (decide (rq_ContentLength rq > 0)%Z) as [Hc|Hc]; [|by rewrite app_nil_r].
  pose proof Hs as (Hbs & Hum & Hrec).
  pose proof (Upload.send_chunk_received (h_uploads h, w_os (h_world h)) id data
    (false, rd_data (rq_Body rq))) as Hstep. cbn [fst snd] in Hstep. rewrite Hum in Hstep.
  specialize (Hstep Hroot Hg Hrec Hov) as (Hr' & Hrec' & Ho).
  unfold Upload.send_chunk, Upload.Get in Hrec', Ho, Hr'. rewrite Hu in Hrec', Ho, Hr'. cbn [fst snd] in *.
  assert (NewReader (rd_data (rq_Body rq)) = rq_Body rq) as Hrd.
  { destruct (rq_Body rq). simpl in *. by subst. }
  rewrite Hrd in Hrec', Ho, Hr'.
  destruct (Upload.Write _ _ _ _ _) as [res st]. cbn [snd] in *. destruct st as [um os].
  split; [by apply (set_uploads_session h id _ (um, os))|]. split_and!; [done..|].
  intros d Hd. apply Ho. intros E. symmetry in E. revert E.
  apply Upload.uploadFile_not_blob; [|done]. apply Hg.
Qed.

(** C5 An upload is what a client sends: a POST opens a session, each PATCH
    delivers a chunk (appended, or at the offset reached, announced as [bytes
    <offset>-...]) and the closing PUT may carry a last one.  Under the digest
    of the whole, the PUT answers 201 and a GET of the blob, by any
    repository, answers 200 with exactly those bytes; under any other valid
    digest it answers 400 and no blob has appeared. *)
Theorem upload_then_pull h ev0 rq0 repo b rqs data evF rqF expected :
  let id := Upload.generateUploadID (Some b) (ev_now ev0 0) in
  let whole := data ++ final_chunk rqF in
  BlobStore.bs_root (w_bs (h_world h)) = root → Upload.um_root (h_uploads h) = root →
  lang repoNamePattern repo → ev_id ev0 = Some b → length b = 16 →
  rq_Method rq0 = "POST" → rq_Path rq0 = uploadsURL repo →
  rq_Query rq0 "mount" = "" → rq_Query rq0 "digest" = "" →
  patches repo id [] rqs data → (blen whole ≤ maxInt64)%Z →
  rq_Method rqF = "PUT" → rq_Path rqF = uploadURL repo id → rq_Query rqF "digest" = expected →
  rd_err (rq_Body rqF) = None → canonical expected → blob_at h (FromBytes whole) = None →
  let h1 := serve_all (ServeHTTP noFaults h ev0 rq0).2 rqs in
  let '(resp, h2) := ServeHTTP noFaults h1 evF rqF in
  if decide (expected = FromBytes whole) then
    resp = Ok (created repo expected) ∧
    ∀ ev rq repo', lang repoNamePattern repo' → rq_Method rq = "GET" →
      rq_Path rq = blobURL repo' expected → rq_Header rq "Range" = "" →
      (ServeHTTP noFaults h2 ev rq).1 =
        Ok (mkResponse 200 (blob_headers expected (blen whole)) (Bytes whole))
  else
    (∃ msg, resp = Ok (errorResponse 400 Oci.ErrorCodeDigestInvalid msg)) ∧
    ∀ d, canonical d → blob_at h2 d = blob_at h d.
Proof.
  intros id whole Hr Hum Hrepo Hb Hl Hm0 Hp0 Hq1 Hq2 Hps Hov HmF HpF HqF HeF Hcan Hnone h1.
  pose proof (upload_id_pattern b (ev_now ev0 0) Hl) as Hid. fold id in Hid.
  pose proof (Upload.generateUploadID_good b (ev_now ev0 0) Hl) as Hg. fold id in Hg.
  destruct (start_session h ev0 rq0 repo b Hr Hum Hrepo Hb Hl Hm0 Hp0 Hq1 Hq2) as (_ & Hs0 & Hb0).
  fold id in Hs0.
  assert (blen data + blen (final_chunk rqF) ≤ maxInt64)%Z as Hov1.
  { unfold whole, blen in *. rewrite length_app in Hov. lia. }
  assert (blen data ≤ maxInt64)%Z as Hov2 by (unfold blen in *; lia).
  destruct (patches_received repo id rqs [] data _ Hrepo Hid Hg Hps Hs0 Hov2) as [Hs1 Ho1].
  fold h1 in Hs1, Ho1.
  assert (∀ d, canonical d → blob_at h1 d = blob_at h d) as Hb1.
  { intros d Hd. rewrite <-Hb0 by done. apply Ho1. intros E. symmetry in E. revert E.
    apply Upload.uploadFile_not_blob; [|done]. apply Hg. }
  rewrite (route_upload _ h1 _ _ repo Hrepo id Hid HpF), HmF.
  rewrite decide_False, decide_True by done.
  unfold handleFinishUpload. rewrite HqF.
  destruct (decide (expected = "")) as [->|Hne]; [by destruct Hcan as (? & ? & _)|].
  rewrite Parse_canonical by done.
  pose proof Hs1 as (_ & _ & (u & Hu & _)). cbn [fst] in Hu.
  unfold Upload.Get. rewrite Hu.
  pose proof (final_write h1 rqF id data u Hg Hs1 Hu Hov1 HeF) as (Hs2 & _ & _ & Hb2).
  set (h2 := if decide (rq_ContentLength rqF > 0)%Z then _ else h1) in *.
  pose proof Hs2 as (Hbs2 & Hum2 & Hrec2).
  destruct (Upload.Finish_received (h_uploads h2) (w_os (h_world h2)) id whole expected
    (w_bs (h_world h2))) as (os' & HFin & Hfiles); rewrite ?Hum2; [done..| |].
  { change (blob_at h2 (FromBytes whole) = None).
    by rewrite Hb2, Hb1 by apply FromBytes_canonical. }
  rewrite HFin. rewrite Hum2 in Hfiles. cbv zeta in Hfiles.
  assert (∀ d, canonical d → Upload.uploadFile root id ≠ BlobStore.blobFile root d) as Hne'.
  { intros d Hd. apply Upload.uploadFile_not_blob; [|done]. apply Hg. }
  destruct (decide (expected = FromBytes whole)) as [Heq|Hneq].
  - split; [done|]. intros ev rq repo' Hrepo' Hm Hp Hrng.
    rewrite (route_blob _ _ _ _ repo' Hrepo' expected Hcan Hp), Hm, decide_True by auto.
    unfold handleGetBlob. rewrite Parse_canonical, Hrng by done.
    rewrite decide_False by (intros Hx; by apply Hx).
    cbn [h_world set_uploads set_db set_world w_bs w_os].
    destruct (BlobStore.Get_present (w_bs (h_world h2)) os' expected whole)
      as (r & bs' & os'' & -> & <- & _); [by rewrite Hbs2|done| |by rewrite Hm].
    rewrite Hbs2, Hfiles. apply lookup_insert_eq.
  - split; [eauto|]. intros d Hd. unfold blob_at. cbn [h_world set_uploads w_os].
    rewrite Hfiles, lookup_delete_ne by by apply Hne'.
    change (blob_at h2 d = blob_at h d). by rewrite Hb2, Hb1.
Qed.

(** A chunk announced the way the OCI specification writes the header,
    [Content-Range: <start>-<end>] without a unit, is written at offset 0
    whatever its start: the session still answers 202, but the file then
    begins with the new chunk instead of ending with it. *)
Theorem unitless_content_range_overwrites h ev rq repo id data d :
  lang repoNamePattern repo → lang uuidPattern id → Upload.good_id id →
  session h id data → (blen data + blen d ≤ maxInt64)%Z →
  rq_Method rq = "PATCH" → rq_Path rq = uploadURL repo id → rq_Body rq = NewReader d →
  rq_Header rq "Content-Range" = fmt_d (blen data) +:+ "-" +:+ fmt_d (blen data + blen d - 1) →
  ∃ resp h', ServeHTTP noFaults h ev rq = (Ok resp, h') ∧ rs_Status resp = 202%Z ∧
    os_files (w_os (h_world h')) !! Upload.uploadFile root id =
      Some (d ++ drop (length d) data).
Proof.
  intros Hrepo Hid Hg (Hbs & Hum & Hrec) Hov Hm Hp Hb Hcr.
  rewrite (route_upload _ _ _ _ repo Hrepo id Hid Hp), Hm, decide_True by done.
  pose proof Hrec as (u & Hu & HID & Hpos & Hsz & Hf). cbn [fst snd] in *.
  assert (0 ≤ blen data)%Z as Hd0 by (unfold blen; lia).
  assert (scan_start (rq_Header rq "Content-Range") = 0%Z) as Hz.
  { rewrite Hcr. destruct (digits_head (fmt_d (blen data))) as (c & l & Hcl & _);
      [by apply fmt_d_digits|by apply fmt_d_nonempty|].
    unfold scan_start. destruct (strip_prefix "bytes" _) as [r|] eqn:E; [|done].
    exfalso. apply strip_prefix_spec, (f_equal str_bytes) in E.
    rewrite !str_bytes_app, Hcl in E. change (str_bytes "bytes") with
      ("b"%char :: str_bytes "ytes") in E. injection E as -> _.
    pose proof (fmt_d_digits (blen data) Hd0) as Hd. unfold all_digits in Hd. rewrite Hcl in Hd.
    apply Forall_cons in Hd as [[v Hv] _]. discriminate Hv. }
  unfold handleUploadChunk, Upload.Get. rewrite Hu, decide_True.
  2:{ rewrite Hcr. intros E%(f_equal str_bytes). rewrite str_bytes_app in E.
      destruct (digits_head (fmt_d (blen data))) as (c & l & Hcl & _);
        [by apply fmt_d_digits|by apply fmt_d_nonempty|]. by rewrite Hcl in E. }
  rewrite Hz, Hb. unfold Upload.WriteAt, noFaults. rewrite decide_False by lia. cbn [rd_err NewReader].
  eexists _, _. split; [done|]. split; [done|].
  cbn [h_world set_uploads w_os]. unfold Upload.file_write. cbn [os_files set_files].
  rewrite HID, Upload.uploadPath_good, Hum by (rewrite ?Hum; done || apply Hg).
  rewrite lookup_alter_eq. cbn in Hf. rewrite <-Hum, Hf. cbn. by rewrite write_at_0.
Qed.

(** ** Pull-through *)

(** The first pull of a mirrored blob is not verified: whatever bytes the
    upstream sends with status 200 reach the client under the requested
    digest, in a response that announces that digest; when they do not have
    it, the local store keeps no blob. *)
Theorem proxied_blob_is_unverified h ev rq repo d p up m data :
  BlobStore.bs_root (w_bs (h_world h)) = root → lang repoNamePattern repo → canonical d →
  h_proxy h = Some p → Mirror.IsMirrored p repo = Some m → m ≠ "docker.io" →
  Mirror.px_mirrors p !! m = Some up →
  rq_Method rq = "GET" → rq_Path rq = blobURL repo d → rq_Header rq "Range" = "" →
  blob_at h d = None → d ≠ FromBytes data →
  (let url := Mirror.us_url up +:+ "/v2/" +:+ Mirror.upstreamRepo m repo +:+ "/blobs/" +:+ d in
   Mirror.NewRequest url = None ∧
   Mirror.client_Do url None = Ok (Mirror.mkHttpResponse 200 "" (blen data) (NewReader data))) →
  List.Exists (λ k, os_files (w_os (h_world h)) !! tempName (Dir (BlobStore.blobFile root d)) k = None)
    (ev_rnds ev) →
  let '(resp, h') := ServeHTTP noFaults h ev rq in
  resp = Ok (mkResponse 200 (blob_headers d (blen data)) (Bytes data)) ∧ blob_at h' d = None.
Proof.
  intros Hr Hrepo Hd Hpx Hmir Hdock Hup Hm Hp Hrng Hnone Hne [Hreq Hdo] Hfresh.
  rewrite (route_blob _ _ _ _ repo Hrepo d Hd Hp), Hm, decide_True by auto.
  unfold handleGetBlob. rewrite Parse_canonical, Hrng by done.
  rewrite decide_False by auto. unfold blob_at in *.
  rewrite BlobStore.Get_absent by (rewrite ?Hr; done).
  cbn [h_world h_proxy set_world w_bs w_os w_db]. rewrite Hpx, Hmir.
  unfold Mirror.GetBlob. rewrite Hup. cbn [w_bs w_os w_db].
  rewrite BlobStore.Exists_canonical by (rewrite ?Hr; done). rewrite Hr, Hnone.
  rewrite bool_decide_false by by intros [? ?].
  rewrite Hreq. unfold Mirror.authorize. rewrite (decide_False _ _ Hdock), Hdo.
  cbn [Mirror.hr_StatusCode Mirror.hr_Body Mirror.hr_ContentLength].
  rewrite decide_False, decide_False by lia. rewrite bool_decide_false by by rewrite Hm. cbn [negb].
  assert (Mirror.Put_reads noFaults (mkWorld _ (w_bs (h_world h)) (w_os (h_world h)) (w_db (h_world h)))
    (ev_rnds ev) d (blen data) = true) as ->.
  { unfold Mirror.Put_reads. cbn [w_bs w_os].
    rewrite BlobStore.blobPath_canonical by (rewrite ?Hr; done). rewrite Hr.
    unfold Stat, noFaults at 1. rewrite Hnone.
    destruct (BlobStore.CreateTemp_fresh _ _ _ Hfresh) as (tmp & os1 & HC).
    fold noFaults in HC. rewrite HC.
    by rewrite (proj2 (Validate_valid d)) by by apply canonical_valid. }
  destruct (BlobStore.Put _ _ _ _ _ _ _) as [res os] eqn:HP.
  apply BlobStore.Put_cases in HP as [(e & _ & Hf)|[(_ & _ & c & Hc & _)|(_ & Hdd & _)]];
    try (by rewrite ?Hr).
  - destruct (MetadataStore.LinkBlobToRepo _ _ _). rewrite Hm. split; [done|].
    cbn. by rewrite Hf.
  - by rewrite Hr, Hnone in Hc.
Qed.

End blobs.

(** ** Pages of a tag listing *)

Section tags.
Context `{Badger} `{!Json MetadataStore.ManifestMeta} `{!Json MetadataStore.RepoMeta}.
Context `{!Json Oci.PutManifestBody}.
Context `{Mirror.HttpClient} `{!JsonDecoder Mirror.tokenResp}.

(** A client that follows the pages: it asks for [n] tags after [last] and,
    while the answer carries a Link header, for the next page. *)
Fixpoint follow_tags (fuel : nat) (h : Handler) (ev : Env) (mk : string → Request) (last_ : string)
    : option (list string) :=
  match fuel with
  | O => None
  | S fuel =>
    match (ServeHTTP noFaults h ev (mk last_)).1 with
    | Ok resp =>
      match rs_Body resp with
      | TagListBody _ page =>
        if decide ("Link" ∈ (rs_Header resp).*1)
        then rest ← follow_tags fuel h ev mk (default "" (last page)); Some (page ++ rest)
        else Some page
      | _ => None
      end
    | _ => None
    end
  end.

Lemma after_last_app t l1 l2 : t ∉ l1 → after_last t (l1 ++ t :: l2) = Some l2.
Proof.
  induction l1 as [|x l1 IH]; intros Hn; simpl.
  - by rewrite decide_True.
  - rewrite decide_False by set_solver. apply IH. set_solver.
Qed.

(** The tags left after a prefix that a previous page ended with. *)
Lemma tagPage_rest l1 t l2 n :
  NoDup (l1 ++ t :: l2) → t ≠ "" →
  tagPage (l1 ++ t :: l2) n t =
    if decide (n > 0 ∧ Z.of_nat (length l2) > n)%Z then (take (Z.to_nat n) l2, true) else (l2, false).
Proof.
  intros Hnd Ht. unfold tagPage. rewrite (decide_True (P := t ≠ "")) by done.
  rewrite after_last_app; [done|]. apply NoDup_app in Hnd as (_ & Hnd & _).
  intros Hin. apply (Hnd t Hin). set_solver.
Qed.

Definition tags_request (repo : string) (n : Z) (mk : string → Request) : Prop :=
  ∀ last_, rq_Method (mk last_) = "GET" ∧ rq_Path (mk last_) = tagsURL repo ∧
    rq_Query (mk last_) "n" = fmt_d n ∧ rq_Query (mk last_) "last" = last_.

Lemma serve_tags h ev repo n mk last_ tags :
  lang repoNamePattern repo → tags_request repo n mk → (0 < n ≤ maxInt64)%Z →
  MetadataStore.ListTags (w_db (h_world h)) repo = Ok tags →
  let '(page, more) := tagPage tags n last_ in
  ∃ hs, (ServeHTTP noFaults h ev (mk last_)).1 = Ok (mkResponse 200 hs (TagListBody repo page)) ∧
    ("Link" ∈ hs.*1 ↔ more = true).
Proof.
  intros Hrepo Hmk Hn Htags. destruct (Hmk last_) as (Hm & Hp & Hq & Hl).
  rewrite (route_tags _ _ _ _ repo Hrepo Hp), Hm, decide_True by done.
  unfold handleListTags. rewrite Htags, Hq, Hl.
  rewrite ParseInt_fmt_d by (unfold in64, minInt64; lia). cbn [fst].
  destruct (tagPage tags n last_) as [page more]. eexists. split; [done|].
  destruct more; unfold linkHeader; cbn.
  - split; [done|]. intros _. apply list_elem_of_here.
  - split; [|done]. intros [Hx|Hx]%elem_of_cons; [done|by apply not_elem_of_nil in Hx].
Qed.

Lemma follow_rest h ev repo n mk l1 t l2 fuel :
  lang repoNamePattern repo → tags_request repo n mk → (0 < n ≤ maxInt64)%Z →
  MetadataStore.ListTags (w_db (h_world h)) repo = Ok (l1 ++ t :: l2) →
  NoDup (l1 ++ t :: l2) → "" ∉ l1 ++ t :: l2 → length l2 < fuel →
  follow_tags fuel h ev mk t = Some l2.
Proof.
  intros Hrepo Hmk Hn. revert l1 t l2. induction fuel as [|fuel IH]; intros l1 t l2 Htags Hnd Hne Hf;
    [lia|]. simpl.
  pose proof (serve_tags h ev repo n mk t _ Hrepo Hmk Hn Htags) as Hs.
  rewrite tagPage_rest in Hs; [|done|intros ->; apply Hne; set_solver].
  destruct (decide (n > 0 ∧ Z.of_nat (length l2) > n)%Z) as [Hc|Hc];
    destruct Hs as (hs & -> & Hl); cbn [rs_Body rs_Header].
  - rewrite decide_True by by apply Hl.
    destruct (exists_last (l := take (Z.to_nat n) l2)) as (pg & t' & Hpg).
    { intros E%(f_equal length). rewrite length_take in E. simpl in E. lia. }
    rewrite Hpg, last_snoc. change (default "" (Some t')) with t'.
    assert (l2 = pg ++ t' :: drop (Z.to_nat n) l2) as Hl2.
    { rewrite <-(take_drop (Z.to_nat n) l2) at 1. by rewrite Hpg, <-app_assoc. }
    assert (l1 ++ t :: l2 = (l1 ++ t :: pg) ++ t' :: drop (Z.to_nat n) l2) as Hall.
    { rewrite Hl2 at 1. by rewrite <-!app_assoc. }
    rewrite (IH (l1 ++ t :: pg) t' (drop (Z.to_nat n) l2)); [|by rewrite <-Hall..|].
    + simpl. f_equal. rewrite <-app_assoc. simpl. by rewrite <-Hl2.
    + rewrite length_drop. lia.
  - rewrite decide_False; [done|]. intros Hx. by apply Hl in Hx.
Qed.

End tags.

(** ** Witnesses *)

Section witnesses.
Import V2Example.

(** A request with one header and one query parameter. *)
Definition exRequestWith (method path : string) (header query : string * string) (body : bytes)
    : Request :=
  mkRequest method path (λ k, if decide (k = query.1) then query.2 else "")
    (λ k, if decide (k = header.1) then header.2 else "") (blen body) (NewReader body).

Lemma range_request_exact_witness :
  (ServeHTTP noFaults exWithBlob exEnv
    (exRequestWith "GET" (blobURL "app" (FromBytes exData)) ("Range", "bytes=1-2") ("", "") [])).1 =
    Ok (mkResponse 206
          [("Content-Type", "application/octet-stream"); ("Content-Length", "2");
           ("Content-Range", "bytes 1-2/4"); ("Docker-Content-Digest", FromBytes exData)]
          (Bytes (str_bytes "bc"))).
Proof.
  rewrite (range_request_exact BlobStore.srvRoot BlobStore.good_srvRoot exWithBlob exEnv
    (exRequestWith "GET" (blobURL "app" (FromBytes exData)) ("Range", "bytes=1-2") ("", "") [])
    "app" (FromBytes exData) exData (Closed 1 2) eq_refl exRepo_pattern (FromBytes_canonical _)
    eq_refl eq_refl eq_refl).
  - reflexivity.
  - split; split; vm_compute; discriminate.
  - apply lookup_singleton_eq.
  - vm_compute. discriminate.
Defined.

Definition exUploadId : string := Upload.generateUploadID (Some Upload.exId) 0.

Definition exPatches : list (Env * Request) :=
  [(exEnv, exRequest "PATCH" (uploadURL "app" exUploadId) (str_bytes "ab"));
   (exEnv, exRequestWith "PATCH" (uploadURL "app" exUploadId) ("Content-Range", "bytes 2-3") ("", "")
      (str_bytes "cd"))].

Definition exFinish (d : Digest) : Request :=
  exRequestWith "PUT" (uploadURL "app" exUploadId) ("", "") ("digest", d) [].

Lemma exPatches_data : patches "app" exUploadId [] exPatches exData.
Proof.
  apply (patches_cons _ _ _ _ _ (str_bytes "ab")); [reflexivity..|by left|].
  apply (patches_cons _ _ _ _ _ (str_bytes "cd")); [reflexivity..|right; by exists "3"|].
  apply patches_nil.
Qed.

Lemma upload_then_pull_witness :
  let h1 := serve_all (ServeHTTP noFaults exHandler exEnv exPost).2 exPatches in
  let '(resp, h2) := ServeHTTP noFaults h1 exEnv (exFinish (FromBytes exData)) in
  resp = Ok (created "app" (FromBytes exData)) ∧
  (ServeHTTP noFaults h2 exEnv (exRequest "GET" (blobURL "app" (FromBytes exData)) [])).1 =
    Ok (mkResponse 200 (blob_headers (FromBytes exData) 4) (Bytes exData)).
Proof.
  intros h1.
  pose proof (upload_then_pull BlobStore.srvRoot BlobStore.good_srvRoot exHandler exEnv exPost "app"
    Upload.exId exPatches exData exEnv (exFinish (FromBytes exData)) (FromBytes exData)
    eq_refl eq_refl exRepo_pattern eq_refl eq_refl eq_refl eq_refl eq_refl eq_refl exPatches_data
    ltac:(vm_compute; discriminate) eq_refl eq_refl eq_refl eq_refl (FromBytes_canonical _)
    (lookup_empty _)) as HU.
  cbv zeta in HU. fold h1 in HU. change (final_chunk (exFinish (FromBytes exData))) with (@nil byte) in HU.
  rewrite (app_nil_r exData) in HU.
  destruct (ServeHTTP noFaults h1 exEnv (exFinish (FromBytes exData))) as [resp h2].
  rewrite (decide_True _ _ eq_refl) in HU.
  split; [exact (proj1 HU)|].
  exact (proj2 HU exEnv (exRequest "GET" (blobURL "app" (FromBytes exData)) []) "app" exRepo_pattern
    eq_refl eq_refl eq_refl).
Defined.

(** A session that has received [ab]. *)
Definition exSession : Handler :=
  serve_all (ServeHTTP noFaults exHandler exEnv exPost).2 (take 1 exPatches).

Lemma exSession_received : session BlobStore.srvRoot exSession exUploadId (str_bytes "ab").
Proof.
  destruct (start_session BlobStore.srvRoot BlobStore.good_srvRoot exHandler exEnv exPost "app"
    Upload.exId eq_refl eq_refl exRepo_pattern eq_refl eq_refl eq_refl eq_refl eq_refl eq_refl)
    as (_ & Hs & _).
  apply (patches_received BlobStore.srvRoot BlobStore.good_srvRoot "app" exUploadId
    (take 1 exPatches) [] (str_bytes "ab") _ exRepo_pattern
    (upload_id_pattern Upload.exId 0 eq_refl) (Upload.generateUploadID_good Upload.exId 0 eq_refl)).
  - apply (patches_cons _ _ _ _ _ (str_bytes "ab")); [reflexivity..|by left|]. apply patches_nil.
  - exact Hs.
  - by vm_compute.
Qed.

Lemma unitless_content_range_overwrites_witness :
  ∃ resp h', ServeHTTP noFaults exSession exEnv
      (exRequestWith "PATCH" (uploadURL "app" exUploadId) ("Content-Range", "2-3") ("", "")
         (str_bytes "cd")) = (Ok resp, h') ∧ rs_Status resp = 202%Z ∧
    os_files (w_os (h_world h')) !! Upload.uploadFile BlobStore.srvRoot exUploadId =
      Some (str_bytes "cd").
Proof.
  exact (unitless_content_range_overwrites BlobStore.srvRoot BlobStore.good_srvRoot exSession exEnv
    (exRequestWith "PATCH" (uploadURL "app" exUploadId) ("Content-Range", "2-3") ("", "")
       (str_bytes "cd")) "app" exUploadId (str_bytes "ab") (str_bytes "cd") exRepo_pattern
    (upload_id_pattern Upload.exId 0 eq_refl) (Upload.generateUploadID_good Upload.exId 0 eq_refl)
    exSession_received ltac:(vm_compute; discriminate) eq_refl eq_refl eq_refl eq_refl).
Defined.

(** A registry that mirrors [app/...]. *)
Definition exProxy : Mirror.Proxy :=
  Mirror.NewProxy [Mirror.mkMirrorConfig "app" "https://up.example" 0].

Lemma proxied_blob_is_unverified_witness :
  let '(resp, h) := ServeHTTP noFaults (SetProxy exHandler exProxy) exEnv
    (exRequest "GET" (blobURL "app" exOther) []) in
  resp = Ok (mkResponse 200 (blob_headers exOther 4) (Bytes exData)) ∧
  blob_at BlobStore.srvRoot h exOther = None.
Proof.
  assert (exOther ≠ FromBytes exData) as Hne.
  { intros E%(f_equal (String.eqb exOther)). vm_compute in E. discriminate E. }
  exact (proxied_blob_is_unverified BlobStore.srvRoot BlobStore.good_srvRoot (SetProxy exHandler exProxy)
    exEnv (exRequest "GET" (blobURL "app" exOther) []) "app" exOther exProxy
    (Mirror.mkUpstream "app" "https://up.example" 0 "" 0) "app" exData
    eq_refl exRepo_pattern exOther_canonical eq_refl eq_refl ltac:(discriminate) eq_refl eq_refl
    eq_refl eq_refl (lookup_empty _) Hne (conj eq_refl eq_refl)
    (List.Exists_cons_hd _ _ _ (lookup_empty _))).
Defined.

End witnesses.
End V2Blob.
