(* ===== verification/Crc32.v ===== *)
(** Package hash/crc32: [ChecksumIEEE], the reflected CRC-32 of the IEEE
    polynomial, on bit-operations of 32-bit words. *)

From S2P Require Import Prelude.

Module Crc32.

Definition polynomial : Z := 3988292384.

Definition shift_bit (c : Z) : Z :=
  if Z.testbit c 0 then Z.lxor (Z.shiftr c 1) polynomial else Z.shiftr c 1.

Definition update_byte (c : Z) (b : byte) : Z :=
  Nat.iter 8 shift_bit (Z.lxor c (Z_of_byte b)).

Definition update (c : Z) (p : bytes) : Z := foldl update_byte c p.

Definition ChecksumIEEE (p : bytes) : Z := Z.lxor (update 4294967295 p) 4294967295.

Example check_value : ChecksumIEEE (str_bytes "123456789") = 3421780262%Z.
Proof. by vm_compute. Qed.

Definition word (c : Z) : Prop := (0 ≤ c < 2 ^ 32)%Z.

Lemma word_lxor a b : word a → word b → word (Z.lxor a b).
Proof.
  unfold word. intros Ha Hb.
  assert (0 ≤ Z.lxor a b)%Z by (apply Z.lxor_nonneg; lia). split; [done|].
  destruct (decide (Z.lxor a b = 0)%Z) as [->|Hne]; [lia|].
  apply Z.log2_lt_pow2; [lia|].
  eapply Z.le_lt_trans; [apply Z.log2_lxor; lia|].
  apply Z.max_lub_lt.
  - destruct (decide (a = 0)%Z) as [->|]; [done|]. apply Z.log2_lt_pow2; lia.
  - destruct (decide (b = 0)%Z) as [->|]; [done|]. apply Z.log2_lt_pow2; lia.
Qed.

Lemma word_shift_bit c : word c → word (shift_bit c).
Proof.
  intros Hc. assert (word (Z.shiftr c 1)) as Hs.
  { unfold word in *. rewrite Z.shiftr_div_pow2 by done. change (2 ^ 1)%Z with 2%Z.
    split; [apply Z.div_pos; lia|]. apply Z.div_lt_upper_bound; lia. }
  unfold shift_bit. case_match; [|done]. by apply word_lxor.
Qed.

Lemma word_update p : ∀ c, word c → word (update c p).
Proof.
  induction p as [|b p IH]; intros c Hc; [done|]. simpl. apply IH.
  unfold update_byte. assert (word (Z.lxor c (Z_of_byte b))) as H0.
  { apply word_lxor; [done|]. pose proof (Z_of_byte_bound b). unfold word. lia. }
  simpl. by repeat apply word_shift_bit.
Qed.

Lemma word_ChecksumIEEE p : word (ChecksumIEEE p).
Proof. apply word_lxor; [|done]. by apply word_update. Qed.

(** The checksum of a concatenation depends on the first part only through its
    checksum. *)
Lemma ChecksumIEEE_app p p' s :
  ChecksumIEEE p = ChecksumIEEE p' → ChecksumIEEE (p ++ s) = ChecksumIEEE (p' ++ s).
Proof.
  unfold ChecksumIEEE. intros E. assert (update 4294967295 p = update 4294967295 p')%Z as E'.
  { apply (f_equal (λ c, Z.lxor c 4294967295)) in E.
    by rewrite !Z.lxor_assoc, Z.lxor_nilpotent, !Z.lxor_0_r in E. }
  unfold update in *. by rewrite !foldl_app, E'.
Qed.

End Crc32.
