(* ===== verification/HashRing.v ===== *)
(** internal/mesh/hash.go: consistent hashing with virtual nodes. *)

From stdpp Require Import sorting.
From S2P Require Import Prelude GoLib Crc32.

Module HashRing.

Record ConsistentHash := mkRing {
  ch_replicas : Z;
  ch_ring : list Z;
  ch_nodes : gmap Z string;
  ch_members : gset string
}.

Definition NewConsistentHash (replicas : Z) : ConsistentHash :=
  mkRing (if decide (replicas < 1)%Z then 150 else replicas) [] ∅ ∅.

Definition virtualNodeKey (nodeID : string) (replica : Z) : string :=
  nodeID +:+ "#" +:+ string_of_rune replica.

Definition hash (key : string) : Z := Crc32.ChecksumIEEE (str_bytes key).

(** The hashes of the virtual nodes of a node, in the order of the loops of
    [Add] and [Remove]. *)
Definition vhashes (replicas : Z) (nodeID : string) : list Z :=
  (λ i, hash (virtualNodeKey nodeID i)) <$> seqZ 0 replicas.

Definition Add (c : ConsistentHash) (nodeID : string) : ConsistentHash :=
  if decide (nodeID ∈ ch_members c) then c
  else
    let hs := vhashes (ch_replicas c) nodeID in
    mkRing (ch_replicas c) (merge_sort Z.le (ch_ring c ++ hs))
      (foldl (λ m h, <[h := nodeID]> m) (ch_nodes c) hs)
      ({[nodeID]} ∪ ch_members c).

(** [make(\[\]uint32, 0, len(ring)-replicas)] panics on a negative capacity. *)
Definition Remove (c : ConsistentHash) (nodeID : string) : result ConsistentHash :=
  if decide (nodeID ∉ ch_members c) then Ok c
  else
    let nodes := foldl (λ m h, delete h m) (ch_nodes c) (vhashes (ch_replicas c) nodeID) in
    if decide (Z.of_nat (length (ch_ring c)) - ch_replicas c < 0)%Z
    then Panic "makeslice: cap out of range"
    else Ok (mkRing (ch_replicas c) (filter (λ h, is_Some (nodes !! h)) (ch_ring c)) nodes
               (ch_members c ∖ {[nodeID]})).

(** [sort.Search]: the binary search between [i] and [j]; the number of
    rounds is at most the width of the interval. *)
Fixpoint search_loop (fuel : nat) (f : nat → bool) (i j : nat) : nat :=
  match fuel with
  | O => i
  | S fuel =>
    if decide (i < j) then
      let h := Nat.div (i + j) 2 in
      if f h then search_loop fuel f i h else search_loop fuel f (S h) j
    else i
  end.
Definition Search (n : nat) (f : nat → bool) : nat := search_loop n f 0 n.

(** The position of the first virtual node at or after a hash, wrapping
    around. *)
Definition start_index (ring : list Z) (h : Z) : nat :=
  let idx := Search (length ring) (λ i, bool_decide (h ≤ default 0 (ring !! i))%Z) in
  if decide (length ring ≤ idx) then 0 else idx.

(** [c.nodes\[c.ring\[i\]\]]. *)
Definition owner_at (c : ConsistentHash) (i : nat) : string :=
  default "" (ch_nodes c !! default 0%Z (ch_ring c !! i)).

Definition Get (c : ConsistentHash) (key : string) : string :=
  if decide (ch_ring c = []) then ""
  else owner_at c (start_index (ch_ring c) (hash key)).

(** The loop of [GetN]; [None] when the fuel runs out. *)
Fixpoint collect_loop (fuel : nat) (c : ConsistentHash) (n : Z) (idx : nat) (seen : gset string)
    (res : list string) : option (list string) :=
  match fuel with
  | O => None
  | S fuel =>
    if decide (Z.of_nat (length res) < n)%Z then
      let nodeID := owner_at c idx in
      let '(seen, res) := if decide (nodeID ∈ seen) then (seen, res)
                          else ({[nodeID]} ∪ seen, res ++ [nodeID]) in
      collect_loop fuel c n (Nat.modulo (S idx) (length (ch_ring c))) seen res
    else Some res
  end.

Definition GetN (fuel : nat) (c : ConsistentHash) (key : string) (n : Z) : option (list string) :=
  if decide (ch_ring c = []) then Some []
  else
    let n := if decide (n > Z.of_nat (size (ch_members c)))%Z
             then Z.of_nat (size (ch_members c)) else n in
    collect_loop fuel c n (start_index (ch_ring c) (hash key)) ∅ [].

Definition Members (c : ConsistentHash) : list string := elements (ch_members c).
Definition Size (c : ConsistentHash) : Z := Z.of_nat (size (ch_members c)).

(** ** Binary search *)

Lemma search_loop_spec f fuel i j :
  i ≤ j → j - i ≤ fuel →
  (∀ a b, a ≤ b → f a = true → b < j → f b = true) →
  let r := search_loop fuel f i j in
  (i ≤ r ≤ j) ∧ (∀ k, i ≤ k < r → f k = false) ∧ (r < j → f r = true).
Proof.
  revert i j. induction fuel as [|fuel IH]; intros i j Hij Hf Hmono; cbn [search_loop]; cbv zeta.
  - assert (i = j) as -> by lia. split_and!; lia.
  - destruct (decide (i < j)) as [Hlt|Hge]; [|split_and!; lia].
    assert (i ≤ Nat.div (i + j) 2 < j) as Hh.
    { split; [apply Nat.div_le_lower_bound; lia|apply Nat.Div0.div_lt_upper_bound; lia]. }
    set (h := Nat.div (i + j) 2) in *. destruct (f h) eqn:E.
    + destruct (IH i h) as (Hr & Hlo & Hhi); [lia|lia|intros a b ? ? ?; apply (Hmono a b); [done|done|lia]|].
      split; [lia|]. split; [exact Hlo|]. intros _.
      destruct (decide (search_loop fuel f i h < h)) as [?|?]; [by apply Hhi|].
      assert (search_loop fuel f i h = h) as -> by lia. done.
    + destruct (IH (S h) j) as (Hr & Hlo & Hhi); [lia..|done|].
      split; [lia|]. split; [|exact Hhi]. intros k Hk.
      destruct (decide (S h ≤ k)) as [?|?]; [apply Hlo; lia|].
      destruct (f k) eqn:Ek; [|done]. rewrite (Hmono k h) in E; [done|lia|done|lia].
Qed.

(** ** Lists of hashes *)

Lemma foldl_insert_lookup (hs : list Z) (id : string) (m : gmap Z string) h :
  foldl (λ m h, <[h := id]> m) m hs !! h = if decide (h ∈ hs) then Some id else m !! h.
Proof.
  revert m. induction hs as [|x hs IH]; intros m; [done|]. cbn [foldl]. rewrite IH.
  rewrite lookup_insert. repeat case_decide; set_solver.
Qed.

Lemma foldl_delete_lookup (hs : list Z) (m : gmap Z string) h :
  foldl (λ m h, delete h m) m hs !! h = if decide (h ∈ hs) then None else m !! h.
Proof.
  revert m. induction hs as [|x hs IH]; intros m; [done|]. cbn [foldl]. rewrite IH.
  rewrite lookup_delete. repeat case_decide; set_solver.
Qed.

Lemma hash_word key : Crc32.word (hash key).
Proof. apply Crc32.word_ChecksumIEEE. Qed.

Lemma vhashes_word r id h : h ∈ vhashes r id → Crc32.word h.
Proof. intros (i & -> & _)%list_elem_of_fmap. apply hash_word. Qed.

Lemma length_vhashes r id : length (vhashes r id) = Z.to_nat r.
Proof. unfold vhashes. by rewrite length_fmap, length_seqZ. Qed.

(** ** Positions on the circle *)

(** How far a position is ahead of another on the circle of 32-bit words. *)
Definition ahead (from to : Z) : Z := ((to - from) mod 2 ^ 32)%Z.

Lemma ahead_le a b : Crc32.word a → Crc32.word b → (a ≤ b)%Z → ahead a b = (b - a)%Z.
Proof. unfold Crc32.word, ahead. intros. rewrite Z.mod_small; lia. Qed.

Lemma ahead_gt a b : Crc32.word a → Crc32.word b → (b < a)%Z → ahead a b = (b - a + 2 ^ 32)%Z.
Proof.
  unfold Crc32.word, ahead. intros. rewrite <-(Z.mod_add _ 1) by lia. rewrite Z.mod_small; lia.
Qed.

Lemma ahead_inj h a b :
  Crc32.word h → Crc32.word a → Crc32.word b → ahead h a = ahead h b → a = b.
Proof.
  intros Hh Ha Hb. destruct (decide (h ≤ a)%Z), (decide (h ≤ b)%Z);
    rewrite ?(ahead_le h a), ?(ahead_le h b), ?(ahead_gt h a), ?(ahead_gt h b) by (done || lia);
    unfold Crc32.word in *; lia.
Qed.

Lemma sorted_lookup (l : list Z) i j a b :
  StronglySorted Z.le l → i ≤ j → l !! i = Some a → l !! j = Some b → (a ≤ b)%Z.
Proof.
  intros Hs. revert i j. induction Hs as [|x l Hs IH Hx]; intros i j Hij Hi Hj; [done|].
  destruct i as [|i], j as [|j]; simplify_eq/=; [lia| |lia|apply (IH i j); [lia|done..]].
  rewrite Forall_forall in Hx. apply Hx. by eapply list_elem_of_lookup_2.
Qed.

(** The start position is the nearest virtual node ahead of the hash. *)
Lemma start_index_spec ring h :
  StronglySorted Z.le ring → Forall Crc32.word ring → Crc32.word h → ring ≠ [] →
  ∃ x, ring !! start_index ring h = Some x ∧ ∀ y, y ∈ ring → (ahead h x ≤ ahead h y)%Z.
Proof.
  intros Hs Hw Hh Hne. rewrite Forall_forall in Hw. unfold start_index, Search.
  set (f := λ i, bool_decide (h ≤ default 0 (ring !! i))%Z).
  destruct (search_loop_spec f (length ring) 0 (length ring)) as (Hr & Hlo & Hhi); [lia..| |].
  { intros a b Hab Hfa Hb. unfold f in *. apply bool_decide_eq_true in Hfa.
    apply bool_decide_eq_true. destruct (lookup_lt_is_Some_2 ring b Hb) as [y Hy].
    destruct (lookup_lt_is_Some_2 ring a ltac:(lia)) as [x Hx]. rewrite Hx in Hfa. rewrite Hy.
    pose proof (sorted_lookup ring a b x y Hs Hab Hx Hy). simpl in *. lia. }
  set (r := search_loop (length ring) f 0 (length ring)) in *.
  assert (∀ k y, k < r → ring !! k = Some y → (y < h)%Z) as Hbelow.
  { intros k y Hk Hy. specialize (Hlo k ltac:(lia)). unfold f in Hlo. rewrite Hy in Hlo.
    apply bool_decide_eq_false in Hlo. simpl in Hlo. lia. }
  destruct (decide (length ring ≤ r)) as [Hend|Hin].
  - destruct ring as [|x ring]; [done|]. exists x. split; [done|]. intros y Hy.
    assert (∀ z, z ∈ x :: ring → (z < h)%Z) as Hall.
    { intros z [k Hk]%list_elem_of_lookup_1. apply (Hbelow k); [|done].
      apply lookup_lt_Some in Hk. lia. }
    rewrite !ahead_gt by (auto using list_elem_of_here). apply list_elem_of_lookup_1 in Hy as [k Hk].
    pose proof (sorted_lookup (x :: ring) 0 k x y Hs ltac:(lia) eq_refl Hk). lia.
  - destruct (lookup_lt_is_Some_2 ring r ltac:(lia)) as [x Hx]. exists x. split; [done|].
    assert (h ≤ x)%Z as Hhx.
    { specialize (Hhi ltac:(lia)). unfold f in Hhi. rewrite Hx in Hhi.
      by apply bool_decide_eq_true in Hhi. }
    assert (Crc32.word x) by (eapply Hw, list_elem_of_lookup_2; done).
    intros y Hy. assert (Crc32.word y) by auto. rewrite (ahead_le h x) by done.
    apply list_elem_of_lookup_1 in Hy as [k Hk]. destruct (decide (k < r)) as [Hkr|Hkr].
    + specialize (Hbelow k y Hkr Hk). rewrite ahead_gt by done. unfold Crc32.word in *. lia.
    + pose proof (sorted_lookup ring r k x y Hs ltac:(lia) Hx Hk). rewrite ahead_le by (done || lia). lia.
Qed.

(** ** Exact rings *)

(** No virtual node of one of these nodes shares its hash with another's. *)
Definition collision_free (r : Z) (M : gset string) : Prop :=
  ∀ a b h, a ∈ M → b ∈ M → h ∈ vhashes r a → h ∈ vhashes r b → a = b.

(** The ring holds the virtual nodes of its members, and nothing else. *)
Record exact (c : ConsistentHash) : Prop := {
  ex_replicas : (1 ≤ ch_replicas c)%Z;
  ex_sorted : StronglySorted Z.le (ch_ring c);
  ex_ring : ch_ring c ≡ₚ concat (vhashes (ch_replicas c) <$> elements (ch_members c));
  ex_nodes h id : ch_nodes c !! h = Some id ↔ id ∈ ch_members c ∧ h ∈ vhashes (ch_replicas c) id
}.

Lemma exact_new r : exact (NewConsistentHash r).
Proof.
  split; simpl; [case_decide; lia|constructor|by rewrite elements_empty|].
  intros h id. rewrite lookup_empty. split; [done|set_solver].
Qed.

Lemma elem_of_ring c h :
  exact c → h ∈ ch_ring c ↔ ∃ id, id ∈ ch_members c ∧ h ∈ vhashes (ch_replicas c) id.
Proof.
  intros Hex. rewrite (ex_ring c Hex), list_elem_of_In, in_concat. split.
  - intros (l & Hl & Hh). apply list_elem_of_In in Hl, Hh.
    apply list_elem_of_fmap in Hl as (id & -> & Hid). exists id. set_solver.
  - intros (id & Hid & Hh). exists (vhashes (ch_replicas c) id).
    rewrite <-!list_elem_of_In. split; [|done]. apply list_elem_of_fmap. exists id. set_solver.
Qed.

Lemma Add_exact c id :
  exact c → collision_free (ch_replicas c) ({[id]} ∪ ch_members c) → exact (Add c id).
Proof.
  intros [Hr Hs Hp Hn] Hcf. unfold Add. case_decide as Hid; [done|].
  split; cbn [ch_replicas ch_ring ch_nodes ch_members]; [done|apply StronglySorted_merge_sort; [intros ???; lia|intros ??; lia]| |].
  - rewrite merge_sort_Permutation, Hp, elements_disj_union by set_solver.
    rewrite elements_singleton. cbn. by rewrite Permutation_app_comm.
  - intros h x. rewrite foldl_insert_lookup. case_decide as Hh.
    + split; [intros [= <-]; set_solver|]. intros [Hx Hhx]. f_equal.
      apply (Hcf id x h); set_solver.
    + rewrite Hn. set_solver.
Qed.

Lemma Add_members c id : ch_members (Add c id) = {[id]} ∪ ch_members c.
Proof. unfold Add. case_decide; [set_solver|done]. Qed.

Lemma Add_replicas c id : ch_replicas (Add c id) = ch_replicas c.
Proof. unfold Add. by case_decide. Qed.

Lemma filter_concat_all {A} (P : A → Prop) `{∀ x, Decision (P x)} (l : list A) :
  Forall P l → filter P l = l.
Proof.
  induction 1 as [|x l Hx _ IH]; [done|]. rewrite filter_cons_True by done. by rewrite IH.
Qed.

Lemma filter_none {A} (P : A → Prop) `{∀ x, Decision (P x)} (l : list A) :
  Forall (λ x, ¬ P x) l → filter P l = [].
Proof.
  induction 1 as [|x l Hx _ IH]; [done|]. by rewrite filter_cons_False.
Qed.

(** Removing a member of an exact ring does not panic and leaves an exact ring
    of the others. *)
Lemma Remove_exact c id :
  exact c → collision_free (ch_replicas c) (ch_members c) →
  ∃ c', Remove c id = Ok c' ∧ exact c' ∧ ch_members c' = ch_members c ∖ {[id]} ∧
    ch_replicas c' = ch_replicas c.
Proof.
  intros Hex Hcf. pose proof Hex as [Hr Hs Hp Hn]. unfold Remove.
  destruct (decide (id ∈ ch_members c)) as [Hid|Hid].
  2:{ rewrite decide_True by done. exists c. split_and!; [done..|set_solver|done]. }
  rewrite decide_False by auto. set (M := ch_members c ∖ {[id]}).
  assert (ch_members c = {[id]} ∪ M) as HM.
  { apply set_eq. intros x. destruct (decide (x = id)); set_solver. }
  assert (ch_ring c ≡ₚ vhashes (ch_replicas c) id ++ concat (vhashes (ch_replicas c) <$> elements M))
    as Hp'.
  { rewrite Hp, HM, elements_disj_union by set_solver. by rewrite elements_singleton. }
  assert (length (ch_ring c) ≥ Z.to_nat (ch_replicas c)) as Hlen.
  { rewrite Hp', length_app, length_vhashes. lia. }
  rewrite decide_False by lia. eexists. split; [done|]. split; [|done].
  set (nodes := foldl (λ m h, delete h m) (ch_nodes c) (vhashes (ch_replicas c) id)).
  assert (∀ h x, nodes !! h = Some x ↔ x ∈ M ∧ h ∈ vhashes (ch_replicas c) x) as Hnodes.
  { intros h x. unfold nodes. rewrite foldl_delete_lookup. case_decide as Hh.
    - split; [done|]. intros [Hx Hhx]. exfalso. assert (id = x); [|set_solver].
      apply (Hcf id x h); set_solver.
    - rewrite Hn. set_solver. }
  split; cbn [ch_replicas ch_ring ch_nodes ch_members]; [done|by apply StronglySorted_filter| |done].
  rewrite Hp', filter_app, filter_none, filter_concat_all; [done| |].
  - apply Forall_forall. intros h Hh. rewrite list_elem_of_In, in_concat in Hh.
    destruct Hh as (l & Hl & Hh). apply list_elem_of_In in Hl, Hh.
    apply list_elem_of_fmap in Hl as (x & -> & Hx). exists x. apply Hnodes. set_solver.
  - apply Forall_forall. intros h Hh [x Hx]. apply Hnodes in Hx as [Hx Hhx].
    assert (id = x); [|set_solver]. apply (Hcf id x h); set_solver.
Qed.

(** ** The owner of a key *)

(** The virtual node nearest ahead of a key. *)
Definition nearest (c : ConsistentHash) (key : string) (h : Z) : Prop :=
  h ∈ ch_ring c ∧ ∀ y, y ∈ ch_ring c → (ahead (hash key) h ≤ ahead (hash key) y)%Z.

Lemma ring_word c h : exact c → h ∈ ch_ring c → Crc32.word h.
Proof. intros Hex (id & _ & Hh)%elem_of_ring; [|done]. by eapply vhashes_word. Qed.

Lemma ring_words c : exact c → Forall Crc32.word (ch_ring c).
Proof. intros Hex. apply Forall_forall. intros h. by apply ring_word. Qed.

Lemma nearest_unique c key h h' : exact c → nearest c key h → nearest c key h' → h = h'.
Proof.
  intros Hex [Hh Hn] [Hh' Hn']. apply (ahead_inj (hash key)); eauto using ring_word, hash_word.
  specialize (Hn h' Hh'). specialize (Hn' h Hh). lia.
Qed.

Lemma start_nearest c key :
  exact c → ch_ring c ≠ [] →
  ∃ h, ch_ring c !! start_index (ch_ring c) (hash key) = Some h ∧ nearest c key h ∧
    ch_nodes c !! h = Some (owner_at c (start_index (ch_ring c) (hash key))).
Proof.
  intros Hex Hne.
  destruct (start_index_spec (ch_ring c) (hash key)) as (h & Hl & Hmin);
    [apply Hex|by apply ring_words|apply hash_word|done|].
  exists h. split; [done|]. assert (h ∈ ch_ring c) as Hh by by eapply list_elem_of_lookup_2.
  split; [done|]. unfold owner_at. rewrite Hl. simpl.
  apply elem_of_ring in Hh as (id & Hid); [|done]. apply (ex_nodes c Hex) in Hid. by rewrite Hid.
Qed.

Lemma Get_nearest c key :
  exact c → ch_ring c ≠ [] → ∃ h, nearest c key h ∧ ch_nodes c !! h = Some (Get c key).
Proof.
  intros Hex Hne. destruct (start_nearest c key Hex Hne) as (h & _ & Hn & Ho).
  exists h. split; [done|]. unfold Get. by rewrite decide_False.
Qed.

Lemma ring_empty c : exact c → ch_ring c = [] ↔ ch_members c = ∅.
Proof.
  intros Hex. split; intros E.
  - apply set_eq. intros id. split; [|set_solver]. intros Hid. exfalso.
    destruct (vhashes (ch_replicas c) id) as [|h l] eqn:Hv.
    { apply (f_equal length) in Hv. rewrite length_vhashes in Hv.
      pose proof (ex_replicas c Hex). simpl in Hv. lia. }
    assert (h ∈ ch_ring c) as Hh.
    { apply elem_of_ring; [done|]. exists id. rewrite Hv. split; [done|apply list_elem_of_here]. }
    rewrite E in Hh. by apply not_elem_of_nil in Hh.
  - pose proof (ex_ring c Hex) as Hp. rewrite E, elements_empty in Hp. simpl in Hp.
    by apply Permutation_nil_r in Hp.
Qed.

(** ** Histories *)

Inductive rop := RAdd (id : string) | RRemove (id : string).

Definition rop_id (o : rop) : string := match o with RAdd id | RRemove id => id end.

Definition ring_step (c : ConsistentHash) (o : rop) : result ConsistentHash :=
  match o with RAdd id => Ok (Add c id) | RRemove id => Remove c id end.

Fixpoint ring_run (os : list rop) (c : ConsistentHash) : result ConsistentHash :=
  match os with
  | [] => Ok c
  | o :: os => c ← ring_step c o; ring_run os c
  end.

(** The members a history leaves. *)
Definition members_after (os : list rop) (M : gset string) : gset string :=
  foldl (λ M o, match o with RAdd id => {[id]} ∪ M | RRemove id => M ∖ {[id]} end) M os.

Lemma collision_free_subseteq r M M' : M' ⊆ M → collision_free r M → collision_free r M'.
Proof. intros Hs Hcf a b h Ha Hb. apply Hcf; set_solver. Qed.

Lemma ring_run_exact U os c :
  exact c → ch_members c ⊆ U → Forall (λ o, rop_id o ∈ U) os →
  collision_free (ch_replicas c) U →
  ∃ c', ring_run os c = Ok c' ∧ exact c' ∧ ch_members c' = members_after os (ch_members c) ∧
    ch_replicas c' = ch_replicas c.
Proof.
  intros Hex HM Hos Hcf. revert c Hex HM Hcf. induction Hos as [|o os Ho _ IH]; intros c Hex HM Hcf.
  { exists c. done. }
  destruct o as [id|id]; simpl in *.
  - destruct (IH (Add c id)) as (c' & HR & Hex' & Hm & Hr).
    + apply Add_exact; [done|]. eapply collision_free_subseteq; [|exact Hcf]. set_solver.
    + rewrite Add_members. set_solver.
    + by rewrite Add_replicas.
    + exists c'. rewrite Add_members in Hm. rewrite Add_replicas in Hr. done.
  - destruct (Remove_exact c id Hex) as (c1 & -> & Hex1 & Hm1 & Hr1).
    { by eapply collision_free_subseteq. }
    destruct (IH c1) as (c' & HR & Hex' & Hm & Hr); [done|set_solver|by rewrite Hr1|].
    exists c'. simpl. rewrite Hm1 in Hm. rewrite Hr1 in Hr. done.
Qed.

(** ** Collecting the replicas *)

(** The owners met from a position, in cyclic order. *)
Fixpoint owners_from (c : ConsistentHash) (k idx : nat) : list string :=
  match k with
  | O => []
  | S k => owner_at c idx :: owners_from c k (Nat.modulo (S idx) (length (ch_ring c)))
  end.

(** One pass of the loop over a list of owners. *)
Definition collected (res : list string) (owners : list string) : list string :=
  foldl (λ res x, if decide (x ∈ res) then res else res ++ [x]) res owners.

Lemma collected_NoDup owners : ∀ res, NoDup res → NoDup (collected res owners).
Proof.
  induction owners as [|x owners IH]; intros res Hres; [done|]. simpl. apply IH.
  case_decide; [done|]. apply NoDup_app. split; [done|]. split; [set_solver|apply NoDup_singleton].
Qed.

Lemma elem_of_collected owners x : ∀ res, x ∈ collected res owners ↔ x ∈ res ∨ x ∈ owners.
Proof.
  induction owners as [|y owners IH]; intros res; simpl; [set_solver|].
  rewrite IH. case_decide; set_solver.
Qed.

Lemma collected_prefix owners : ∀ res, ∃ t, collected res owners = res ++ t.
Proof.
  induction owners as [|y owners IH]; intros res; [exists []; by rewrite app_nil_r|]. simpl.
  destruct (IH (if decide (y ∈ res) then res else res ++ [y])) as [t ->].
  case_decide; [eauto|]. exists (y :: t). by rewrite <-app_assoc.
Qed.

(** The loop stops with the first [n] of the distinct owners it meets, once
    there are [n] among the next [k]. *)
Lemma collect_loop_spec c n k : ∀ fuel idx seen res,
  k < fuel → (∀ x, x ∈ seen ↔ x ∈ res) → NoDup res → (Z.of_nat (length res) ≤ n)%Z →
  (n ≤ Z.of_nat (length (collected res (owners_from c k idx))))%Z →
  collect_loop fuel c n idx seen res =
    Some (take (Z.to_nat n) (collected res (owners_from c k idx))).
Proof.
  induction k as [|k IH]; intros fuel idx seen res Hf Hseen Hnd Hle Hlen.
  - destruct fuel as [|fuel]; [lia|]. simpl in *. rewrite decide_False by lia.
    f_equal. rewrite take_ge; [done|lia].
  - destruct fuel as [|fuel]; [lia|]. cbn [collect_loop].
    destruct (decide (Z.of_nat (length res) < n)%Z) as [Hlt|Hge].
    + cbn [owners_from collected foldl] in *. set (x := owner_at c idx) in *.
      destruct (decide (x ∈ seen)) as [Hx|Hx].
      * assert (x ∈ res) as Hx' by by apply Hseen.
        rewrite (decide_True _ _ Hx') in *. apply IH; [lia|done..].
      * assert (x ∉ res) as Hx' by by rewrite <-Hseen.
        rewrite (decide_False _ _ Hx') in *. apply IH; [lia| | |rewrite length_app; simpl; lia|done].
        { intros y. rewrite elem_of_union, elem_of_singleton, elem_of_app, list_elem_of_singleton, Hseen.
          tauto. }
        apply NoDup_app. split; [done|]. split; [set_solver|apply NoDup_singleton].
    + assert (Z.to_nat n = length res) as -> by lia.
      destruct (collected_prefix (owners_from c (S k) idx) res) as [t ->].
      by rewrite take_app_length.
Qed.

(** A full turn meets every position. *)
Lemma owners_from_all c k : ∀ idx i,
  idx < length (ch_ring c) → i < k →
  owner_at c (Nat.modulo (idx + i) (length (ch_ring c))) ∈ owners_from c k idx.
Proof.
  induction k as [|k IH]; intros idx i Hidx Hi; [lia|]. cbn [owners_from].
  destruct i as [|i].
  - rewrite Nat.add_0_r, Nat.mod_small by done. apply list_elem_of_here.
  - apply list_elem_of_further.
    assert (Nat.modulo (idx + S i) (length (ch_ring c)) =
      Nat.modulo (Nat.modulo (S idx) (length (ch_ring c)) + i) (length (ch_ring c))) as ->.
    { rewrite Nat.Div0.add_mod_idemp_l. f_equal. lia. }
    apply IH; [|lia]. apply Nat.mod_upper_bound. lia.
Qed.

Lemma owners_from_members c k : ∀ idx x,
  exact c → idx < length (ch_ring c) → x ∈ owners_from c k idx → x ∈ ch_members c.
Proof.
  induction k as [|k IH]; intros idx x Hex Hidx; [by intros ?%not_elem_of_nil|]. cbn [owners_from].
  intros [->|Hx]%elem_of_cons.
  - destruct (lookup_lt_is_Some_2 (ch_ring c) idx Hidx) as [h Hh]. unfold owner_at. rewrite Hh. simpl.
    apply list_elem_of_lookup_2, elem_of_ring in Hh as (id & Hid); [|done].
    pose proof (proj2 (ex_nodes c Hex h id) Hid) as ->. apply Hid.
  - eapply IH; [done| |exact Hx]. apply Nat.mod_upper_bound. lia.
Qed.

Lemma full_turn c idx x :
  exact c → idx < length (ch_ring c) →
  x ∈ owners_from c (length (ch_ring c)) idx ↔ x ∈ ch_members c.
Proof.
  intros Hex Hidx. split; [by apply owners_from_members|]. intros Hx.
  destruct (vhashes (ch_replicas c) x) as [|h l] eqn:Hv.
  { apply (f_equal length) in Hv. rewrite length_vhashes in Hv.
    pose proof (ex_replicas c Hex). simpl in Hv. lia. }
  assert (x ∈ ch_members c ∧ h ∈ vhashes (ch_replicas c) x) as Hxh.
  { split; [done|]. rewrite Hv. apply list_elem_of_here. }
  assert (h ∈ ch_ring c) as [j Hj]%list_elem_of_lookup_1 by (apply elem_of_ring; eauto).
  pose proof (lookup_lt_Some _ _ _ Hj) as Hjl.
  assert (owner_at c j = x) as <-.
  { unfold owner_at. rewrite Hj. simpl. apply (ex_nodes c Hex) in Hxh. by rewrite Hxh. }
  destruct (decide (idx ≤ j)) as [Hle|Hlt].
  - rewrite <-(Nat.mod_small j (length (ch_ring c))) by done.
    replace j with (idx + (j - idx)) by lia. apply owners_from_all; [done|lia].
  - assert (j = Nat.modulo (idx + (length (ch_ring c) + j - idx)) (length (ch_ring c))) as Hm.
    { replace (idx + (length (ch_ring c) + j - idx)) with (j + 1 * length (ch_ring c)) by lia.
      rewrite Nat.Div0.mod_add. by rewrite Nat.mod_small. }
    rewrite Hm. apply owners_from_all; [done|lia].
Qed.

(** ** Properties *)

(** After any history of joins and departures, among nodes whose virtual
    nodes do not collide, the ring never panics and assigns every key to the
    current member that owns the virtual node nearest ahead of the key's hash
    on the circle, and to no node exactly when there are no members. *)
Theorem ring_assigns_nearest U os r :
  collision_free (ch_replicas (NewConsistentHash r)) U → Forall (λ o, rop_id o ∈ U) os →
  ∃ c, ring_run os (NewConsistentHash r) = Ok c ∧ ch_members c = members_after os ∅ ∧
  ∀ key, (ch_members c = ∅ → Get c key = "") ∧
    (ch_members c ≠ ∅ → Get c key ∈ ch_members c ∧
       ∃ h, h ∈ vhashes (ch_replicas c) (Get c key) ∧
         ∀ id y, id ∈ ch_members c → y ∈ vhashes (ch_replicas c) id →
           (ahead (hash key) h ≤ ahead (hash key) y)%Z).
Proof.
  intros Hcf Hos.
  destruct (ring_run_exact U os (NewConsistentHash r)) as (c & HR & Hex & Hm & _);
    [apply exact_new|simpl; set_solver|done..|].
  exists c. split; [done|]. split; [exact Hm|]. intros key. split.
  - intros E. apply ring_empty in E; [|done]. unfold Get. by rewrite decide_True.
  - intros Hne. destruct (Get_nearest c key Hex) as (h & [Hh Hmin] & Hnode).
    { by rewrite ring_empty. }
    apply (ex_nodes c Hex) in Hnode as [Hmem Hv]. split; [done|]. exists h. split; [done|].
    intros id y Hid Hy. apply Hmin, elem_of_ring; eauto.
Qed.

(** A membership change moves as few keys as possible: when a node joins,
    a key keeps its owner or moves to the new node; when a node leaves, only
    keys it owned change owner. *)
Theorem membership_change_is_minimal c id key :
  exact c → collision_free (ch_replicas c) ({[id]} ∪ ch_members c) →
  (Get (Add c id) key = Get c key ∨ Get (Add c id) key = id) ∧
  ∃ c', Remove c id = Ok c' ∧ (Get c key ≠ id → Get c' key = Get c key).
Proof.
  intros Hex Hcf. pose proof (Add_exact c id Hex Hcf) as Hadd. split.
  - destruct (Get_nearest (Add c id) key Hadd) as (h & [Hh Hmin] & Hnode).
    { rewrite ring_empty, Add_members by done. set_solver. }
    apply (ex_nodes _ Hadd) in Hnode as [Hmem Hv]. rewrite Add_members in Hmem.
    rewrite Add_replicas in Hv. apply elem_of_union in Hmem as [Hmem|Hmem]; [set_solver|left].
    assert (h ∈ ch_ring c) as Hhc by (apply elem_of_ring; eauto).
    assert (nearest c key h) as Hn.
    { split; [done|]. intros y (x & Hx & Hy)%elem_of_ring; [|done]. apply Hmin, elem_of_ring; [done|].
      exists x. rewrite Add_members, Add_replicas. set_solver. }
    destruct (Get_nearest c key Hex) as (h' & Hn' & Hnode').
    { intros E. rewrite E in Hhc. by apply not_elem_of_nil in Hhc. }
    rewrite <-(nearest_unique c key h h' Hex Hn Hn') in Hnode'.
    assert (ch_nodes c !! h = Some (Get (Add c id) key)) as Hnode by by apply (ex_nodes c Hex).
    congruence.
  - destruct (Remove_exact c id Hex) as (c' & -> & Hex' & Hm & Hr).
    { eapply collision_free_subseteq; [|exact Hcf]. set_solver. }
    exists c'. split; [done|]. intros Hne.
    destruct (decide (ch_ring c = [])) as [E|E].
    { unfold Get. rewrite (decide_True _ _ E), decide_True; [done|].
      apply ring_empty; [done|]. apply ring_empty in E; [|done]. rewrite Hm, E. set_solver. }
    destruct (Get_nearest c key Hex E) as (h & [Hh Hmin] & Hnode).
    assert (h ∈ ch_ring c') as Hh'.
    { apply (ex_nodes c Hex) in Hnode as [? ?]. apply elem_of_ring; [done|].
      exists (Get c key). rewrite Hm, Hr. set_solver. }
    assert (nearest c' key h) as Hn.
    { split; [done|]. intros y (x & Hx & Hy)%elem_of_ring; [|done]. apply Hmin, elem_of_ring; [done|].
      exists x. rewrite Hm in Hx. rewrite Hr in Hy. set_solver. }
    destruct (Get_nearest c' key Hex') as (h' & Hn' & Hnode').
    { intros E'. rewrite E' in Hh'. by apply not_elem_of_nil in Hh'. }
    rewrite <-(nearest_unique c' key h h' Hex' Hn Hn') in Hnode'.
    apply (ex_nodes c' Hex') in Hnode' as [Hg Hv]. rewrite Hm in Hg. rewrite Hr in Hv.
    assert (ch_nodes c !! h = Some (Get c' key)) as Hnode'.
    { apply (ex_nodes c Hex). set_solver. }
    congruence.
Qed.

(** [GetN] terminates and returns the replicas: on a ring without collisions
    the loop ends within one turn, with as many distinct members as asked for
    (at most all of them, none for a count that is not positive), the first
    being the owner [Get] returns. *)
Theorem GetN_spec c key n fuel :
  exact c → length (ch_ring c) < fuel →
  ∃ l, GetN fuel c key n = Some l ∧ NoDup l ∧ Forall (λ x, x ∈ ch_members c) l ∧
    Z.of_nat (length l) = Z.max 0 (Z.min n (Z.of_nat (size (ch_members c)))) ∧
    (l ≠ [] → head l = Some (Get c key)).
Proof.
  intros Hex Hf. unfold GetN, Get. destruct (decide (ch_ring c = [])) as [E|E].
  { exists []. apply ring_empty in E; [|done]. rewrite E, size_empty.
    split_and!; [done|constructor|constructor|simpl; lia|done]. }
  destruct (start_nearest c key Hex E) as (h & Hl & _ & _).
  pose proof (lookup_lt_Some _ _ _ Hl) as Hidx.
  set (idx := start_index (ch_ring c) (hash key)) in *.
  set (all := collected [] (owners_from c (length (ch_ring c)) idx)).
  assert (NoDup all) as Hnd by apply collected_NoDup, NoDup_nil_2.
  assert (∀ x, x ∈ all ↔ x ∈ ch_members c) as Hall.
  { intros x. unfold all. rewrite elem_of_collected, full_turn by done. set_solver. }
  assert (length all = size (ch_members c)) as Hsz.
  { rewrite <-(size_list_to_set (C := gset string) all Hnd). f_equal. apply set_eq. intros x.
    by rewrite elem_of_list_to_set. }
  set (m := if decide (n > Z.of_nat (size (ch_members c)))%Z then _ else n).
  assert (m ≤ Z.of_nat (size (ch_members c)))%Z as Hm by (unfold m; case_decide; lia).
  destruct (decide (m < 0)%Z) as [Hneg|Hpos].
  { exists []. destruct fuel as [|fuel]; [lia|]. cbn [collect_loop].
    rewrite decide_False by (simpl; lia).
    split_and!; [done|constructor|constructor| |done]. simpl. unfold m in Hneg. case_decide; lia. }
  exists (take (Z.to_nat m) all). split; [|split; [|split; [|split]]].
  - apply collect_loop_spec; [lia|set_solver|constructor|simpl; lia|]. fold all. lia.
  - apply (sublist_NoDup _ all); [done|]. apply sublist_take.
  - apply Forall_forall. intros x Hx. apply Hall. rewrite <-(take_drop (Z.to_nat m) all).
    apply elem_of_app. by left.
  - rewrite length_take. unfold m in *. case_decide; lia.
  - destruct (collected_prefix (owners_from c (pred (length (ch_ring c)))
      (Nat.modulo (S idx) (length (ch_ring c)))) [owner_at c idx]) as [t Ht].
    assert (all = owner_at c idx :: t) as ->.
    { unfold all. destruct (length (ch_ring c)) as [|k] eqn:Hk; [lia|]. simpl pred in Ht.
      cbn [owners_from collected foldl]. rewrite decide_False by apply not_elem_of_nil.
      rewrite Hk. exact Ht. }
    destruct (Z.to_nat m); done.
Qed.

(** Nodes whose identifiers have the same CRC-32 break the ring: all their
    virtual nodes coincide, so after both have joined the first owns no key
    and asking for two replicas never ends; removing the second empties the
    ring, so a cluster with a member left assigns every key to no node, and
    removing the first as well panics. *)
Theorem equal_checksums_break_ring r a b key fuel :
  a ≠ b → hash a = hash b →
  let c := Add (Add (NewConsistentHash r) a) b in
  ch_members c = {[a; b]} ∧
  Get c key = b ∧
  GetN fuel c key 2 = None ∧
  ∃ c', Remove c b = Ok c' ∧ ch_members c' = {[a]} ∧ Get c' key = "" ∧
    Remove c' a = Panic "makeslice: cap out of range".
Proof.
  intros Hne Hh.
  assert (∀ r, vhashes r a = vhashes r b) as Hv.
  { intros r'. unfold vhashes. apply list_fmap_ext. intros _ i _. unfold hash, virtualNodeKey in *.
    rewrite !str_bytes_app. by apply Crc32.ChecksumIEEE_app. }
  set (c0 := NewConsistentHash r). set (k := ch_replicas c0).
  assert (1 ≤ k)%Z as Hk by (unfold k, c0; simpl; case_decide; lia).
  set (hs := vhashes k b). intros c.
  assert (ch_members c = {[a; b]}) as Hm by (unfold c; rewrite !Add_members; set_solver).
  assert (ch_replicas c = k) as Hr by (unfold c; by rewrite !Add_replicas).
  assert (ch_ring (Add c0 a) ≡ₚ hs) as Hring1.
  { unfold Add. rewrite decide_False by set_solver. simpl. rewrite merge_sort_Permutation.
    unfold c0. simpl. fold c0. by rewrite Hv. }
  assert (ch_ring c ≡ₚ hs ++ hs ∧ ∀ h, ch_nodes c !! h = if decide (h ∈ hs) then Some b else None)
    as [Hring Hnodes].
  { unfold c at 1 2. unfold Add at 1 3. rewrite decide_False by (rewrite Add_members; set_solver).
    cbn [ch_ring ch_nodes]. rewrite Add_replicas. fold k hs. split.
    - by rewrite merge_sort_Permutation, Hring1.
    - intros h. rewrite foldl_insert_lookup. case_decide; [done|].
      unfold Add. rewrite decide_False by set_solver. cbn [ch_nodes].
      rewrite foldl_insert_lookup. fold k. rewrite Hv. by rewrite decide_False. }
  assert (length hs = Z.to_nat k) as Hlen by apply length_vhashes.
  assert (ch_ring c ≠ []) as Hne'.
  { intros E. rewrite E in Hring. apply Permutation_length in Hring.
    rewrite length_app in Hring. simpl in Hring. lia. }
  assert (∀ i, i < length (ch_ring c) → owner_at c i = b) as Hown.
  { intros i Hi. unfold owner_at. destruct (lookup_lt_is_Some_2 _ i Hi) as [h Hl]. rewrite Hl. simpl.
    rewrite Hnodes, decide_True; [done|]. apply list_elem_of_lookup_2 in Hl.
    assert (h ∈ hs ++ hs) as Hl' by (rewrite <-Hring; exact Hl). set_solver. }
  assert (start_index (ch_ring c) (hash key) < length (ch_ring c)) as Hidx.
  { destruct (start_index_spec (ch_ring c) (hash key)) as (x & Hx & _);
      [| |apply hash_word|done|by apply lookup_lt_Some in Hx].
    - unfold c, Add at 1. rewrite decide_False by (rewrite Add_members; set_solver). cbn [ch_ring].
      apply StronglySorted_merge_sort; [intros ???; lia|intros ??; lia].
    - rewrite Hring. rewrite Forall_app. split; apply Forall_forall; intros h; apply vhashes_word. }
  assert (∀ fuel idx res seen, idx < length (ch_ring c) → (∀ x, x ∈ seen ↔ x ∈ res) →
    res = [] ∨ res = [b] → collect_loop fuel c 2 idx seen res = None) as Hloop.
  { intros fuel'. induction fuel' as [|fuel' IH]; intros idx res seen Hi Hseen Hres; [done|].
    cbn [collect_loop]. rewrite decide_True by (destruct Hres as [-> | ->]; simpl; lia).
    rewrite Hown by done. assert (Nat.modulo (S idx) (length (ch_ring c)) < length (ch_ring c))
      by (apply Nat.mod_upper_bound; lia).
    case_decide as Hb; [by apply IH|].
    destruct Hres as [-> | ->]; [|by destruct Hb; apply Hseen; set_solver].
    apply IH; [done|set_solver|by right]. }
  split; [done|]. split; [|split].
  - unfold Get. rewrite decide_False by done. by apply Hown.
  - unfold GetN. rewrite decide_False by done. rewrite Hm.
    assert (size ({[a; b]} : gset string) = 2) as ->.
    { rewrite size_union, !size_singleton by set_solver. done. }
    rewrite decide_False by lia. apply Hloop; [done|set_solver|by left].
  - assert (foldl (λ m h, delete h m) (ch_nodes c) hs = ∅) as Hdel.
    { apply map_eq. intros h. rewrite foldl_delete_lookup, lookup_empty, Hnodes. by case_decide. }
    unfold Remove at 1. rewrite decide_False by (rewrite Hm; set_solver). rewrite Hr. fold hs.
    assert (length (ch_ring c) = length hs + length hs) as Hl by by rewrite Hring, length_app.
    rewrite decide_False by lia.
    eexists. split; [done|]. cbn [ch_members]. rewrite Hdel.
    assert (filter (λ h, is_Some ((∅ : gmap Z string) !! h)) (ch_ring c) = []) as ->.
    { apply filter_none, Forall_forall. intros h _. rewrite lookup_empty. by intros [? ?]. }
    split; [rewrite Hm; set_solver|]. split; [done|].
    unfold Remove. cbn [ch_members ch_ring ch_replicas].
    rewrite decide_False by (rewrite Hm; set_solver). by rewrite decide_True by (simpl; lia).
Qed.

(** ** Witnesses *)

Definition exNodes : list rop := [RAdd "node-1"; RAdd "node-2"; RRemove "node-1"; RAdd "node-3"].
Definition exU : gset string := {["node-1"; "node-2"; "node-3"]}.

Definition disjoint_hashes (r : Z) (l : list string) : bool :=
  bool_decide (NoDup (concat (vhashes r <$> l))).

Lemma disjoint_collision_free r l :
  disjoint_hashes r l = true → collision_free r (list_to_set l).
Proof.
  unfold disjoint_hashes, collision_free. intros Hd%bool_decide_eq_true a b h.
  rewrite !elem_of_list_to_set. intros Ha Hb Hha Hhb. destruct (decide (a = b)) as [|Hne]; [done|].
  exfalso. induction l as [|x l IH]; [by apply not_elem_of_nil in Ha|].
  rewrite fmap_cons in Hd. cbn [concat] in Hd. apply NoDup_app in Hd as (_ & Hd1 & Hd2).
  assert (∀ y, y ∈ l → h ∈ vhashes r y → h ∈ concat (vhashes r <$> l)) as Hin.
  { intros y Hy Hh. apply list_elem_of_In, in_concat. exists (vhashes r y).
    split; apply list_elem_of_In; [|done]. apply list_elem_of_fmap. eauto. }
  apply elem_of_cons in Ha, Hb. destruct Ha as [->|Ha], Hb as [->|Hb]; [done| | |by apply IH].
  - by apply (Hd1 h Hha), (Hin b).
  - by apply (Hd1 h Hhb), (Hin a).
Qed.

Lemma exU_free : collision_free 4 exU.
Proof.
  eapply collision_free_subseteq; [|apply (disjoint_collision_free 4 ["node-1"; "node-2"; "node-3"])].
  - unfold exU. set_solver.
  - by vm_compute.
Qed.

Lemma ring_assigns_nearest_witness :
  ∃ c, ring_run exNodes (NewConsistentHash 4) = Ok c ∧
    ch_members c = members_after exNodes ∅ ∧ Get c "blobs/app" ∈ ch_members c.
Proof.
  destruct (ring_assigns_nearest exU exNodes 4 exU_free) as (c & HR & Hm & Hk).
  - apply (bool_decide_unpack _). vm_compute. exact I.
  - exists c. split; [exact HR|]. split; [exact Hm|]. apply (Hk "blobs/app").
    rewrite Hm. apply (bool_decide_unpack _). vm_compute. exact I.
Defined.

(** Two members of three known nodes. *)
Definition exRing : ConsistentHash := Add (Add (NewConsistentHash 4) "node-1") "node-2".

Lemma exRing_exact : exact exRing.
Proof.
  assert (∀ M, M ⊆ exU → collision_free 4 M) as Hcf.
  { intros M HM. eapply collision_free_subseteq; [exact HM|exact exU_free]. }
  apply Add_exact; [apply Add_exact; [apply exact_new|]|]; rewrite ?Add_replicas, ?Add_members;
    apply Hcf; unfold exU; cbn [ch_members NewConsistentHash]; set_solver.
Qed.

Lemma exRing_members : ch_members exRing = {["node-2"]} ∪ ({["node-1"]} ∪ ∅).
Proof. unfold exRing. by rewrite !Add_members. Qed.

Lemma exRing_replicas : ch_replicas exRing = 4%Z.
Proof. unfold exRing. by rewrite !Add_replicas. Qed.

Lemma exRing_free : collision_free (ch_replicas exRing) ({["node-3"]} ∪ ch_members exRing).
Proof.
  rewrite exRing_replicas, exRing_members. eapply collision_free_subseteq; [|exact exU_free].
  unfold exU. set_solver.
Qed.

Lemma membership_change_is_minimal_witness :
  Get exRing "blobs/app" = "node-1" ∧
  ∃ c', Remove exRing "node-3" = Ok c' ∧ Get c' "blobs/app" = Get exRing "blobs/app".
Proof.
  assert (Get exRing "blobs/app" = "node-1") as HG by (vm_compute; reflexivity).
  split; [exact HG|].
  destruct (membership_change_is_minimal exRing "node-3" "blobs/app" exRing_exact exRing_free)
    as (_ & c' & HR & Hk).
  exists c'. split; [exact HR|]. apply Hk. rewrite HG. discriminate.
Defined.

Lemma GetN_spec_witness :
  ∃ l, GetN 20 exRing "blobs/app" 3 = Some l ∧ NoDup l ∧ length l = 2.
Proof.
  destruct (GetN_spec exRing "blobs/app" 3 20 exRing_exact) as (l & HG & Hnd & _ & Hlen & _).
  - vm_compute. lia.
  - exists l. split; [exact HG|]. split; [exact Hnd|].
    assert (size (ch_members exRing) = 2) as Hs by (rewrite exRing_members; vm_compute; reflexivity).
    rewrite Hs in Hlen. lia.
Defined.

(** Two host names with the same CRC-32. *)
Lemma equal_checksums_break_ring_witness :
  let a := "registry-134479.example.com" in
  let b := "reg44172.local" in
  let c := Add (Add (NewConsistentHash 150) a) b in
  hash a = hash b ∧ GetN 1000 c "blobs/app" 2 = None ∧
  ∃ c', Remove c b = Ok c' ∧ ch_members c' = {[a]} ∧ Get c' "blobs/app" = "".
Proof.
  intros a b c. assert (hash a = hash b) as Hh by (vm_compute; reflexivity).
  destruct (equal_checksums_break_ring 150 a b "blobs/app" 1000 ltac:(discriminate) Hh)
    as (_ & _ & HG & c' & HR & Hm & Hk & _).
  split; [exact Hh|]. split; [exact HG|]. exists c'. split; [exact HR|]. exact (conj Hm Hk).
Defined.
End HashRing.
