(* ===== verification/Events.v ===== *)
(** internal/events: the event log, the clone history and the download
    counters, kept in the metadata store under the prefixes [ev:], [ch:],
    [dl:] and [dlc:]. *)

From stdpp Require Import sorting.
From S2P Require Import Prelude GoLib Badger Metadata.

Module Events.

Definition SeverityInfo : string := "info".
Definition SeverityWarning : string := "warning".
Definition SeverityError : string := "error".
Definition SeveritySuccess : string := "success".

Definition EventReleaseDiscovered : string := "release.discovered".
Definition EventReleaseCloneStart : string := "release.clone_start".
Definition EventReleaseCloned : string := "release.cloned".
Definition EventReleaseReady : string := "release.ready".
Definition EventReleaseFailed : string := "release.failed".
Definition EventDownloadArtifact : string := "download.artifact".
Definition EventDiscoveryRun : string := "discovery.run".

Record Event := mkEvent {
  ev_ID : string;
  ev_Type : string;
  ev_Severity : string;
  ev_Time : Time;
  ev_Version : string;
  ev_Details : string;
  ev_Extra : gmap string string
}.

Record CloneHistoryEntry := mkCloneHistoryEntry {
  ch_Version : string;
  ch_Phase : string;
  ch_Duration : string;
  ch_Error : string;
  ch_StartedAt : Time;
  ch_CompletedAt : Time;
  ch_TotalBlobs : Z;
  ch_TotalBytes : Z;
  ch_Success : bool
}.

Record DownloadRecord := mkDownloadRecord {
  dr_Time : Time;
  dr_Version : string;
  dr_Artifact : string;
  dr_ClientIP : string;
  dr_UserAgent : string;
  dr_Size : Z;
  dr_Duration : Z
}.

Record DownloadCounter := mkDownloadCounter {
  dc_TotalDownloads : Z;
  dc_TotalBytes : Z;
  dc_ByVersion : gmap string Z;
  dc_ByArtifact : gmap string Z;
  dc_LastDownload : Time
}.

Definition prefixEvent : string := "ev:".
Definition prefixCloneHistory : string := "ch:".
Definition prefixDownload : string := "dl:".
Definition prefixDLCounter : string := "dlc:".

(** [%019d]. *)
Definition fmt_019d (z : Z) : string :=
  if decide (0 ≤ z)%Z then fmt_0d 19 z
  else "-" +:+ (if decide (- z < 10 ^ 18)%Z then fmt_0d 18 (- z) else fmt_d (- z)).

Definition reverseTimestamp (now : Time) : string :=
  fmt_019d (wrap64 (maxInt64 - UnixNano now)).

(** The values that decode. *)
Definition decoded {A} `{!Json A} (v : bytes) : option A :=
  match json_Unmarshal v with Ok a => Some a | _ => None end.

Section store.
Context `{Badger} `{!Json Event} `{!Json CloneHistoryEntry} `{!Json DownloadRecord}.
Context `{!Json DownloadCounter}.

(** ** Events *)

(** [now1] is the clock when the identifier is made, [now2] when the time of
    the event is taken. *)
Definition RecordEvent (db : DB) (now1 now2 : Time) (typ sev version details : string)
    (extra : gmap string string) : DB :=
  let ev := mkEvent (reverseTimestamp now1) typ sev now2 version details extra in
  match json_Marshal ev with
  | Ok data => (MetadataStore.PutRaw db (prefixEvent +:+ ev_ID ev) data).2
  | _ => db
  end.

(** Whether an event passes the type filter. *)
Definition passes (typeFilter : string) (ev : Event) : Prop :=
  typeFilter = "" ∨ ev_Type ev = typeFilter.
Global Instance passes_dec f ev : Decision (passes f ev) := _.

Fixpoint events_loop (limit : Z) (typeFilter : string) (events : list Event) (values : list bytes)
    : list Event :=
  match values with
  | [] => events
  | v :: values =>
    match json_Unmarshal v with
    | Ok ev =>
      if decide (passes typeFilter ev) then
        let events := events ++ [ev] in
        if decide (limit > 0 ∧ Z.of_nat (length events) >= limit)%Z then events
        else events_loop limit typeFilter events values
      else events_loop limit typeFilter events values
    | _ => events_loop limit typeFilter events values
    end
  end.

Definition ListEvents (db : DB) (limit : Z) (typeFilter : string) : result (list Event) :=
  values ← MetadataStore.ScanPrefixOrdered db prefixEvent 0;
  Ok (events_loop limit typeFilter [] values).

(** ** Clone history *)

Definition SaveCloneHistory (db : DB) (entry : CloneHistoryEntry) : result unit * DB :=
  match json_Marshal entry with
  | Ok data => MetadataStore.PutRaw db (prefixCloneHistory +:+ ch_Version entry) data
  | Err e => (Err e, db)
  | Panic m => (Panic m, db)
  end.

Fixpoint history_loop (limit : Z) (entries : list CloneHistoryEntry) (values : list bytes)
    : list CloneHistoryEntry :=
  match values with
  | [] => entries
  | v :: values =>
    match json_Unmarshal v with
    | Ok entry =>
      let entries := entries ++ [entry] in
      if decide (limit > 0 ∧ Z.of_nat (length entries) >= limit)%Z then entries
      else history_loop limit entries values
    | _ => history_loop limit entries values
    end
  end.

(** [range_]: the order in which ranging over the map yields the values. *)
Definition ListCloneHistory (range_ : gmap string bytes → list bytes) (db : DB) (limit : Z)
    : result (list CloneHistoryEntry) :=
  raw ← MetadataStore.ScanPrefix db prefixCloneHistory;
  Ok (history_loop limit [] (range_ raw)).

(** ** Counters *)

Definition noCounter : DownloadCounter := mkDownloadCounter 0 0 ∅ ∅ 0.

Definition loadCounter (db : DB) : DownloadCounter :=
  match MetadataStore.GetRaw db (prefixDLCounter +:+ "global") with
  | Ok data => match json_Unmarshal data with Ok c => c | _ => noCounter end
  | _ => noCounter
  end.

Definition saveCounter (db : DB) (c : DownloadCounter) : DB :=
  match json_Marshal c with
  | Ok data => (MetadataStore.PutRaw db (prefixDLCounter +:+ "global") data).2
  | _ => db
  end.

(** [m\[k\]++] on a map of int64. *)
Definition incr (k : string) (m : gmap string Z) : gmap string Z :=
  <[k := wrap64 (default 0%Z (m !! k) + 1)]> m.

Definition counted (stats : DownloadCounter) (rec : DownloadRecord) : DownloadCounter :=
  mkDownloadCounter (wrap64 (dc_TotalDownloads stats + 1))
    (wrap64 (dc_TotalBytes stats + dr_Size rec))
    (incr (dr_Version rec) (dc_ByVersion stats))
    (incr (dr_Artifact rec) (dc_ByArtifact stats))
    (dr_Time rec).

Definition RecordDownload (db : DB) (now : Time) (rec : DownloadRecord) : DB :=
  match json_Marshal rec with
  | Ok data =>
    let db := (MetadataStore.PutRaw db (prefixDownload +:+ reverseTimestamp now) data).2 in
    saveCounter db (counted (loadCounter db) rec)
  | _ => db
  end.

Definition GetDownloadStats (db : DB) : DownloadCounter := loadCounter db.

Definition ListRecentDownloads (db : DB) (limit : Z) : result (list DownloadRecord) :=
  values ← MetadataStore.ScanPrefixOrdered db prefixDownload limit;
  Ok (omap decoded (values : list bytes)).

(** ** Imports *)

Definition ImportEvent (db : DB) (ev : Event) : result unit * DB :=
  let key := prefixEvent +:+ ev_ID ev in
  match MetadataStore.GetRaw db key with
  | Ok _ => (Ok tt, db)
  | _ =>
    match json_Marshal ev with
    | Ok data => MetadataStore.PutRaw db key data
    | Err e => (Err e, db)
    | Panic m => (Panic m, db)
    end
  end.

Definition ImportCloneHistory (db : DB) (entry : CloneHistoryEntry) : result unit * DB :=
  SaveCloneHistory db entry.

Definition ImportDownloadRecord (db : DB) (rec : DownloadRecord) : result unit * DB :=
  match json_Marshal rec with
  | Ok data =>
    MetadataStore.PutRaw db
      (prefixDownload +:+ fmt_019d (wrap64 (maxInt64 - UnixNano (dr_Time rec)))) data
  | Err e => (Err e, db)
  | Panic m => (Panic m, db)
  end.

(** The larger count of every key the other side knows. *)
Definition merge_counts (current other : gmap string Z) : gmap string Z :=
  map_fold (λ k v m, if decide (v > default 0 (m !! k))%Z then <[k := v]> m else m) current other.

Definition merged (current stats : DownloadCounter) : DownloadCounter :=
  mkDownloadCounter
    (if decide (dc_TotalDownloads stats > dc_TotalDownloads current)%Z
     then dc_TotalDownloads stats else dc_TotalDownloads current)
    (if decide (dc_TotalBytes stats > dc_TotalBytes current)%Z
     then dc_TotalBytes stats else dc_TotalBytes current)
    (merge_counts (dc_ByVersion current) (dc_ByVersion stats))
    (merge_counts (dc_ByArtifact current) (dc_ByArtifact stats))
    (if After (dc_LastDownload stats) (dc_LastDownload current)
     then dc_LastDownload stats else dc_LastDownload current).

Definition ImportDownloadStats (db : DB) (stats : option DownloadCounter) : DB :=
  match stats with
  | None => db
  | Some stats => saveCounter db (merged (loadCounter db) stats)
  end.
End store.

(** ** Identifiers sort newest first *)

Lemma string_lt_app x y s t :
  String.length x = String.length y → String.le x y → x ≠ y → String.le (x +:+ s) (y +:+ t).
Proof.
  unfold String.le, String.leb. revert y. induction x as [|c x IH]; intros [|d y] Hl Hle Hne; try done.
  rewrite !sapp_cons. simpl in *. destruct (Ascii.compare c d) eqn:E; [|done|done].
  apply IH; [congruence|done|]. intros ->. apply Hne.
  by apply Ascii.compare_eq_iff in E as ->.
Qed.

Lemma digit_le a b : (0 ≤ a ≤ b)%Z → (b < 10)%Z →
  String.le (String (byte_of_Z (48 + a)) "") (String (byte_of_Z (48 + b)) "").
Proof.
  intros Ha Hb.
  assert (a = 0 ∨ a = 1 ∨ a = 2 ∨ a = 3 ∨ a = 4 ∨ a = 5 ∨ a = 6 ∨ a = 7 ∨ a = 8 ∨ a = 9)%Z as Ha' by lia.
  assert (b = 0 ∨ b = 1 ∨ b = 2 ∨ b = 3 ∨ b = 4 ∨ b = 5 ∨ b = 6 ∨ b = 7 ∨ b = 8 ∨ b = 9)%Z as Hb' by lia.
  destruct_or! Ha'; destruct_or! Hb'; subst; first [done|lia].
Qed.

Lemma length_fmt_0d n z : String.length (fmt_0d n z) = n.
Proof.
  revert z. induction n as [|n IH]; intros z; [done|]. simpl. rewrite slength_app, IH. simpl. lia.
Qed.

Lemma fmt_0d_inj n a b :
  (0 ≤ a < 10 ^ Z.of_nat n)%Z → (0 ≤ b < 10 ^ Z.of_nat n)%Z → fmt_0d n a = fmt_0d n b → a = b.
Proof.
  revert a b. induction n as [|n IH]; intros a b Ha Hb E.
  { simpl in *. lia. }
  rewrite Nat2Z.inj_succ, Z.pow_succ_r in Ha, Hb by lia. simpl in E.
  apply (f_equal str_bytes) in E. rewrite !str_bytes_app in E.
  apply app_inj_2 in E as [E1 E2]; [|done]. apply str_bytes_inj in E1.
  assert (a / 10 = b / 10)%Z as Hq.
  { apply IH; [..|done]; split;
      first [apply Z.div_pos; lia|apply Z.div_lt_upper_bound; lia]. }
  injection E2 as E2. apply (f_equal Z_of_byte) in E2. rewrite !Z_of_byte_of_Z in E2.
  pose proof (Z.mod_pos_bound a 10). pose proof (Z.mod_pos_bound b 10).
  rewrite !(Z.mod_small (48 + _)) in E2 by lia.
  rewrite (Z.div_mod a 10), (Z.div_mod b 10), Hq by lia. lia.
Qed.

Lemma fmt_0d_le n a b :
  (0 ≤ a ≤ b)%Z → (b < 10 ^ Z.of_nat n)%Z → String.le (fmt_0d n a) (fmt_0d n b).
Proof.
  revert a b. induction n as [|n IH]; intros a b Ha Hb; [done|].
  rewrite Nat2Z.inj_succ, Z.pow_succ_r in Hb by lia. simpl.
  pose proof (Z.mod_pos_bound a 10). pose proof (Z.mod_pos_bound b 10).
  pose proof (Z.div_mod a 10). pose proof (Z.div_mod b 10).
  assert (b / 10 < 10 ^ Z.of_nat n)%Z by (apply Z.div_lt_upper_bound; lia).
  assert (a / 10 ≤ b / 10)%Z by (apply Z.div_le_mono; lia).
  assert (0 ≤ a / 10)%Z by (apply Z.div_pos; lia).
  destruct (decide (a / 10 = b / 10)%Z) as [E|Hne].
  - rewrite E, string_le_app. apply digit_le; lia.
  - apply string_lt_app; [by rewrite !length_fmt_0d|apply IH; lia|].
    intros E. apply Hne, (fmt_0d_inj n); [lia..|done].
Qed.

(** Nanoseconds the log can hold: from 1970 to 2262. *)
Definition nano_ok (t : Z) : Prop := (0 ≤ t ≤ maxInt64)%Z.

(** The identifier of a nanosecond. *)
Definition rid (t : Z) : string := fmt_019d (maxInt64 - t).

Lemma rid_inj t u : nano_ok t → nano_ok u → rid t = rid u → t = u.
Proof.
  unfold nano_ok, rid, fmt_019d. intros Ht Hu. rewrite !decide_True by lia.
  intros E%fmt_0d_inj; unfold maxInt64 in *; lia.
Qed.

Lemma rid_le t u : nano_ok t → nano_ok u → (u ≤ t)%Z → String.le (rid t) (rid u).
Proof.
  unfold nano_ok, rid, fmt_019d. intros Ht Hu Hle. rewrite !decide_True by lia.
  apply fmt_0d_le; unfold maxInt64 in *; lia.
Qed.

Lemma reverseTimestamp_rid now : nano_ok (now - unixEpoch) → reverseTimestamp now = rid (now - unixEpoch).
Proof.
  unfold nano_ok, reverseTimestamp, rid, UnixNano. intros Hn.
  rewrite (wrap64_id (now - unixEpoch)) by (unfold in64, minInt64, maxInt64 in *; lia).
  by rewrite wrap64_id by (unfold in64, minInt64, maxInt64 in *; lia).
Qed.

(** ** The log the events are *)

(** Values [encoding/json] writes and reads back. *)
Definition event_ok (e : Event) : Prop :=
  MetadataStore.is_ascii (ev_ID e) ∧ MetadataStore.is_ascii (ev_Type e) ∧
  MetadataStore.is_ascii (ev_Severity e) ∧ MetadataStore.time_ok (ev_Time e) ∧
  MetadataStore.is_ascii (ev_Version e) ∧ MetadataStore.is_ascii (ev_Details e) ∧
  map_Forall (λ k v, MetadataStore.is_ascii k ∧ MetadataStore.is_ascii v) (ev_Extra e).

Definition newer (a b : Z * Event) : Prop := (b.1 ≤ a.1)%Z.
Global Instance newer_dec : RelDecision newer.
Proof. intros a b. unfold newer. apply _. Defined.

Definition newest_first (log : gmap Z Event) : list Event :=
  (merge_sort newer (map_to_list log)).*2.

(** At most [limit] elements; all of them when [limit] is not positive. *)
Definition limited {A} (limit : Z) (l : list A) : list A :=
  if decide (limit > 0)%Z then take (Z.to_nat limit) l else l.

Section log.
Context `{BadgerLaws} `{!Json Event} `{!JsonLaws Event event_ok}.

(** The database holds exactly these events, one per nanosecond. *)
Record logs (m : gmap string bytes) (log : gmap Z Event) : Prop := {
  log_get t e : log !! t = Some e → nano_ok t ∧ ev_ID e = rid t ∧
    ∃ b, m !! (prefixEvent +:+ rid t) = Some b ∧ json_Unmarshal b = Ok e;
  log_only r : is_Some (m !! (prefixEvent +:+ r)) → ∃ t, r = rid t ∧ is_Some (log !! t)
}.

Lemma logs_empty : logs ∅ ∅.
Proof. split; intros *; rewrite lookup_empty; [done|by intros [? ?]]. Qed.

Lemma logs_insert m log t e b :
  logs m log → nano_ok t → ev_ID e = rid t → json_Unmarshal b = Ok e →
  logs (<[prefixEvent +:+ rid t := b]> m) (<[t := e]> log).
Proof.
  intros [Hg Ho] Ht Hid Hb. split.
  - intros u e'. rewrite lookup_insert. case_decide as E.
    + intros [= <-]. subst u. split_and!; [done..|]. exists b. by rewrite lookup_insert_eq.
    + intros Hu. destruct (Hg u e' Hu) as (Hn & Hid' & b' & Hb' & Hj). split_and!; [done..|].
      exists b'. rewrite lookup_insert_ne; [done|]. intros Ek%sapp_inj_r. apply E.
      by apply rid_inj in Ek.
  - intros r. rewrite lookup_insert. case_decide as E.
    + apply sapp_inj_r in E. intros _. exists t. split; [done|]. by rewrite lookup_insert_eq.
    + intros Hr. destruct (Ho r Hr) as (u & -> & Hu). exists u. split; [done|].
      rewrite lookup_insert_ne; [done|]. intros ->. by apply E.
Qed.

(** Writes of other components do not touch the log. *)
Lemma logs_other m log k b :
  logs m log → HasPrefix k prefixEvent = false → logs (<[k := b]> m) log.
Proof.
  intros [Hg Ho] Hk. assert (∀ r, k ≠ prefixEvent +:+ r) as Hne by by apply HasPrefix_false.
  split.
  - intros u e Hu. destruct (Hg u e Hu) as (? & ? & b' & ? & ?). split_and!; [done..|].
    exists b'. by rewrite lookup_insert_ne by done.
  - intros r. rewrite lookup_insert_ne by done. apply Ho.
Qed.

Inductive eop :=
  | ERecord (now1 now2 : Time) (typ sev version details : string) (extra : gmap string string)
  | EImport (t : Z) (ev : Event)
  | EOther (key : string) (data : bytes).

Definition erun (o : eop) (db : DB) : DB :=
  match o with
  | ERecord now1 now2 typ sev version details extra =>
    RecordEvent db now1 now2 typ sev version details extra
  | EImport _ ev => (ImportEvent db ev).2
  | EOther key data => (MetadataStore.PutRaw db key data).2
  end.

Definition eop_ok (o : eop) : Prop :=
  match o with
  | ERecord now1 now2 typ sev version details extra =>
    nano_ok (now1 - unixEpoch) ∧
    event_ok (mkEvent (reverseTimestamp now1) typ sev now2 version details extra)
  | EImport t ev => nano_ok t ∧ ev_ID ev = rid t ∧ event_ok ev
  | EOther key _ => key ≠ "" ∧ HasPrefix key prefixEvent = false
  end.

(** What the operations mean: a record takes the place of its nanosecond, an
    import only a free one. *)
Definition espec (o : eop) (log : gmap Z Event) : gmap Z Event :=
  match o with
  | ERecord now1 now2 typ sev version details extra =>
    <[(now1 - unixEpoch)%Z := mkEvent (reverseTimestamp now1) typ sev now2 version details extra]> log
  | EImport t ev => match log !! t with Some _ => log | None => <[t := ev]> log end
  | EOther _ _ => log
  end.

Lemma erun_logs o db log : eop_ok o → logs (view db) log → logs (view (erun o db)) (espec o log).
Proof.
  intros Ho Hl. destruct o as [n1 n2 typ sev v d ex|t ev|k b]; simpl in *.
  - destruct Ho as [Hn Hok]. unfold RecordEvent.
    set (ev := mkEvent _ _ _ _ _ _ _) in *.
    destruct (json_roundtrip (ok := event_ok) ev Hok) as (b & -> & Hb).
    destruct (MetadataStore.PutRaw_view db (prefixEvent +:+ ev_ID ev) b) as (db' & -> & Hv); [done|]. simpl.
    rewrite Hv. cbn [ev_ID ev]. rewrite reverseTimestamp_rid by done. apply logs_insert; [done..| |done].
    by apply reverseTimestamp_rid.
  - destruct Ho as (Hn & Hid & Hok). unfold ImportEvent. rewrite MetadataStore.GetRaw_view, Hid.
    destruct (log !! t) as [e|] eqn:E.
    + destruct (log_get _ _ Hl t e E) as (_ & _ & b & -> & _). done.
    + destruct (view db !! (prefixEvent +:+ rid t)) as [b|] eqn:Em.
      { destruct (log_only _ _ Hl (rid t)) as (u & Hu & [e He]); [by rewrite Em|].
        assert (t = u) as ->; [|congruence]. apply rid_inj; [done| |done].
        by destruct (log_get _ _ Hl u e He). }
      destruct (json_roundtrip (ok := event_ok) ev Hok) as (b & -> & Hb).
      destruct (MetadataStore.PutRaw_view db (prefixEvent +:+ rid t) b) as (db' & -> & Hv); [done|]. simpl.
      rewrite Hv. by apply logs_insert.
  - destruct Ho as [Hk Hp]. destruct (MetadataStore.PutRaw_view db k b Hk) as (db' & -> & Hv). simpl. rewrite Hv.
    by apply logs_other.
Qed.

(** *** Listing *)

Lemma events_loop_spec limit f vs : ∀ acc,
  (limit > 0 → Z.of_nat (length acc) < limit)%Z →
  events_loop limit f acc vs = limited limit (acc ++ filter (passes f) (omap decoded vs)).
Proof.
  unfold limited. induction vs as [|v vs IH]; intros acc Ha; cbn [events_loop].
  - simpl. rewrite app_nil_r. case_decide; [|done]. rewrite take_ge; [done|lia].
  - cbn [omap list_omap].
    assert (decoded v = match json_Unmarshal v with Ok a => Some a | _ => None end) as -> by done.
    destruct (json_Unmarshal v) as [ev| |]; [|by apply IH..].
    destruct (decide (passes f ev)) as [Hp|Hp].
    + rewrite filter_cons_True by done.
      assert (∀ l, acc ++ ev :: l = (acc ++ [ev]) ++ l) as Happ by (intros; by rewrite <-app_assoc).
      rewrite (Happ (filter _ _)). destruct (decide (limit > 0 ∧ Z.of_nat (length (acc ++ [ev])) >= limit)%Z) as [[Hl Hge]|Hc].
      * rewrite (decide_True _ _ Hl). rewrite length_app in Hge. simpl in Hge.
        rewrite (take_app_le (acc ++ [ev])) by (rewrite length_app; simpl; specialize (Ha Hl); lia).
        rewrite take_ge; [done|]. rewrite length_app. simpl. specialize (Ha Hl). lia.
      * apply IH. lia.
    + rewrite filter_cons_False by done. by apply IH.
Qed.

Lemma take_limit_all vs : ∀ acc, MetadataStore.take_limit 0 acc vs = acc ++ vs.
Proof.
  induction vs as [|v vs IH]; intros acc; simpl; [by rewrite app_nil_r|].
  rewrite IH. by rewrite <-app_assoc.
Qed.

Lemma scan_keys m log :
  logs m log →
  (scan_prefix prefixEvent m).*1 =
    (λ te : Z * Event, prefixEvent +:+ rid te.1) <$> merge_sort newer (map_to_list log).
Proof.
  intros [Hg Ho]. set (L := merge_sort newer (map_to_list log)).
  assert (∀ t e, (t, e) ∈ L ↔ log !! t = Some e) as HL.
  { intros t e. unfold L. by rewrite merge_sort_Permutation, elem_of_map_to_list. }
  assert (∀ te, te ∈ L → nano_ok te.1) as Hok.
  { intros [t e] Hte%HL. by destruct (Hg t e Hte). }
  apply (StronglySorted_unique_strong String.le).
  - intros x1 x2 _ _. apply (anti_symm String.le).
  - pose proof (Sorted_scan_prefix prefixEvent m) as Hs.
    by apply (StronglySorted_fmap fst _ String.le) in Hs.
  - assert (StronglySorted newer L) as Hs.
    { apply StronglySorted_merge_sort; [intros ???; unfold newer; lia|intros ??; unfold newer; lia]. }
    clearbody L. clear HL. induction Hs as [|te L Hs IH Hte]; [constructor|].
    rewrite fmap_cons. constructor; [apply IH; set_solver|].
    apply Forall_fmap, Forall_forall. intros te' Hte'. simpl. apply string_le_app.
    rewrite Forall_forall in Hte. apply rid_le; [apply Hok; set_solver..|]. by apply Hte.
  - apply NoDup_Permutation.
    + apply NoDup_scan_prefix.
    + apply NoDup_fmap_2_strong; [|unfold L; rewrite merge_sort_Permutation; apply NoDup_map_to_list].
      intros [t e] [u e'] Ht Hu E%sapp_inj_r. simpl in E.
      assert (t = u) as -> by (apply rid_inj; [by apply (Hok (t, e))|by apply (Hok (u, e'))|done]).
      apply HL in Ht, Hu. congruence.
    + intros k. rewrite !list_elem_of_fmap. split.
      * intros ([k' b] & -> & [Hk [r Hr]]%elem_of_scan_prefix). simpl in *. subst k'.
        destruct (Ho r) as (t & -> & [e He]); [eauto|]. exists (t, e). split; [done|]. by apply HL.
      * intros ([t e] & -> & Ht%HL). destruct (Hg t e Ht) as (_ & _ & b & Hb & _).
        exists (prefixEvent +:+ rid t, b). split; [done|]. apply elem_of_scan_prefix. eauto.
Qed.

Lemma scan_values m log :
  logs m log → omap decoded (scan_prefix prefixEvent m).*2 = newest_first log.
Proof.
  intros Hl. pose proof (scan_keys m log Hl) as Hk. unfold newest_first.
  set (L := merge_sort newer (map_to_list log)) in *.
  assert (∀ te, te ∈ L → ∃ b, m !! (prefixEvent +:+ rid te.1) = Some b ∧ decoded b = Some te.2) as HL.
  { intros [t e] Hte. unfold L in Hte. rewrite merge_sort_Permutation, elem_of_map_to_list in Hte.
    destruct (log_get _ _ Hl t e Hte) as (_ & _ & b & Hb & Hj). exists b. split; [done|].
    unfold decoded. simpl in *. by rewrite Hj. }
  assert (∀ kv, kv ∈ scan_prefix prefixEvent m → m !! kv.1 = Some kv.2) as HS.
  { intros [k v] [Hv _]%elem_of_scan_prefix. done. }
  clearbody L. revert L Hk HL. induction (scan_prefix prefixEvent m) as [|[k v] sc IH]; intros L Hk HL.
  - symmetry in Hk. apply fmap_nil_inv in Hk. by subst.
  - destruct L as [|te L]; [done|]. rewrite !fmap_cons in Hk. injection Hk as Hk1 Hk2. simpl in Hk1.
    destruct (HL te) as (b & Hb & Hd); [set_solver|].
    assert (m !! k = Some v) as Hv by (apply (HS (k, v)); set_solver).
    assert (b = v) as -> by congruence. cbn. rewrite Hd. f_equal.
    apply IH; [set_solver|done|set_solver].
Qed.

Lemma erun_all os : ∀ db log,
  Forall eop_ok os → logs (view db) log →
  logs (view (foldl (λ db o, erun o db) db os)) (foldl (λ l o, espec o l) log os).
Proof.
  induction os as [|o os IH]; intros db log Hos Hl; [done|].
  apply Forall_cons in Hos as [Ho Hos]. apply IH; [done|]. by apply erun_logs.
Qed.

Lemma ListEvents_spec db log limit f :
  logs (view db) log →
  ListEvents db limit f = Ok (limited limit (filter (passes f) (newest_first log))).
Proof.
  intros Hl. unfold ListEvents, MetadataStore.ScanPrefixOrdered, View.
  rewrite Scan_law, NewTransaction_law, take_limit_all. simpl.
  rewrite events_loop_spec by (simpl; lia). by rewrite <-(scan_values _ _ Hl).
Qed.

(** C25 The event store is a log indexed by nanosecond: after any sequence of
    recordings, imports and writes of other components, listing with a limit
    and a type filter returns exactly the first events of that type, newest
    first, of the log in which a recording takes its nanosecond's place (so a
    second recording in the same nanosecond replaces the first) and an import
    only a free one (so importing twice is importing once). *)
Theorem event_store_is_log os db limit f :
  view db = ∅ → Forall eop_ok os →
  let log := foldl (λ l o, espec o l) ∅ os in
  ListEvents (foldl (λ db o, erun o db) db os) limit f =
    Ok (limited limit (filter (passes f) (newest_first log))) ∧
  StronglySorted newer (merge_sort newer (map_to_list log)) ∧
  (∀ e, e ∈ newest_first log ↔ ∃ t, log !! t = Some e).
Proof.
  intros Hdb Hos log. split; [|split].
  - apply ListEvents_spec, erun_all; [done|]. rewrite Hdb. apply logs_empty.
  - apply StronglySorted_merge_sort; [intros ???; unfold newer; lia|intros ??; unfold newer; lia].
  - intros e. unfold newest_first. rewrite merge_sort_Permutation, list_elem_of_fmap. split.
    + intros ([t e'] & -> & Ht%elem_of_map_to_list). by exists t.
    + intros [t Ht]. exists (t, e). split; [done|]. by apply elem_of_map_to_list.
Qed.
End log.

(** ** Merging counters *)

Definition count (m : gmap string Z) (k : string) : Z := default 0%Z (m !! k).

(** Counters that show the same numbers: an absent key counts as 0. *)
Record dc_equiv (a b : DownloadCounter) : Prop := {
  eq_downloads : dc_TotalDownloads a = dc_TotalDownloads b;
  eq_bytes : dc_TotalBytes a = dc_TotalBytes b;
  eq_version k : count (dc_ByVersion a) k = count (dc_ByVersion b) k;
  eq_artifact k : count (dc_ByArtifact a) k = count (dc_ByArtifact b) k;
  eq_last : dc_LastDownload a = dc_LastDownload b
}.

Global Instance dc_equiv_equivalence : Equivalence dc_equiv.
Proof.
  split.
  - by split.
  - intros a b []. by split.
  - intros a b c [] []. split; intros; etrans; eauto.
Qed.

(** What counting can reach: nothing is negative. *)
Definition dc_nonneg (c : DownloadCounter) : Prop :=
  (∀ k, 0 ≤ count (dc_ByVersion c) k)%Z ∧ (∀ k, 0 ≤ count (dc_ByArtifact c) k)%Z.

Lemma count_insert m k v k' : count (<[k := v]> m) k' = if decide (k = k') then v else count m k'.
Proof. unfold count. rewrite lookup_insert. by case_decide. Qed.

Lemma count_merge current other k :
  (0 ≤ count current k)%Z →
  count (merge_counts current other) k = Z.max (count current k) (count other k).
Proof.
  intros Hc. unfold merge_counts.
  apply (map_fold_weak_ind (λ r m, count r k = Z.max (count current k) (count m k))).
  - unfold count at 3. rewrite lookup_empty. simpl. lia.
  - intros k' v m r Hk' Hm. rewrite count_insert. change (default 0%Z (r !! k')) with (count r k').
    case_decide as E.
    + rewrite count_insert. destruct (decide (k' = k)) as [->|]; [|done].
      assert (count m k = 0)%Z as H0' by (unfold count; by rewrite Hk'). lia.
    + destruct (decide (k' = k)) as [->|]; [|done].
      assert (count m k = 0)%Z as H0' by (unfold count; by rewrite Hk'). lia.
Qed.

Lemma merged_max a b :
  dc_nonneg a → dc_TotalDownloads (merged a b) = Z.max (dc_TotalDownloads a) (dc_TotalDownloads b) ∧
  dc_TotalBytes (merged a b) = Z.max (dc_TotalBytes a) (dc_TotalBytes b) ∧
  (∀ k, count (dc_ByVersion (merged a b)) k = Z.max (count (dc_ByVersion a) k) (count (dc_ByVersion b) k)) ∧
  (∀ k, count (dc_ByArtifact (merged a b)) k = Z.max (count (dc_ByArtifact a) k) (count (dc_ByArtifact b) k)) ∧
  dc_LastDownload (merged a b) = Z.max (dc_LastDownload a) (dc_LastDownload b).
Proof.
  intros [Hv Ha]. unfold merged, After. cbn. split_and!.
  - case_decide; lia.
  - case_decide; lia.
  - intros k. by apply count_merge.
  - intros k. by apply count_merge.
  - case_bool_decide; lia.
Qed.

Lemma merged_nonneg a b : dc_nonneg a → dc_nonneg b → dc_nonneg (merged a b).
Proof.
  intros Ha Hb. destruct (merged_max a b Ha) as (_ & _ & Hv & Hf & _).
  destruct Ha as [Ha1 Ha2]. split; intros k.
  - rewrite Hv. specialize (Ha1 k). lia.
  - rewrite Hf. specialize (Ha2 k). lia.
Qed.


(** Values [encoding/json] writes and reads back. *)
Definition counter_ok (c : DownloadCounter) : Prop :=
  in64 (dc_TotalDownloads c) ∧ in64 (dc_TotalBytes c) ∧
  map_Forall (λ k v, MetadataStore.is_ascii k ∧ in64 v) (dc_ByVersion c) ∧
  map_Forall (λ k v, MetadataStore.is_ascii k ∧ in64 v) (dc_ByArtifact c) ∧
  MetadataStore.time_ok (dc_LastDownload c).

Definition download_ok (r : DownloadRecord) : Prop :=
  MetadataStore.time_ok (dr_Time r) ∧ MetadataStore.is_ascii (dr_Version r) ∧
  MetadataStore.is_ascii (dr_Artifact r) ∧ MetadataStore.is_ascii (dr_ClientIP r) ∧
  MetadataStore.is_ascii (dr_UserAgent r) ∧ in64 (dr_Size r) ∧ in64 (dr_Duration r).

Lemma incr_ok k m :
  MetadataStore.is_ascii k → map_Forall (λ k v, MetadataStore.is_ascii k ∧ in64 v) m →
  map_Forall (λ k v, MetadataStore.is_ascii k ∧ in64 v) (incr k m).
Proof. intros Hk Hm. apply map_Forall_insert_2; [split; [done|apply wrap64_in64]|done]. Qed.

Lemma counted_ok c r : counter_ok c → download_ok r → counter_ok (counted c r).
Proof.
  intros (? & ? & ? & ? & ?) (? & ? & ? & _).
  split_and!; simpl; auto using wrap64_in64, incr_ok.
Qed.

Lemma merge_counts_ok a b :
  map_Forall (λ k v, MetadataStore.is_ascii k ∧ in64 v) a →
  map_Forall (λ k v, MetadataStore.is_ascii k ∧ in64 v) b →
  map_Forall (λ k v, MetadataStore.is_ascii k ∧ in64 v) (merge_counts a b).
Proof.
  intros Ha Hb. revert Hb. unfold merge_counts.
  apply (map_fold_weak_ind (λ r m,
    map_Forall (λ k v, MetadataStore.is_ascii k ∧ in64 v) m →
    map_Forall (λ k v, MetadataStore.is_ascii k ∧ in64 v) r)); [done|].
  intros k v m r Hk IH Hm. apply map_Forall_insert in Hm as [Hkv Hm]; [|done].
  case_decide; [|by apply IH]. apply map_Forall_insert_2; [done|by apply IH].
Qed.

Lemma merged_ok a b : counter_ok a → counter_ok b → counter_ok (merged a b).
Proof.
  intros (? & ? & ? & ? & ?) (? & ? & ? & ? & ?). unfold counter_ok, merged. cbn.
  split_and!; repeat case_match; auto using merge_counts_ok.
Qed.

Section counters.
Context `{BadgerLaws} `{!Json DownloadRecord} `{!Json DownloadCounter}.
Context `{!JsonLaws DownloadRecord download_ok} `{!JsonLaws DownloadCounter counter_ok}.

Lemma load_save db c : counter_ok c → loadCounter (saveCounter db c) = c.
Proof.
  intros Hc. unfold loadCounter, saveCounter.
  destruct (json_roundtrip (ok := counter_ok) c Hc) as (b & -> & Hb).
  destruct (MetadataStore.PutRaw_view db (prefixDLCounter +:+ "global") b) as (db' & -> & Hv); [done|]. simpl.
  rewrite MetadataStore.GetRaw_view, Hv, lookup_insert_eq. by rewrite Hb.
Qed.

Lemma load_other db k b :
  k ≠ "" → k ≠ prefixDLCounter +:+ "global" →
  loadCounter (MetadataStore.PutRaw db k b).2 = loadCounter db.
Proof.
  intros Hk Hne. destruct (MetadataStore.PutRaw_view db k b Hk) as (db' & -> & Hv). simpl.
  unfold loadCounter. by rewrite !MetadataStore.GetRaw_view, Hv, lookup_insert_ne by done.
Qed.

Lemma RecordDownload_counts db now rec :
  counter_ok (loadCounter db) → download_ok rec →
  loadCounter (RecordDownload db now rec) = counted (loadCounter db) rec.
Proof.
  intros Hc Hrec. unfold RecordDownload.
  destruct (json_roundtrip (ok := download_ok) rec Hrec) as (b & -> & _).
  assert (loadCounter (MetadataStore.PutRaw db (prefixDownload +:+ reverseTimestamp now) b).2 = loadCounter db)
    as Hl by by apply load_other.
  rewrite Hl. apply load_save. by apply counted_ok.
Qed.

(** Downloads are kept apart from the events. *)
Lemma RecordDownload_logs `{!Json Event} db now rec log :
  logs (view db) log → logs (view (RecordDownload db now rec)) log.
Proof.
  intros Hl. unfold RecordDownload, saveCounter.
  destruct (json_Marshal rec) as [b| |]; [|done..].
  destruct (MetadataStore.PutRaw_view db (prefixDownload +:+ reverseTimestamp now) b) as (db1 & -> & Hv1); [done|].
  assert (logs (view db1) log) as Hl1 by (rewrite Hv1; by apply logs_other).
  cbn [snd]. destruct (json_Marshal _) as [b2| |]; [|done..].
  destruct (MetadataStore.PutRaw_view db1 (prefixDLCounter +:+ "global") b2) as (db2 & -> & Hv2); [done|].
  cbn [snd]. rewrite Hv2. by apply logs_other.
Qed.

(** The download counters count and merge: recording a download adds one to
    the total, to its version and to its artifact and its size to the bytes;
    importing the counters of another instance takes the larger of every
    number, so that importing is idempotent, and two instances that import
    each other's counters show the same numbers, in whatever order. *)
Theorem download_counters db now rec other :
  counter_ok (loadCounter db) → dc_nonneg (loadCounter db) → download_ok rec →
  counter_ok other → dc_nonneg other →
  loadCounter (RecordDownload db now rec) = counted (loadCounter db) rec ∧
  loadCounter (ImportDownloadStats db (Some other)) = merged (loadCounter db) other ∧
  dc_equiv (merged (merged (loadCounter db) other) other) (merged (loadCounter db) other) ∧
  dc_equiv (merged (loadCounter db) other) (merged other (loadCounter db)) ∧
  ∀ third, dc_equiv (merged (merged (loadCounter db) other) third)
                    (merged (loadCounter db) (merged other third)).
Proof.
  intros Hc Hn Hrec Hoc Hon. set (c := loadCounter db) in *. split_and!.
  - by apply RecordDownload_counts.
  - unfold ImportDownloadStats. apply load_save. by apply merged_ok.
  - destruct (merged_max c other Hn) as (H1 & H2 & H3 & H4 & H5).
    destruct (merged_max (merged c other) other (merged_nonneg _ _ Hn Hon))
      as (G1 & G2 & G3 & G4 & G5).
    split; [rewrite G1, H1|rewrite G2, H2|intros k; rewrite G3, H3|intros k; rewrite G4, H4
      |rewrite G5, H5]; by rewrite <-Z.max_assoc, Z.max_id.
  - destruct (merged_max c other Hn) as (H1 & H2 & H3 & H4 & H5).
    destruct (merged_max other c Hon) as (G1 & G2 & G3 & G4 & G5).
    split; [rewrite G1, H1|rewrite G2, H2|intros k; rewrite G3, H3|intros k; rewrite G4, H4
      |rewrite G5, H5]; apply Z.max_comm.
  - intros third. destruct (merged_max c other Hn) as (H1 & H2 & H3 & H4 & H5).
    destruct (merged_max (merged c other) third (merged_nonneg _ _ Hn Hon))
      as (G1 & G2 & G3 & G4 & G5).
    destruct (merged_max other third Hon) as (I1 & I2 & I3 & I4 & I5).
    destruct (merged_max c (merged other third) Hn) as (J1 & J2 & J3 & J4 & J5).
    split; [rewrite G1, H1, J1, I1|rewrite G2, H2, J2, I2|intros k; rewrite G3, H3, J3, I3
      |intros k; rewrite G4, H4, J4, I4|rewrite G5, H5, J5, I5]; apply eq_sym, Z.max_assoc.
Qed.

(** A download that comes back from a peer is counted twice in the list: it
    is recorded under the time of recording but imported under its own time,
    so importing one's own record adds a second copy unless the two
    nanoseconds agree. *)
Theorem reimported_download_is_duplicated db now rec :
  download_ok rec → nano_ok (now - unixEpoch) → nano_ok (dr_Time rec - unixEpoch) →
  now ≠ dr_Time rec →
  ∃ l l', ListRecentDownloads (ImportDownloadRecord (RecordDownload db now rec) rec).2 0 = Ok l ∧
    l ≡ₚ rec :: rec :: l'.
Proof.
  intros Hrec Hn Hr Hne. unfold ImportDownloadRecord, RecordDownload.
  destruct (json_roundtrip (ok := download_ok) rec Hrec) as (b & -> & Hb).
  rewrite reverseTimestamp_rid by done.
  fold (reverseTimestamp (dr_Time rec)). rewrite reverseTimestamp_rid by done.
  set (k1 := prefixDownload +:+ rid (now - unixEpoch)).
  set (k2 := prefixDownload +:+ rid (dr_Time rec - unixEpoch)).
  assert (k1 ≠ k2) as Hk.
  { intros E%sapp_inj_r%rid_inj; [|done..]. lia. }
  destruct (MetadataStore.PutRaw_view db k1 b) as (db1 & -> & Hv1); [done|]. cbn [snd].
  set (db2 := saveCounter db1 _).
  assert (view db2 !! k1 = Some b) as Hv2.
  { unfold db2, saveCounter. destruct (json_Marshal _) as [x| |].
    - destruct (MetadataStore.PutRaw_view db1 (prefixDLCounter +:+ "global") x) as (db' & -> & Hv); [done|]. simpl.
      rewrite Hv, lookup_insert_ne by done. by rewrite Hv1, lookup_insert_eq.
    - by rewrite Hv1, lookup_insert_eq.
    - by rewrite Hv1, lookup_insert_eq. }
  destruct (MetadataStore.PutRaw_view db2 k2 b) as (db3 & -> & Hv3); [done|]. cbn [snd].
  assert ((k1, b) ∈ scan_prefix prefixDownload (view db3)) as H1'.
  { apply elem_of_scan_prefix. rewrite Hv3, lookup_insert_ne by done. eauto. }
  assert ((k2, b) ∈ scan_prefix prefixDownload (view db3)) as H2'.
  { apply elem_of_scan_prefix. rewrite Hv3, lookup_insert_eq. eauto. }
  apply elem_of_Permutation in H1' as [sc Hsc]. rewrite Hsc in H2'.
  apply elem_of_cons in H2' as [E|H2'];
    [by apply (f_equal fst) in E; destruct Hk|].
  apply elem_of_Permutation in H2' as [sc' Hsc']. rewrite Hsc' in Hsc.
  unfold ListRecentDownloads, MetadataStore.ScanPrefixOrdered, View.
  rewrite Scan_law, NewTransaction_law, take_limit_all. eexists _, (omap decoded sc'.*2).
  split; [done|]. rewrite Hsc. cbn. unfold decoded at 1 2. by rewrite Hb.
Qed.
End counters.

(** ** Witnesses *)

Global Instance Event_eq_dec : EqDecision Event.
Proof. solve_decision. Defined.
Global Instance Event_countable : Countable Event.
Proof.
  refine (inj_countable' (λ e, (ev_ID e, ev_Type e, ev_Severity e, ev_Time e, ev_Version e,
    ev_Details e, ev_Extra e)) (λ '(a, b, c, d, e, f, g), mkEvent a b c d e f g) _).
  by intros [].
Defined.
Global Instance DownloadRecord_eq_dec : EqDecision DownloadRecord.
Proof. solve_decision. Defined.
Global Instance DownloadRecord_countable : Countable DownloadRecord.
Proof.
  refine (inj_countable' (λ r, (dr_Time r, dr_Version r, dr_Artifact r, dr_ClientIP r,
    dr_UserAgent r, dr_Size r, dr_Duration r)) (λ '(a, b, c, d, e, f, g), mkDownloadRecord a b c d e f g) _).
  by intros [].
Defined.
Global Instance DownloadCounter_eq_dec : EqDecision DownloadCounter.
Proof. solve_decision. Defined.
Global Instance DownloadCounter_countable : Countable DownloadCounter.
Proof.
  refine (inj_countable' (λ c, (dc_TotalDownloads c, dc_TotalBytes c, dc_ByVersion c,
    dc_ByArtifact c, dc_LastDownload c)) (λ '(a, b, c, d, e), mkDownloadCounter a b c d e) _).
  by intros [].
Defined.

Definition jsonEvent : Json Event := countableJson Event.
Definition jsonDownload : Json DownloadRecord := countableJson DownloadRecord.
Definition jsonCounter : Json DownloadCounter := countableJson DownloadCounter.

(** Noon of a day in 2025, and later nanoseconds. *)
Definition exNow (n : Z) : Time := (unixEpoch + 1750000000 * Second + n)%Z.

Definition exEops : list eop :=
  [ERecord (exNow 0) (exNow 1) EventReleaseCloned SeveritySuccess "4.18.1" "cloned" ∅;
   ERecord (exNow 5) (exNow 6) EventReleaseReady SeveritySuccess "4.18.1" "ready" ∅;
   EOther "dlc:global" []].

Lemma exEvent_ok now1 now2 typ sev v d :
  MetadataStore.is_ascii (reverseTimestamp now1) → MetadataStore.is_ascii typ →
  MetadataStore.is_ascii sev → MetadataStore.is_ascii v → MetadataStore.is_ascii d →
  MetadataStore.time_ok now2 →
  event_ok (mkEvent (reverseTimestamp now1) typ sev now2 v d ∅).
Proof. intros. by split_and!. Qed.

Lemma exEops_ok : Forall eop_ok exEops.
Proof.
  repeat apply Forall_cons_2; [| | |constructor].
  - split; [by vm_compute|]. apply exEvent_ok; refine (bool_decide_unpack _ _); vm_compute; exact I.
  - split; [by vm_compute|]. apply exEvent_ok; refine (bool_decide_unpack _ _); vm_compute; exact I.
  - split; [done|by vm_compute].
Qed.

Lemma event_store_is_log_witness :
  @ListEvents mapBadger jsonEvent
    (foldl (λ db o, @erun mapBadger jsonEvent o db) ∅ exEops) 1 "" =
  Ok [mkEvent (reverseTimestamp (exNow 5)) EventReleaseReady SeveritySuccess (exNow 6) "4.18.1" "ready" ∅].
Proof.
  pose proof (proj1 (@event_store_is_log mapBadger mapBadgerLaws jsonEvent (countableJsonLaws _ _)
    exEops ∅ 1 "" eq_refl exEops_ok)) as HL.
  etransitivity; [exact HL|]. vm_compute. reflexivity.
Defined.

Definition exDownload : DownloadRecord :=
  mkDownloadRecord (exNow 0) "4.18.1" "coreos.iso" "10.0.0.1" "curl" 1000 20.
Definition exCounter : DownloadCounter :=
  mkDownloadCounter 7 100 {["4.18.1" := 7%Z]} {["coreos.iso" := 7%Z]} (exNow 9).

Lemma exDownload_ok : download_ok exDownload.
Proof. split_and!; first [by apply (bool_decide_unpack _)|by vm_compute]. Qed.

Lemma exCounter_ok : counter_ok exCounter ∧ dc_nonneg exCounter.
Proof.
  split.
  - split; [by vm_compute|]. split; [by vm_compute|].
    split; [|split; [|by vm_compute]]; apply map_Forall_singleton; split;
      first [by apply (bool_decide_unpack _)|by vm_compute].
  - split; intros k; cbn; unfold count; rewrite lookup_singleton; case_decide; simpl; lia.
Qed.

Lemma noCounter_ok : counter_ok noCounter ∧ dc_nonneg noCounter.
Proof.
  split.
  - split; [by vm_compute|]. split; [by vm_compute|].
    split; [|split; [|by vm_compute]]; apply map_Forall_empty.
  - split; intros k; cbn; unfold count; by rewrite lookup_empty.
Qed.

Definition exEmpty : @DB mapBadger := (∅ : gmap string bytes).

Lemma exEmpty_counter : @loadCounter mapBadger jsonCounter exEmpty = noCounter.
Proof. by vm_compute. Qed.

Lemma exEmpty_counter_ok :
  counter_ok (@loadCounter mapBadger jsonCounter exEmpty) ∧
  dc_nonneg (@loadCounter mapBadger jsonCounter exEmpty).
Proof. rewrite exEmpty_counter. exact noCounter_ok. Qed.

Lemma download_counters_witness :
  let db := @RecordDownload mapBadger jsonDownload jsonCounter exEmpty (exNow 3) exDownload in
  @loadCounter mapBadger jsonCounter db = counted noCounter exDownload ∧
  dc_TotalDownloads (merged noCounter exCounter) = 7%Z.
Proof.
  destruct (@download_counters mapBadger mapBadgerLaws jsonDownload jsonCounter
    (countableJsonLaws _ _) (countableJsonLaws _ _) exEmpty (exNow 3) exDownload exCounter
    (proj1 exEmpty_counter_ok) (proj2 exEmpty_counter_ok) exDownload_ok (proj1 exCounter_ok) (proj2 exCounter_ok))
    as (H1 & _). rewrite exEmpty_counter in H1. split; [exact H1|reflexivity].
Defined.

Lemma reimported_download_is_duplicated_witness :
  let db := @RecordDownload mapBadger jsonDownload jsonCounter exEmpty (exNow 3) exDownload in
  ∃ l l', @ListRecentDownloads mapBadger jsonDownload
      (@ImportDownloadRecord mapBadger jsonDownload db exDownload).2 0 = Ok l ∧
    l ≡ₚ exDownload :: exDownload :: l'.
Proof.
  apply (@reimported_download_is_duplicated mapBadger mapBadgerLaws jsonDownload jsonCounter
    (countableJsonLaws _ _) exEmpty (exNow 3) exDownload exDownload_ok).
  - split; vm_compute; discriminate.
  - split; vm_compute; discriminate.
  - vm_compute. discriminate.
Defined.
End Events.
