(* ===== verification/Discovery.v ===== *)
(** internal/releases/discovery.go: the upstream's tags, page by page, and the
    order of release versions. *)

From stdpp Require Import sorting.
From S2P Require Import Prelude GoLib Os Blob Badger Regexp Mirror.

(** [sort.Slice]: an unstable sort by a comparison; for a strict weak order the
    result is sorted, without a promise on equivalent elements. *)
Definition not_after {A} (less : A → A → bool) (x y : A) : Prop := less y x = false.

Class GoSort := sort_slice : ∀ {A : Type}, (A → A → bool) → list A → list A.
Class GoSortLaws `{GoSort} := {
  sort_slice_perm {A} (less : A → A → bool) l : sort_slice less l ≡ₚ l;
  sort_slice_sorted {A} (less : A → A → bool) (P : A → Prop) l :
    Forall P l →
    (∀ x y z, P x → P y → P z → not_after less x y → not_after less y z → not_after less x z) →
    (∀ x y, P x → P y → not_after less x y ∨ not_after less y x) →
    StronglySorted (not_after less) (sort_slice less l)
}.

(** Insertion sort: an instance. *)
Fixpoint go_insert {A} (less : A → A → bool) (x : A) (l : list A) : list A :=
  match l with
  | [] => [x]
  | y :: l => if less y x then y :: go_insert less x l else x :: y :: l
  end.
Definition insertionSort : GoSort := λ A less, foldr (go_insert less) [].

Lemma go_insert_perm {A} (less : A → A → bool) x l : go_insert less x l ≡ₚ x :: l.
Proof.
  induction l as [|y l IH]; simpl; [done|]. destruct (less y x); [|done]. rewrite IH. constructor.
Qed.

Lemma insertionSortLaws : @GoSortLaws insertionSort.
Proof.
  assert (∀ A (less : A → A → bool) l, @sort_slice insertionSort A less l ≡ₚ l) as Hperm.
  { intros A less l. unfold sort_slice, insertionSort. induction l as [|x l IH]; simpl; [done|].
    by rewrite go_insert_perm, IH. }
  split; [done|]. intros A less P l HP Htr Hto. revert HP.
  pose proof (Hperm A less) as Hp. unfold sort_slice, insertionSort in *.
  induction l as [|x l IH]; simpl; [constructor|]. intros [Hx Hl]%Forall_cons.
  assert (Forall P (foldr (go_insert less) [] l)) as HF by by rewrite Hp.
  specialize (IH Hl). revert HF. induction IH as [|y m Hm IHm Hy]; simpl; intros HF.
  { by repeat constructor. }
  apply Forall_cons in HF as [HPy HPm]. destruct (less y x) eqn:E.
  - constructor; [by apply IHm|]. rewrite go_insert_perm. constructor; [|done].
    destruct (Hto x y) as [Hn|Hn]; [done..| |done]. unfold not_after in Hn. congruence.
  - constructor; [by constructor|]. constructor; [done|].
    rewrite Forall_forall in Hy, HPm. apply Forall_forall. intros z Hz.
    apply (Htr x y z); auto.
Qed.

Module Discovery.
Import Regexp.

Record Discovery := mkDiscovery { di_upstream : string; di_repository : string }.

Record quayTag := mkQuayTag { qt_Name : string; qt_ManifestDigest : string; qt_Size : Z }.

Record quayTagsResponse := mkTagsResponse {
  qr_Tags : list quayTag;
  qr_Page : Z;
  qr_HasAdditional : bool
}.

Record UpstreamRelease := mkUpstreamRelease {
  ur_Version : string;
  ur_Architecture : string;
  ur_Tag : string;
  ur_Digest : string
}.

Definition NewDiscovery (upstream repository : string) : Discovery := mkDiscovery upstream repository.

(** [^(\d+\.\d+\.\d+)-(.+)$]. *)
Definition digits : re := plus (Chr (range "0" "9")).
Definition versionPattern : re :=
  Cat digits (Cat (lit ".") (Cat digits (Cat (lit ".") digits))).
Definition anyChar (c : ascii) : bool := bool_decide (c ≠ ascii_of_N 10).
Definition versionTagRe : list piece :=
  [Group versionPattern; Plain (lit "-"); Group (plus (Chr anyChar))].

(** [strings.SplitN(v, ".", 3)]. *)
Definition SplitN3 (sep : ascii) (s : string) : list string :=
  match Split2 sep s with
  | [a; b] => a :: Split2 sep b
  | l => l
  end.

Definition parseSemver (v : string) : Z * Z * Z :=
  let part (i : nat) := match SplitN3 "." v !! i with Some s => (ParseInt s).1 | None => 0%Z end in
  (part 0, part 1, part 2).

Definition compareSemver (a b : string) : Z :=
  let '(a0, a1, a2) := parseSemver a in
  let '(b0, b1, b2) := parseSemver b in
  if decide (a0 ≠ b0) then wrap64 (a0 - b0)
  else if decide (a1 ≠ b1) then wrap64 (a1 - b1)
  else if decide (a2 ≠ b2) then wrap64 (a2 - b2)
  else 0%Z.

Section discovery.
Context `{Mirror.HttpClient} `{!JsonDecoder quayTagsResponse} `{GoSort}.

Definition fetchTagsPage (url : string) : result quayTagsResponse :=
  match Mirror.NewRequest url with
  | Some e => Err e
  | None =>
    match Mirror.client_Do url None with
    | Err e => Err (wrap "querying upstream tags" e)
    | Panic m => Panic m
    | Ok resp =>
      if decide (Mirror.hr_StatusCode resp ≠ 200)%Z then
        Err (Errorf ("upstream returned " +:+ fmt_d (Mirror.hr_StatusCode resp)))
      else
        match json_Decode (rd_data (Mirror.hr_Body resp)) with
        | Err e => Err (wrap "decoding response" e)
        | r => r
        end
    end
  end.

Definition pageURL (baseURL : string) (page : nat) : string :=
  baseURL +:+ "&page=" +:+ fmt_d (Z.of_nat page) +:+ "&onlyActiveTags=true".

Definition maxPages : nat := 200.

(** The loop over the pages from [page] on, [k] of them at most. *)
Fixpoint fetchPages (k page : nat) (baseURL : string) (allTags : list quayTag)
    : result (list quayTag) :=
  match k with
  | O => Ok allTags
  | S k =>
    match fetchTagsPage (pageURL baseURL page) with
    | Panic m => Panic m
    | Err e => if decide (allTags = []) then Err e else Ok allTags
    | Ok result =>
      let allTags := allTags ++ qr_Tags result in
      if negb (qr_HasAdditional result) then Ok allTags
      else fetchPages k (S page) baseURL allTags
    end
  end.

Definition fetchAllTags (baseURL : string) : result (list quayTag) :=
  fetchPages maxPages 1 baseURL [].

(** A tag of a wanted architecture that is a version. *)
Definition release_of (archs : list string) (tag : quayTag) : option UpstreamRelease :=
  match find_groups versionTagRe (qt_Name tag) with
  | Some [version; arch] =>
    if decide (arch ∈ archs)
    then Some (mkUpstreamRelease version arch (qt_Name tag) (qt_ManifestDigest tag)) else None
  | _ => None
  end.

Definition sort_releases (l : list UpstreamRelease) : list UpstreamRelease :=
  sort_slice (λ a b, bool_decide (compareSemver (ur_Version a) (ur_Version b) > 0)%Z) l.

Definition ListUpstreamVersions (d : Discovery) (archs : list string)
    : result (list UpstreamRelease) :=
  tags ← fetchAllTags ("https://" +:+ di_upstream d +:+ "/api/v1/repository/" +:+
                       di_repository d +:+ "/tag/?limit=100");
  Ok (sort_releases (omap (release_of archs) (tags : list quayTag))).

Definition ListUpstreamForMajorMinor (d : Discovery) (majorMinor : string) (archs : list string)
    : result (list UpstreamRelease) :=
  tags ← fetchAllTags ("https://" +:+ di_upstream d +:+ "/api/v1/repository/" +:+
                       di_repository d +:+ "/tag/?filter_tag_name=like:" +:+ majorMinor +:+
                       "&limit=100");
  Ok (sort_releases (filter (λ r, HasPrefix (ur_Version r) (majorMinor +:+ ".") = true)
                       (omap (release_of archs) (tags : list quayTag)))).
End discovery.

(** ** Versions *)

Definition ver_lt (a b : Z * Z * Z) : Prop :=
  let '(a0, a1, a2) := a in let '(b0, b1, b2) := b in
  (a0 < b0 ∨ a0 = b0 ∧ (a1 < b1 ∨ a1 = b1 ∧ a2 < b2))%Z.

(** Three decimal numbers with dots between them. *)
Definition is_version (v : string) : Prop :=
  ∃ a b c, v = a +:+ "." +:+ b +:+ "." +:+ c ∧ all_digits a ∧ all_digits b ∧ all_digits c.

Lemma digits_val_nonneg s : ∀ acc n, (0 ≤ acc)%Z → digits_val acc s = Some n → (0 ≤ n)%Z.
Proof.
  induction s as [|c s IH]; intros acc n Hacc; simpl; [by intros [= <-]|].
  unfold digit_val. case_decide as Hd; simpl; [|done]. apply IH. lia.
Qed.

Lemma ParseInt_nonneg s : all_digits s → (0 ≤ (ParseInt s).1 ≤ maxInt64)%Z.
Proof.
  intros Hs. rewrite ParseInt_unsigned by done. unfold maxInt64.
  destruct (parse_digits s) as [n|] eqn:E; [|simpl; lia].
  assert (0 ≤ n)%Z. { destruct s; [done|]. by eapply digits_val_nonneg, E. }
  case_decide; simpl; lia.
Qed.

Lemma parseSemver_version a b c :
  all_digits a → all_digits b → all_digits c →
  parseSemver (a +:+ "." +:+ b +:+ "." +:+ c) =
    ((ParseInt a).1, (ParseInt b).1, (ParseInt c).1).
Proof.
  intros Ha Hb Hc. unfold parseSemver, SplitN3.
  assert (∀ s, all_digits s → not_in "." s) as Hn by (intros; by apply all_digits_not_in).
  change ("." +:+ b +:+ "." +:+ c) with (String "." (b +:+ String "." c)).
  rewrite Split2_app by auto. by rewrite Split2_app by auto.
Qed.

Lemma compareSemver_sign u v :
  is_version u → is_version v → (compareSemver u v > 0)%Z ↔ ver_lt (parseSemver v) (parseSemver u).
Proof.
  intros (a & b & c & -> & Ha & Hb & Hc) (a' & b' & c' & -> & Ha' & Hb' & Hc').
  unfold compareSemver. rewrite !parseSemver_version by done. unfold ver_lt.
  pose proof (ParseInt_nonneg a Ha). pose proof (ParseInt_nonneg b Hb). pose proof (ParseInt_nonneg c Hc).
  pose proof (ParseInt_nonneg a' Ha'). pose proof (ParseInt_nonneg b' Hb').
  pose proof (ParseInt_nonneg c' Hc').
  assert (∀ x y, (0 ≤ x ≤ maxInt64)%Z → (0 ≤ y ≤ maxInt64)%Z → wrap64 (x - y) = (x - y)%Z) as Hw.
  { intros x y Hx Hy. apply wrap64_id. unfold in64, minInt64, maxInt64 in *. lia. }
  repeat case_decide; rewrite ?Hw by done; lia.
Qed.

Lemma digits_all s : lang digits s → all_digits s.
Proof.
  intros H. apply lang_alphabet in H. unfold all_digits. eapply Forall_impl; [exact H|].
  intros c. simpl. rewrite orb_diag. unfold range. intros Hc%bool_decide_eq_true.
  unfold digit_val, Z_of_byte. change (N_of_ascii "0") with 48%N in Hc.
  change (N_of_ascii "9") with 57%N in Hc. rewrite decide_True by lia. by eexists.
Qed.

Lemma versionPattern_version v : lang versionPattern v → is_version v.
Proof.
  intros (a & r & -> & Ha & (s1 & r1 & -> & ->%lang_lit & (b & r2 & -> & Hb &
    (s2 & c & -> & ->%lang_lit & Hc)%lang_cat_inv)%lang_cat_inv)%lang_cat_inv)%lang_cat_inv.
  exists a, b, c. split_and!; auto using digits_all.
Qed.

Lemma versionPattern_no_dash v : lang versionPattern v → not_in "-" v.
Proof. intros H. by apply (lang_not_in _ _ _ H). Qed.

(** A name splits into version and architecture in one way. *)
Lemma versionTag_groups name gs :
  find_groups versionTagRe name = Some gs ↔
  ∃ v a, gs = [v; a] ∧ name = v +:+ "-" +:+ a ∧ lang versionPattern v ∧ lang (plus (Chr anyChar)) a.
Proof.
  assert (∀ v a, lang versionPattern v → lang (plus (Chr anyChar)) a →
    decomp versionTagRe (v +:+ "-" +:+ a) [v; a]) as Hd.
  { intros v a Hv Ha. repeat (constructor; [by (done || apply lang_lit)|]).
    rewrite <-(sapp_nil_r a) at 1. repeat constructor. done. }
  assert (∀ s gs, decomp versionTagRe s gs → ∃ v a, gs = [v; a] ∧ s = v +:+ "-" +:+ a ∧
    lang versionPattern v ∧ lang (plus (Chr anyChar)) a) as Hi.
  { intros s gs' H. inversion H as [| |r ps v s2 gs2 Hv H2]; subst.
    inversion H2 as [|r ps d s3 gs3 Hdash H3|]; subst. apply (lang_lit "-") in Hdash as ->.
    inversion H3 as [| |r ps a s4 gs4 Ha H4]; subst. inversion H4; subst.
    exists v, a. by rewrite sapp_nil_r. }
  split.
  - intros Hg%find_groups_sound. by apply Hi.
  - intros (v & a & -> & -> & Hv & Ha). apply find_groups_unique; [by apply Hd|].
    intros gs' (v' & a' & -> & E & Hv' & Ha')%Hi.
    apply (str_split_at "-") in E as [-> ->]; [done|by apply versionPattern_no_dash..].
Qed.

(** The releases the tags hold for the wanted architectures. *)
Definition wanted (archs : list string) (tag : quayTag) (r : UpstreamRelease) : Prop :=
  qt_Name tag = ur_Version r +:+ "-" +:+ ur_Architecture r ∧
  lang versionPattern (ur_Version r) ∧ lang (plus (Chr anyChar)) (ur_Architecture r) ∧
  ur_Architecture r ∈ archs ∧ ur_Tag r = qt_Name tag ∧ ur_Digest r = qt_ManifestDigest tag.

Lemma release_of_spec archs tag r : release_of archs tag = Some r ↔ wanted archs tag r.
Proof.
  unfold release_of, wanted. split.
  - destruct (find_groups versionTagRe (qt_Name tag)) as [gs|] eqn:E; [|done].
    apply versionTag_groups in E as (v & a & -> & Hn & Hv & Ha).
    case_decide as Harch; [|done]. by intros [= <-].
  - intros (Hn & Hv & Ha & Harch & Ht & Hd).
    assert (find_groups versionTagRe (qt_Name tag) = Some [ur_Version r; ur_Architecture r]) as ->.
    { apply versionTag_groups. eauto 10. }
    rewrite decide_True by done. destruct r. simpl in *. by subst.
Qed.

Section listing.
Context `{Mirror.HttpClient} `{!JsonDecoder quayTagsResponse} `{GoSortLaws}.

Lemma sort_versions_sorted {A} (f : A → string) l :
  Forall (λ r, is_version (f r)) l →
  StronglySorted (λ r s, ¬ ver_lt (parseSemver (f r)) (parseSemver (f s)))
    (sort_slice (λ a b, bool_decide (compareSemver (f a) (f b) > 0)%Z) l).
Proof.
  intros Hl. set (less := λ a b : A, bool_decide (compareSemver (f a) (f b) > 0)%Z).
  assert (Forall (λ r, is_version (f r)) (sort_slice less l)) as Hl' by by rewrite sort_slice_perm.
  assert (∀ x y, is_version (f x) → is_version (f y) →
    not_after less x y ↔ ¬ ver_lt (parseSemver (f x)) (parseSemver (f y))) as Hna.
  { intros x y Hx Hy. unfold not_after, less. rewrite bool_decide_eq_false.
    by rewrite compareSemver_sign. }
  assert (StronglySorted (not_after less) (sort_slice less l)) as Hs.
  { apply (sort_slice_sorted less (λ r, is_version (f r))); [done|..].
    - intros x y z Hx Hy Hz. rewrite !Hna by done. unfold ver_lt.
      destruct (parseSemver (f x)) as [[? ?] ?], (parseSemver (f y)) as [[? ?] ?],
        (parseSemver (f z)) as [[? ?] ?]. lia.
    - intros x y Hx Hy. rewrite !Hna by done. unfold ver_lt.
      destruct (parseSemver (f x)) as [[? ?] ?], (parseSemver (f y)) as [[? ?] ?]. lia. }
  revert Hs Hl'. generalize (sort_slice less l). clear -Hna. intros m Hs Hl'.
  induction Hs as [|x m Hs IH Hx]; [constructor|].
  apply Forall_cons in Hl' as [Hvx Hvm]. constructor; [by apply IH|].
  rewrite Forall_forall in Hx, Hvm |- *. intros y Hy. apply Hna; auto.
Qed.

Lemma sort_releases_sorted l :
  Forall (λ r, is_version (ur_Version r)) l →
  StronglySorted (λ r s, ¬ ver_lt (parseSemver (ur_Version r)) (parseSemver (ur_Version s)))
    (sort_releases l).
Proof. apply (sort_versions_sorted ur_Version). Qed.


Lemma fetchPages_more k page base acc r :
  fetchTagsPage (pageURL base page) = Ok r → qr_HasAdditional r = true →
  fetchPages (S k) page base acc = fetchPages k (S page) base (acc ++ qr_Tags r).
Proof. intros Hp Hmore. cbn [fetchPages]. by rewrite Hp, Hmore. Qed.

Lemma fetchPages_failed k page base acc e :
  fetchTagsPage (pageURL base page) = Err e → acc ≠ [] →
  fetchPages (S k) page base acc = Ok acc.
Proof. intros Hp Hne. cbn [fetchPages]. by rewrite Hp, decide_False. Qed.

(** A page that fails after the first ends the listing without an error. *)
Fact failed_page_truncates base t r e :
  fetchTagsPage (pageURL base 1) = Ok r → qr_Tags r = t → t ≠ [] → qr_HasAdditional r = true →
  fetchTagsPage (pageURL base 2) = Err e → fetchAllTags base = Ok t.
Proof.
  intros Hp1 <- Hne Hmore Hp2. unfold fetchAllTags. change maxPages with (S (S 198)).
  rewrite (fetchPages_more _ _ _ _ r) by done. by apply (fetchPages_failed _ _ _ _ e).
Qed.
End listing.

(** ** An upstream *)

(** One page with four tags: two releases of the architecture asked for, one
    of another, and a tag that is no release. *)
Definition exTags : list quayTag :=
  [mkQuayTag "4.9.12-x86_64" "sha256:a" 1; mkQuayTag "4.18.2-x86_64" "sha256:b" 1;
   mkQuayTag "4.18.2-s390x" "sha256:c" 1; mkQuayTag "latest" "sha256:d" 1].

Definition exUpstream : Mirror.HttpClient := {|
  Mirror.NewRequest _ := None;
  Mirror.client_Do _ _ := Ok (Mirror.mkHttpResponse 200 "" 0 (NewReader []))
|}.
Definition exPages : JsonDecoder quayTagsResponse := λ _, Ok (mkTagsResponse exTags 1 false).
Definition exDiscovery : Discovery := NewDiscovery "quay.io" "ocp-release".

End Discovery.
