(* ===== verification/Cloner.v ===== *)
(** internal/releases/cloner.go: pulling release images and their component
    images from the upstream registry into the local stores.

    A call of the cloner is a computation in [M St]: the cloner's own fields,
    the shared stores and the number of the next call to the environment,
    which indexes the clock, the random names, the upstream's answers, the
    cancellation of the context and the order of concurrent work.  Goroutines
    are linearised: each blob or component is handled in one step, in an order
    the environment chooses.  The percentages of the progress display
    (floating point) and the log are left out. *)

From S2P Require Import Prelude Effect GoLib Digest Os Blob Badger Metadata Oci Mirror.

Module Cloner.

Record tokenEntry := mkTokenEntry { te_token : string; te_expires : Time }.

(** The credentials of the pull secret, by host. *)
Record dockerConfig := mkDockerConfig { dc_Auths : gmap string string }.

Record CloneProgress := mkCloneProgress {
  cp_Version : string;
  cp_Phase : string;
  cp_TotalBlobs : Z;
  cp_SyncedBlobs : Z;
  cp_TotalBytes : Z;
  cp_SyncedBytes : Z;
  cp_TotalComponents : Z;
  cp_MirroredComponents : Z;
  cp_CurrentComponent : string
}.

(** The progress records are shared by pointer: [cl_progress] is the heap they
    live in, [cl_active] the map from versions to pointers. *)
Record Cloner := mkCloner {
  cl_upstream : string;
  cl_repository : string;
  cl_localRepo : string;
  cl_pullSecret : string;
  cl_ComponentConcurrency : Z;
  cl_progress : gmap nat CloneProgress;
  cl_active : gmap string nat;
  cl_tokens : gmap string tokenEntry;
  cl_authConf : option dockerConfig
}.

Definition NewCloner (upstream repository localRepo pullSecret : string) : Cloner :=
  mkCloner upstream repository localRepo pullSecret 4 ∅ ∅ ∅ None.

Definition set_progress (f : gmap nat CloneProgress → gmap nat CloneProgress) (c : Cloner) : Cloner :=
  mkCloner (cl_upstream c) (cl_repository c) (cl_localRepo c) (cl_pullSecret c)
    (cl_ComponentConcurrency c) (f (cl_progress c)) (cl_active c) (cl_tokens c) (cl_authConf c).
Definition set_active (f : gmap string nat → gmap string nat) (c : Cloner) : Cloner :=
  mkCloner (cl_upstream c) (cl_repository c) (cl_localRepo c) (cl_pullSecret c)
    (cl_ComponentConcurrency c) (cl_progress c) (f (cl_active c)) (cl_tokens c) (cl_authConf c).
Definition set_tokens (f : gmap string tokenEntry → gmap string tokenEntry) (c : Cloner) : Cloner :=
  mkCloner (cl_upstream c) (cl_repository c) (cl_localRepo c) (cl_pullSecret c)
    (cl_ComponentConcurrency c) (cl_progress c) (cl_active c) (f (cl_tokens c)) (cl_authConf c).
Definition set_authConf (conf : dockerConfig) (c : Cloner) : Cloner :=
  mkCloner (cl_upstream c) (cl_repository c) (cl_localRepo c) (cl_pullSecret c)
    (cl_ComponentConcurrency c) (cl_progress c) (cl_active c) (cl_tokens c) (Some conf).

(** The anonymous structs manifests are decoded into: [Clone] and
    [PullComponentImage] read digests and sizes, the latter the media type
    as well. *)
Record CloneManifest := mkCloneManifest {
  cm_Config : string * Z;
  cm_Layers : list (string * Z)
}.
Record PullManifest := mkPullManifest {
  pl_MediaType : string;
  pl_Config : string * Z;
  pl_Layers : list (string * Z)
}.

(** [json.Unmarshal] into a type that is only decoded. *)
Class Unmarshal (A : Type) := unmarshal : bytes → result A.

Record Response := mkResponse {
  rp_StatusCode : Z;
  rp_WWWAuthenticate : string;
  rp_ContentType : string;
  rp_Body : Reader
}.

(** The environment: building a request, the answer to the [n]-th one (with
    the Authorization header, if set), the clock, the random names, the
    context, and the order concurrent work is done in. *)
Class Env := {
  NewRequest : string → option error;
  Do : nat → string → option string → result Response;
  now : nat → Time;
  rnds : nat → list N;
  cancelled : nat → bool;
  order : ∀ {A}, nat → list A → list A;
  order_perm {A} n (l : list A) : order n l ≡ₚ l
}.

(** ** References and headers *)

(** The last position of a character in a string. *)
Definition LastIndex (s : string) (c : ascii) : Z :=
  match Index (str_rev s) (String c "") with
  | Some i => slen s - 1 - Z.of_nat i
  | None => -1
  end.

(** [parseImageRef]: registry, repository and reference. *)
Definition parseImageRef (s : string) : string * string * string :=
  let '(s, ref) :=
    match Index s "@" with
    | Some at_ => (stake at_ s, sdrop (S at_) s)
    | None =>
      let colonIdx := LastIndex s ":" in
      let slashIdx := LastIndex s "/" in
      if decide (colonIdx > slashIdx ∧ colonIdx > 0)%Z
      then (stake (Z.to_nat colonIdx) s, sdrop (S (Z.to_nat colonIdx)) s)
      else (s, "")
    end in
  match Index s "/" with
  | None => ("", s, ref)
  | Some slashIdx =>
    let first := stake slashIdx s in
    if Contains first "." || Contains first ":" then (first, sdrop (S slashIdx) s, ref)
    else ("", s, ref)
  end.

Definition truncateStr (s : string) (n : nat) : string :=
  if decide (String.length s ≤ n) then s else stake n s +:+ "...".

Definition quote : ascii := ascii_of_N 34.

(** [strings.Trim] of double quotes. *)
Fixpoint trim_quotes (l : bytes) : bytes :=
  match l with
  | c :: l => if decide (c = quote) then trim_quotes l else c :: l
  | [] => []
  end.
Definition TrimQuotes (s : string) : string :=
  bytes_str (reverse (trim_quotes (reverse (trim_quotes (str_bytes s))))).

(** One part of the header, into the realm and the service found so far. *)
Definition parsePart (rs : string * string) (part : string) : string * string :=
  let part := TrimSpace part in
  if HasPrefix part "realm=" then (TrimQuotes (TrimPrefix part "realm="), rs.2)
  else if HasPrefix part "service=" then (rs.1, TrimQuotes (TrimPrefix part "service="))
  else rs.

Definition parseWWWAuthenticate (header : string) : string * string :=
  foldl parsePart ("", "") (Split "," (TrimPrefix header "Bearer ")).

(** ** Calls *)

Section cloner.
Context `{Badger} `{!Json MetadataStore.ManifestMeta} `{!Json MetadataStore.RepoMeta}.
Context `{!Unmarshal CloneManifest} `{!Unmarshal PullManifest} `{!Unmarshal dockerConfig}.
Context `{!JsonDecoder Mirror.tokenResp} `{!Env}.
Context (F : Faults).

Record St := mkSt {
  st_cl : Cloner;
  st_w : World;
  st_synced : Z;
  st_calls : nat
}.

Definition on_cl (f : Cloner → Cloner) : M St unit :=
  modify (λ s, mkSt (f (st_cl s)) (st_w s) (st_synced s) (st_calls s)).

(** A call to the environment takes its number. *)
Definition env {A} (f : nat → result A) : M St A := λ s,
  (f (st_calls s), mkSt (st_cl s) (st_w s) (st_synced s) (S (st_calls s))).

Definition time_Now : M St Time := env (λ n, Ok (now n)).
Definition ctx_Err : M St bool := env (λ n, Ok (cancelled n)).
Definition in_order {A} (l : list A) : M St (list A) := env (λ n, Ok (order n l)).

Definition http_Do (url : string) (auth : option string) : M St Response :=
  match NewRequest url with
  | Some e => throw e
  | None => env (λ n, Do n url auth)
  end.

(** ** The stores *)

Definition blobs_Exists (d : Digest) : M St bool := λ s,
  (BlobStore.Exists F (w_bs (st_w s)) (w_os (st_w s)) d, s).

Definition blobs_Put (d : Digest) (r : Reader) (size : Z) : M St unit := λ s,
  let w := st_w s in
  let '(res, os) := BlobStore.Put F (w_bs w) (w_os w) (rnds (st_calls s)) d r size in
  (res, mkSt (st_cl s) (mkWorld _ (w_bs w) os (w_db w)) (st_synced s) (S (st_calls s))).

(** [Get], then [io.ReadAll] and [Close]. *)
Definition blobs_Read (d : Digest) : M St bytes := λ s,
  let w := st_w s in
  let '(res, (bs, os)) := BlobStore.Get F (w_bs w) (w_os w) d in
  ((λ rn, BlobStore.reader_data rn.1) <$> res,
   mkSt (st_cl s) (mkWorld _ bs os (w_db w)) (st_synced s) (st_calls s)).

Definition on_db (f : DB → result unit * DB) : M St unit := λ s,
  let w := st_w s in
  let '(res, db) := f (w_db w) in
  (res, mkSt (st_cl s) (mkWorld _ (w_bs w) (w_os w) db) (st_synced s) (st_calls s)).

Definition metadata_PutManifest (repo ref : string) (meta : MetadataStore.ManifestMeta) : M St unit :=
  now1 ← time_Now; now2 ← time_Now;
  on_db (λ db, MetadataStore.PutManifest db now1 now2 repo ref meta).

Definition metadata_Link (d : Digest) (repo : string) : M St unit :=
  ignoring (on_db (λ db, MetadataStore.LinkBlobToRepo db d repo)).

(** ** Progress *)

Definition upd (p : nat) (f : CloneProgress → CloneProgress) : M St unit :=
  on_cl (set_progress (alter f p)).

(** A fresh progress record, made active for the version. *)
Definition start_progress (version : string) : M St nat :=
  c ← gets st_cl;
  let p := fresh (dom (cl_progress c)) in
  on_cl (set_progress <[p := mkCloneProgress version "pulling_manifest" 0 0 0 0 0 0 ""]>) ≫= λ _,
  on_cl (set_active <[version := p]>) ≫= λ _, mret p.

Definition FinishProgress (version : string) : M St unit :=
  on_cl (set_active (delete version)).

(** [GetProgress]: under the version, under the version before the first dash,
    or under a tag that starts with the version. *)
Definition GetProgress (version : string) : M St (option CloneProgress) :=
  c ← gets st_cl;
  let at_ p := cl_progress c !! p in
  match cl_active c !! version with
  | Some p => mret (at_ p)
  | None =>
    match (i ← Index version "-"; if decide (0 < i) then cl_active c !! stake i version else None) with
    | Some p => mret (at_ p)
    | None =>
      entries ← in_order (map_to_list (cl_active c));
      mret (kp ← head (filter (λ kp, HasPrefix kp.1 (version +:+ "-") = true ∨ kp.1 = version) entries);
            at_ kp.2)
    end
  end.

Definition GetAllProgress : M St (list CloneProgress) :=
  c ← gets st_cl;
  entries ← in_order (map_to_list (cl_active c));
  mret (omap (λ kp, cl_progress c !! kp.2) entries).

(** ** Authentication *)

Definition loadAuth : M St unit :=
  c ← gets st_cl;
  match cl_authConf c with
  | Some _ => mret tt
  | None =>
    if decide (cl_pullSecret c = "") then mret tt
    else
      w ← gets st_w;
      data ← lift (Open F (w_os w) (cl_pullSecret c));
      conf ← lift (unmarshal data);
      on_cl (set_authConf conf)
  end.

(** The credentials of a host whose name contains the upstream's. *)
Definition basicAuth (c : Cloner) : M St (option string) :=
  match cl_authConf c with
  | None => mret None
  | Some conf =>
    auths ← in_order (map_to_list (dc_Auths conf));
    mret ((λ ha, "Basic " +:+ ha.2) <$>
          head (filter (λ ha, Contains ha.1 (cl_upstream c) = true) auths))
  end.

Definition requestToken (scope : string) : M St string :=
  c ← gets st_cl;
  resp ← http_Do ("https://" +:+ cl_upstream c +:+ "/v2/") None;
  if decide (rp_StatusCode resp ≠ 401)%Z then mret ""
  else
    let '(realm, service) := parseWWWAuthenticate (rp_WWWAuthenticate resp) in
    if decide (realm = "") then throw (Errorf "no realm in WWW-Authenticate header")
    else
      auth ← basicAuth c;
      tokenResp ← http_Do (realm +:+ "?service=" +:+ service +:+ "&scope=" +:+ scope) auth;
      if decide (rp_StatusCode tokenResp ≠ 200)%Z then
        throw (Errorf ("token request failed (" +:+ fmt_d (rp_StatusCode tokenResp) +:+ "): " +:+
                       bytes_str (rd_data (rp_Body tokenResp))))
      else
        tokenResult ← lift (json_Decode (rd_data (rp_Body tokenResp)));
        let expiry := if decide (Mirror.tr_ExpiresIn tokenResult > 0)%Z
                      then Mirror.tr_ExpiresIn tokenResult else 300%Z in
        t ← time_Now;
        on_cl (set_tokens <[scope := mkTokenEntry (Mirror.tr_Token tokenResult)
                              (t + (expiry - 30) * Second)%Z]>) ≫= λ _,
        mret (Mirror.tr_Token tokenResult).

Definition getToken (scope : string) : M St string :=
  c ← gets st_cl;
  match cl_tokens c !! scope with
  | Some entry =>
    t ← time_Now;
    if Before t (te_expires entry) then mret (te_token entry) else requestToken scope
  | None => requestToken scope
  end.

(** The request for a URL, with a bearer token unless it is empty. *)
Definition authorized (token : string) : option string :=
  if decide (token = "") then None else Some ("Bearer " +:+ token).

Definition readAll (r : Reader) : M St bytes :=
  match rd_err r with Some e => throw e | None => mret (rd_data r) end.

Definition pullScope (repo : string) : string := "repository:" +:+ repo +:+ ":pull".

(** ** Cloning a release image *)

Definition fetchManifest (ref : string) : M St (bytes * Digest * string) :=
  c ← gets st_cl;
  token ← wrapping "getting token" (getToken (pullScope (cl_repository c)));
  resp ← http_Do ("https://" +:+ cl_upstream c +:+ "/v2/" +:+ cl_repository c +:+ "/manifests/" +:+ ref)
           (authorized token);
  if decide (rp_StatusCode resp ≠ 200)%Z then
    throw (Errorf ("upstream returned " +:+ fmt_d (rp_StatusCode resp) +:+ ": " +:+
                   bytes_str (rd_data (rp_Body resp))))
  else
    body ← readAll (rp_Body resp);
    mret (body, FromBytes body, rp_ContentType resp).

(** [blobs.Put] through the reader that counts what is read. *)
Definition countingPut (d : Digest) (r : Reader) (size : Z) : M St unit := λ s,
  let n := if Mirror.Put_reads F (st_w s) (rnds (st_calls s)) d size then blen (rd_data r) else 0%Z in
  blobs_Put d r size (mkSt (st_cl s) (st_w s) (st_synced s + n) (st_calls s)).

Definition addSynced (n : Z) : M St unit :=
  modify (λ s, mkSt (st_cl s) (st_w s) (st_synced s + n) (st_calls s)).

Definition syncBlob (dgst : Digest) (size : Z) : M St unit :=
  there ← blobs_Exists dgst;
  if there : bool then addSynced size
  else
    c ← gets st_cl;
    token ← getToken (pullScope (cl_repository c));
    resp ← http_Do ("https://" +:+ cl_upstream c +:+ "/v2/" +:+ cl_repository c +:+ "/blobs/" +:+ dgst)
             (authorized token);
    if decide (rp_StatusCode resp ≠ 200)%Z then
      throw (Errorf ("upstream returned " +:+ fmt_d (rp_StatusCode resp) +:+ " for blob " +:+ dgst))
    else countingPut dgst (rp_Body resp) size.

(** One more blob is there. *)
Definition count_blob (p : nat) : M St unit :=
  n ← gets st_synced;
  upd p (λ cp, mkCloneProgress (cp_Version cp) (cp_Phase cp) (cp_TotalBlobs cp)
    (cp_SyncedBlobs cp + 1) (cp_TotalBytes cp) n (cp_TotalComponents cp)
    (cp_MirroredComponents cp) (cp_CurrentComponent cp)).

(** The goroutine of one layer. *)
Definition syncLayer (p : nat) (layer : string * Z) : M St unit :=
  dgst ← wrapping ("parsing digest " +:+ layer.1) (lift (Parse layer.1));
  wrapping ("syncing blob " +:+ stake 12 layer.1) (syncBlob dgst layer.2) ≫= λ _,
  count_blob p.

Definition syncConfig (p : nat) (config : string * Z) : M St unit :=
  if decide (config.1 = "") then mret tt
  else
    dgst ← wrapping "parsing config digest" (lift (Parse config.1));
    wrapping "syncing config" (syncBlob dgst config.2) ≫= λ _, count_blob p.

Definition link_parsed (repo d : string) : M St unit :=
  metadata_Link (match Parse d with Ok dgst => dgst | _ => "" end) repo.

(** The manifest is recorded, and the blobs linked. *)
Definition recordClone (repo tag : string) (meta : MetadataStore.ManifestMeta) (m : CloneManifest)
    : M St unit :=
  wrapping "storing manifest metadata" (metadata_PutManifest repo tag meta) ≫= λ _,
  metadata_Link (MetadataStore.mm_Digest meta) repo ≫= λ _,
  (if decide ((cm_Config m).1 = "") then mret tt else link_parsed repo (cm_Config m).1) ≫= λ _,
  for_each (λ l, link_parsed repo l.1) (cm_Layers m).

Definition storeClone (tag : string) (body : bytes) (dgst : Digest) (mediaType : string)
    (m : CloneManifest) : M St unit :=
  wrapping "storing manifest" (blobs_Put dgst (NewReader body) (blen body)) ≫= λ _,
  t ← time_Now;
  c ← gets st_cl;
  recordClone (cl_localRepo c) tag
    (MetadataStore.mkManifestMeta dgst mediaType (blen body) t (cm_Layers m).*1 "" ∅) m.

Definition Clone (version arch : string) : M St nat :=
  let tag := version +:+ "-" +:+ arch in
  p ← start_progress version;
  wrapping "loading pull secret" loadAuth ≫= λ _,
  bdm ← wrapping "fetching manifest" (fetchManifest tag);
  let '(body, dgst, mediaType) := bdm in
  m ← wrapping "parsing manifest" (lift (unmarshal body));
  let totalBlobs := (Z.of_nat (length (cm_Layers m)) +
                     if decide ((cm_Config m).1 = "") then 0 else 1)%Z in
  let totalBytes := wrap64 (foldl Z.add 0 (cm_Layers m).*2 + (cm_Config m).2)%Z in
  upd p (λ cp, mkCloneProgress (cp_Version cp) "pulling_blobs" totalBlobs (cp_SyncedBlobs cp)
    totalBytes (cp_SyncedBytes cp) (cp_TotalComponents cp) (cp_MirroredComponents cp)
    (cp_CurrentComponent cp)) ≫= λ _,
  modify (λ s, mkSt (st_cl s) (st_w s) 0 (st_calls s)) ≫= λ _,
  syncConfig p (cm_Config m) ≫= λ _,
  layers ← in_order (cm_Layers m);
  errs ← for_all (syncLayer p) layers;
  match (errs : list error) with
  | e :: _ => throw e
  | [] => storeClone tag body dgst mediaType m ≫= λ _, mret p
  end.

(** ** Mirroring component images *)

Definition syncBlobFromRepo (registry repo : string) (dgst : Digest) (size : Z) : M St unit :=
  there ← blobs_Exists dgst;
  if there : bool then mret tt
  else
    token ← getToken (pullScope repo);
    resp ← http_Do ("https://" +:+ registry +:+ "/v2/" +:+ repo +:+ "/blobs/" +:+ dgst)
             (authorized token);
    if decide (rp_StatusCode resp ≠ 200)%Z then
      throw (Errorf ("upstream returned " +:+ fmt_d (rp_StatusCode resp) +:+ " for blob " +:+ dgst))
    else blobs_Put dgst (rp_Body resp) size.

Definition pullLayer (registry repo : string) (layer : string * Z) : M St unit :=
  dgst ← lift (Parse layer.1);
  wrapping ("syncing blob " +:+ stake 12 layer.1) (syncBlobFromRepo registry repo dgst layer.2) ≫= λ _,
  c ← gets st_cl;
  metadata_Link dgst (cl_localRepo c).

(** The configuration blob: a digest that does not parse is skipped. *)
Definition pullConfig (registry repo : string) (config : string * Z) : M St unit :=
  if decide (config.1 = "") then mret tt
  else match Parse config.1 with
       | Ok dgst => wrapping "syncing config" (syncBlobFromRepo registry repo dgst config.2)
       | _ => mret tt
       end.

Definition linkConfig (config : string * Z) : M St unit :=
  c ← gets st_cl;
  if decide (config.1 = "") then mret tt
  else match Parse config.1 with
       | Ok dgst => metadata_Link dgst (cl_localRepo c)
       | _ => mret tt
       end.

Definition defaultMediaType : string := "application/vnd.docker.distribution.manifest.v2+json".

(** The manifest of a component, as stored and recorded. *)
Definition storeComponent (body : bytes) : M St PullManifest :=
  let mDigest := FromBytes body in
  there ← blobs_Exists mDigest;
  (if there : bool then mret tt
   else wrapping "storing component manifest blob"
          (blobs_Put mDigest (NewReader body) (blen body))) ≫= λ _,
  m ← wrapping "parsing component manifest" (lift (unmarshal body));
  let mediaType := if decide (pl_MediaType m = "") then defaultMediaType else pl_MediaType m in
  t ← time_Now;
  c ← gets st_cl;
  let meta := MetadataStore.mkManifestMeta mDigest mediaType (blen body) t (pl_Layers m).*1 "" ∅ in
  ignoring (metadata_PutManifest (cl_localRepo c) mDigest meta) ≫= λ _,
  metadata_Link mDigest (cl_localRepo c) ≫= λ _,
  mret m.

Definition PullComponentImage (imageRef : string) : M St bytes :=
  wrapping "loading pull secret" loadAuth ≫= λ _,
  let '(registry, repo, ref) := parseImageRef imageRef in
  if decide (repo = "" ∨ ref = "") then throw (Errorf ("invalid image reference: " +:+ imageRef))
  else
    c ← gets st_cl;
    let registry := if decide (registry = "") then cl_upstream c else registry in
    token ← wrapping ("getting token for " +:+ repo) (getToken (pullScope repo));
    resp ← http_Do ("https://" +:+ registry +:+ "/v2/" +:+ repo +:+ "/manifests/" +:+ ref)
             (authorized token);
    if decide (rp_StatusCode resp ≠ 200)%Z then
      throw (Errorf ("upstream returned " +:+ fmt_d (rp_StatusCode resp) +:+ ": " +:+
                     truncateStr (bytes_str (rd_data (rp_Body resp))) 200))
    else
      body ← readAll (rp_Body resp);
      m ← storeComponent body;
      pullConfig registry repo (pl_Config m) ≫= λ _,
      layers ← in_order (pl_Layers m);
      errs ← for_all (pullLayer registry repo) layers;
      match (errs : list error) with
      | e :: _ => throw e
      | [] => linkConfig (pl_Config m) ≫= λ _, mret body
      end.

Definition start_component (p : nat) (component : string) : M St unit :=
  upd p (λ cp, mkCloneProgress (cp_Version cp) (cp_Phase cp) (cp_TotalBlobs cp)
    (cp_SyncedBlobs cp) (cp_TotalBytes cp) (cp_SyncedBytes cp) (cp_TotalComponents cp)
    (cp_MirroredComponents cp) component).

Definition count_component (p : nat) : M St unit :=
  upd p (λ cp, mkCloneProgress (cp_Version cp) (cp_Phase cp) (cp_TotalBlobs cp)
    (cp_SyncedBlobs cp) (cp_TotalBytes cp) (cp_SyncedBytes cp) (cp_TotalComponents cp)
    (cp_MirroredComponents cp + 1) (cp_CurrentComponent cp)).

(** The workers take the jobs one after the other; a worker ends at its first
    error or when the context is cancelled, and the job it took is then lost.
    The first error, if any. *)
Fixpoint runJobs (p : nat) (workers : nat) (jobs : list (string * string)) : M St (option error) :=
  match workers, jobs with
  | O, _ | _, [] => mret None
  | S others, (component, ref) :: jobs =>
    stop ← ctx_Err;
    if stop : bool then runJobs p others jobs
    else
      start_component p component ≫= λ _,
      r ← attempt (PullComponentImage ref);
      match r with
      | inr e =>
        runJobs p others jobs ≫= λ _, mret (Some (wrap ("mirroring " +:+ component) e))
      | inl _ => count_component p ≫= λ _, runJobs p workers jobs
      end
  end.

Definition MirrorComponents (refs : gmap string string) (p : nat) : M St unit :=
  if decide (refs = ∅) then mret tt
  else
    c ← gets st_cl;
    let workers := if decide (cl_ComponentConcurrency c ≤ 0)%Z then 4%Z
                   else cl_ComponentConcurrency c in
    upd p (λ cp, mkCloneProgress (cp_Version cp) "mirroring_components" (cp_TotalBlobs cp)
      (cp_SyncedBlobs cp) (cp_TotalBytes cp) (cp_SyncedBytes cp) (Z.of_nat (size refs)) 0
      (cp_CurrentComponent cp)) ≫= λ _,
    jobs ← in_order (map_to_list refs);
    err ← runJobs p (Z.to_nat workers) jobs;
    match (err : option error) with Some e => throw e | None => mret tt end.

(** The manifest of a component, from the local blob store only. *)
Definition LookupComponentManifest (imageRef : string) : M St bytes :=
  let '(_, _, ref) := parseImageRef imageRef in
  if decide (ref = "") then throw (Errorf ("image reference has no digest: " +:+ imageRef))
  else
    dgst ← wrapping ("parsing digest " +:+ String quote (ref +:+ String quote "")) (lift (Parse ref));
    wrapping ("reading manifest blob " +:+ dgst) (blobs_Read dgst).
End cloner.

End Cloner.
