(* ===== verification/ClonerSpec.v ===== *)
(** What a successful clone and a successful mirroring leave in the stores:
    the triples of the cloner's calls, and the two theorems that a release is
    self-contained afterwards. *)

From S2P Require Import Prelude Effect GoLib Digest Os Blob Badger Metadata Oci Mirror Cloner.

Module ClonerSpec.
Import Cloner.

(** The fields of the cloner that no call changes. *)
Abbreviation Conf := (string * string * string * string * Z)%type.

Definition conf (c : Cloner) : Conf :=
  (cl_upstream c, cl_repository c, cl_localRepo c, cl_pullSecret c, cl_ComponentConcurrency c).

Section frame.
Context `{BadgerLaws} `{!Json MetadataStore.ManifestMeta} `{!Json MetadataStore.RepoMeta}.
Context `{!Unmarshal CloneManifest} `{!Unmarshal PullManifest} `{!Unmarshal dockerConfig}.
Context `{!JsonDecoder Mirror.tokenResp} `{!Env}.
Context (F : Faults).

(** ** Calls that leave the stores alone *)

Definition same (s0 s : St) : Prop :=
  st_w s = st_w s0 ∧ conf (st_cl s) = conf (st_cl s0).

Definition quiet {A} (m : M St A) : Prop := ∀ s0, keeps (same s0) m.

Lemma quiet_keeps {A} (J : World → Conf → Prop) (m : M St A) :
  quiet m → keeps (λ s, J (st_w s) (conf (st_cl s))) m.
Proof. intros Hm s Hs. destruct (Hm s s) as [-> ->]; [done|]. exact Hs. Qed.

Lemma quiet_env {A} (f : nat → result A) : quiet (env f).
Proof. by intros s0 s Hs. Qed.

Lemma quiet_on_cl f : (∀ c, conf (f c) = conf c) → quiet (on_cl f).
Proof. intros Hf s0 s [? Hc]. split; [done|]. simpl. by rewrite Hf. Qed.

Lemma quiet_modify f :
  (∀ s, st_w (f s) = st_w s ∧ st_cl (f s) = st_cl s) → quiet (modify f).
Proof. intros Hf s0 s [? ?]. destruct (Hf s) as [Hw Hc]. split; simpl; by rewrite ?Hw, ?Hc. Qed.

Hint Resolve quiet_env : fastreg.

Lemma quiet_http_Do url auth : quiet (http_Do url auth).
Proof. intros s0. unfold http_Do. repeat keeps_step. apply quiet_env. Qed.

Lemma quiet_upd p f : quiet (upd p f).
Proof. by apply quiet_on_cl. Qed.

Ltac quiet_solve :=
  repeat first [keeps_step | apply quiet_env | apply quiet_http_Do | apply quiet_upd
               | apply quiet_on_cl; done | apply quiet_modify; done].

Lemma quiet_loadAuth : quiet (loadAuth F).
Proof. intros s0. unfold loadAuth. quiet_solve. Qed.

Lemma quiet_getToken scope : quiet (getToken scope).
Proof. intros s0. unfold getToken, requestToken, basicAuth, time_Now, in_order. quiet_solve. Qed.

Lemma quiet_readAll r : quiet (readAll r).
Proof. intros s0. unfold readAll. quiet_solve. Qed.

Lemma quiet_start_progress v : quiet (start_progress v).
Proof. intros s0. unfold start_progress. quiet_solve. Qed.

Lemma quiet_fetchManifest ref : quiet (fetchManifest ref).
Proof.
  intros s0. unfold fetchManifest, readAll.
  repeat first [keeps_step | apply quiet_getToken | apply quiet_http_Do].
Qed.

Lemma quiet_addSynced n : quiet (addSynced n).
Proof. by apply quiet_modify. Qed.

Lemma quiet_count_blob p : quiet (count_blob p).
Proof. intros s0. unfold count_blob. quiet_solve. Qed.

Lemma quiet_FinishProgress v : quiet (FinishProgress v).
Proof. by apply quiet_on_cl. Qed.
End frame.

#[export] Hint Resolve quiet_env quiet_http_Do quiet_upd quiet_loadAuth quiet_getToken quiet_readAll
  quiet_start_progress quiet_fetchManifest quiet_addSynced quiet_count_blob
  quiet_FinishProgress : fastreg.

(** ** Calls that add blobs *)

Section growth.
Context `{BadgerLaws} `{!Json MetadataStore.ManifestMeta} `{!Json MetadataStore.RepoMeta}.
Context `{!Unmarshal CloneManifest} `{!Unmarshal PullManifest} `{!Unmarshal dockerConfig}.
Context `{!JsonDecoder Mirror.tokenResp} `{!Env}.
Context (F : Faults) (HRemove : F OpRemove = None).
Context (root : string) (Hroot : BlobStore.good_root root).

(** A consistent blob store under the root. *)
Definition world_ok (w : World) : Prop :=
  BlobStore.bs_root (w_bs w) = root ∧ BlobStore.store_ok root (os_files (w_os w)).

(** The blob of a digest is in the store. *)
Definition stored (w : World) (d : Digest) : Prop :=
  is_Some (os_files (w_os w) !! BlobStore.blobFile root d).

(** Consistent, with all the blobs [w0] had, and the same configuration. *)
Definition grown (w0 : World) (cf : Conf) (w : World) (cf' : Conf) : Prop :=
  world_ok w ∧ (∀ d, canonical d → stored w0 d → stored w d) ∧ cf' = cf.

Definition grows {A} (m : M St A) : Prop :=
  ∀ w0 cf, keeps (λ s, grown w0 cf (st_w s) (conf (st_cl s))) m.

Lemma grows_quiet {A} (m : M St A) : quiet m → grows m.
Proof. intros Hm w0 cf. by apply (quiet_keeps (λ w cf', grown w0 cf w cf')). Qed.

Lemma grown_refl w cf : world_ok w → grown w cf w cf.
Proof. intros Hw. split; [exact Hw|]. by split. Qed.

(** The file a blob operation wrote, if any, is a verified blob. *)
Lemma grown_files w0 cf w cf' os :
  grown w0 cf w cf' →
  (os_files os = os_files (w_os w) ∨
   ∃ b, os_files os = <[BlobStore.blobFile root (FromBytes b) := b]> (os_files (w_os w))) →
  ∀ bs db, BlobStore.bs_root bs = root → grown w0 cf (mkWorld _ bs os db) cf'.
Proof.
  intros ((Hbs & Hok) & Hmono & ->) Hos bs db Hr.
  destruct Hos as [E|[b E]]; (split; [split; [done|simpl; rewrite E]|split; [|done]]).
  - done.
  - intros d Hd Hst. specialize (Hmono d Hd Hst). unfold stored in *. simpl. by rewrite E.
  - by apply BlobStore.store_ok_insert_blob.
  - intros d Hd Hst. specialize (Hmono d Hd Hst). unfold stored in *. simpl. rewrite E.
    by apply lookup_insert_is_Some'; right.
Qed.

Lemma Put_files bs os ns d r n :
  BlobStore.bs_root bs = root →
  let os' := (BlobStore.Put F bs os ns d r n).2 in
  os_files os' = os_files os ∨
  ∃ b, os_files os' = <[BlobStore.blobFile root (FromBytes b) := b]> (os_files os).
Proof.
  intros Hbs. destruct (BlobStore.Put F bs os ns d r n) as [res os'] eqn:HP. cbn [snd].
  destruct (BlobStore.blobPath bs d) as [p|e|m] eqn:Hp.
  - assert (BlobStore.good_root (BlobStore.bs_root bs)) as Hr by by rewrite Hbs.
    destruct (BlobStore.Put_cases_path F HRemove bs os ns d r n res os' p Hr Hp HP)
      as [(e & _ & ->)|[(_ & -> & _)|(_ & Hd & _ & _ & -> & ->)]]; [by left..|].
    right. exists (rd_data r). by rewrite <-Hd, Hbs.
  - unfold BlobStore.Put in HP. rewrite Hp in HP. injection HP as _ <-. by left.
  - unfold BlobStore.Put in HP. rewrite Hp in HP. injection HP as _ <-. by left.
Qed.

Lemma grows_blobs_Exists d : grows (blobs_Exists F d).
Proof. by intros w0 cf s Hs. Qed.

Lemma grows_blobs_Put d r n : grows (blobs_Put F d r n).
Proof.
  intros w0 cf s Hs. unfold blobs_Put. destruct Hs as [Hw Hrest] eqn:E. clear E.
  pose proof (Put_files (w_bs (st_w s)) (w_os (st_w s)) (rnds (st_calls s)) d r n (proj1 Hw)) as HP.
  destruct (BlobStore.Put _ _ _ _ _ _ _) as [res os']. simpl in *.
  by apply (grown_files w0 cf (st_w s)); [|done|apply Hw].
Qed.

Lemma grows_countingPut d r n : grows (countingPut F d r n).
Proof. intros w0 cf s Hs. unfold countingPut. by apply grows_blobs_Put. Qed.

Lemma grows_blobs_Read d : grows (blobs_Read F d).
Proof.
  intros w0 cf s Hs. unfold blobs_Read.
  pose proof (BlobStore.Get_files F (w_bs (st_w s)) (w_os (st_w s)) d) as [HF HR].
  destruct (BlobStore.Get _ _ _ _) as [res [bs' os']]. simpl in *.
  apply (grown_files w0 cf (st_w s)); [done|by left|]. rewrite HR. apply Hs.
Qed.

Lemma grows_on_db f : grows (on_db f).
Proof.
  intros w0 cf s Hs. unfold on_db. destruct (f (w_db (st_w s))) as [res db']. simpl.
  apply (grown_files w0 cf (st_w s)); [done|by left|]. apply Hs.
Qed.

Lemma grows_PutManifest repo ref meta : grows (metadata_PutManifest repo ref meta).
Proof.
  intros w0 cf. unfold metadata_PutManifest, time_Now.
  repeat first [keeps_step | apply (grows_quiet _ (quiet_env _)) | apply grows_on_db].
Qed.

Lemma grows_Link d repo : grows (metadata_Link d repo).
Proof. intros w0 cf. unfold metadata_Link. keeps_step. apply grows_on_db. Qed.

Ltac grows_step :=
  first
    [ keeps_step
    | apply grows_blobs_Exists | apply grows_blobs_Put | apply grows_blobs_Read
    | apply grows_countingPut | apply grows_on_db | apply grows_PutManifest | apply grows_Link
    | apply grows_quiet; solve [eauto with fastreg | by apply quiet_modify] ].
Ltac grows_solve := repeat grows_step.

Lemma grows_syncBlob d n : grows (syncBlob F d n).
Proof. intros w0 cf. unfold syncBlob. grows_solve. Qed.

Lemma grows_syncBlobFromRepo reg repo d n : grows (syncBlobFromRepo F reg repo d n).
Proof. intros w0 cf. unfold syncBlobFromRepo. grows_solve. Qed.

Lemma grows_syncLayer p l : grows (syncLayer F p l).
Proof. intros w0 cf. unfold syncLayer. repeat first [grows_step | apply grows_syncBlob]. Qed.

Lemma grows_syncConfig p c : grows (syncConfig F p c).
Proof. intros w0 cf. unfold syncConfig. repeat first [grows_step | apply grows_syncBlob]. Qed.

Lemma grows_storeClone tag body d mt m : grows (storeClone F tag body d mt m).
Proof. intros w0 cf. unfold storeClone, recordClone, link_parsed, time_Now. grows_solve. Qed.

Lemma grows_Clone ver arch : grows (Clone F ver arch).
Proof.
  intros w0 cf. unfold Clone, in_order.
  repeat first [grows_step | apply grows_syncConfig | apply grows_syncLayer | apply grows_storeClone].
Qed.

Lemma grows_pullLayer reg repo l : grows (pullLayer F reg repo l).
Proof. intros w0 cf. unfold pullLayer. repeat first [grows_step | apply grows_syncBlobFromRepo]. Qed.

Lemma grows_PullComponentImage ref : grows (PullComponentImage F ref).
Proof.
  intros w0 cf. unfold PullComponentImage, storeComponent, pullConfig, linkConfig, in_order, time_Now.
  repeat first [grows_step | apply grows_syncBlobFromRepo | apply grows_pullLayer].
Qed.

Lemma grows_runJobs p n jobs : grows (runJobs F p n jobs).
Proof.
  revert n. induction jobs as [|[c ref] jobs IH]; intros [|n] w0 cf; simpl; [grows_solve..|].
  unfold ctx_Err. repeat first [apply IH | grows_step | apply grows_PullComponentImage].
Qed.

Lemma grows_MirrorComponents refs p : grows (MirrorComponents F refs p).
Proof.
  intros w0 cf. unfold MirrorComponents, in_order.
  repeat first [grows_step | apply grows_runJobs].
Qed.

Lemma grows_LookupComponentManifest ref : grows (LookupComponentManifest F ref).
Proof. intros w0 cf. unfold LookupComponentManifest. grows_solve. Qed.

(** ** What success means *)

(** The digest is well formed, and its blob is in the store when its digits are
    hexadecimal. *)
Definition kept (d : Digest) (w : World) : Prop := valid d ∧ (canonical d → stored w d).

Lemma grows_kept {A} (m : M St A) d :
  grows m → keeps (λ s, world_ok (st_w s) ∧ kept d (st_w s)) m.
Proof.
  intros Hm s [Hok [Hv Hk]].
  destruct (Hm (st_w s) (conf (st_cl s)) s) as (? & Hmono & _); [by apply grown_refl|].
  split; [done|]. split; auto.
Qed.

Lemma grows_ok {A} (m : M St A) : grows m → keeps (λ s, world_ok (st_w s)) m.
Proof.
  intros Hm s Hok. by destruct (Hm (st_w s) (conf (st_cl s)) s) as (? & _ & _); [apply grown_refl|].
Qed.

Lemma blobs_Exists_post d :
  hoare (λ s, world_ok (st_w s)) (blobs_Exists F d)
    (on_ok (λ b s, world_ok (st_w s) ∧ (b = true → canonical d → stored (st_w s) d))).
Proof.
  intros s Hok b. simpl. unfold BlobStore.Exists. intros Hb. split; [done|]. intros -> Hd.
  destruct Hok as [Hbs _]. rewrite BlobStore.blobPath_canonical in Hb by (rewrite ?Hbs; done).
  rewrite Hbs in Hb. simpl in Hb. unfold Stat in Hb. unfold stored.
  destruct (F OpStat); [done|]. destruct (_ !! _); [by eexists|done].
Qed.

Lemma blobs_Put_post d r n :
  hoare (λ s, world_ok (st_w s)) (blobs_Put F d r n)
    (on_ok (λ _ s, world_ok (st_w s) ∧ (canonical d → stored (st_w s) d))).
Proof.
  intros s Hok [] Hres. split; [by apply (grows_ok _ (grows_blobs_Put d r n))|]. intros Hd.
  revert Hres. unfold blobs_Put, stored. destruct Hok as [Hbs _].
  destruct (BlobStore.Put _ _ _ _ _ _ _) as [res os'] eqn:HP. simpl. intros ->.
  apply BlobStore.Put_cases in HP; [|by rewrite ?Hbs..].
  rewrite Hbs in HP. destruct HP as [(e & ? & _)|[(_ & -> & c & -> & _)|(_ & _ & _ & _ & ->)]];
    [done|by eexists|]. rewrite lookup_insert_eq. by eexists.
Qed.

Lemma syncBlob_post d n :
  hoare (λ s, world_ok (st_w s)) (syncBlob F d n)
    (on_ok (λ _ s, canonical d → stored (st_w s) d)).
Proof.
  unfold syncBlob. eapply hoare_on_ok_bind; [apply blobs_Exists_post|]. intros [].
  - intros s [_ Hst] ? _. by apply Hst.
  - eapply hoare_conseq with (P' := λ s, world_ok (st_w s)) (Q' := on_ok _); [|by intros s []|done].
    repeat (eapply hoare_on_ok_bind; [apply keeps_on_ok, grows_ok, grows_quiet;
      first [apply quiet_getToken | apply quiet_http_Do | intros ?; apply keeps_gets]|intros ?]).
    case_decide; [apply hoare_throw|]. intros s Hok u Hres.
    by apply (blobs_Put_post d (rp_Body _) n (mkSt _ (st_w s) _ _) Hok u Hres).
Qed.

Lemma syncBlobFromRepo_post reg repo d n :
  hoare (λ s, world_ok (st_w s)) (syncBlobFromRepo F reg repo d n)
    (on_ok (λ _ s, canonical d → stored (st_w s) d)).
Proof.
  unfold syncBlobFromRepo. eapply hoare_on_ok_bind; [apply blobs_Exists_post|]. intros [].
  - intros s [_ Hst] ? _. by apply Hst.
  - eapply hoare_conseq with (P' := λ s, world_ok (st_w s)) (Q' := on_ok _); [|by intros s []|done].
    do 2 (eapply hoare_on_ok_bind; [apply keeps_on_ok, grows_ok, grows_quiet;
      first [apply quiet_getToken | apply quiet_http_Do]|intros ?]).
    case_decide; [apply hoare_throw|]. intros s Hok u Hres. by apply (blobs_Put_post d (rp_Body _) n s Hok u).
Qed.

(** Work on one blob: parse the digest, fetch, and then calls that only add. *)
Lemma parsed_post {A} (x : string) (r : result Digest) (fetch : Digest → M St unit) (k : M St A) :
  (∀ d, r = Ok d → Parse x = Ok d) →
  (∀ d, grows (fetch d)) →
  (∀ d, hoare (λ s, world_ok (st_w s)) (fetch d) (on_ok (λ _ s, canonical d → stored (st_w s) d))) →
  grows k →
  hoare (λ s, world_ok (st_w s)) (lift r ≫= λ d, fetch d ≫= λ _, k)
    (on_ok (λ _ s, kept x (st_w s))).
Proof.
  intros Hr Hg Hf Hk. eapply hoare_on_ok_bind; [apply hoare_on_ok_lift|]. intros d.
  apply hoare_pure. intros (-> & Hv)%Hr%Parse_Ok.
  eapply hoare_on_ok_bind.
  - apply (hoare_on_ok_and _ (λ _ s, world_ok (st_w s))); [by apply keeps_on_ok, grows_ok|apply Hf].
  - intros []. eapply hoare_conseq; [apply keeps_on_ok, (grows_kept k d Hk)| |by intros ?? H' ? ?; eapply H'].
    intros s [? ?]. by split.
Qed.

Lemma wrapping_lift {A} pre (r : result A) :
  wrapping (S := St) pre (lift r) = lift (match r with Err e => Err (wrap pre e) | r => r end).
Proof. by destruct r. Qed.

Lemma syncLayer_post p l :
  hoare (λ s, world_ok (st_w s)) (syncLayer F p l) (on_ok (λ _ s, kept l.1 (st_w s))).
Proof.
  unfold syncLayer. rewrite wrapping_lift. apply parsed_post.
  - intros d. by destruct (Parse l.1).
  - intros d w0 cf. keeps_step. apply grows_syncBlob.
  - intros d. apply hoare_on_ok_wrapping, syncBlob_post.
  - apply grows_quiet, quiet_count_blob.
Qed.

Lemma syncConfig_post p c :
  hoare (λ s, world_ok (st_w s)) (syncConfig F p c)
    (on_ok (λ _ s, c.1 ≠ "" → kept c.1 (st_w s))).
Proof.
  unfold syncConfig. case_decide as Hc; [by intros s Hs u _ Hne|]. rewrite wrapping_lift.
  eapply hoare_conseq; [apply (parsed_post c.1)|done|].
  - intros d. by destruct (Parse c.1).
  - intros d w0 cf. keeps_step. apply grows_syncBlob.
  - intros d. apply hoare_on_ok_wrapping, syncBlob_post.
  - apply grows_quiet, quiet_count_blob.
  - intros r s Hr u Hu _. by eapply Hr.
Qed.

Lemma pullLayer_post reg repo l :
  hoare (λ s, world_ok (st_w s)) (pullLayer F reg repo l) (on_ok (λ _ s, kept l.1 (st_w s))).
Proof.
  unfold pullLayer. eapply hoare_on_ok_bind; [apply hoare_on_ok_lift|]. intros d.
  apply hoare_pure. intros Hd. pose proof (parsed_post l.1 (Ok d)
    (λ d, wrapping ("syncing blob " +:+ stake 12 l.1) (syncBlobFromRepo F reg repo d l.2))
    (gets st_cl ≫= λ c, metadata_Link d (cl_localRepo c))) as Hp.
  apply Hp.
  - by intros ? [= <-].
  - intros d' w0 cf. keeps_step. apply grows_syncBlobFromRepo.
  - intros d'. apply hoare_on_ok_wrapping, syncBlobFromRepo_post.
  - intros w0 cf. repeat keeps_step. apply grows_Link.
Qed.

(** The digests a clone manifest refers to. *)
Definition cm_digests (m : CloneManifest) : list Digest :=
  (if decide ((cm_Config m).1 = "") then [] else [(cm_Config m).1]) ++ (cm_Layers m).*1.

Definition pl_digests (m : PullManifest) : list Digest :=
  (if decide ((pl_Config m).1 = "") then [] else [(pl_Config m).1]) ++ (pl_Layers m).*1.

Definition all_kept (ds : list Digest) (w : World) : Prop := Forall (λ d, kept d w) ds.

Lemma grows_all_kept {A} (m : M St A) ds :
  grows m → keeps (λ s, world_ok (st_w s) ∧ all_kept ds (st_w s)) m.
Proof.
  intros Hm s [Hok Hds]. split; [by apply grows_ok|].
  apply Forall_forall. intros d Hd. apply (grows_kept m d Hm s). split; [done|].
  by eapply Forall_forall in Hds.
Qed.

(** The layers, fetched in any order. *)
Lemma layers_post (f : string * Z → M St unit) l l' ds :
  l' ≡ₚ l → (∀ x, grows (f x)) →
  (∀ x, hoare (λ s, world_ok (st_w s)) (f x) (on_ok (λ _ s, kept x.1 (st_w s)))) →
  hoare (λ s, world_ok (st_w s) ∧ all_kept ds (st_w s)) (for_all f l')
    (λ r s, world_ok (st_w s) ∧ (r = Ok [] → all_kept (ds ++ l.*1) (st_w s))).
Proof.
  intros Hl Hg Hf s [Hok Hds].
  assert (grows (for_all f l')) as Hgl by (intros w0 cf; apply keeps_for_all; intros x; apply Hg).
  split; [by apply grows_ok|]. intros Hr. apply Forall_app. split.
  - by apply (grows_all_kept _ ds Hgl).
  - pose proof (hoare_for_all (λ s, world_ok (st_w s)) (λ x s, kept x.1 (st_w s)) f l') as Ha.
    specialize (Ha (λ x, grows_ok _ (Hg x)) Hf (λ x y, grows_kept _ _ (Hg x)) s Hok Hr).
    apply Forall_fmap. by rewrite <-Hl.
Qed.

Lemma grows_pullConfig reg repo c : grows (pullConfig F reg repo c).
Proof. intros w0 cf. unfold pullConfig. repeat first [grows_step | apply grows_syncBlobFromRepo]. Qed.

Lemma grows_storeComponent body : grows (storeComponent F body).
Proof. intros w0 cf. unfold storeComponent, time_Now. grows_solve. Qed.

Lemma grows_linkConfig c : grows (linkConfig c).
Proof. intros w0 cf. unfold linkConfig. grows_solve. Qed.

(** Storing a blob, and then calls that only add. *)
Lemma put_then_grow {A} pre d r n (k : M St A) :
  canonical d → grows k →
  hoare (λ s, world_ok (st_w s)) (wrapping pre (blobs_Put F d r n) ≫= λ _, k)
    (on_ok (λ _ s, stored (st_w s) d)).
Proof.
  intros Hd Hk. eapply hoare_on_ok_bind; [apply hoare_on_ok_wrapping, blobs_Put_post|]. intros [].
  eapply hoare_conseq; [apply keeps_on_ok, (grows_kept k d Hk)| |].
  - intros s [Hok Hst]. split; [done|]. split; [by apply canonical_valid|done].
  - intros res s Hr a Ha. by apply (Hr a Ha).
Qed.

Lemma storeClone_stored tag body d ct m :
  canonical d →
  hoare (λ s, world_ok (st_w s)) (storeClone F tag body d ct m) (on_ok (λ _ s, stored (st_w s) d)).
Proof.
  intros Hd. unfold storeClone. apply put_then_grow; [done|].
  intros w0 cf. unfold recordClone, link_parsed, time_Now. grows_solve.
Qed.

Lemma storeComponent_post body :
  hoare (λ s, world_ok (st_w s)) (storeComponent F body)
    (on_ok (λ m s, unmarshal body = Ok m ∧ world_ok (st_w s) ∧ all_kept [FromBytes body] (st_w s))).
Proof.
  unfold storeComponent. pose proof (FromBytes_canonical body) as Hcan.
  eapply hoare_on_ok_bind; [apply blobs_Exists_post|]. intros there.
  eapply hoare_on_ok_bind with (R := λ _ s,
    world_ok (st_w s) ∧ all_kept [FromBytes body] (st_w s)).
  { assert (∀ s, stored (st_w s) (FromBytes body) → all_kept [FromBytes body] (st_w s)) as Hs.
    { intros s Hs. repeat constructor; [by apply canonical_valid|done]. }
    destruct there.
    - intros s [Hok Hst] u _. split; [done|]. by apply Hs, Hst.
    - intros s [Hok _] u Hu.
      destruct (hoare_on_ok_wrapping "storing component manifest blob" _ _ _ (blobs_Put_post
        (FromBytes body) (NewReader body) (blen body)) s Hok u Hu) as [? Hst].
      split; [done|]. by apply Hs, Hst. }
  intros u. rewrite wrapping_lift. eapply hoare_on_ok_bind; [apply hoare_on_ok_lift|]. intros m.
  apply hoare_pure. intros Hm. assert (unmarshal body = Ok m) as Hbody by by destruct (unmarshal body).
  set (k := _ : M St PullManifest).
  assert (grows k) as Hk by (intros w0 cf; unfold k, time_Now; grows_solve).
  assert (hoare (λ _, True) k (on_ok (λ m' _, m' = m))) as Hret.
  { unfold k. repeat (eapply hoare_on_ok_bind with (R := λ _ _, True); [by intros ????|intros ?]).
    by intros s _ x [= <-]. }
  intros s Hs m' Hm'. rewrite (Hret s I m' Hm'). split; [done|].
  by apply (grows_all_kept k [FromBytes body] Hk s).
Qed.

Lemma pullConfig_post reg repo c :
  hoare (λ s, world_ok (st_w s)) (pullConfig F reg repo c)
    (on_ok (λ _ s, c.1 ≠ "" → valid c.1 → kept c.1 (st_w s))).
Proof.
  unfold pullConfig. case_decide as Hc; [by intros s Hs u _ Hne|].
  destruct (Parse c.1) as [d|e|x] eqn:Hp; [|intros s Hs u _ _ Hv; by rewrite Parse_valid in Hp..].
  apply Parse_Ok in Hp as [<- Hv]. eapply hoare_conseq; [apply hoare_on_ok_wrapping, syncBlobFromRepo_post|done|].
  intros r s Hr u Hu _ _. split; [done|]. by apply (Hr u).
Qed.

(** ** The metadata *)

(** Calls that leave the database alone. *)
Definition nodb {A} (m : M St A) : Prop := ∀ db, keeps (λ s, w_db (st_w s) = db) m.

Lemma nodb_quiet {A} (m : M St A) : quiet m → nodb m.
Proof. intros Hm db. by apply (quiet_keeps (λ w _, w_db w = db)). Qed.

Lemma nodb_blobs_Put d r n : nodb (blobs_Put F d r n).
Proof. intros db s Hs. unfold blobs_Put. by destruct (BlobStore.Put _ _ _ _ _ _ _). Qed.

Lemma nodb_syncBlob d n : nodb (syncBlob F d n).
Proof.
  intros db. unfold syncBlob, countingPut.
  repeat first [keeps_step | apply nodb_quiet; solve [eauto with fastreg]
               | by intros s Hs | intros s Hs; by apply nodb_blobs_Put].
Qed.

Lemma nodb_syncLayer p l : nodb (syncLayer F p l).
Proof.
  intros db. unfold syncLayer.
  repeat first [keeps_step | apply nodb_syncBlob | apply nodb_quiet; solve [eauto with fastreg]].
Qed.

Lemma nodb_syncConfig p c : nodb (syncConfig F p c).
Proof.
  intros db. unfold syncConfig.
  repeat first [keeps_step | apply nodb_syncBlob | apply nodb_quiet; solve [eauto with fastreg]].
Qed.

(** The tag of the repository resolves to the record. *)
Definition recorded (repo tag : string) (meta : MetadataStore.ManifestMeta) (w : World) : Prop :=
  ∃ ix, MetadataStore.represents (view (w_db w)) ix ∧
    MetadataStore.ix_resolve ix repo tag = Some (MetadataStore.mm_Digest meta) ∧
    MetadataStore.ix_manifests ix !! (repo, MetadataStore.mm_Digest meta) = Some meta.

Lemma recorded_GetManifest repo tag meta w :
  not_in ":" repo → recorded repo tag meta w → MetadataStore.GetManifest (w_db w) repo tag = Ok meta.
Proof.
  intros Hr (ix & Hrep & Ht & Hm). rewrite (MetadataStore.GetManifest_spec _ ix) by done.
  rewrite Ht. simpl. by rewrite Hm.
Qed.
End growth.

Section release.
Context `{BadgerLaws} `{!Json MetadataStore.ManifestMeta} `{!Json MetadataStore.RepoMeta}.
Context `{!JsonLaws MetadataStore.ManifestMeta MetadataStore.meta_ok}.
Context `{!JsonLaws MetadataStore.RepoMeta MetadataStore.repo_ok}.
Context `{!Unmarshal CloneManifest} `{!Unmarshal PullManifest} `{!Unmarshal dockerConfig}.
Context `{!JsonDecoder Mirror.tokenResp} `{!Env}.
Context (F : Faults) (HRemove : F OpRemove = None).
Context (root : string) (Hroot : BlobStore.good_root root).
Context (Hclock : ∀ n, MetadataStore.time_ok (now n)).

Lemma Link_recorded repo tag meta d r :
  MetadataStore.good_repo r → valid d →
  keeps (λ s, recorded repo tag meta (st_w s)) (metadata_Link d r).
Proof.
  intros Hr Hd. unfold metadata_Link. keeps_step. intros s (ix & Hrep & Ht & Hm).
  destruct (MetadataStore.Link_refines (w_db (st_w s)) ix d r) as [Hres Hrep']; [by split|done|].
  unfold on_db. destruct (MetadataStore.LinkBlobToRepo _ _ _) as [res db']. simpl in *.
  eexists. by split_and!.
Qed.

Lemma link_parsed_recorded repo tag meta d r :
  MetadataStore.good_repo r → valid d →
  keeps (λ s, recorded repo tag meta (st_w s)) (link_parsed r d).
Proof. intros Hr Hd. unfold link_parsed. rewrite Parse_valid by done. by apply Link_recorded. Qed.

Lemma PutManifest_recorded ix repo tag meta :
  MetadataStore.good_repo repo → MetadataStore.meta_ok meta →
  (HasPrefix tag "sha256:" = true → tag = MetadataStore.mm_Digest meta) →
  hoare (λ s, MetadataStore.represents (view (w_db (st_w s))) ix) (metadata_PutManifest repo tag meta)
    (on_ok (λ _ s, recorded repo tag meta (st_w s))).
Proof.
  intros Hr Hm Htag. unfold metadata_PutManifest, time_Now, env, on_db. intros s Hs [] _.
  unfold mbind, M_bind. cbn [fst snd st_calls st_w st_cl].
  set (n1 := now (st_calls s)). set (n2 := now (S (st_calls s))).
  destruct (MetadataStore.run_refines (MetadataStore.OpPutManifest n1 n2 repo tag meta)
    (w_db (st_w s)) ix) as [Hres Hrep]; [|done|].
  { split; [done|]. split; [done|]. split; apply Hclock. }
  simpl in Hres, Hrep.
  destruct (MetadataStore.PutManifest _ _ _ _ _ _) as [res db']. simpl in *.
  eexists. split; [exact Hrep|]. simpl. rewrite lookup_insert_eq. split; [|done].
  unfold MetadataStore.ix_resolve. simpl. destruct (HasPrefix tag "sha256:"); [by rewrite <-Htag|].
  by rewrite lookup_insert_eq.
Qed.

(** What the environment delivers that the metadata can hold: ASCII media
    types and digests, and sizes in range. *)
Definition plain_response (r : Response) : Prop :=
  let body := rd_data (rp_Body r) in
  MetadataStore.is_ascii (rp_ContentType r) ∧ (blen body ≤ maxInt64)%Z ∧
  (∀ m, unmarshal body = Ok m → Forall MetadataStore.is_ascii (cm_Layers m).*1).

Definition clone_meta (body : bytes) (ct : string) (t : Time) (m : CloneManifest) :
    MetadataStore.ManifestMeta :=
  MetadataStore.mkManifestMeta (FromBytes body) ct (blen body) t (cm_Layers m).*1 "" ∅.

Lemma clone_meta_ok body ct t m :
  MetadataStore.is_ascii ct → (blen body ≤ maxInt64)%Z → MetadataStore.time_ok t →
  Forall MetadataStore.is_ascii (cm_Layers m).*1 → MetadataStore.meta_ok (clone_meta body ct t m).
Proof.
  intros Hct Hb Ht Hl. split; [apply MetadataStore.canonical_ascii, FromBytes_canonical|].
  split; [done|]. split; [unfold in64, minInt64, clone_meta; cbn [MetadataStore.mm_Size]; unfold blen in *; lia|].
  split; [done|]. split; [done|]. split; [by apply (bool_decide_unpack _)|]. apply map_Forall_empty.
Qed.

Lemma cm_digests_config m : (cm_Config m).1 ≠ "" → (cm_Config m).1 ∈ cm_digests m.
Proof. intros Hne. unfold cm_digests. rewrite decide_False by done. set_solver. Qed.

Lemma cm_digests_layer m l : l ∈ cm_Layers m → l.1 ∈ cm_digests m.
Proof. intros Hl. unfold cm_digests. apply elem_of_app. right. by apply list_elem_of_fmap_2. Qed.

Lemma hoare_gets {A B} (φ : A → Prop) (f : St → A) (P : St → Prop) (k : A → M St B) Q :
  (∀ s, P s → φ (f s)) → (∀ a, φ a → hoare P (k a) Q) → hoare P (gets f ≫= k) Q.
Proof. intros Hf Hk s Hs. by apply (Hk (f s) (Hf s Hs) s). Qed.

(** The record, and the links after it. *)
Lemma recordClone_recorded ix repo tag meta m :
  MetadataStore.good_repo repo → (HasPrefix tag "sha256:" = true → tag = MetadataStore.mm_Digest meta) →
  MetadataStore.meta_ok meta → valid (MetadataStore.mm_Digest meta) → Forall valid (cm_digests m) →
  hoare (λ s, MetadataStore.represents (view (w_db (st_w s))) ix) (recordClone repo tag meta m)
    (on_ok (λ _ s, recorded repo tag meta (st_w s))).
Proof.
  intros Hr Htag Hm Hd Hv. rewrite Forall_forall in Hv. unfold recordClone.
  eapply hoare_on_ok_bind; [by apply hoare_on_ok_wrapping, PutManifest_recorded|]. intros u.
  apply keeps_on_ok, keeps_bind; [by apply Link_recorded|]. intros _. apply keeps_bind.
  - case_decide as Hc; [apply keeps_ret|]. apply link_parsed_recorded; [done|].
    by apply Hv, cm_digests_config.
  - intros _. assert (∀ l, l ∈ cm_Layers m → valid l.1) as Hl by (intros; by apply Hv, cm_digests_layer).
    revert Hl. generalize (cm_Layers m). intros ls. induction ls as [|l ls IH]; intros Hl; simpl.
    + apply keeps_ret.
    + apply keeps_bind; [apply link_parsed_recorded; [done|apply Hl; set_solver]|]. intros _.
      apply IH. intros; apply Hl; set_solver.
Qed.

Lemma storeClone_recorded ix repo tag body ct m :
  MetadataStore.good_repo repo → HasPrefix tag "sha256:" = false →
  MetadataStore.is_ascii ct → (blen body ≤ maxInt64)%Z →
  Forall MetadataStore.is_ascii (cm_Layers m).*1 → Forall valid (cm_digests m) →
  hoare (λ s, cl_localRepo (st_cl s) = repo ∧ MetadataStore.represents (view (w_db (st_w s))) ix)
    (storeClone F tag body (FromBytes body) ct m)
    (on_ok (λ _ s, ∃ t, recorded repo tag (clone_meta body ct t m) (st_w s))).
Proof.
  intros Hr Htag Hct Hb Hl Hv. unfold storeClone.
  eapply hoare_on_ok_bind with (R := λ _ s, cl_localRepo (st_cl s) = repo ∧
    MetadataStore.represents (view (w_db (st_w s))) ix).
  { apply hoare_on_ok_wrapping, keeps_on_ok. intros s [Hc Hrep]. split.
    - unfold blobs_Put. by destruct (BlobStore.Put _ _ _ _ _ _ _).
    - by rewrite (nodb_blobs_Put F _ _ _ (w_db (st_w s)) s). }
  intros _. eapply hoare_on_ok_bind with (R := λ t s, MetadataStore.time_ok t ∧
    (cl_localRepo (st_cl s) = repo ∧ MetadataStore.represents (view (w_db (st_w s))) ix)).
  { intros s Hs t [= <-]. split; [apply Hclock|done]. }
  intros t. apply hoare_pure. intros Ht.
  eapply hoare_on_ok_bind with (R := λ c s, cl_localRepo c = repo ∧
    MetadataStore.represents (view (w_db (st_w s))) ix).
  { by intros s [? ?] c [= <-]. }
  intros c. apply hoare_pure. intros Hc. rewrite Hc.
  eapply hoare_conseq; [apply (recordClone_recorded ix repo tag (clone_meta body ct t m) m)|done|]; [done|..].
  - by rewrite Htag.
  - by apply clone_meta_ok.
  - apply canonical_valid, FromBytes_canonical.
  - done.
  - intros r s Hs a Ha. exists t. by apply (Hs a).
Qed.

(** ** Cloning *)

(** Before the manifest is stored: a consistent store, the configuration, and
    the database as it was. *)
Definition before (cf : Conf) (db : DB) (s : St) : Prop :=
  world_ok root (st_w s) ∧ conf (st_cl s) = cf ∧ w_db (st_w s) = db.

Lemma before_keeps {A} cf db (m : M St A) : grows root m → nodb m → keeps (before cf db) m.
Proof.
  intros Hg Hn s (Hok & Hc & Hd).
  destruct (Hg (st_w s) (conf (st_cl s)) s) as (? & _ & Hc'); [by apply grown_refl|].
  split; [done|]. split; [by rewrite Hc'|by apply Hn].
Qed.

Lemma before_quiet {A} cf db (m : M St A) : quiet m → keeps (before cf db) m.
Proof. intros Hm. apply before_keeps; [by apply grows_quiet|by apply nodb_quiet]. Qed.

Lemma bind_quiet {A B} cf db (m : M St A) (k : A → M St B) Q :
  quiet m → (∀ a, hoare (before cf db) (k a) (on_ok Q)) → hoare (before cf db) (m ≫= k) (on_ok Q).
Proof. intros Hm Hk. eapply hoare_on_ok_bind; [by apply keeps_on_ok, before_quiet|done]. Qed.

(** The answer a manifest was taken from. *)
Definition answered (url : string) (body : bytes) (ct : string) : Prop :=
  ∃ n auth resp, Do n url auth = Ok resp ∧ rp_StatusCode resp = 200%Z ∧
    rd_data (rp_Body resp) = body ∧ rp_ContentType resp = ct.

Definition manifestURL (c : Conf) (ref : string) : string :=
  "https://" +:+ c.1.1.1.1 +:+ "/v2/" +:+ c.1.1.1.2 +:+ "/manifests/" +:+ ref.

Lemma fetchManifest_post cf db ref :
  hoare (before cf db) (fetchManifest ref)
    (on_ok (λ bdm s, (answered (manifestURL cf ref) bdm.1.1 bdm.2 ∧ bdm.1.2 = FromBytes bdm.1.1) ∧
                     before cf db s)).
Proof.
  unfold fetchManifest.
  eapply hoare_on_ok_bind with (R := λ c s, conf c = cf ∧ before cf db s).
  { intros s Hs c [= <-]. split; [apply Hs|done]. }
  intros c. apply hoare_pure. intros Hc. apply bind_quiet.
  { intros s0. keeps_step. apply quiet_getToken. }
  intros token.
  eapply hoare_on_ok_bind with (R := λ resp s,
    (∃ n auth, Do n (manifestURL cf ref) auth = Ok resp) ∧ before cf db s).
  { change ("https://" +:+ cl_upstream c +:+ "/v2/" +:+ cl_repository c +:+ "/manifests/" +:+ ref)
      with (manifestURL (conf c) ref). rewrite Hc. unfold http_Do. destruct (NewRequest _); [apply hoare_throw|].
    intros s Hs resp Hr. split; [eexists _, _; exact Hr|].
    by apply (before_quiet cf db (env _) (quiet_env _)). }
  intros resp. apply hoare_pure. intros (n & auth & Hdo). case_decide as Hst; [apply hoare_throw|].
  unfold readAll. destruct (rd_err _); [apply hoare_throw|].
  intros s Hs a [= <-]. split; [|done]. split; [|done]. exists n, auth, resp. by split_and!.
Qed.

(** What a clone that succeeded has left behind: the manifest the upstream
    answered with is in the store and recorded under the tag, and so is every
    blob it refers to. *)
Definition cloned (repo tag url : string) (w : World) : Prop :=
  ∃ body ct m, answered url body ct ∧ unmarshal body = Ok m ∧
    (∃ t, MetadataStore.GetManifest (w_db w) repo tag = Ok (clone_meta body ct t m)) ∧
    Forall (λ d, valid d ∧ (canonical d → ∃ c,
      os_files (w_os w) !! BlobStore.blobFile root d = Some c ∧ d = FromBytes c))
      (FromBytes body :: cm_digests m).

Lemma all_kept_blobs ds w :
  world_ok root w → all_kept root ds w →
  Forall (λ d, valid d ∧ (canonical d → ∃ c,
    os_files (w_os w) !! BlobStore.blobFile root d = Some c ∧ d = FromBytes c)) ds.
Proof.
  intros [_ Hst] Hk. eapply Forall_impl; [exact Hk|]. intros d [Hv Hs]. split; [done|].
  intros Hd. destruct (Hs Hd) as [c Hc]. exists c. split; [done|]. by apply Hst.
Qed.

(** The blobs of the manifest, fetched: the state before it is stored. *)
Lemma sync_post cf db p m l' :
  l' ≡ₚ cm_Layers m →
  hoare (λ s, before cf db s ∧ ((cm_Config m).1 ≠ "" → kept root (cm_Config m).1 (st_w s)))
    (for_all (syncLayer F p) l')
    (on_ok (λ errs s, before cf db s ∧ (errs = [] → all_kept root (cm_digests m) (st_w s)))).
Proof.
  intros Hl s [Hb Hc] errs Hr.
  assert (grows root (for_all (syncLayer F p) l')) as Hg
    by (intros w0 c; apply keeps_for_all; intros x; by apply grows_syncLayer).
  assert (nodb (for_all (syncLayer F p) l')) as Hn
    by (intros d; apply keeps_for_all; intros x; apply nodb_syncLayer).
  split; [by apply before_keeps|]. intros ->.
  set (ds := if decide ((cm_Config m).1 = "") then [] else [(cm_Config m).1]).
  destruct (layers_post root (syncLayer F p) (cm_Layers m) l' ds Hl) with (s := s)
    as [_ Hall].
  - intros x. by apply grows_syncLayer.
  - intros x. by apply syncLayer_post.
  - split; [apply Hb|]. unfold ds, all_kept. case_decide; constructor; auto.
  - by apply Hall.
Qed.

Lemma storeClone_post cf db ix tag body ct m :
  MetadataStore.represents (view db) ix → MetadataStore.good_repo cf.1.1.2 →
  HasPrefix tag "sha256:" = false → MetadataStore.is_ascii ct → (blen body ≤ maxInt64)%Z →
  Forall MetadataStore.is_ascii (cm_Layers m).*1 →
  hoare (λ s, before cf db s ∧ all_kept root (cm_digests m) (st_w s))
    (storeClone F tag body (FromBytes body) ct m)
    (on_ok (λ _ s, (∃ t, recorded cf.1.1.2 tag (clone_meta body ct t m) (st_w s)) ∧
       world_ok root (st_w s) ∧ all_kept root (FromBytes body :: cm_digests m) (st_w s))).
Proof.
  intros Hrep Hr Htag Hct Hb Hl s [(Hok & Hc & Hdb) Hk] u Hu.
  pose proof (grows_storeClone F HRemove root Hroot tag body (FromBytes body) ct m) as Hg.
  assert (Forall valid (cm_digests m)) as Hv by (eapply Forall_impl; [exact Hk|]; by intros d [? _]).
  split; [|split].
  - apply (storeClone_recorded ix cf.1.1.2 tag body ct m Hr Htag Hct Hb Hl Hv s) with (a := u); [|done].
    split; [by rewrite <-Hc|by rewrite Hdb].
  - by apply (grows_ok root _ Hg).
  - constructor; [|by apply (grows_all_kept root _ _ Hg)].
    split; [apply canonical_valid, FromBytes_canonical|]. intros _.
    by apply (storeClone_stored F HRemove root Hroot tag body (FromBytes body) ct m
      (FromBytes_canonical _) s Hok u).
Qed.

(** C12 A clone that succeeds is self-contained: whichever system calls other
    than removal fail, and in whatever order the layers arrive, when [Clone]
    returns no error the tag resolves, in the local repository, to the
    manifest the upstream answered with, and that manifest and every blob it
    refers to are in the store with the digests they are stored under.  When
    it fails, every blob that was there is still there and the store is
    content addressed. *)
Theorem Clone_self_contained ix ver arch s0 :
  let cf := conf (st_cl s0) in
  let tag := ver +:+ "-" +:+ arch in
  world_ok root (st_w s0) → MetadataStore.represents (view (w_db (st_w s0))) ix →
  MetadataStore.good_repo (cl_localRepo (st_cl s0)) → HasPrefix tag "sha256:" = false →
  (∀ n url auth r, Do n url auth = Ok r → plain_response r) →
  let '(res, s1) := Clone F ver arch s0 in
  world_ok root (st_w s1) ∧
  (∀ d, canonical d → stored root (st_w s0) d → stored root (st_w s1) d) ∧
  (is_ok res = true → cloned (cl_localRepo (st_cl s0)) tag (manifestURL cf tag) (st_w s1)).
Proof.
  intros cf tag Hok Hrep Hr Htag Hplain.
  pose proof (grows_Clone F HRemove root Hroot ver arch (st_w s0) cf s0 (grown_refl root _ _ Hok)) as Hg.
  assert (∀ body ct, answered (manifestURL cf tag) body ct → ∀ m, unmarshal body = Ok m →
    MetadataStore.is_ascii ct ∧ (blen body ≤ maxInt64)%Z ∧
    Forall MetadataStore.is_ascii (cm_Layers m).*1) as Hplain'.
  { intros body ct (n & auth & resp & Hdo & _ & <- & <-) m Hm.
    destruct (Hplain n _ auth resp Hdo) as (? & ? & ?). auto. }
  assert (hoare (before cf (w_db (st_w s0))) (Clone F ver arch)
    (on_ok (λ _ s, cloned cf.1.1.2 tag (manifestURL cf tag) (st_w s)))) as Hpost.
  { unfold Clone. apply bind_quiet; [apply quiet_start_progress|]. intros p.
    apply bind_quiet; [intros s; apply keeps_wrapping, quiet_loadAuth|]. intros _.
    eapply hoare_on_ok_bind; [apply hoare_on_ok_wrapping, fetchManifest_post|].
    intros [[body dg] ct]. apply hoare_pure. cbn [fst snd]. intros [Hans ->].
    rewrite wrapping_lift. eapply hoare_on_ok_bind; [apply hoare_on_ok_lift|].
    intros m. apply hoare_pure. intros Hm.
    assert (unmarshal body = Ok m) as Hbody by by destruct (unmarshal body).
    apply bind_quiet; [apply quiet_upd|]. intros _.
    apply bind_quiet; [by apply quiet_modify|]. intros _.
    eapply hoare_on_ok_bind.
    { apply hoare_on_ok_and; [apply keeps_on_ok, before_keeps;
        [by apply grows_syncConfig|apply nodb_syncConfig]|].
      eapply hoare_conseq; [by apply (syncConfig_post F HRemove root Hroot p (cm_Config m))|by intros s []|done]. }
    intros u. eapply hoare_on_ok_bind with (R := λ l s, l ≡ₚ cm_Layers m ∧
      (before cf (w_db (st_w s0)) s ∧
       ((cm_Config m).1 ≠ "" → kept root (cm_Config m).1 (st_w s)))).
    { intros s Hs l [= <-]. split; [apply order_perm|exact Hs]. }
    intros l. apply hoare_pure. intros Hl.
    eapply hoare_on_ok_bind; [by apply sync_post|]. intros [|e errs]; [|apply hoare_throw].
    destruct (Hplain' body ct Hans m Hbody) as (Hct & Hlen & Hasc).
    eapply hoare_on_ok_bind.
    { eapply hoare_conseq; [by apply (storeClone_post cf (w_db (st_w s0)) ix tag body ct m)| |done].
      intros s [Hb Hk]. by split; [|apply Hk]. }
    intros u' s (Hrec & Hw & Hk) a _. exists body, ct, m. split; [done|]. split; [done|]. split.
    - destruct Hrec as [t Ht]. exists t. by apply recorded_GetManifest; [apply Hr|].
    - by apply all_kept_blobs. }
  destruct (Clone F ver arch s0) as [res s1] eqn:E. cbn [snd] in Hg. destruct Hg as (Hw & Hmono & _).
  split; [done|]. split; [done|]. intros Hres. destruct res as [p|e|x]; [|done..].
  specialize (Hpost s0). rewrite E in Hpost. by apply (Hpost (conj Hok (conj eq_refl eq_refl)) p).
Qed.
End release.

(** ** Mirroring *)

Section mirror.
Context `{BadgerLaws} `{!Json MetadataStore.ManifestMeta} `{!Json MetadataStore.RepoMeta}.
Context `{!Unmarshal CloneManifest} `{!Unmarshal PullManifest} `{!Unmarshal dockerConfig}.
Context `{!JsonDecoder Mirror.tokenResp} `{!Env}.
Context (F : Faults) (HRemove : F OpRemove = None).
Context (root : string) (Hroot : BlobStore.good_root root).

Definition ready (cf : Conf) (s : St) : Prop := world_ok root (st_w s) ∧ conf (st_cl s) = cf.

Lemma ready_keeps {A} cf (m : M St A) : grows root m → keeps (ready cf) m.
Proof.
  intros Hg s (Hok & Hc).
  destruct (Hg (st_w s) (conf (st_cl s)) s) as (? & _ & Hc'); [by apply grown_refl|].
  split; [done|]. by rewrite Hc'.
Qed.

Lemma ready_quiet {A B} cf (m : M St A) (k : A → M St B) Q :
  quiet m → (∀ a, hoare (ready cf) (k a) (on_ok Q)) → hoare (ready cf) (m ≫= k) (on_ok Q).
Proof. intros Hm Hk. eapply hoare_on_ok_bind; [by apply keeps_on_ok, ready_keeps, grows_quiet|done]. Qed.

(** The URL of the manifest an image reference names. *)
Definition componentURL (cf : Conf) (imageRef : string) : string :=
  let '(registry, repo, ref) := parseImageRef imageRef in
  "https://" +:+ (if decide (registry = "") then cf.1.1.1.1 else registry) +:+ "/v2/" +:+ repo +:+
  "/manifests/" +:+ ref.

(** The digests of a component that are fetched: the layers, which all have to
    be well formed, and the configuration if it is. *)
Definition component_digests (m : PullManifest) : list Digest :=
  filter (λ d, Validate d = None) (pl_digests m).

Definition mirrored_body (cf : Conf) (imageRef : string) (body : bytes) (w : World) : Prop :=
  ∃ m, (∃ ct, answered (componentURL cf imageRef) body ct) ∧ unmarshal body = Ok m ∧
    Forall valid (pl_Layers m).*1 ∧ all_kept root (FromBytes body :: component_digests m) w.

Lemma grows_mirrored {A} cf ref body (m : M St A) :
  grows root m → keeps (λ s, world_ok root (st_w s) ∧ mirrored_body cf ref body (st_w s)) m.
Proof.
  intros Hg s [Hok (pm & Hans & Hu & Hv & Hk)].
  destruct (grows_all_kept root m _ Hg s (conj Hok Hk)) as [? ?].
  split; [done|]. by exists pm.
Qed.

Lemma pull_layers_post reg repo body m l' :
  l' ≡ₚ pl_Layers m →
  hoare (λ s, (world_ok root (st_w s) ∧ all_kept root [FromBytes body] (st_w s)) ∧
              ((pl_Config m).1 ≠ "" → valid (pl_Config m).1 → kept root (pl_Config m).1 (st_w s)))
    (for_all (pullLayer F reg repo) l')
    (on_ok (λ errs s, errs = [] → world_ok root (st_w s) ∧ Forall valid (pl_Layers m).*1 ∧
       all_kept root (FromBytes body :: component_digests m) (st_w s))).
Proof.
  intros Hl s [[Hok Hb] Hc] errs Hr ->.
  set (ds := if decide ((pl_Config m).1 ≠ "" ∧ Validate (pl_Config m).1 = None)
             then [(pl_Config m).1] else []).
  destruct (layers_post root (pullLayer F reg repo) (pl_Layers m) l' (FromBytes body :: ds) Hl)
    with (s := s) as [Hw Hall].
  - intros x. by apply grows_pullLayer.
  - intros x. by apply pullLayer_post.
  - split; [done|]. apply Forall_app with (l1 := [_]). split; [done|]. unfold ds.
    case_decide as Hd; constructor; [|done]. destruct Hd as [? ?%Validate_valid]. by apply Hc.
  - specialize (Hall Hr). apply Forall_app in Hall as [Hds Hls]. apply Forall_cons in Hds as [Hbk Hds].
    split; [done|]. split; [by eapply Forall_impl; [exact Hls|intros d []]|].
    constructor; [done|]. unfold component_digests, pl_digests. rewrite Forall_forall in Hds, Hls.
    apply Forall_forall. intros d [Hd [Hin|Hin]%elem_of_app]%list_elem_of_filter; [|by apply Hls].
    apply Hds. unfold ds. case_decide; [set_solver|]. apply list_elem_of_singleton in Hin as ->.
    rewrite decide_True by done. by apply list_elem_of_singleton.
Qed.

Lemma PullComponentImage_post cf ref :
  hoare (ready cf) (PullComponentImage F ref)
    (on_ok (λ body s, world_ok root (st_w s) ∧ mirrored_body cf ref body (st_w s))).
Proof.
  unfold PullComponentImage, mirrored_body, componentURL.
  apply ready_quiet; [intros s; apply keeps_wrapping, quiet_loadAuth|]. intros _.
  destruct (parseImageRef ref) as [[reg repo] rf]. case_decide; [apply hoare_throw|].
  eapply hoare_on_ok_bind with (R := λ c s, conf c = cf ∧ ready cf s).
  { intros s Hs c [= <-]. split; [apply Hs|done]. }
  intros c. apply hoare_pure. intros Hc.
  replace (cl_upstream c) with cf.1.1.1.1 by by rewrite <-Hc.
  apply ready_quiet; [intros s; apply keeps_wrapping, quiet_getToken|]. intros token.
  set (url := "https://" +:+ _).
  eapply hoare_on_ok_bind with (R := λ resp s, (∃ n auth, Do n url auth = Ok resp) ∧ ready cf s).
  { unfold http_Do. destruct (NewRequest _); [apply hoare_throw|].
    intros s Hs resp Hr. split; [eexists _, _; exact Hr|].
    by apply (ready_keeps cf _ (grows_quiet root _ (quiet_env _)) s). }
  intros resp. apply hoare_pure. intros (n & auth & Hdo). case_decide as Hst; [apply hoare_throw|].
  unfold readAll. destruct (rd_err _); [apply hoare_throw|].
  set (body := rd_data (rp_Body resp)).
  assert (∃ ct, answered url body ct) as Hans.
  { eexists. exists n, auth, resp. by split_and!. }
  eapply hoare_on_ok_bind with (R := λ b s, b = body ∧ ready cf s).
  { by intros s Hs b [= <-]. }
  intros b. apply hoare_pure. intros ->.
  eapply hoare_on_ok_bind.
  { eapply hoare_conseq; [by apply (storeComponent_post F HRemove root Hroot body)|by intros s []|done]. }
  intros m. apply hoare_pure. intros Hm.
  eapply hoare_on_ok_bind with (R := λ _ s,
    (world_ok root (st_w s) ∧ all_kept root [FromBytes body] (st_w s)) ∧
    ((pl_Config m).1 ≠ "" → valid (pl_Config m).1 → kept root (pl_Config m).1 (st_w s))).
  { apply hoare_on_ok_and; [apply keeps_on_ok, grows_all_kept; by apply grows_pullConfig|].
    eapply hoare_conseq; [by apply pullConfig_post|by intros s []|done]. }
  intros u. eapply hoare_on_ok_bind with (R := λ l s, l ≡ₚ pl_Layers m ∧
    ((world_ok root (st_w s) ∧ all_kept root [FromBytes body] (st_w s)) ∧
     ((pl_Config m).1 ≠ "" → valid (pl_Config m).1 → kept root (pl_Config m).1 (st_w s)))).
  { intros s Hs l [= <-]. split; [apply order_perm|exact Hs]. }
  intros l. apply hoare_pure. intros Hl.
  eapply hoare_on_ok_bind; [by apply pull_layers_post|].
  intros [|e errs]; [|apply hoare_throw].
  intros s Hs b Hb. destruct (Hs eq_refl) as (Hok & Hv & Hk).
  destruct (grows_all_kept root (linkConfig (pl_Config m)) _ (grows_linkConfig root _) s
    (conj Hok Hk)) as [Hok' Hk'].
  revert Hb. unfold mbind, M_bind. destruct (linkConfig (pl_Config m) s) as [[[]|e|x] s'] eqn:E;
    [|done..]. intros [= <-]. split; [done|]. by exists m.
Qed.

Definition mirrored (cf : Conf) (ref : string) (w : World) : Prop :=
  ∃ body, mirrored_body cf ref body w.

Lemma grows_mirrored_all {A} cf refs (m : M St A) :
  grows root m → keeps (λ s, world_ok root (st_w s) ∧ Forall (λ r, mirrored cf r (st_w s)) refs) m.
Proof.
  intros Hg s [Hok Hall]. split; [by apply (grows_ok root m Hg)|].
  eapply Forall_impl; [exact Hall|]. intros ref [body Hb]. exists body.
  by apply (grows_mirrored cf ref body m Hg s).
Qed.

(** Without cancellation a run that reports no error has done every job. *)
Lemma runJobs_post cf p jobs n :
  (∀ k, cancelled k = false) → 0 < n →
  hoare (ready cf) (runJobs F p n jobs)
    (on_ok (λ err s, err = None → Forall (λ j, mirrored cf j.2 (st_w s)) jobs)).
Proof.
  intros Hcan. revert n. induction jobs as [|[c ref] jobs IH]; intros [|n] Hn; simpl; try lia.
  { by intros s Hs err _ _. }
  eapply hoare_on_ok_bind with (R := λ b s, b = false ∧ ready cf s).
  { intros s Hs b Hb. simpl in Hb. rewrite Hcan in Hb. injection Hb as <-. split; [done|].
    by apply (ready_keeps cf _ (grows_quiet root _ (quiet_env (λ n, Ok (cancelled n)))) s). }
  intros b. apply hoare_pure. intros ->. apply ready_quiet; [apply quiet_upd|]. intros u s Hs.
  unfold mbind, M_bind, attempt.
  pose proof (PullComponentImage_post cf ref s Hs) as Hpost.
  pose proof (ready_keeps cf _ (grows_PullComponentImage F HRemove root Hroot ref) s Hs) as Hready.
  destruct (PullComponentImage F ref s) as [[body|e|x] s1]; simpl in Hpost, Hready; cbn [fst snd];
    [|intros err Herr ->; revert Herr; by destruct (runJobs F p n jobs s1) as [[]]|done].
  destruct (Hpost body eq_refl) as [Hok Hm].
  set (k := count_component p ≫= λ _, runJobs F p (S n) jobs).
  intros err Herr ->. change ((k s1).1 = Ok None) in Herr. change (Forall (λ j, mirrored cf j.2 (st_w (k s1).2)) ((c, ref) :: jobs)).
  assert (grows root k) as Hk.
  { intros w0 cf0. apply keeps_bind; [apply grows_quiet, quiet_upd|]. intros _. by apply grows_runJobs. }
  constructor.
  - destruct (grows_mirrored cf ref body k Hk s1) as [_ ?]; [done|]. by exists body.
  - assert (hoare (ready cf) k
      (on_ok (λ err s, err = None → Forall (λ j, mirrored cf j.2 (st_w s)) jobs))) as HH.
    { apply ready_quiet; [apply quiet_upd|]. intros _. apply IH. lia. }
    by apply (HH s1 Hready None Herr).
Qed.

(** C13 A mirroring that succeeds is self-contained: when no cancellation comes
    in between and [MirrorComponents] returns no error, then, in whatever order
    the workers took the components, for each of them the manifest upstream
    answered with and all the blobs that manifest refers to are in the local
    store under their digests; blobs that were there before are kept in any
    case. *)
Theorem MirrorComponents_self_contained refs p s0 :
  let cf := conf (st_cl s0) in
  world_ok root (st_w s0) → (∀ n, cancelled n = false) →
  let '(res, s1) := MirrorComponents F refs p s0 in
  world_ok root (st_w s1) ∧
  (∀ d, canonical d → stored root (st_w s0) d → stored root (st_w s1) d) ∧
  (is_ok res = true → ∀ name ref, refs !! name = Some ref → ∃ body m,
     (∃ ct, answered (componentURL cf ref) body ct) ∧ unmarshal body = Ok m ∧
     Forall valid (pl_Layers m).*1 ∧
     Forall (λ d, valid d ∧ (canonical d → ∃ c,
       os_files (w_os (st_w s1)) !! BlobStore.blobFile root d = Some c ∧ d = FromBytes c))
       (FromBytes body :: component_digests m)).
Proof.
  intros cf Hok Hcan.
  pose proof (grows_MirrorComponents F HRemove root Hroot refs p (st_w s0) cf s0
    (grown_refl root _ _ Hok)) as (Hw & Hmono & _).
  assert (hoare (ready cf) (MirrorComponents F refs p)
    (on_ok (λ _ s, Forall (λ j, mirrored cf j.2 (st_w s)) (map_to_list refs)))) as Hpost.
  { unfold MirrorComponents. case_decide as He; [subst; rewrite map_to_list_empty; by intros s Hs a _|].
    apply ready_quiet; [by intros s s' Hs|]. intros c. apply ready_quiet; [apply quiet_upd|]. intros _.
    eapply hoare_on_ok_bind with (R := λ l s, l ≡ₚ map_to_list refs ∧ ready cf s).
    { intros s Hs l [= <-]. split; [apply order_perm|exact Hs]. }
    intros l. apply hoare_pure. intros Hl. eapply hoare_on_ok_bind.
    { apply runJobs_post; [done|]. case_decide; lia. }
    intros [e|]; [apply hoare_throw|]. intros s Hs u _. rewrite <-Hl. by apply Hs. }
  specialize (Hpost s0 (conj Hok eq_refl)).
  destruct (MirrorComponents F refs p s0) as [res s1] eqn:E. simpl in Hpost, Hw, Hmono.
  split; [done|]. split; [done|]. intros Hres name ref Href. destruct res as [u|e|x]; [|done..].
  specialize (Hpost u eq_refl). rewrite Forall_forall in Hpost.
  destruct (Hpost (name, ref)) as (body & m & Hans & Hu & Hv & Hk); [by apply elem_of_map_to_list|].
  exists body, m. split_and!; [done..|]. by apply (all_kept_blobs root).
Qed.
End mirror.

(** ** An upstream *)

(** Manifests are one line with the layer digests; every manifest names the
    same layer, and every blob the upstream has is that layer. *)
Definition exLayer : bytes := str_bytes "abcd".
Definition exManifest : bytes := str_bytes (FromBytes exLayer).

Definition exLayers (b : bytes) : list (string * Z) := (λ d, (d, 0%Z)) <$> Fields (bytes_str b).
Definition exClone : Unmarshal CloneManifest := λ b, Ok (mkCloneManifest ("", 0%Z) (exLayers b)).
Definition exPull : Unmarshal PullManifest := λ b, Ok (mkPullManifest "" ("", 0%Z) (exLayers b)).
Definition exSecret : Unmarshal dockerConfig := λ _, Err (Errorf "no pull secret").
Definition exToken : JsonDecoder Mirror.tokenResp := λ _, Err (Errorf "no token").

Definition exDo (n : nat) (url : string) (auth : option string) : result Response :=
  Ok (mkResponse 200 "" "" (NewReader (if Contains url "/manifests/" then exManifest else exLayer))).

Program Definition exEnv : Env := {|
  NewRequest _ := None;
  Do := exDo;
  now _ := 1%Z;
  rnds n := [N.of_nat n];
  cancelled _ := false;
  order _ _ l := l
|}.
Next Obligation. done. Qed.

#[local] Existing Instances mapBadger mapBadgerLaws MetadataStore.jsonMeta MetadataStore.jsonRepo
  exClone exPull exSecret exToken exEnv.
#[local] Instance exMetaLaws : JsonLaws MetadataStore.ManifestMeta MetadataStore.meta_ok :=
  countableJsonLaws _ _.
#[local] Instance exRepoLaws : JsonLaws MetadataStore.RepoMeta MetadataStore.repo_ok :=
  countableJsonLaws _ _.

Definition exCloner : Cloner := NewCloner "quay.io" "ocp/release" "openshift/release" "".
Definition exWorld : World := mkWorld _ (BlobStore.NewBlobStore BlobStore.srvRoot) os_empty ∅.
Definition exSt : St := mkSt exCloner exWorld 0 0.

Lemma exWorld_ok : world_ok BlobStore.srvRoot exWorld.
Proof. split; [done|]. apply BlobStore.store_ok_empty. Qed.

Lemma exClock n : MetadataStore.time_ok (now n).
Proof. by apply (bool_decide_unpack _). Qed.

Lemma exRepo_good : MetadataStore.good_repo (cl_localRepo exCloner).
Proof. by apply (bool_decide_unpack _). Qed.

Lemma exPlain n url auth r : Do n url auth = Ok r → plain_response r.
Proof.
  intros [= <-]. unfold plain_response. cbn [rp_Body rp_ContentType NewReader rd_data].
  split; [constructor|]. destruct (Contains url "/manifests/").
  - split; [by vm_compute|]. intros m [= <-].
    rewrite <-(bool_decide_spec (Forall MetadataStore.is_ascii _)). by vm_compute.
  - split; [by vm_compute|]. intros m [= <-].
    rewrite <-(bool_decide_spec (Forall MetadataStore.is_ascii _)). by vm_compute.
Qed.

Lemma Clone_self_contained_witness :
  is_ok (Clone noFaults "4.18.2" "x86_64" exSt).1 = true ∧
  let '(res, s1) := Clone noFaults "4.18.2" "x86_64" exSt in
  world_ok BlobStore.srvRoot (st_w s1) ∧
  (∀ d, canonical d → stored BlobStore.srvRoot (st_w exSt) d → stored BlobStore.srvRoot (st_w s1) d) ∧
  (is_ok res = true → cloned BlobStore.srvRoot "openshift/release" "4.18.2-x86_64"
     (manifestURL (conf exCloner) "4.18.2-x86_64") (st_w s1)).
Proof.
  split; [by vm_compute|].
  apply (Clone_self_contained noFaults eq_refl BlobStore.srvRoot BlobStore.good_srvRoot exClock
    MetadataStore.ix_empty "4.18.2" "x86_64" exSt).
  - exact exWorld_ok.
  - apply MetadataStore.represents_empty.
  - exact exRepo_good.
  - by vm_compute.
  - exact exPlain.
Defined.

Definition exRefs : gmap string string :=
  {["cli" := "quay.io/ocp/art@sha256:0000000000000000000000000000000000000000000000000000000000000000"]}.

Lemma MirrorComponents_self_contained_witness :
  is_ok (MirrorComponents noFaults exRefs 0 exSt).1 = true ∧
  let '(res, s1) := MirrorComponents noFaults exRefs 0 exSt in
  world_ok BlobStore.srvRoot (st_w s1) ∧
  (∀ d, canonical d → stored BlobStore.srvRoot (st_w exSt) d → stored BlobStore.srvRoot (st_w s1) d) ∧
  (is_ok res = true → ∀ name ref, exRefs !! name = Some ref → ∃ body m,
     (∃ ct, answered (componentURL (conf exCloner) ref) body ct) ∧ unmarshal body = Ok m ∧
     Forall valid (pl_Layers m).*1 ∧
     Forall (λ d, valid d ∧ (canonical d → ∃ c,
       os_files (w_os (st_w s1)) !! BlobStore.blobFile BlobStore.srvRoot d = Some c ∧ d = FromBytes c))
       (FromBytes body :: component_digests m)).
Proof.
  split; [by vm_compute|].
  apply (MirrorComponents_self_contained noFaults eq_refl BlobStore.srvRoot BlobStore.good_srvRoot exRefs 0 exSt).
  - exact exWorld_ok.
  - done.
Defined.
End ClonerSpec.
