(* ===== verification/Extractor.v ===== *)
(** internal/releases/extractor.go: finding the component images of a release
    and extracting the install artifacts from their layers.

    Reading a layer is a parameter, [Archive]: compress/gzip and archive/tar
    turn the bytes into entries.  The files are written to the same file system
    the blob store uses. *)

From S2P Require Import Prelude Effect GoLib Sha256 Digest Os Blob Badger Metadata Oci Mirror Cloner.

Module Extractor.
Import Cloner.

Record Artifact := mkArtifact {
  ar_Name : string;
  ar_Type : string;
  ar_Path : string;
  ar_Size : Z;
  ar_SHA256 : string
}.

Record Extractor := mkExtractor {
  ex_artifactPath : string;
  ex_localRepo : string
}.

Definition NewExtractor (artifactPath localRepo : string) : Extractor :=
  mkExtractor artifactPath localRepo.

(** The tags of image-references: component names and image references. *)
Record imageStreamTag := mkImageStreamTag { it_Name : string; it_From : string }.
Record imageStream := mkImageStream { is_Tags : list imageStreamTag }.

(** The anonymous structs manifests are decoded into: [FindReleaseComponents]
    reads the digests of the layers, [Extract] the configuration and the
    layers with their media types, [extractFromComponentLocal] the layers with
    their sizes. *)
Record LayersManifest := mkLayersManifest { lm_Layers : list string }.
Record ReleaseManifest := mkReleaseManifest {
  xm_Config : string;
  xm_Layers : list (string * string)
}.
Record ComponentManifest := mkComponentManifest { km_Layers : list (string * Z) }.

Record extractRule := mkExtractRule {
  er_matchNames : list string;
  er_pathContains : string;
  er_outName : string;
  er_artType : string
}.

Definition desiredComponents : gmap string (list extractRule) :=
  list_to_map
    [("installer",
      [mkExtractRule ["openshift-install"; "openshift-install-linux"] "bin/" "openshift-install" "binary"]);
     ("cli", [mkExtractRule ["oc"] "bin/" "oc" "binary"]);
     ("installer-artifacts",
      [mkExtractRule ["openshift-install"] "/mac/" "openshift-install-mac" "binary";
       mkExtractRule ["openshift-install"] "/mac_arm64/" "openshift-install-mac-arm64" "binary"]);
     ("cli-artifacts",
      [mkExtractRule ["oc"] "/mac/" "oc-mac" "binary";
       mkExtractRule ["oc"] "/mac_arm64/" "oc-mac-arm64" "binary";
       mkExtractRule ["oc.exe"] "/windows/" "oc.exe" "binary"]);
     ("machine-os-images",
      [mkExtractRule ["coreos-x86_64.iso"; "rhcos-live.x86_64.iso"] "" "coreos.iso" "iso"])].

(** A tar entry: its name, whether it is a regular file, and its contents. *)
Record Entry := mkEntry { en_Name : string; en_regular : bool; en_data : Reader }.

(** [gzip.NewReader], then [tar.Next] until it returns an error (of any kind):
    the entries of a layer, or nothing when the bytes are not gzip. *)
Class Archive := entries : bytes → option (list Entry).

Definition matchesRule (name fullPath : string) (rule : extractRule) : bool :=
  bool_decide (name ∈ er_matchNames rule) &&
  (bool_decide (er_pathContains rule = "") || Contains fullPath (er_pathContains rule)).

(** The fallback matcher: name and type of a known artifact. *)
Definition matchArtifact (name fullPath : string) : option (string * string) :=
  if decide (name = "openshift-install" ∨ name = "openshift-install-linux")
  then Some ("openshift-install", "binary")
  else if HasSuffix name ".iso" && Contains fullPath "agent" then Some ("agent.x86_64.iso", "iso")
  else if HasSuffix name ".iso" && Contains name "rhcos" then Some ("agent.x86_64.iso", "iso")
  else if bool_decide (name = "rootfs.img") || Contains name "rootfs" then Some ("rootfs.img", "rootfs")
  else if bool_decide (name = "vmlinuz") || (Contains name "vmlinuz" && negb (HasSuffix name ".sig"))
  then Some ("vmlinuz", "kernel")
  else if bool_decide (name = "initramfs.img") || Contains name "initramfs"
  then Some ("initramfs.img", "initramfs")
  else None.

Section extractor.
Context `{Badger} `{!Json MetadataStore.ManifestMeta} `{!Json MetadataStore.RepoMeta}.
Context `{!Unmarshal LayersManifest} `{!Unmarshal ReleaseManifest} `{!Unmarshal ComponentManifest}.
Context `{!Unmarshal imageStream} `{!Archive} `{!Env}.
Context (F : Faults).

(** ** Finding the components *)

Definition metadata_GetManifest (repo ref : string) : M St MetadataStore.ManifestMeta :=
  w ← gets st_w; lift (MetadataStore.GetManifest (w_db w) repo ref).

(** The first regular entry named image-references decides. *)
Fixpoint scanEntries (es : list Entry) : result (option (gmap string string)) :=
  match es with
  | [] => Ok None
  | e :: es =>
    if negb (en_regular e) then scanEntries es
    else if decide (Base (en_Name e) = "image-references") then
      match rd_err (en_data e) with
      | Some err => Err err
      | None =>
        match unmarshal (rd_data (en_data e)) with
        | Ok is_ => Ok (Some (foldl (λ refs tag, <[it_Name tag := it_From tag]> refs) ∅ (is_Tags is_)))
        | Err err => Err (wrap "parsing image-references" err)
        | Panic m => Panic m
        end
      end
    else scanEntries es
  end.

Definition scanLayerForImageReferences (dgst : Digest) : M St (option (gmap string string)) :=
  data ← blobs_Read F dgst;
  match entries data with
  | None => mret None
  | Some es => lift (scanEntries es)
  end.

Fixpoint findImageReferences (layerDigests : list string) : M St (gmap string string) :=
  match layerDigests with
  | [] => throw (Errorf "image-references not found in any layer")
  | layerDigest :: ds =>
    match Parse layerDigest with
    | Ok dgst =>
      r ← attempt (scanLayerForImageReferences dgst);
      match r with
      | inl (Some refs) => mret refs
      | _ => findImageReferences ds
      end
    | _ => findImageReferences ds
    end
  end.

Definition FindReleaseComponents (e : Extractor) (version arch : string) : M St (gmap string string) :=
  let tag := version +:+ "-" +:+ arch in
  meta ← wrapping "getting release manifest" (metadata_GetManifest (ex_localRepo e) tag);
  manifestBytes ← wrapping "reading release manifest" (blobs_Read F (MetadataStore.mm_Digest meta));
  manifest ← lift (unmarshal manifestBytes);
  findImageReferences (lm_Layers manifest).

(** ** Writing files *)

(** A file-system call on the shared file system. *)
Definition os_call {A} (f : Os → result A * Os) : M St A := λ s,
  let w := st_w s in
  let '(res, os) := f (w_os w) in
  (res, mkSt (st_cl s) (mkWorld _ (w_bs w) os (w_db w)) (st_synced s) (st_calls s)).

Definition os_MkdirAll : M St unit :=
  match F OpMkdirAll with Some e => throw e | None => mret tt end.

Definition os_Stat (path : string) : M St Z := w ← gets st_w; lift (Stat F (w_os w) path).

(** [io.Copy] into a file that was just truncated (a failing write leaves it
    empty), then [Sync]. *)
Definition copyInto (path : string) (r : Reader) : M St unit :=
  match F OpWrite with
  | Some e => throw e
  | None =>
    os_call (λ os, (Ok tt, set_files (<[path := rd_data r]>) os)) ≫= λ _,
    match rd_err r, F OpSync with
    | Some e, _ | None, Some e => throw e
    | None, None => mret tt
    end
  end.

Definition extractFile (r : Reader) (path : string) : M St unit :=
  os_MkdirAll ≫= λ _, os_call (λ os, Create F os path) ≫= λ _, copyInto path r.

(** An entry that matched: written, and listed when it could be. *)
Definition extractAs (r : Reader) (outDir name typ : string) : M St (list Artifact) :=
  let outPath := Join [outDir; name] in
  res ← attempt (extractFile r outPath);
  match res with
  | inr _ => mret []
  | inl _ =>
    size ← attempt (os_Stat outPath);
    mret (match size with inl n => [mkArtifact name typ outPath n ""] | inr _ => [] end)
  end.

(** The rules on one entry.  The reader is shared: a second match copies what
    the first has left, nothing. *)
Fixpoint applyRules (r : Reader) (name fullPath outDir : string) (rules : list extractRule)
    : M St (list Artifact) :=
  match rules with
  | [] => mret []
  | rule :: rules =>
    if matchesRule name fullPath rule then
      opened ← gets (λ s, match F OpMkdirAll, F OpCreate with None, None => true | _, _ => false end);
      found ← extractAs r outDir (er_outName rule) (er_artType rule);
      let r := if opened : bool then mkReader [] (rd_err r) else r in
      more ← applyRules r name fullPath outDir rules; mret (found ++ more)
    else applyRules r name fullPath outDir rules
  end.

Fixpoint extractEntries (f : Entry → M St (list Artifact)) (es : list Entry) : M St (list Artifact) :=
  match es with
  | [] => mret []
  | e :: es =>
    if negb (en_regular e) then extractEntries f es
    else found ← f e; more ← extractEntries f es; mret (found ++ more)
  end.

(** The entries of a layer; bytes that are not gzip have none. *)
Definition extractLayer (f : Entry → M St (list Artifact)) (dgst : Digest) : M St (list Artifact) :=
  data ← blobs_Read F dgst;
  match entries data with
  | None => mret []
  | Some es => extractEntries f es
  end.

Definition extractFromComponentLayer (dgst : Digest) (outDir : string) (rules : list extractRule)
    : M St (list Artifact) :=
  extractLayer (λ e, applyRules (en_data e) (Base (en_Name e)) (en_Name e) outDir rules) dgst.

Definition extractFromLayer (dgst : Digest) (outDir : string) : M St (list Artifact) :=
  extractLayer (λ e,
    match matchArtifact (Base (en_Name e)) (en_Name e) with
    | Some (name, typ) => extractAs (en_data e) outDir name typ
    | None => mret []
    end) dgst.

(** The layers whose digest parses, one after the other; the errors are only
    logged. *)
Fixpoint extractLayers (f : Digest → M St (list Artifact)) (ds : list string) : M St (list Artifact) :=
  match ds with
  | [] => mret []
  | d :: ds =>
    match Parse d with
    | Ok dgst =>
      r ← attempt (f dgst);
      more ← extractLayers f ds;
      mret (match r with inl found => found ++ more | inr _ => more end)
    | _ => extractLayers f ds
    end
  end.

Definition extractFromComponentLocal (imageRef outDir : string) (rules : list extractRule)
    : M St (list Artifact) :=
  found ← attempt (LookupComponentManifest F imageRef);
  manifestBytes ← match found with
                  | inl b => mret b
                  | inr e => throw (Errorf ("loading local component manifest: " +:+ err_msg e +:+
                      " (clone phase may have been interrupted before mirror completed)"))
                  end;
  manifest ← wrapping "parsing component manifest" (lift (unmarshal manifestBytes));
  extractLayers (λ d, extractFromComponentLayer d outDir rules) (km_Layers manifest).*1.

(** The desired components, in the order the map is ranged over. *)
Fixpoint extractComponents (refs : gmap string string) (outDir : string)
    (wanted : list (string * list extractRule)) : M St (list Artifact) :=
  match wanted with
  | [] => mret []
  | (component, rules) :: wanted =>
    match refs !! component with
    | None => extractComponents refs outDir wanted
    | Some imageRef =>
      r ← attempt (extractFromComponentLocal imageRef outDir rules);
      more ← extractComponents refs outDir wanted;
      mret (match r with inl found => found ++ more | inr _ => more end)
    end
  end.

Definition hashFile (path : string) : M St string :=
  w ← gets st_w;
  data ← lift (Open F (w_os w) path);
  mret (EncodeToString (sha256 data)).

(** The hashes of the artifacts; one that cannot be read stays without. *)
Fixpoint hashArtifacts (l : list Artifact) : M St (list Artifact) :=
  match l with
  | [] => mret []
  | a :: l =>
    h ← attempt (hashFile (ar_Path a));
    more ← hashArtifacts l;
    mret (mkArtifact (ar_Name a) (ar_Type a) (ar_Path a) (ar_Size a)
            (match h with inl s => s | inr _ => ar_SHA256 a end) :: more)
  end.

Definition Extract (e : Extractor) (version arch : string) : M St (list Artifact) :=
  let tag := version +:+ "-" +:+ arch in
  let outDir := Join [ex_artifactPath e; version] in
  wrapping "creating output dir" os_MkdirAll ≫= λ _,
  meta ← wrapping "getting release manifest" (metadata_GetManifest (ex_localRepo e) tag);
  manifestBytes ← wrapping "reading manifest" (blobs_Read F (MetadataStore.mm_Digest meta));
  manifest ← wrapping "parsing manifest" (lift (unmarshal manifestBytes));
  refs ← attempt (findImageReferences (xm_Layers manifest).*1);
  artifacts ← match refs with
              | inl refs =>
                wanted ← in_order (map_to_list desiredComponents);
                extractComponents refs outDir wanted
              | inr _ => mret []
              end;
  artifacts ← (if decide (artifacts = []) then
                 extractLayers (λ d, extractFromLayer d outDir) (xm_Layers manifest).*1
               else mret artifacts);
  hashArtifacts artifacts.
End extractor.

(** ** What extraction changes *)

Definition artifactNames : list string :=
  ["openshift-install"; "oc"; "openshift-install-mac"; "openshift-install-mac-arm64"; "oc-mac";
   "oc-mac-arm64"; "oc.exe"; "coreos.iso"; "agent.x86_64.iso"; "rootfs.img"; "vmlinuz";
   "initramfs.img"].

Definition artifact_path (outDir p : string) : Prop :=
  ∃ n, n ∈ artifactNames ∧ p = Join [outDir; n].

(** The rules write artifacts only. *)
Definition good_rules (rules : list extractRule) : Prop :=
  Forall (λ r, er_outName r ∈ artifactNames) rules.

Lemma desired_good component rules :
  desiredComponents !! component = Some rules → good_rules rules.
Proof.
  intros Hl%elem_of_list_to_map_2. unfold good_rules.
  repeat (apply elem_of_cons in Hl as [[= -> ->]|Hl];
    [rewrite <-(bool_decide_spec (Forall _ _)); by vm_compute|]).
  by apply elem_of_nil in Hl.
Qed.

Lemma matchArtifact_good name path n t : matchArtifact name path = Some (n, t) → n ∈ artifactNames.
Proof.
  unfold matchArtifact. intros Hm. repeat case_match; simplify_eq;
    rewrite <-(bool_decide_spec (_ ∈ artifactNames)); by vm_compute.
Qed.

Section frame.
Context `{Badger} `{!Json MetadataStore.ManifestMeta} `{!Json MetadataStore.RepoMeta}.
Context `{!Unmarshal LayersManifest} `{!Unmarshal ReleaseManifest} `{!Unmarshal ComponentManifest}.
Context `{!Unmarshal imageStream} `{!Archive} `{!Env}.
Context (F : Faults) (outDir : string).

Definition files (s : St) : gmap string bytes := os_files (w_os (st_w s)).

(** Only artifact files differ, and no file is gone. *)
Definition frame (s0 s : St) : Prop :=
  w_db (st_w s) = w_db (st_w s0) ∧
  BlobStore.bs_root (w_bs (st_w s)) = BlobStore.bs_root (w_bs (st_w s0)) ∧
  (∀ p, ¬ artifact_path outDir p → files s !! p = files s0 !! p) ∧
  (∀ p, is_Some (files s0 !! p) → is_Some (files s !! p)).

Definition frames {A} (m : M St A) : Prop := ∀ s0, keeps (frame s0) m.

(** An artifact that is in place and not hashed yet. *)
Definition listed (s : St) (a : Artifact) : Prop :=
  ar_Name a ∈ artifactNames ∧ ar_Path a = Join [outDir; ar_Name a] ∧
  is_Some (files s !! ar_Path a) ∧ ar_SHA256 a = "".

(** A call that returns artifacts that are in place. *)
Definition lists (m : M St (list Artifact)) : Prop :=
  frames m ∧ ∀ s, on_ok (λ l s, Forall (listed s) l) (m s).1 (m s).2.

Lemma frame_refl s : frame s s.
Proof. by split_and!. Qed.

Lemma frame_step {A} (m : M St A) :
  (∀ s, frame s (m s).2) → frames m.
Proof.
  intros Hm s0 s (Hdb & Hbs & Hf & He). destruct (Hm s) as (Hdb' & Hbs' & Hf' & He').
  split_and!; [by rewrite Hdb'|by rewrite Hbs'| |auto]. intros p Hp. by rewrite Hf', Hf.
Qed.

Lemma frames_at {A} (m : M St A) s : frames m → frame s (m s).2.
Proof. intros Hm. apply Hm, frame_refl. Qed.

Lemma frame_listed s s' l : frame s s' → Forall (listed s) l → Forall (listed s') l.
Proof.
  intros (_ & _ & _ & He) Hl. eapply Forall_impl; [exact Hl|].
  intros a (? & ? & ? & ?). split_and!; auto.
Qed.

Lemma frames_quiet {A} (m : M St A) : (∀ s, st_w (m s).2 = st_w s) → frames m.
Proof. intros Hm. apply frame_step. intros s. unfold frame, files. by rewrite Hm. Qed.

Lemma frames_blobs_Read d : frames (blobs_Read F d).
Proof.
  apply frame_step. intros s. unfold blobs_Read, frame, files.
  destruct (BlobStore.Get_files F (w_bs (st_w s)) (w_os (st_w s)) d) as [Hf Hr].
  destruct (BlobStore.Get _ _ _ _) as [res [bs os]]. simpl in *. by rewrite Hf, Hr.
Qed.

Lemma frames_write {A} path (r : result A) c :
  artifact_path outDir path → frames (os_call (λ os, (r, set_files (<[path := c]>) os))).
Proof.
  intros Hp. apply frame_step. intros s. unfold frame, files. simpl. split_and!; [done..| |].
  - intros q Hq. rewrite lookup_insert_ne; [done|]. by intros ->.
  - intros q Hq. by apply lookup_insert_is_Some'; right.
Qed.

Lemma frames_no_write {A} (r : result A) : frames (os_call (λ os, (r, os))).
Proof. apply frame_step. by intros s. Qed.

Lemma frames_extractFile r path : artifact_path outDir path → frames (extractFile F r path).
Proof.
  intros Hp s0. unfold extractFile, os_MkdirAll, copyInto, Create. destruct (F OpCreate).
  all: repeat first [keeps_step | apply frames_no_write | by apply frames_write | apply frames_quiet; by intros s].
Qed.

Lemma lists_ret : lists (mret []).
Proof. split; [apply frames_quiet; by intros s|]. by intros s l [= <-]. Qed.

Lemma lists_bind {A} (m : M St A) k : frames m → (∀ a, lists (k a)) → lists (m ≫= k).
Proof.
  intros Hm Hk. split; [intros s0; apply keeps_bind; [apply Hm|intros a; apply Hk]|].
  intros s. unfold mbind, M_bind. destruct (m s) as [[a|e|x] s']; [|by intros ?..]. apply Hk.
Qed.

(** What two calls return, together. *)
Lemma lists_app m1 m2 :
  lists m1 → lists m2 → lists (a ← m1; b ← m2; mret (a ++ b)).
Proof.
  intros [Hf1 Hl1] [Hf2 Hl2]. split; [intros s0; repeat keeps_step; auto|].
  intros s. unfold mbind, M_bind. specialize (Hl1 s).
  destruct (m1 s) as [[a|e|x] s1]; [|by intros ?..]. specialize (Hl2 s1).
  pose proof (frames_at m2 s1 Hf2) as Hfr.
  destruct (m2 s1) as [[b|e|x] s2]; [|by intros ?..]. intros l [= <-]. simpl in *.
  apply Forall_app. split; [|by apply Hl2]. eapply frame_listed; [exact Hfr|]. by apply Hl1.
Qed.

(** The same, when the first may fail. *)
Lemma lists_attempt m1 m2 :
  lists m1 → lists m2 →
  lists (r ← attempt m1; b ← m2; mret (match r with inl a => a ++ b | inr _ => b end)).
Proof.
  intros [Hf1 Hl1] [Hf2 Hl2].
  split; [intros s0; repeat keeps_step; auto; by case_match|].
  intros s. unfold mbind, M_bind, attempt. specialize (Hl1 s).
  destruct (m1 s) as [[a|e|x] s1]; [| |by intros ?].
  - specialize (Hl2 s1). pose proof (frames_at m2 s1 Hf2) as Hfr.
    destruct (m2 s1) as [[b|e|x] s2]; [|by intros ?..]. intros l [= <-]. simpl in *.
    apply Forall_app. split; [|by apply Hl2]. eapply frame_listed; [exact Hfr|]. by apply Hl1.
  - specialize (Hl2 s1). destruct (m2 s1) as [[b|e'|x] s2]; [|by intros ?..].
    intros l [= <-]. by apply Hl2.
Qed.

Lemma frames_readonly {A B} (f : St → A) (k : A → M St B) :
  (∀ a, frames (k a)) → frames (gets f ≫= k).
Proof. intros Hk s0. apply keeps_bind; [apply keeps_gets|]. intros a. apply Hk. Qed.

Lemma lists_extractAs r n t : n ∈ artifactNames → lists (extractAs F r outDir n t).
Proof.
  intros Hn. assert (artifact_path outDir (Join [outDir; n])) as Hp by by exists n.
  unfold extractAs. apply lists_bind; [intros s0; keeps_step; by apply frames_extractFile|].
  intros [u|e]; [|apply lists_ret]. split.
  - intros s0. unfold os_Stat. repeat keeps_step; apply keeps_ret.
  - intros s. unfold os_Stat, mbind, M_bind, attempt, gets, lift, Stat. cbn [fst snd].
    destruct (F OpStat); [by intros l [= <-]|].
    destruct (os_files (w_os (st_w s)) !! Join [outDir; n]) as [c|] eqn:E; [|by intros l [= <-]].
    intros l Hl. assert (l = [mkArtifact n t (Join [outDir; n]) (blen c) ""]) as -> by (by injection Hl).
    constructor; [|done]. split_and!; simpl; [done..| |done]. unfold files. rewrite E. by eexists.
Qed.

Lemma lists_applyRules r n p rules : good_rules rules → lists (applyRules F r n p outDir rules).
Proof.
  intros Hr. revert r. induction Hr as [|rule rules Hrule Hrs IH]; intros r; simpl; [apply lists_ret|].
  destruct (matchesRule n p rule); [|done].
  apply lists_bind; [intros s0; apply keeps_gets|]. intros o.
  by apply lists_app; [apply lists_extractAs|].
Qed.

Lemma lists_extractEntries f es : (∀ e, lists (f e)) → lists (extractEntries f es).
Proof.
  intros Hf. induction es as [|e es IH]; simpl; [apply lists_ret|].
  destruct (negb (en_regular e)); [done|]. by apply lists_app.
Qed.

Lemma lists_extractLayer f d : (∀ e, lists (f e)) → lists (extractLayer F f d).
Proof.
  intros Hf. unfold extractLayer. apply lists_bind; [apply frames_blobs_Read|]. intros data.
  destruct (entries data); [by apply lists_extractEntries|apply lists_ret].
Qed.

Lemma lists_extractLayers f ds : (∀ d, lists (f d)) → lists (extractLayers f ds).
Proof.
  intros Hf. induction ds as [|d ds IH]; simpl; [apply lists_ret|].
  destruct (Parse d); [|done..]. by apply lists_attempt.
Qed.

Lemma lists_extractFromLayer d : lists (extractFromLayer F d outDir).
Proof.
  apply lists_extractLayer. intros e.
  destruct (matchArtifact _ _) as [[n t]|] eqn:E; [|apply lists_ret].
  by apply lists_extractAs, (matchArtifact_good _ _ _ _ E).
Qed.

Lemma frames_Lookup ref : frames (LookupComponentManifest F ref).
Proof.
  intros s0. unfold LookupComponentManifest. destruct (parseImageRef ref) as [[? ?] ?].
  repeat first [keeps_step | apply frames_blobs_Read].
Qed.

Lemma lists_extractComponents refs wanted :
  Forall (λ cr, good_rules cr.2) wanted → lists (extractComponents F refs outDir wanted).
Proof.
  intros Hw. induction Hw as [|[c rules] wanted Hr Hw IH]; simpl; [apply lists_ret|].
  destruct (refs !! c) as [ref|]; [|done]. apply lists_attempt; [|done].
  unfold extractFromComponentLocal.
  apply lists_bind; [intros s0; keeps_step; apply frames_Lookup|]. intros found.
  apply lists_bind; [intros s0; repeat keeps_step|]. intros b.
  apply lists_bind; [intros s0; repeat keeps_step|]. intros m.
  apply lists_extractLayers. intros d. by apply lists_extractLayer; intros e; apply lists_applyRules.
Qed.

Lemma frames_scan d : frames (scanLayerForImageReferences F d).
Proof.
  intros s0. unfold scanLayerForImageReferences.
  repeat first [keeps_step | apply frames_blobs_Read].
Qed.

Lemma frames_find ds : frames (findImageReferences F ds).
Proof.
  induction ds as [|d ds IH]; intros s0; simpl; [apply keeps_lift|].
  repeat first [apply IH | apply frames_scan | keeps_step].
Qed.

(** Hashing changes nothing and fills in the hash of each file. *)
Lemma hashArtifacts_spec s l :
  F OpOpen = None → Forall (listed s) l →
  ∃ l', hashArtifacts F l s = (Ok l', s) ∧
    Forall2 (λ a a', ar_Name a' = ar_Name a ∧ ar_Type a' = ar_Type a ∧ ar_Path a' = ar_Path a ∧
      ar_Size a' = ar_Size a ∧ ∃ c, files s !! ar_Path a = Some c ∧
      ar_SHA256 a' = EncodeToString (sha256 c)) l l'.
Proof.
  intros HF Hl. induction Hl as [|a l (_ & _ & [c Hc] & _) Hl (l' & IH & Hl')]; simpl; [by exists []|].
  unfold hashFile, mbind, M_bind, attempt, gets, lift, Open. cbn [fst snd]. rewrite HF.
  unfold files in Hc. rewrite Hc. unfold mret, M_ret. cbn [fst snd]. rewrite IH. eexists. split; [done|].
  constructor; [|done]. cbn. split_and!; try done. by exists c.
Qed.

(** A second attempt when the first has found nothing. *)
Lemma lists_fallback m1 m2 :
  lists m1 → lists m2 → lists (a ← m1; if decide (a = []) then m2 else mret a).
Proof.
  intros [Hf1 Hl1] [Hf2 Hl2]. split; [intros s0; apply keeps_bind; [apply Hf1|]; intros a;
    case_decide; [apply Hf2|apply keeps_ret]|].
  intros s. unfold mbind, M_bind. specialize (Hl1 s).
  destruct (m1 s) as [[a|e|x] s1]; [|by intros ?..]. case_decide; [apply Hl2|].
  intros l Hl. assert (l = a) as -> by (by injection Hl). by apply Hl1.
Qed.

Lemma lists_components (refs : gmap string string + error) :
  lists (match refs with
         | inl refs => wanted ← in_order (map_to_list desiredComponents);
                       extractComponents F refs outDir wanted
         | inr _ => mret []
         end).
Proof.
  destruct refs as [refs|]; [|apply lists_ret]. split.
  - intros s0 s Hs. unfold in_order, env, mbind, M_bind. cbn [fst snd].
    apply lists_extractComponents; [|done].
    rewrite order_perm. apply Forall_forall. intros [c r] Hcr%elem_of_map_to_list.
    by eapply desired_good.
  - intros s. unfold in_order, env, mbind, M_bind. cbn [fst snd].
    apply lists_extractComponents. rewrite order_perm. apply Forall_forall.
    intros [c r] Hcr%elem_of_map_to_list. by eapply desired_good.
Qed.

(** An artifact with the hash of the contents its file has. *)
Definition hashed (s : St) (a : Artifact) : Prop :=
  ar_Name a ∈ artifactNames ∧ ar_Path a = Join [outDir; ar_Name a] ∧
  ∃ c, files s !! ar_Path a = Some c ∧ ar_SHA256 a = EncodeToString (sha256 c).

Definition reports (m : M St (list Artifact)) : Prop :=
  frames m ∧ (F OpOpen = None → ∀ s, on_ok (λ l s, Forall (hashed s) l) (m s).1 (m s).2).

Lemma reports_bind {A} (m : M St A) k : frames m → (∀ a, reports (k a)) → reports (m ≫= k).
Proof.
  intros Hm Hk. split; [intros s0; apply keeps_bind; [apply Hm|intros a; apply Hk]|].
  intros HF s. unfold mbind, M_bind. destruct (m s) as [[a|e|x] s']; [|by intros ?..]. by apply Hk.
Qed.

Lemma frames_hash l : frames (hashArtifacts F l).
Proof.
  intros s0. induction l as [|a l IH]; simpl; unfold hashFile; repeat first [apply IH|keeps_step].
Qed.

Lemma reports_hash m : lists m → reports (m ≫= hashArtifacts F).
Proof.
  intros [Hf Hl]. split; [intros s0; apply keeps_bind; [apply Hf|intros l; apply frames_hash]|].
  intros HF s. unfold mbind, M_bind. specialize (Hl s).
  destruct (m s) as [[l|e|x] s1]; [|by intros ?..]. specialize (Hl l eq_refl). simpl in Hl.
  destruct (hashArtifacts_spec s1 l HF Hl) as (l' & -> & Hl'). intros l2 [= <-]. simpl.
  revert Hl. induction Hl' as [|a a' l l' (Hn & _ & Hp & _ & c & Hc & Hh) _ IH]; [by constructor|].
  intros [(Hna & Hpa & _) Hl]%Forall_cons. constructor; [|by apply IH].
  split; [by rewrite Hn|]. split; [by rewrite Hp, Hn|]. exists c. by rewrite Hp.
Qed.

Lemma reports_assoc {A B} (m : M St A) (k : A → M St B) (h : B → M St (list Artifact)) :
  reports ((m ≫= k) ≫= h) → reports (m ≫= λ a, k a ≫= h).
Proof.
  assert (∀ s, ((m ≫= k) ≫= h) s = (m ≫= λ a, k a ≫= h) s) as E.
  { intros s. unfold mbind, M_bind. by destruct (m s) as [[]]. }
  intros [Hf Hr]. split; [intros s0 s Hs|intros HF s]; rewrite <-E; [by apply Hf|by apply Hr].
Qed.

Lemma reports_Extract e ver arch :
  outDir = Join [ex_artifactPath e; ver] → reports (Extract F e ver arch).
Proof.
  intros Ho. unfold Extract, metadata_GetManifest, os_MkdirAll. rewrite <-Ho.
  apply reports_bind; [intros s0; repeat keeps_step|]. intros u.
  apply reports_bind; [intros s0; repeat keeps_step|]. intros meta.
  apply reports_bind; [intros s0; keeps_step; apply frames_blobs_Read|]. intros body.
  apply reports_bind; [intros s0; repeat keeps_step|]. intros m.
  apply reports_bind; [intros s0; keeps_step; apply frames_find|]. intros refs.
  apply reports_assoc, reports_hash, lists_fallback; [apply lists_components|].
  apply lists_extractLayers, lists_extractFromLayer.
Qed.
End frame.

(** An artifact's file name is its name. *)
Lemma Base_Join outDir n : normal n → Base (Join [outDir; n]) = n.
Proof.
  intros Hn. assert (∀ s, Base (s +:+ String "/" n) = n) as Hb.
  { intros s. unfold Base. rewrite Split_app, (Split_none _ n) by apply Hn. by rewrite last_snoc. }
  assert (Base n = n) as Hb0. { unfold Base. by rewrite Split_none by apply Hn. }
  assert (∀ r cs, foldl (clean_step r) [] (cs ++ [n]) = n :: clean_comps r cs) as Hc.
  { intros r cs. rewrite foldl_app. by apply clean_step_normal. }
  assert (∀ X, Base (JoinStr (X ++ [n]) "/") = n ∧ Base ("/" +:+ JoinStr (X ++ [n]) "/") = n ∧
    JoinStr (X ++ [n]) "/" ≠ "") as HX.
  { intros X. destruct (decide (X = [])) as [->|HX].
    - split; [done|]. split; [apply (Hb "")|apply Hn].
    - rewrite JoinStr_app by done. change ("/" +:+ JoinStr [n] "/") with (String "/" n).
      split; [apply Hb|]. split; [rewrite <-sapp_assoc; apply Hb|].
      intros E%(f_equal String.length). rewrite slength_app in E. simpl in E. lia. }
  assert (∀ s cs, Split "/" s = cs ++ [n] → Base (Clean s) = n) as Hclean.
  { intros s cs Hs. unfold Clean. rewrite Hs. set (body := JoinStr _ "/").
    assert (body = JoinStr (reverse (clean_comps (is_rooted s) cs) ++ [n]) "/") as ->.
    { unfold body, clean_comps. by rewrite Hc, reverse_cons. }
    destruct (HX (reverse (clean_comps (is_rooted s) cs))) as (? & ? & ?).
    destruct (is_rooted s); [done|]. by rewrite decide_False. }
  unfold Join. destruct (decide (outDir = "")) as [->|Ho].
  - rewrite filter_cons_False by auto. rewrite filter_cons_True by apply Hn. rewrite filter_nil.
    apply (Hclean _ []). apply Split_none, Hn.
  - rewrite !filter_cons_True by first [done|apply Hn]. rewrite filter_nil.
    rewrite JoinStr_cons by done. change ("/" +:+ JoinStr [n] "/") with (String "/" n).
    apply (Hclean _ (Split "/" outDir)). rewrite Split_app. by rewrite (Split_none _ n) by apply Hn.
Qed.

Lemma artifact_not_blob outDir p root d :
  artifact_path outDir p → canonical d → p ≠ BlobStore.blobFile root d.
Proof.
  intros (n & Hn & ->) Hd E. apply (f_equal Base) in E.
  assert (Forall (λ n, normal n ∧ String.length n ≠ 64) artifactNames) as Hall.
  { rewrite <-(bool_decide_spec (Forall _ _)). by vm_compute. }
  rewrite Forall_forall in Hall. destruct (Hall n Hn) as [Hnorm Hlen].
  rewrite Base_Join, BlobStore.blobFile_Base in E by done. apply Hlen. rewrite E.
  destruct Hd as (h & -> & Hl & _). by rewrite Hex_sha256.
Qed.

Section theorem.
Context `{Badger} `{!Json MetadataStore.ManifestMeta} `{!Json MetadataStore.RepoMeta}.
Context `{!Unmarshal LayersManifest} `{!Unmarshal ReleaseManifest} `{!Unmarshal ComponentManifest}.
Context `{!Unmarshal imageStream} `{!Archive} `{!Env}.

(** C29 Extraction is local and reports what it wrote: whatever system calls
    fail, [Extract] changes no file but the twelve artifacts it knows in
    <artifact path>/<version>, whatever names the layers' archives contain, so
    every blob and the metadata stay as they are; and when files can be
    opened, each artifact it returns is such a file, with the SHA-256 of the
    contents the file finally has. *)
Theorem Extract_local F e ver arch s :
  let outDir := Join [ex_artifactPath e; ver] in
  let '(res, s') := Extract F e ver arch s in
  w_db (st_w s') = w_db (st_w s) ∧
  (∀ p, files s' !! p ≠ files s !! p → artifact_path outDir p) ∧
  (∀ root d, canonical d →
     files s' !! BlobStore.blobFile root d = files s !! BlobStore.blobFile root d) ∧
  (F OpOpen = None → ∀ l, res = Ok l → Forall (hashed outDir s') l).
Proof.
  intros outDir. destruct (reports_Extract F outDir e ver arch eq_refl) as [Hf Hr].
  pose proof (frames_at outDir _ s Hf) as (Hdb & _ & Hfiles & _).
  destruct (Extract F e ver arch s) as [res s'] eqn:E. simpl in *. split_and!; [done|..].
  - intros p Hp. destruct (decide (p ∈ (λ n, Join [outDir; n]) <$> artifactNames)) as [Hin|Hn].
    + apply list_elem_of_fmap in Hin as (n & -> & Hn). by exists n.
    + destruct Hp. apply Hfiles. intros (n & Hin & ->). by apply Hn, (list_elem_of_fmap_2 (λ n, Join [outDir; n])).
  - intros root d Hd. apply Hfiles. intros Hp. by apply (artifact_not_blob _ _ root d Hp).
  - intros HF l ->. specialize (Hr HF s l). rewrite E in Hr. by apply Hr.
Qed.
End theorem.

(** ** A release *)

(** A release image whose layer has image-references with the component cli,
    whose layer has bin/oc. *)
Definition exBinary : bytes := str_bytes "binary".
Definition exComponent : bytes := str_bytes (FromBytes exBinary).
Definition exReferences : bytes := str_bytes "references".
Definition exRelease : bytes := str_bytes (FromBytes exReferences).

Definition exArchive : Archive := λ b,
  if decide (b = exBinary) then Some [mkEntry "usr/bin/oc" true (NewReader (str_bytes "oc"))]
  else if decide (b = exReferences) then Some [mkEntry "image-references" true (NewReader [])]
  else None.
Definition exStream : Unmarshal imageStream := λ _,
  Ok (mkImageStream [mkImageStreamTag "cli" ("quay.io/art@" +:+ FromBytes exComponent)]).
Definition exManifests : Unmarshal LayersManifest := λ b, Ok (mkLayersManifest (Fields (bytes_str b))).
Definition exReleaseManifests : Unmarshal ReleaseManifest := λ b,
  Ok (mkReleaseManifest "" ((λ d, (d, "")) <$> Fields (bytes_str b))).
Definition exComponentManifests : Unmarshal ComponentManifest := λ b,
  Ok (mkComponentManifest ((λ d, (d, 0%Z)) <$> Fields (bytes_str b))).
Program Definition exEnv : Env := {|
  NewRequest _ := None;
  Do _ _ _ := Err (Errorf "no network");
  now _ := 1%Z;
  rnds n := [N.of_nat n];
  cancelled _ := false;
  order _ _ l := l
|}.
Next Obligation. done. Qed.

#[local] Existing Instances mapBadger MetadataStore.jsonMeta MetadataStore.jsonRepo exArchive
  exStream exManifests exReleaseManifests exComponentManifests exEnv.

Definition exDb : DB :=
  (MetadataStore.PutManifest (∅ : @DB mapBadger) 1 1 "openshift/release" "4.18.2-x86_64"
    (MetadataStore.mkManifestMeta (FromBytes exRelease) "" 0 0 [] "" ∅)).2.
Definition exFiles : gmap string bytes :=
  list_to_map ((λ b, (BlobStore.blobFile BlobStore.srvRoot (FromBytes b), b)) <$>
    [exRelease; exReferences; exComponent; exBinary]).
Definition exSt : St :=
  mkSt (NewCloner "quay.io" "ocp/release" "openshift/release" "")
    (mkWorld _ (BlobStore.NewBlobStore BlobStore.srvRoot) (mkOs exFiles ∅ 0) exDb) 0 0.
Definition exExtractor : Extractor := NewExtractor "/srv/releases" "openshift/release".

Lemma Extract_local_witness :
  (Extract noFaults exExtractor "4.18.2" "x86_64" exSt).1 =
    Ok [mkArtifact "oc" "binary" "/srv/releases/4.18.2/oc" 2
          (EncodeToString (sha256 (str_bytes "oc")))] ∧
  let '(res, s') := Extract noFaults exExtractor "4.18.2" "x86_64" exSt in
  w_db (st_w s') = w_db (st_w exSt) ∧
  (∀ p, files s' !! p ≠ files exSt !! p → artifact_path "/srv/releases/4.18.2" p) ∧
  (∀ root d, canonical d →
     files s' !! BlobStore.blobFile root d = files exSt !! BlobStore.blobFile root d) ∧
  (noFaults OpOpen = None → ∀ l, res = Ok l → Forall (hashed "/srv/releases/4.18.2" s') l).
Proof.
  split; [by vm_compute|].
  apply (Extract_local noFaults exExtractor "4.18.2" "x86_64" exSt).
Defined.
End Extractor.
