(* ===== verification/Releases.v ===== *)
(** internal/releases/types.go and the catalogue part of
    internal/releases/manager.go: the releases kept in the metadata store under
    the keys [rel:<tag>], their listing and grouping, discovery, registration
    and the import from another instance.

    The catalogue is a map from keys to releases; [catalog] relates it to the
    database, and each operation is shown to be its operation on the map. *)

From S2P Require Import Prelude GoLib Digest Os Blob Badger Metadata Oci Regexp.
From S2P Require Import Mirror Events Discovery Cloner Extractor.

Module Releases.
Export Discovery Extractor.

(** ** Data *)

Definition StateAvailable : string := "available".
Definition StateCloning : string := "cloning".
Definition StateCloned : string := "cloned".
Definition StateExtracting : string := "extracting".
Definition StateReady : string := "ready".
Definition StateFailed : string := "failed".

Record VerifySummary := mkVerifySummary {
  vs_Complete : bool;
  vs_At : Time;
  vs_ReleaseBlobsExpected : Z;
  vs_ReleaseBlobsPresent : Z;
  vs_ComponentsExpected : Z;
  vs_ComponentManifestsOK : Z;
  vs_ComponentBlobsExpected : Z;
  vs_ComponentBlobsPresent : Z
}.

Record Release := mkRelease {
  rl_Version : string;
  rl_Architecture : string;
  rl_Tag : string;
  rl_State : string;
  rl_UpstreamDigest : string;
  rl_LocalDigest : string;
  rl_DiscoveredAt : Time;
  rl_ClonedAt : Time;
  rl_VerifiedAt : Time;
  rl_Size : Z;
  rl_Error : string;
  rl_Artifacts : list Artifact;
  rl_Verify : option VerifySummary
}.

Record MajorMinorGroup := mkGroup {
  gr_MajorMinor : string;
  gr_Releases : list Release;
  gr_LatestVersion : string;
  gr_TotalCount : Z;
  gr_ReadyCount : Z;
  gr_AvailableCount : Z;
  gr_CloningCount : Z
}.

Record ReleasesConfig := mkReleasesConfig {
  rc_Upstream : string;
  rc_Repository : string;
  rc_LocalRepo : string;
  rc_Architectures : list string;
  rc_ArtifactPath : string
}.

Definition releaseKeyPrefix : string := "rel:".

(** A release that upstream offers. *)
Definition available (version arch tag upstreamDigest : string) (discoveredAt : Time) : Release :=
  mkRelease version arch tag StateAvailable upstreamDigest "" discoveredAt 0 0 0 "" [] None.

(** The order in which ranging over a map yields its values. *)
Class MapRange := range_values : gmap string bytes → list bytes.
Class MapRangeLaws `{MapRange} := range_values_perm m : range_values m ≡ₚ (map_to_list m).*2.

(** ** Operations *)

Section catalogue.
Context `{Badger} `{!Json Release} `{MapRange}.

Definition ListReleases (db : DB) : result (list Release) :=
  data ← MetadataStore.ScanPrefix db releaseKeyPrefix;
  Ok (omap (λ v, match json_Unmarshal v with Ok rel => Some rel | _ => None end) (range_values data)).

Definition ListByState (db : DB) (state : string) : result (list Release) :=
  all ← ListReleases db; Ok (filter (λ rel, rl_State rel = state) (all : list Release)).

Definition matches_version (version : string) (rel : Release) : Prop :=
  rl_Version rel = version ∨ rl_Tag rel = version.
Global Instance matches_version_dec v r : Decision (matches_version v r) := _.

(** Under the key of the version itself, or the first release with the version
    or the tag. *)
Definition getRelease (db : DB) (version : string) : result Release :=
  match MetadataStore.GetRaw db (releaseKeyPrefix +:+ version) with
  | Ok data => json_Unmarshal data
  | Panic m => Panic m
  | Err err =>
    match ListReleases db with
    | Ok all => match head (filter (matches_version version) all) with
                | Some rel => Ok rel
                | None => Err err
                end
    | Err _ => Err err
    | Panic m => Panic m
    end
  end.

Definition saveRelease (db : DB) (rel : Release) : result unit * DB :=
  let key := releaseKeyPrefix +:+ (if decide (rl_Tag rel = "") then rl_Version rel else rl_Tag rel) in
  match json_Marshal rel with
  | Ok data => MetadataStore.PutRaw db key data
  | Err e => (Err e, db)
  | Panic m => (Panic m, db)
  end.

Definition ListExtractable (db : DB) : result (list string) :=
  all ← ListReleases db;
  Ok ((λ rel, if decide (rl_Tag rel = "") then rl_Version rel else rl_Tag rel) <$>
      filter (λ rel, rl_State rel ∈ [StateCloned; StateFailed; StateReady]) (all : list Release)).

(** ** Discovery *)

(** One upstream release: registered unless its key exists already. *)
Definition discover (db : DB) (now : Time) (ur : UpstreamRelease) : DB * bool :=
  let key := releaseKeyPrefix +:+ ur_Tag ur in
  match MetadataStore.GetRaw db key with
  | Ok _ => (db, false)
  | _ =>
    match json_Marshal (available (ur_Version ur) (ur_Architecture ur) (ur_Tag ur) (ur_Digest ur) now) with
    | Ok data => let '(res, db) := MetadataStore.PutRaw db key data in (db, is_ok res)
    | _ => (db, false)
    end
  end.

(** The loop over the upstream's releases; [now i] is the clock at the [i]-th. *)
Fixpoint discoverAll (now : nat → Time) (i : nat) (db : DB) (urs : list UpstreamRelease) (newCount : Z)
    : DB * Z :=
  match urs with
  | [] => (db, newCount)
  | ur :: urs =>
    let '(db, new) := discover db (now i) ur in
    discoverAll now (S i) db urs (if new then newCount + 1 else newCount)%Z
  end.

Section upstream.
Context `{Mirror.HttpClient} `{!JsonDecoder quayTagsResponse} `{GoSort} `{!Json Events.Event}.

(** The event of a run that found [total] releases, [new] of them new. *)
Definition recordRun (db : DB) (now1 now2 : Time) (total new : Z) : DB :=
  Events.RecordEvent db now1 now2 Events.EventDiscoveryRun Events.SeverityInfo ""
    ("Found " +:+ fmt_d total +:+ " upstream releases (" +:+ fmt_d new +:+ " new)")
    (<["total" := fmt_d total]> {["new" := fmt_d new]}).

(** [eventStore] says whether the manager has an event store, and
    [initialDiscoveredAt] is its field, zero before the first run. *)
Definition DiscoverUpstream (cfg : ReleasesConfig) (eventStore : bool) (now : nat → Time)
    (initialDiscoveredAt : Time) (db : DB) : result unit * (DB * Time) :=
  let d := NewDiscovery (rc_Upstream cfg) (rc_Repository cfg) in
  match ListUpstreamVersions d (rc_Architectures cfg) with
  | Err e => (Err (wrap "listing upstream versions" e), (db, initialDiscoveredAt))
  | Panic m => (Panic m, (db, initialDiscoveredAt))
  | Ok upstream =>
    let n := length upstream in
    let '(db, newCount) := discoverAll now 0 db upstream 0 in
    let db := if eventStore then recordRun db (now n) (now (n + 1)) (Z.of_nat n) newCount else db in
    (Ok tt, (db, if IsZero initialDiscoveredAt then now (n + 2) else initialDiscoveredAt))
  end.

(** A version, a tag, or a partial version that upstream has as a tag. *)
Definition autoRegister (cfg : ReleasesConfig) (now : Time) (db : DB) (version : string)
    : result Release * DB :=
  let '(ver, arch) :=
    match Regexp.find_groups versionTagRe version with
    | Some [v; a] => (v, a)
    | _ => (version, "")
    end in
  let arch := if decide (arch = "") then default "" (head (rc_Architectures cfg)) else arch in
  let tag := ver +:+ "-" +:+ arch in
  let baseURL := "https://" +:+ rc_Upstream cfg +:+ "/api/v1/repository/" +:+ rc_Repository cfg +:+
                 "/tag/?filter_tag_name=like:" +:+ ver +:+ "&limit=10" in
  match fetchAllTags baseURL with
  | Err e => (Err (wrap ("querying upstream for " +:+ ver) e), db)
  | Panic m => (Panic m, db)
  | Ok tags =>
    match head (filter (λ t, qt_Name t = tag) tags) with
    | None => (Err (Errorf ("tag " +:+ tag +:+ " not found upstream")), db)
    | Some found =>
      let rel := available ver arch tag (qt_ManifestDigest found) now in
      match saveRelease db rel with
      | (Ok _, db) => (Ok rel, db)
      | (Err e, db) => (Err (wrap "saving release" e), db)
      | (Panic m, db) => (Panic m, db)
      end
    end
  end.

(** ** Listings *)

Definition extractMajorMinor (version : string) : string :=
  match SplitN3 "." version with
  | a :: b :: _ => a +:+ "." +:+ b
  | _ => version
  end.

Definition add_release (g : MajorMinorGroup) (rel : Release) : MajorMinorGroup :=
  let st := rl_State rel in
  mkGroup (gr_MajorMinor g) (gr_Releases g ++ [rel]) (gr_LatestVersion g) (gr_TotalCount g + 1)
    (if decide (st = StateReady) then gr_ReadyCount g + 1 else gr_ReadyCount g)
    (if decide (st = StateAvailable) then gr_AvailableCount g + 1 else gr_AvailableCount g)
    (if decide (st = StateCloning ∨ st = StateExtracting) then gr_CloningCount g + 1
     else gr_CloningCount g).

(** The groups by name, and their names in order of appearance. *)
Definition group_one (st : gmap string MajorMinorGroup * list string) (rel : Release)
    : gmap string MajorMinorGroup * list string :=
  let '(groupMap, groupOrder) := st in
  let mm := extractMajorMinor (rl_Version rel) in
  match groupMap !! mm with
  | Some g => (<[mm := add_release g rel]> groupMap, groupOrder)
  | None => (<[mm := add_release (mkGroup mm [] "" 0 0 0 0) rel]> groupMap, groupOrder ++ [mm])
  end.

Definition with_latest (g : MajorMinorGroup) : MajorMinorGroup :=
  mkGroup (gr_MajorMinor g) (gr_Releases g)
    (match gr_Releases g with r :: _ => rl_Version r | [] => gr_LatestVersion g end)
    (gr_TotalCount g) (gr_ReadyCount g) (gr_AvailableCount g) (gr_CloningCount g).

Definition group_all (all : list Release) : list MajorMinorGroup :=
  let '(groupMap, groupOrder) := foldl group_one (∅, []) all in
  omap (λ mm, with_latest <$> groupMap !! mm) groupOrder.

Definition newest_version_first (a b : Release) : bool :=
  bool_decide (compareSemver (rl_Version a) (rl_Version b) > 0)%Z.

Definition ListGrouped (db : DB) : result (list MajorMinorGroup) :=
  all ← ListReleases db; Ok (group_all (sort_slice newest_version_first (all : list Release))).

(** [initialDiscoveredAt] is the time of the first discovery run. *)
Definition ListRecent (initialDiscoveredAt : Time) (db : DB) (n : Z) : result (list Release) :=
  if IsZero initialDiscoveredAt then Ok []
  else
    all ← ListReleases db;
    let recent := filter (λ rel, After (rl_DiscoveredAt rel) initialDiscoveredAt = true)
                    (all : list Release) in
    let sorted := sort_slice (λ a b, After (rl_DiscoveredAt a) (rl_DiscoveredAt b)) recent in
    if decide (Z.of_nat (length sorted) > n)%Z then
      if decide (n < 0)%Z then Panic "slice bounds out of range" else Ok (take (Z.to_nat n) sorted)
    else Ok sorted.
End upstream.

(** ** Import *)

(** The rank of a state; an unknown one has the map's zero value. *)
Definition stateOrder (state : string) : Z :=
  if decide (state = StateAvailable) then 0
  else if decide (state = StateCloning) then 1
  else if decide (state = StateCloned) then 2
  else if decide (state = StateExtracting) then 3
  else if decide (state = StateReady) then 4
  else if decide (state = StateFailed) then 5
  else 0.

Definition with_artifacts (rel : Release) (artifacts : list Artifact) : Release :=
  mkRelease (rl_Version rel) (rl_Architecture rel) (rl_Tag rel) (rl_State rel) (rl_UpstreamDigest rel)
    (rl_LocalDigest rel) (rl_DiscoveredAt rel) (rl_ClonedAt rel) (rl_VerifiedAt rel) (rl_Size rel)
    (rl_Error rel) artifacts (rl_Verify rel).

(** The incoming release, with the artifacts of the existing one if it has
    more. *)
Definition merge_release (existing rel : Release) : Release :=
  if decide (length (rl_Artifacts rel) < length (rl_Artifacts existing))
  then with_artifacts rel (rl_Artifacts existing) else rel.

Definition ImportRelease (db : DB) (rel : Release) : result unit * DB :=
  match getRelease db (rl_Version rel) with
  | Ok existing =>
    if decide (stateOrder (rl_State rel) > stateOrder (rl_State existing))%Z
    then saveRelease db (merge_release existing rel)
    else (Ok tt, db)
  | Err _ => saveRelease db rel
  | Panic m => (Panic m, db)
  end.
End catalogue.

(** ** What the database holds *)

Definition artifact_ok (a : Artifact) : Prop :=
  Forall MetadataStore.is_ascii [ar_Name a; ar_Type a; ar_Path a; ar_SHA256 a] ∧ in64 (ar_Size a).

Definition summary_ok (v : VerifySummary) : Prop :=
  MetadataStore.time_ok (vs_At v) ∧
  Forall in64 [vs_ReleaseBlobsExpected v; vs_ReleaseBlobsPresent v; vs_ComponentsExpected v;
               vs_ComponentManifestsOK v; vs_ComponentBlobsExpected v; vs_ComponentBlobsPresent v].

(** The releases that encoding/json gives back as they were. *)
Definition release_ok (r : Release) : Prop :=
  Forall MetadataStore.is_ascii [rl_Version r; rl_Architecture r; rl_Tag r; rl_State r;
    rl_UpstreamDigest r; rl_LocalDigest r; rl_Error r] ∧
  Forall MetadataStore.time_ok [rl_DiscoveredAt r; rl_ClonedAt r; rl_VerifiedAt r] ∧
  in64 (rl_Size r) ∧ Forall artifact_ok (rl_Artifacts r) ∧
  match rl_Verify r with Some v => summary_ok v | None => True end.

(** The key a release is stored under. *)
Definition rel_key (r : Release) : string :=
  if decide (rl_Tag r = "") then rl_Version r else rl_Tag r.

Section catalog.
Context `{BadgerLaws} `{!Json Release} `{!JsonLaws Release release_ok} `{MapRangeLaws}.

Definition catalog (m : gmap string bytes) (cat : gmap string Release) : Prop :=
  ∀ k, MetadataStore.decodes release_ok (m !! (releaseKeyPrefix +:+ k)) (cat !! k).

Lemma catalog_empty : catalog ∅ ∅.
Proof. intros k. by rewrite !lookup_empty. Qed.

Lemma catalog_get m cat k r :
  catalog m cat → cat !! k = Some r →
  ∃ b, m !! (releaseKeyPrefix +:+ k) = Some b ∧ json_Unmarshal b = Ok r ∧ release_ok r.
Proof.
  intros Hc Hk. specialize (Hc k). rewrite Hk in Hc. unfold MetadataStore.decodes in Hc.
  destruct (m !! _) as [b|]; [|done]. exists b. tauto.
Qed.

Lemma catalog_none m cat k : catalog m cat → cat !! k = None → m !! (releaseKeyPrefix +:+ k) = None.
Proof. intros Hc Hk. specialize (Hc k). rewrite Hk in Hc. by destruct (m !! _). Qed.

Lemma catalog_some m cat k b :
  catalog m cat → m !! (releaseKeyPrefix +:+ k) = Some b →
  ∃ r, cat !! k = Some r ∧ json_Unmarshal b = Ok r.
Proof.
  intros Hc Hk. specialize (Hc k). rewrite Hk in Hc. unfold MetadataStore.decodes in Hc.
  destruct (cat !! k) as [r|]; [|done]. exists r. tauto.
Qed.

(** Writes of other components do not touch the catalogue. *)
Lemma catalog_other m cat k b :
  HasPrefix k releaseKeyPrefix = false → catalog m cat → catalog (<[k := b]> m) cat.
Proof.
  intros Hk Hc k'. rewrite lookup_insert_ne; [apply Hc|]. by apply HasPrefix_false.
Qed.

Lemma saveRelease_spec db cat r :
  release_ok r → catalog (view db) cat →
  ∃ db', saveRelease db r = (Ok tt, db') ∧ catalog (view db') (<[rel_key r := r]> cat).
Proof.
  intros Hr Hc. unfold saveRelease. destruct (json_roundtrip (ok := release_ok) r Hr) as (b & -> & Hb).
  destruct (MetadataStore.PutRaw_view db (releaseKeyPrefix +:+ rel_key r) b) as (db' & Hput & Hv); [done|].
  exists db'. split; [exact Hput|]. intros k. rewrite Hv. destruct (decide (k = rel_key r)) as [->|Hne].
  - by rewrite !lookup_insert_eq.
  - rewrite !lookup_insert_ne; [apply Hc|done|]. by intros E%sapp_inj_r.
Qed.

Lemma GetRaw_catalog db cat k :
  catalog (view db) cat →
  match cat !! k with
  | Some r => ∃ b, MetadataStore.GetRaw db (releaseKeyPrefix +:+ k) = Ok b ∧ json_Unmarshal b = Ok r
  | None => MetadataStore.GetRaw db (releaseKeyPrefix +:+ k) = Err ErrKeyNotFound
  end.
Proof.
  intros Hc. rewrite MetadataStore.GetRaw_view. destruct (cat !! k) as [r|] eqn:E.
  - destruct (catalog_get _ _ _ _ Hc E) as (b & -> & ? & _). by exists b.
  - by rewrite (catalog_none _ _ _ Hc E).
Qed.

Lemma sdrop_rel k : sdrop 4 (releaseKeyPrefix +:+ k) = k.
Proof. apply (sdrop_app "rel:"). Qed.

(** Listing gives every release once, in some order. *)
Lemma ListReleases_spec db cat :
  catalog (view db) cat → ∃ l, ListReleases db = Ok l ∧ l ≡ₚ (map_to_list cat).*2.
Proof.
  intros Hc. unfold ListReleases. rewrite MetadataStore.ScanPrefix_view. simpl.
  set (M := filter _ (view db)). eexists. split; [done|]. rewrite range_values_perm.
  set (dec := λ v, match json_Unmarshal v with Ok rel => Some rel | _ => None end).
  set (f := λ kv : string * bytes, pair (sdrop 4 kv.1) <$> dec kv.2).
  assert (omap dec (map_to_list M).*2 = (omap f (map_to_list M)).*2) as ->.
  { generalize (map_to_list M). intros l. induction l as [|[k v] l IH]; [done|]. simpl.
    unfold f at 1. simpl. destruct (dec v); simpl; [f_equal|]; exact IH. }
  apply fmap_Permutation.
  assert (∀ k v, (k, v) ∈ map_to_list M ↔ view db !! k = Some v ∧ ∃ r, k = releaseKeyPrefix +:+ r) as HM.
  { intros k v. rewrite elem_of_map_to_list. unfold M. by rewrite map_lookup_filter_Some, HasPrefix_spec. }
  apply NoDup_Permutation.
  - apply (NoDup_fmap_1 fst). assert (∀ l : list (string * bytes), Forall (λ kv, ∃ r, kv.1 = releaseKeyPrefix +:+ r) l →
      NoDup l.*1 → NoDup (omap f l).*1) as Hnd; [|apply Hnd; [|apply NoDup_fst_map_to_list]].
    { intros l Hl Hnd. induction Hl as [|[k v] l [r Hk] Hl IH]; [constructor|]. cbn [fst] in Hk. subst k.
      apply NoDup_cons in Hnd as [Hni Hnd]. cbn [omap list_omap]. unfold f at 1. cbn [fst snd].
      destruct (dec v) as [rel|]; cbn; [|by apply IH]. constructor; [|by apply IH].
      intros ([k' r'] & E & Hin)%list_elem_of_fmap. apply list_elem_of_omap in Hin as ([k2 v2] & Hin & Hf).
      unfold f in Hf. cbn [fst snd] in Hf, E. destruct (dec v2) as [r2|]; [|done]. injection Hf as <- <-.
      rewrite Forall_forall in Hl. destruct (Hl _ Hin) as [r2' E2]. cbn [fst] in E2. subst k2.
      apply Hni, list_elem_of_fmap. exists (releaseKeyPrefix +:+ r2', v2). split; [|done]. cbn [fst].
      rewrite !sdrop_rel in E. by rewrite E. }
    apply Forall_forall. intros [k v] [_ ?]%HM. done.
  - apply NoDup_map_to_list.
  - intros [k r]. rewrite list_elem_of_omap, elem_of_map_to_list. split.
    + intros ([k' v] & [Hv [k2 ->]]%HM & Hf). unfold f in Hf. cbn [fst snd] in Hf.
      destruct (catalog_some _ _ _ _ Hc Hv) as (r' & Hr' & Hj). unfold dec in Hf. rewrite Hj in Hf.
      injection Hf as <- <-. by rewrite sdrop_rel.
    + intros Hk. destruct (catalog_get _ _ _ _ Hc Hk) as (b & Hb & Hj & _).
      exists (releaseKeyPrefix +:+ k, b). split; [apply HM; by eauto|]. unfold f, dec. cbn [fst snd].
      rewrite Hj, sdrop_rel. done.
Qed.

(** Every release is under its own key. *)
Definition well_keyed (cat : gmap string Release) : Prop :=
  ∀ k r, cat !! k = Some r → k = rel_key r.

Lemma well_keyed_insert cat r : well_keyed cat → well_keyed (<[rel_key r := r]> cat).
Proof. intros Hw k r'. rewrite lookup_insert. case_decide; [by intros [= <-]|apply Hw]. Qed.

(** A lookup finds the release under the key, or else some release with the
    version or tag, if there is one. *)
Lemma getRelease_spec db cat v :
  catalog (view db) cat →
  (∃ k r, cat !! k = Some r ∧ (k = v ∨ cat !! v = None ∧ matches_version v r) ∧
     getRelease db v = Ok r) ∨
  (cat !! v = None ∧ (∀ k r, cat !! k = Some r → ¬ matches_version v r) ∧
   getRelease db v = Err ErrKeyNotFound).
Proof.
  intros Hc. unfold getRelease. pose proof (GetRaw_catalog db cat v Hc) as Hg.
  destruct (cat !! v) as [r|] eqn:Hv.
  { destruct Hg as (b & -> & Hj). left. exists v, r. auto. }
  rewrite Hg. destruct (ListReleases_spec db cat Hc) as (l & -> & Hl).
  assert (∀ r, r ∈ l ↔ ∃ k, cat !! k = Some r) as Hin.
  { intros r. rewrite Hl, list_elem_of_fmap. split.
    - intros ([k r'] & -> & ?%elem_of_map_to_list). by exists k.
    - intros [k ?]. exists (k, r). by rewrite elem_of_map_to_list. }
  destruct (filter (matches_version v) l) as [|r l'] eqn:E; simpl.
  - right. split; [done|]. split; [|done]. intros k r Hk Hm.
    assert (r ∈ filter (matches_version v) l) as Hr
      by (apply list_elem_of_filter; split; [done|apply Hin; by exists k]).
    rewrite E in Hr. by apply elem_of_nil in Hr.
  - left. assert (r ∈ filter (matches_version v) l) as [Hm [k Hk]%Hin]%list_elem_of_filter
      by (rewrite E; apply list_elem_of_here). exists k, r. auto.
Qed.

(** ** Import *)

(** What an import means, when a version has one release. *)
Definition import_spec (cat : gmap string Release) (rel : Release) : gmap string Release :=
  match cat !! rel_key rel with
  | None => <[rel_key rel := rel]> cat
  | Some existing =>
    if decide (stateOrder (rl_State rel) > stateOrder (rl_State existing))%Z
    then <[rel_key rel := merge_release existing rel]> cat else cat
  end.

Lemma merge_release_key existing rel : rel_key (merge_release existing rel) = rel_key rel.
Proof. unfold merge_release. by case_decide. Qed.

Lemma merge_release_state existing rel : rl_State (merge_release existing rel) = rl_State rel.
Proof. unfold merge_release. by case_decide. Qed.

Lemma merge_release_version existing rel : rl_Version (merge_release existing rel) = rl_Version rel.
Proof. unfold merge_release. by case_decide. Qed.

Lemma merge_release_ok existing rel :
  release_ok existing → release_ok rel → release_ok (merge_release existing rel).
Proof.
  intros (_ & _ & _ & Ha & _) Hr. unfold merge_release. case_decide; [|done].
  destruct Hr as (? & ? & ? & _ & ?). by split_and!.
Qed.

(** The version of the incoming release belongs to its key alone. *)
Definition one_key (cat : gmap string Release) (rel : Release) : Prop :=
  ∀ k r, cat !! k = Some r → matches_version (rl_Version rel) r ↔ k = rel_key rel.

Lemma getRelease_one_key db cat rel :
  catalog (view db) cat → well_keyed cat → one_key cat rel →
  getRelease db (rl_Version rel) =
    match cat !! rel_key rel with Some r => Ok r | None => Err ErrKeyNotFound end.
Proof.
  intros Hc Hw Ho.
  destruct (getRelease_spec db cat (rl_Version rel) Hc)
    as [(k & r & Hk & Hkv & ->)|(Hn & Hno & ->)].
  - assert (matches_version (rl_Version rel) r) as Hm.
    { destruct Hkv as [->|[_ ?]]; [|done]. pose proof (Hw _ _ Hk) as E. unfold rel_key in E.
      unfold matches_version. case_decide; auto. }
    apply (Ho k r Hk) in Hm as ->. by rewrite Hk.
  - destruct (cat !! rel_key rel) as [r|] eqn:E; [|done]. by destruct (Hno _ _ E); apply (Ho _ _ E).
Qed.

Lemma ImportRelease_spec db cat rel :
  catalog (view db) cat → well_keyed cat → one_key cat rel → release_ok rel →
  ∃ db', ImportRelease db rel = (Ok tt, db') ∧ catalog (view db') (import_spec cat rel).
Proof.
  intros Hc Hw Ho Hr. unfold ImportRelease, import_spec.
  rewrite (getRelease_one_key db cat rel) by done.
  destruct (cat !! rel_key rel) as [ex|] eqn:E; [|by apply saveRelease_spec].
  case_decide; [|by exists db]. destruct (catalog_get _ _ _ _ Hc E) as (_ & _ & _ & Hex).
  destruct (saveRelease_spec db cat (merge_release ex rel)) as (db' & -> & Hc');
    [by apply merge_release_ok|done|]. exists db'. by rewrite merge_release_key in Hc'.
Qed.

Lemma import_spec_one_key cat rel :
  well_keyed cat → one_key cat rel →
  well_keyed (import_spec cat rel) ∧ one_key (import_spec cat rel) rel.
Proof.
  intros Hw Ho. unfold import_spec.
  assert (∀ r, rel_key r = rel_key rel → rl_Version r = rl_Version rel →
    well_keyed (<[rel_key rel := r]> cat) ∧ one_key (<[rel_key rel := r]> cat) rel) as Hi.
  { intros r Hk Hv. split; [rewrite <-Hk; by apply well_keyed_insert|].
    intros k r'. rewrite lookup_insert. case_decide as E; [|apply Ho]. intros [= <-].
    unfold matches_version. rewrite Hv. naive_solver. }
  destruct (cat !! rel_key rel) as [ex|]; [|by apply Hi]. case_decide; [|done].
  apply Hi; [apply merge_release_key|apply merge_release_version].
Qed.

(** Importing merges by progress: when a version has one release, importing
    it never fails, leaves every other release alone, keeps the more advanced
    of the two states, never loses artifacts to a list that is shorter, and
    importing it again changes nothing. *)
Theorem ImportRelease_merges db cat rel :
  catalog (view db) cat → well_keyed cat → one_key cat rel → release_ok rel →
  ∃ db', ImportRelease db rel = (Ok tt, db') ∧ catalog (view db') (import_spec cat rel) ∧
    ImportRelease db' rel = (Ok tt, db') ∧
    (∀ k, k ≠ rel_key rel → import_spec cat rel !! k = cat !! k) ∧
    ∃ r, import_spec cat rel !! rel_key rel = Some r ∧
      ∀ old, cat !! rel_key rel = Some old →
        stateOrder (rl_State r) = Z.max (stateOrder (rl_State old)) (stateOrder (rl_State rel)) ∧
        length (rl_Artifacts old) ≤ length (rl_Artifacts r).
Proof.
  intros Hc Hw Ho Hr. destruct (ImportRelease_spec db cat rel Hc Hw Ho Hr) as (db' & HI & Hc').
  destruct (import_spec_one_key cat rel Hw Ho) as [Hw' Ho'].
  exists db'. split; [done|]. split; [done|].
  assert (∃ r, import_spec cat rel !! rel_key rel = Some r ∧
    (stateOrder (rl_State rel) ≤ stateOrder (rl_State r))%Z ∧
      ∀ old, cat !! rel_key rel = Some old →
        stateOrder (rl_State r) = Z.max (stateOrder (rl_State old)) (stateOrder (rl_State rel)) ∧
        length (rl_Artifacts old) ≤ length (rl_Artifacts r)) as (r & Hget & Hle & Hold).
  { unfold import_spec. destruct (cat !! rel_key rel) as [ex|] eqn:E.
    - case_decide as Hlt.
      + rewrite lookup_insert_eq. eexists. split; [done|]. rewrite merge_release_state.
        split; [lia|]. intros old [= <-]. split; [lia|]. unfold merge_release.
        case_decide; simpl; lia.
      + exists ex. split; [done|]. split; [lia|]. intros old [= <-]. split; [lia|done].
    - exists rel. rewrite lookup_insert_eq. split; [done|]. split; [lia|]. by intros old. }
  split_and!; [| |by exists r].
  - unfold ImportRelease. rewrite (getRelease_one_key db' _ rel Hc' Hw' Ho'), Hget.
    by rewrite decide_False by lia.
  - intros k Hk. unfold import_spec. repeat case_match; by rewrite ?lookup_insert_ne by done.
Qed.

(** Releases of one version for several architectures are confused: the
    import looks an incoming release up by its version, which is not its key,
    so when the instance has another architecture of the version, at least as
    advanced, an incoming release it does not have is dropped without an
    error. *)
Theorem ImportRelease_drops_architecture db cat rel k other :
  catalog (view db) cat → cat !! rl_Version rel = None → cat !! rel_key rel = None →
  cat !! k = Some other → rl_Version other = rl_Version rel →
  rl_Architecture other ≠ rl_Architecture rel →
  (∀ k r, cat !! k = Some r → matches_version (rl_Version rel) r →
     stateOrder (rl_State rel) ≤ stateOrder (rl_State r))%Z →
  ImportRelease db rel = (Ok tt, db) ∧
  MetadataStore.GetRaw db (releaseKeyPrefix +:+ rel_key rel) = Err ErrKeyNotFound.
Proof.
  intros Hc Hv Hn Hk Hver _ Hrank. split.
  - unfold ImportRelease.
    destruct (getRelease_spec db cat (rl_Version rel) Hc) as [(k' & r & Hk' & Hkv & ->)|(_ & Hno & _)].
    + assert (matches_version (rl_Version rel) r) as Hm by (destruct Hkv as [->|[_ ?]]; [congruence|done]).
      specialize (Hrank _ _ Hk' Hm). by rewrite decide_False by lia.
    + destruct (Hno _ _ Hk). by left.
  - pose proof (GetRaw_catalog db cat (rel_key rel) Hc) as Hg. by rewrite Hn in Hg.
Qed.

(** ** Discovery *)

(** What discovering a list means on the map. *)
Fixpoint discover_spec (now : nat → Time) (i : nat) (cat : gmap string Release)
    (urs : list UpstreamRelease) : gmap string Release :=
  match urs with
  | [] => cat
  | ur :: urs =>
    discover_spec now (S i)
      (match cat !! ur_Tag ur with
       | Some _ => cat
       | None => <[ur_Tag ur := available (ur_Version ur) (ur_Architecture ur) (ur_Tag ur)
                                  (ur_Digest ur) (now i)]> cat
       end) urs
  end.

(** What upstream may offer: texts the database can hold. *)
Definition upstream_ok (ur : UpstreamRelease) : Prop :=
  Forall MetadataStore.is_ascii [ur_Version ur; ur_Architecture ur; ur_Tag ur; ur_Digest ur] ∧
  ur_Tag ur ≠ "".

Lemma available_ok ur t :
  upstream_ok ur → MetadataStore.time_ok t →
  release_ok (available (ur_Version ur) (ur_Architecture ur) (ur_Tag ur) (ur_Digest ur) t).
Proof.
  intros [Hur _] Hn. rewrite !Forall_cons in Hur. destruct Hur as (Hv & Ha & Ht & Hd & _).
  assert (MetadataStore.time_ok 0) as H0t by by apply (bool_decide_unpack _).
  split; [|split; [|split; [by apply (bool_decide_unpack _)|by split]]].
  - repeat (apply Forall_cons; split); try done; by apply (bool_decide_unpack _).
  - repeat (apply Forall_cons; split); done.
Qed.

Lemma discover_step db cat now ur :
  catalog (view db) cat → upstream_ok ur → MetadataStore.time_ok now →
  catalog (view (discover db now ur).1)
    (match cat !! ur_Tag ur with
     | Some _ => cat
     | None => <[ur_Tag ur := available (ur_Version ur) (ur_Architecture ur) (ur_Tag ur)
                                (ur_Digest ur) now]> cat
     end) ∧
  (discover db now ur).2 = bool_decide (cat !! ur_Tag ur = None).
Proof.
  intros Hc Hur Hn. unfold discover. pose proof (GetRaw_catalog db cat (ur_Tag ur) Hc) as Hg.
  destruct (cat !! ur_Tag ur) as [r|] eqn:E; [by destruct Hg as (b & -> & _)|]. rewrite Hg.
  destruct (saveRelease_spec db cat _ (available_ok ur now Hur Hn) Hc) as (db' & Hs & Hc').
  unfold saveRelease in Hs. simpl in Hs. destruct Hur as [_ Hne].
  unfold rel_key in Hc'. simpl in Hc'. rewrite decide_False in Hs, Hc' by done.
  destruct (json_Marshal _); [|by inversion Hs..]. rewrite Hs. by split.
Qed.

Lemma discoverAll_spec now urs : ∀ i db cat n,
  catalog (view db) cat → Forall upstream_ok urs → (∀ i, MetadataStore.time_ok (now i)) →
  let cat' := discover_spec now i cat urs in
  catalog (view (discoverAll now i db urs n).1) cat' ∧
  (discoverAll now i db urs n).2 = (n + Z.of_nat (size cat') - Z.of_nat (size cat))%Z.
Proof.
  induction urs as [|ur urs IH]; intros i db cat n Hc Hurs Hn; simpl; [split; [done|lia]|].
  apply Forall_cons in Hurs as [Hur Hurs].
  destruct (discover_step db cat (now i) ur Hc Hur (Hn i)) as [Hc1 Hb].
  destruct (discover db (now i) ur) as [db1 new]. simpl in Hc1, Hb. subst new.
  edestruct (IH (S i) db1 _ (if bool_decide (cat !! ur_Tag ur = None) then n + 1 else n)%Z Hc1 Hurs Hn)
    as [Hc2 Hs]. split; [done|]. rewrite Hs.
  destruct (cat !! ur_Tag ur) eqn:E.
  - by rewrite bool_decide_eq_false_2.
  - rewrite bool_decide_eq_true_2, map_size_insert_None by done. lia.
Qed.

Lemma discover_spec_lookup now urs : ∀ i cat,
  (∀ k r, cat !! k = Some r → discover_spec now i cat urs !! k = Some r) ∧
  (∀ ur, ur ∈ urs → is_Some (discover_spec now i cat urs !! ur_Tag ur)) ∧
  (∀ k r, cat !! k = None → discover_spec now i cat urs !! k = Some r →
     ∃ ur t, ur ∈ urs ∧ k = ur_Tag ur ∧
       r = available (ur_Version ur) (ur_Architecture ur) (ur_Tag ur) (ur_Digest ur) (now t)).
Proof.
  induction urs as [|ur urs IH]; intros i cat; simpl.
  { split; [done|]. split; [by intros ur ?%elem_of_nil|]. intros k r. congruence. }
  set (cat1 := match cat !! ur_Tag ur with Some _ => cat | None => _ end).
  assert (∀ k r, cat !! k = Some r → cat1 !! k = Some r) as Hkeep.
  { intros k r Hk. unfold cat1. destruct (cat !! ur_Tag ur) eqn:E; [done|].
    rewrite lookup_insert_ne; [done|]. congruence. }
  assert (is_Some (cat1 !! ur_Tag ur)) as [r1 Hr1].
  { unfold cat1. destruct (cat !! ur_Tag ur) eqn:E; [by rewrite E|]. rewrite lookup_insert_eq. by eexists. }
  destruct (IH (S i) cat1) as (Hd1 & Hd2 & Hd3). split; [auto|]. split.
  - intros ur' [->|Hin]%elem_of_cons; [|by apply Hd2]. rewrite (Hd1 _ _ Hr1). by eexists.
  - intros k r Hn Hk. destruct (cat1 !! k) as [r'|] eqn:E.
    + rewrite (Hd1 _ _ E) in Hk. injection Hk as ->. unfold cat1 in E.
      destruct (cat !! ur_Tag ur) eqn:Eu; [congruence|]. rewrite lookup_insert in E.
      case_decide; [|congruence]. injection E as <-. exists ur, i. split; [by left|]. by split.
    + destruct (Hd3 _ _ E Hk) as (ur' & t & Hin & ? & ?). exists ur', t. split; [by right|]. by split.
Qed.

(** Recording a run leaves the releases alone. *)
Lemma recordRun_catalog `{!Json Events.Event} db cat now1 now2 total new :
  catalog (view db) cat → catalog (view (recordRun db now1 now2 total new)) cat.
Proof.
  intros Hc. unfold recordRun, Events.RecordEvent. destruct (json_Marshal _) as [data|e|x]; [|done..].
  cbv zeta. cbn [Events.ev_ID]. set (k := _ +:+ _).
  destruct (MetadataStore.PutRaw_view db k data) as (db' & -> & Hv); [done|]. cbn [snd]. rewrite Hv.
  by apply catalog_other.
Qed.

Section discovery.
Context `{Mirror.HttpClient} `{!JsonDecoder quayTagsResponse} `{GoSort} `{!Json Events.Event}.

(** Discovery only adds: when upstream can be listed, every release that is
    known stays exactly as it is, whatever its state, every version upstream
    offers is known afterwards, what is new is in the state available with the
    digest upstream gives, and the run's event reports the right number of new
    releases; the baseline of the news is set by the first run only. *)
Theorem discovery_only_adds cfg store now init db cat urs :
  catalog (view db) cat → (∀ i, MetadataStore.time_ok (now i)) → Forall upstream_ok urs →
  ListUpstreamVersions (NewDiscovery (rc_Upstream cfg) (rc_Repository cfg)) (rc_Architectures cfg) = Ok urs →
  ∃ cat' db1 db' init', DiscoverUpstream cfg store now init db = (Ok tt, (db', init')) ∧
    catalog (view db') cat' ∧
    (∀ k r, cat !! k = Some r → cat' !! k = Some r) ∧
    (∀ ur, ur ∈ urs → is_Some (cat' !! ur_Tag ur)) ∧
    (∀ k r, cat !! k = None → cat' !! k = Some r →
       ∃ ur t, ur ∈ urs ∧ k = ur_Tag ur ∧ r = available (ur_Version ur) (ur_Architecture ur)
         (ur_Tag ur) (ur_Digest ur) (now t)) ∧
    db' = (if store then recordRun db1 (now (length urs)) (now (length urs + 1))
             (Z.of_nat (length urs)) (Z.of_nat (size cat') - Z.of_nat (size cat)) else db1) ∧
    init' = (if IsZero init then now (length urs + 2) else init).
Proof.
  intros Hc Hn Hurs Hl. unfold DiscoverUpstream. rewrite Hl.
  destruct (discoverAll_spec now urs 0 db cat 0 Hc Hurs Hn) as [Hc' Hs].
  destruct (discoverAll now 0 db urs 0) as [db1 n]. simpl in Hc', Hs.
  rewrite Z.add_0_l in Hs. subst n. set (cat' := discover_spec now 0 cat urs) in *.
  destruct (discover_spec_lookup now urs 0 cat) as (Hkeep & Hall & Hnew).
  exists cat', db1. do 2 eexists. split; [done|]. split; [|by split_and!].
  destruct store; [by apply recordRun_catalog|done].
Qed.
End discovery.

(** ** Grouping *)

(** The group of a name: its releases in the order of the list. *)
Definition count_state (states : list string) (l : list Release) : Z :=
  Z.of_nat (length (filter (λ r, rl_State r ∈ states) l)).

Definition of_group (mm : string) (l : list Release) : list Release :=
  filter (λ r, extractMajorMinor (rl_Version r) = mm) l.

Definition group_of (l : list Release) (mm : string) : MajorMinorGroup :=
  let rs := of_group mm l in
  mkGroup mm rs "" (Z.of_nat (length rs)) (count_state [StateReady] rs) (count_state [StateAvailable] rs)
    (count_state [StateCloning; StateExtracting] rs).

(** The names in the order of first appearance. *)
Definition add_name (order : list string) (mm : string) : list string :=
  if decide (mm ∈ order) then order else order ++ [mm].

Lemma count_state_snoc states l r :
  count_state states (l ++ [r]) =
    if decide (rl_State r ∈ states) then (count_state states l + 1)%Z else count_state states l.
Proof.
  unfold count_state. rewrite filter_app, length_app, filter_cons, filter_nil.
  case_decide; simpl; lia.
Qed.

Lemma add_release_group l mm r :
  extractMajorMinor (rl_Version r) = mm →
  add_release (group_of l mm) r = group_of (l ++ [r]) mm.
Proof.
  intros Hr. unfold group_of, add_release, of_group. simpl.
  rewrite filter_app, (filter_cons_True _ r []), filter_nil by done.
  rewrite length_app, !count_state_snoc. simpl. f_equal; [lia|..]; repeat case_decide; set_solver.
Qed.

Lemma group_of_other l mm r :
  extractMajorMinor (rl_Version r) ≠ mm → group_of (l ++ [r]) mm = group_of l mm.
Proof.
  intros Hr. unfold group_of, of_group. by rewrite filter_app, (filter_cons_False _ r []), filter_nil, app_nil_r.
Qed.

(** The loop keeps the groups of what it has seen. *)
Definition grouped (l : list Release) (st : gmap string MajorMinorGroup * list string) : Prop :=
  NoDup st.2 ∧ (∀ mm, mm ∈ st.2 ↔ ∃ r, r ∈ l ∧ extractMajorMinor (rl_Version r) = mm) ∧
  ∀ mm, st.1 !! mm = if decide (mm ∈ st.2) then Some (group_of l mm) else None.

Lemma group_one_grouped l st r : grouped l st → grouped (l ++ [r]) (group_one st r).
Proof.
  destruct st as [gm order]. intros (Hnd & Hin & Hg). simpl in *. unfold group_one.
  set (m := extractMajorMinor (rl_Version r)).
  assert (∀ mm, (∃ r', r' ∈ l ++ [r] ∧ extractMajorMinor (rl_Version r') = mm) ↔
    mm = m ∨ ∃ r', r' ∈ l ∧ extractMajorMinor (rl_Version r') = mm) as Hex by set_solver.
  rewrite (Hg m). case_decide as Hm; (split; [|split]); simpl.
  - done.
  - intros mm. rewrite Hex, <-Hin. naive_solver.
  - intros mm. rewrite lookup_insert. case_decide as E.
    + subst mm. rewrite decide_True by done. by rewrite add_release_group.
    + rewrite Hg. case_decide; [|done]. by rewrite group_of_other.
  - apply NoDup_app. split_and!; [done|set_solver|apply NoDup_singleton].
  - intros mm. rewrite Hex, <-Hin. set_solver.
  - intros mm. rewrite lookup_insert. case_decide as E.
    + subst mm. rewrite decide_True by set_solver. rewrite <-add_release_group by done. f_equal.
      assert (of_group m l = []) as Hnil.
      { destruct (of_group m l) as [|r' rs] eqn:E; [done|]. destruct Hm. apply Hin. exists r'.
        assert (r' ∈ of_group m l) as [? ?]%list_elem_of_filter by (rewrite E; apply list_elem_of_here).
        done. }
      unfold group_of. by rewrite Hnil.
    + rewrite Hg. rewrite (decide_ext (mm ∈ order ++ [m]) (mm ∈ order)) by set_solver.
      case_decide; [|done]. by rewrite group_of_other.
Qed.

Lemma group_all_spec l :
  ∃ order, NoDup order ∧
    (∀ mm, mm ∈ order ↔ ∃ r, r ∈ l ∧ extractMajorMinor (rl_Version r) = mm) ∧
    group_all l = (λ mm, with_latest (group_of l mm)) <$> order.
Proof.
  unfold group_all. assert (grouped l (foldl group_one (∅, []) l)) as Hg.
  { assert (∀ l1 l2 st, grouped l1 st → grouped (l1 ++ l2) (foldl group_one st l2)) as Hf;
      [|apply (Hf []); split; [apply NoDup_nil_2|split; [set_solver|]];
       intros mm; cbn [fst snd]; rewrite lookup_empty; case_decide as E; [set_solver|done]].
    intros l1 l2. revert l1. induction l2 as [|r l2 IH]; intros l1 st Hst; simpl; [by rewrite app_nil_r|].
    rewrite (cons_middle r l1 l2), (app_assoc l1 [r] l2). by apply IH, group_one_grouped. }
  destruct (foldl _ _ _) as [gm order]. destruct Hg as (Hnd & Hin & Hg). simpl in *.
  exists order. split; [done|]. split; [done|].
  assert (∀ mm, mm ∈ order → gm !! mm = Some (group_of l mm)) as Hall
    by (intros mm Hmm; by rewrite Hg, decide_True).
  clear -Hall. induction order as [|mm order IH]; [done|]. cbn [omap list_omap fmap list_fmap].
  rewrite Hall by set_solver. simpl. f_equal. apply IH. set_solver.
Qed.

(** Grouping is a partition: [ListGrouped] returns each group name once,
    every release of the catalogue is in exactly the group of the first two
    components of its version, the four counts of each group are the numbers
    of its releases in those states, and, when all versions are numbers, the
    releases of a group and its latest version are ordered from the highest
    version down. *)
Theorem ListGrouped_partition `{!GoSort} `{!GoSortLaws} db cat :
  catalog (view db) cat →
  ∃ gs, ListGrouped db = Ok gs ∧ NoDup (gr_MajorMinor <$> gs) ∧
    (∀ r, (∃ k, cat !! k = Some r) ↔ ∃ g, g ∈ gs ∧ r ∈ gr_Releases g) ∧
    ∀ g, g ∈ gs →
      Forall (λ r, extractMajorMinor (rl_Version r) = gr_MajorMinor g) (gr_Releases g) ∧
      gr_TotalCount g = Z.of_nat (length (gr_Releases g)) ∧
      gr_ReadyCount g = count_state [StateReady] (gr_Releases g) ∧
      gr_AvailableCount g = count_state [StateAvailable] (gr_Releases g) ∧
      gr_CloningCount g = count_state [StateCloning; StateExtracting] (gr_Releases g) ∧
      (rl_Version <$> head (gr_Releases g)) = Some (gr_LatestVersion g) ∧
      ((∀ k r, cat !! k = Some r → is_version (rl_Version r)) →
       StronglySorted (λ r s, ¬ ver_lt (parseSemver (rl_Version r)) (parseSemver (rl_Version s)))
         (gr_Releases g)).
Proof.
  intros Hc. destruct (ListReleases_spec db cat Hc) as (l & Hl & Hp). unfold ListGrouped. rewrite Hl.
  set (l' := sort_slice newest_version_first l). assert (l' ≡ₚ l) as Hp' by apply sort_slice_perm.
  destruct (group_all_spec l') as (order & Hnd & Hin & Hg). exists (group_all l').
  split; [done|]. rewrite Hg.
  assert (∀ r, (∃ k, cat !! k = Some r) ↔ r ∈ l') as Hcat.
  { intros r. rewrite Hp', Hp, list_elem_of_fmap. split.
    - intros [k ?]. exists (k, r). by rewrite elem_of_map_to_list.
    - intros ([k r'] & -> & ?%elem_of_map_to_list). by exists k. }
  split; [|split].
  - rewrite <-list_fmap_compose. match goal with |- NoDup ?o => replace o with order; [done|] end.
    rewrite <-(list_fmap_id order) at 1. by apply list_fmap_ext.
  - intros r. rewrite Hcat. split.
    + intros Hr. exists (with_latest (group_of l' (extractMajorMinor (rl_Version r)))). split.
      * apply (list_elem_of_fmap_2 (λ mm, with_latest (group_of l' mm))), Hin. by exists r.
      * by apply list_elem_of_filter.
    + intros (g & (mm & -> & _)%list_elem_of_fmap & [_ ?]%list_elem_of_filter). done.
  - intros g (mm & -> & Hmm)%list_elem_of_fmap. cbn. split; [|split; [done|]].
    { apply Forall_forall. by intros r [? _]%list_elem_of_filter. }
    split; [done|]. split; [done|]. split; [done|]. split.
    + apply Hin in Hmm as (r & Hr & Hrm).
      assert (r ∈ of_group mm l') as Hr' by by apply list_elem_of_filter.
      destruct (of_group mm l'); [by apply elem_of_nil in Hr'|done].
    + intros Hv. apply StronglySorted_filter, (sort_versions_sorted rl_Version).
      apply Forall_forall. intros r Hr. assert (∃ k, cat !! k = Some r) as [k Hk]; [|by eapply Hv].
      apply Hcat. by rewrite Hp'.
Qed.
End catalog.

(** ** A catalogue *)

Global Instance Artifact_eq_dec : EqDecision Artifact.
Proof. solve_decision. Defined.
Global Instance Artifact_countable : Countable Artifact.
Proof.
  refine (inj_countable'
    (λ a, (ar_Name a, ar_Type a, ar_Path a, ar_Size a, ar_SHA256 a))
    (λ '(n, t, p, z, h), mkArtifact n t p z h) _). by intros [].
Defined.

Global Instance VerifySummary_eq_dec : EqDecision VerifySummary.
Proof. solve_decision. Defined.
Global Instance VerifySummary_countable : Countable VerifySummary.
Proof.
  refine (inj_countable'
    (λ v, (vs_Complete v, vs_At v, vs_ReleaseBlobsExpected v, vs_ReleaseBlobsPresent v,
           vs_ComponentsExpected v, vs_ComponentManifestsOK v, vs_ComponentBlobsExpected v,
           vs_ComponentBlobsPresent v))
    (λ '(c, t, a, b, d, e, f, g), mkVerifySummary c t a b d e f g) _). by intros [].
Defined.

Global Instance Release_eq_dec : EqDecision Release.
Proof. solve_decision. Defined.
Global Instance Release_countable : Countable Release.
Proof.
  refine (inj_countable'
    (λ r, (rl_Version r, rl_Architecture r, rl_Tag r, rl_State r, rl_UpstreamDigest r,
           rl_LocalDigest r, (rl_DiscoveredAt r, rl_ClonedAt r, rl_VerifiedAt r, rl_Size r),
           rl_Error r, rl_Artifacts r, rl_Verify r))
    (λ '(v, a, t, s, u, l, (d, c, f, z), e, ar, vs), mkRelease v a t s u l d c f z e ar vs) _).
  by intros [].
Defined.

Definition jsonRelease : Json Release := countableJson Release.
Definition listRange : MapRange := λ m, (map_to_list m).*2.
Lemma listRangeLaws : @MapRangeLaws listRange.
Proof. intros m. reflexivity. Qed.

Definition exTime (n : Z) : Time := (63800000000 * Second + n)%Z.
Definition exReady : Release :=
  mkRelease "4.18.2" "x86_64" "4.18.2-x86_64" StateReady "sha256:b" "" (exTime 1) (exTime 2) (exTime 3) 0 ""
    [mkArtifact "oc" "binary" "/srv/4.18.2/oc" 2 "00"] None.
Definition exOld : Release := available "4.9.1" "x86_64" "4.9.1-x86_64" "sha256:a" (exTime 1).
Definition exCat : gmap string Release := <[rel_key exOld := exOld]> (<[rel_key exReady := exReady]> ∅).
Definition exCatDb : @DB mapBadger :=
  (@saveRelease mapBadger jsonRelease (@saveRelease mapBadger jsonRelease
     (∅ : gmap string bytes) exReady).2 exOld).2.

Lemma exReleases_ok : release_ok exReady ∧ release_ok exOld.
Proof.
  assert (∀ r, bool_decide (Forall MetadataStore.is_ascii [rl_Version r; rl_Architecture r; rl_Tag r;
      rl_State r; rl_UpstreamDigest r; rl_LocalDigest r; rl_Error r]) = true →
    bool_decide (Forall MetadataStore.time_ok [rl_DiscoveredAt r; rl_ClonedAt r; rl_VerifiedAt r]) = true →
    in64 (rl_Size r) → Forall artifact_ok (rl_Artifacts r) → rl_Verify r = None → release_ok r) as Hok.
  { intros r ?%bool_decide_eq_true ?%bool_decide_eq_true ? ? Hv. unfold release_ok. rewrite Hv. auto. }
  split; apply Hok; try reflexivity; try (by split; vm_compute).
  - constructor; [|constructor]. split; [by apply (bool_decide_unpack _)|by split; vm_compute].
  - constructor.
Qed.

Lemma exCatDb_catalog : @catalog jsonRelease (@view mapBadger mapBadgerLaws exCatDb) exCat.
Proof.
  destruct exReleases_ok as [Hr Ho].
  destruct (@saveRelease_spec mapBadger mapBadgerLaws jsonRelease (countableJsonLaws _ _) ∅ ∅ exReady Hr)
    as (db1 & H1 & Hc1); [apply catalog_empty|].
  destruct (@saveRelease_spec mapBadger mapBadgerLaws jsonRelease (countableJsonLaws _ _) db1 _ exOld Ho Hc1)
    as (db2 & H2 & Hc2).
  unfold exCatDb. replace (saveRelease _ exReady).2 with db1 by (symmetry; exact (f_equal snd H1)).
  by replace (saveRelease _ exOld).2 with db2 by (symmetry; exact (f_equal snd H2)).
Qed.

(** A statement about all releases of the example is about its two. *)
Lemma exCat_forall (P : string → Release → Prop) :
  P (rel_key exReady) exReady → P (rel_key exOld) exOld → ∀ k r, exCat !! k = Some r → P k r.
Proof.
  intros Hr Ho k r. unfold exCat. rewrite !lookup_insert, lookup_empty. repeat case_decide; try done.
  - intros [= <-]. congruence.
  - intros [= <-]. congruence.
Qed.

(** The older release of the example, cloned meanwhile by another instance. *)
Definition exIncoming : Release :=
  mkRelease "4.9.1" "x86_64" "4.9.1-x86_64" StateCloned "sha256:a" "" (exTime 1) (exTime 5) 0 0 "" [] None.
(** The newer release for another architecture. *)
Definition exOther : Release :=
  mkRelease "4.18.2" "s390x" "4.18.2-s390x" StateReady "sha256:c" "" (exTime 1) (exTime 5) (exTime 6) 0 "" [] None.

Lemma exIncoming_ok : release_ok exIncoming.
Proof.
  split; [by apply (bool_decide_unpack _)|]. split; [by apply (bool_decide_unpack _)|].
  split; [by split; vm_compute|]. by split; [constructor|].
Qed.

Lemma ImportRelease_merges_witness :
  ∃ db', @ImportRelease mapBadger jsonRelease listRange exCatDb exIncoming = (Ok tt, db') ∧
    @catalog jsonRelease (@view mapBadger mapBadgerLaws db')
      (<[rel_key exOld := exIncoming]> exCat) ∧
    @ImportRelease mapBadger jsonRelease listRange db' exIncoming = (Ok tt, db').
Proof.
  destruct (@ImportRelease_merges mapBadger mapBadgerLaws jsonRelease (countableJsonLaws _ _)
    listRange listRangeLaws exCatDb exCat exIncoming exCatDb_catalog) as (db' & H1 & H2 & H3 & _).
  - intros k r. by apply (exCat_forall (λ k r, k = rel_key r)).
  - intros k r. apply (exCat_forall (λ k r, matches_version (rl_Version exIncoming) r ↔ k = rel_key exIncoming)).
    + split; [intros [?|?]; discriminate|discriminate].
    + split; [done|by left].
  - exact exIncoming_ok.
  - exists db'. split; [exact H1|]. split; [exact H2|exact H3].
Defined.

Lemma ImportRelease_drops_architecture_witness :
  @ImportRelease mapBadger jsonRelease listRange exCatDb exOther = (Ok tt, exCatDb) ∧
  MetadataStore.GetRaw exCatDb (releaseKeyPrefix +:+ "4.18.2-s390x") = Err ErrKeyNotFound.
Proof.
  apply (@ImportRelease_drops_architecture mapBadger mapBadgerLaws jsonRelease listRange listRangeLaws
    exCatDb exCat exOther (rel_key exReady) exReady exCatDb_catalog);
    [by vm_compute|by vm_compute|by vm_compute|reflexivity|discriminate|].
  intros k r Hk Hm. revert k r Hk Hm. apply (exCat_forall (λ _ r, matches_version (rl_Version exOther) r →
     stateOrder (rl_State exOther) ≤ stateOrder (rl_State r))%Z).
  - intros _. by vm_compute.
  - intros [?|?]; discriminate.
Defined.

Definition exRelConfig : ReleasesConfig :=
  mkReleasesConfig "quay.io" "ocp-release" "openshift/release" ["x86_64"] "/srv/releases".
Definition exUpstreamReleases : list UpstreamRelease :=
  match @ListUpstreamVersions exUpstream exPages insertionSort exDiscovery ["x86_64"] with
  | Ok l => l | _ => [] end.

Lemma exUpstreamReleases_eq :
  exUpstreamReleases = [mkUpstreamRelease "4.18.2" "x86_64" "4.18.2-x86_64" "sha256:b";
                        mkUpstreamRelease "4.9.12" "x86_64" "4.9.12-x86_64" "sha256:a"].
Proof. by vm_compute. Qed.

Lemma discovery_only_adds_witness :
  ∃ cat' db' init', @DiscoverUpstream mapBadger jsonRelease exUpstream exPages insertionSort
      Events.jsonEvent exRelConfig true (λ _, exTime 7) 0 exCatDb = (Ok tt, (db', init')) ∧
    init' = exTime 7 ∧
    @catalog jsonRelease (@view mapBadger mapBadgerLaws db') cat' ∧
    cat' !! "4.18.2-x86_64" = Some exReady ∧ is_Some (cat' !! "4.9.12-x86_64").
Proof.
  destruct (@discovery_only_adds mapBadger mapBadgerLaws jsonRelease (countableJsonLaws _ _)
    exUpstream exPages insertionSort Events.jsonEvent exRelConfig true (λ _, exTime 7) 0 exCatDb exCat
    exUpstreamReleases exCatDb_catalog) as (cat' & db1 & db' & init' & Hd & Hc & Hkeep & Hall & _ & _ & Hi).
  - intros i. split; by vm_compute.
  - rewrite exUpstreamReleases_eq.
    repeat (apply Forall_cons; split); try done; by apply (bool_decide_unpack _).
  - by vm_compute.
  - exists cat', db', init'. split; [exact Hd|]. split; [exact Hi|]. split; [exact Hc|].
    split; [by apply Hkeep|].
    apply (Hall (mkUpstreamRelease "4.9.12" "x86_64" "4.9.12-x86_64" "sha256:a")).
    rewrite exUpstreamReleases_eq. set_solver.
Defined.

Lemma ListGrouped_partition_witness :
  ∃ gs, @ListGrouped mapBadger jsonRelease listRange insertionSort exCatDb = Ok gs ∧
    NoDup (gr_MajorMinor <$> gs) ∧
    (map gr_MajorMinor gs, map gr_LatestVersion gs, map gr_ReadyCount gs) =
      (["4.18"; "4.9"], ["4.18.2"; "4.9.1"], [1; 0]%Z).
Proof.
  destruct (@ListGrouped_partition mapBadger mapBadgerLaws jsonRelease (countableJsonLaws _ _) listRange listRangeLaws
    insertionSort insertionSortLaws exCatDb exCat exCatDb_catalog) as (gs & Hgs & Hnd & _).
  exists gs. split; [exact Hgs|]. split; [exact Hnd|].
  assert (∀ r, r = Ok gs → match r with Ok l => (map gr_MajorMinor l, map gr_LatestVersion l, map gr_ReadyCount l) =
      (["4.18"; "4.9"], ["4.18.2"; "4.9.1"], [1; 0]%Z) | _ => False end →
    (map gr_MajorMinor gs, map gr_LatestVersion gs, map gr_ReadyCount gs) =
      (["4.18"; "4.9"], ["4.18.2"; "4.9.1"], [1; 0]%Z)) as Hr by (by intros r ->).
  apply (Hr _ Hgs). vm_compute. reflexivity.
Defined.
End Releases.
