(* ===== verification/Pipeline.v ===== *)
(** internal/releases/manager.go: the pipeline that clones, mirrors, extracts
    and verifies a release, and the operations that start or repair it.

    A background goroutine is a computation in [M St], run after the call that
    starts it; it returns the release as its closure holds it in the end.  The
    log is left out. *)

From S2P Require Import Prelude Effect GoLib Digest Os Blob Badger Metadata Oci Mirror Events.
From S2P Require Import Discovery Cloner Extractor Releases.

Module Pipeline.
Export Cloner Releases.

(** The manager's configuration, its extractor, and whether it has an event
    store.  Its cloner and its stores are the state [St]. *)
Record Manager := mkManager {
  mg_cfg : ReleasesConfig;
  mg_extractor : Extractor;
  mg_eventStore : bool
}.

Definition NewManager (cfg : ReleasesConfig) : Manager :=
  mkManager cfg (NewExtractor (rc_ArtifactPath cfg) (rc_LocalRepo cfg)) false.

Definition SetEventStore (m : Manager) : Manager := mkManager (mg_cfg m) (mg_extractor m) true.

(** The anonymous struct the verification decodes manifests into. *)
Record VerifyManifest := mkVerifyManifest { vm_Config : string; vm_Layers : list string }.

Record VerifyResult := mkVerifyResult {
  vr_Tag : string;
  vr_Complete : bool;
  vr_ReleaseBlobsExpected : Z;
  vr_ReleaseBlobsPresent : Z;
  vr_ComponentsExpected : Z;
  vr_ComponentManifestsOK : Z;
  vr_ComponentBlobsExpected : Z;
  vr_ComponentBlobsPresent : Z;
  vr_MissingBlobs : list string;
  vr_MissingComponents : list string
}.

(** ** Durations *)

(** [d.Round(time.Second)], in seconds: to the nearest, halves away from zero. *)
Definition Round_Second (d : Z) : Z :=
  let r := Z.rem d Second in
  if decide (Z.abs r * 2 < Second)%Z then Z.quot d Second else (Z.quot d Second + Z.sgn d)%Z.

(** [Duration.String] of a number of whole seconds. *)
Definition Seconds_String (n : Z) : string :=
  let sign := if decide (n < 0)%Z then "-" else "" in
  let a := Z.abs n in
  let h := (a / 3600)%Z in let m := (a / 60 mod 60)%Z in let s := (a mod 60)%Z in
  sign +:+ (if decide (h > 0)%Z then fmt_d h +:+ "h" +:+ fmt_d m +:+ "m" +:+ fmt_d s +:+ "s"
            else if decide (m > 0)%Z then fmt_d m +:+ "m" +:+ fmt_d s +:+ "s"
            else fmt_d s +:+ "s").

(** ** Updates of a release *)

Definition with_state (rel : Release) (state error : string) : Release :=
  mkRelease (rl_Version rel) (rl_Architecture rel) (rl_Tag rel) state (rl_UpstreamDigest rel)
    (rl_LocalDigest rel) (rl_DiscoveredAt rel) (rl_ClonedAt rel) (rl_VerifiedAt rel) (rl_Size rel)
    error (rl_Artifacts rel) (rl_Verify rel).
Definition with_clonedAt (rel : Release) (t : Time) : Release :=
  mkRelease (rl_Version rel) (rl_Architecture rel) (rl_Tag rel) (rl_State rel) (rl_UpstreamDigest rel)
    (rl_LocalDigest rel) (rl_DiscoveredAt rel) t (rl_VerifiedAt rel) (rl_Size rel)
    (rl_Error rel) (rl_Artifacts rel) (rl_Verify rel).
Definition with_verify (rel : Release) (verifiedAt : Time) (v : option VerifySummary) : Release :=
  mkRelease (rl_Version rel) (rl_Architecture rel) (rl_Tag rel) (rl_State rel) (rl_UpstreamDigest rel)
    (rl_LocalDigest rel) (rl_DiscoveredAt rel) (rl_ClonedAt rel) verifiedAt (rl_Size rel)
    (rl_Error rel) (rl_Artifacts rel) v.

Definition summary (r : VerifyResult) (complete : bool) (at_ : Time) : VerifySummary :=
  mkVerifySummary complete at_ (vr_ReleaseBlobsExpected r) (vr_ReleaseBlobsPresent r)
    (vr_ComponentsExpected r) (vr_ComponentManifestsOK r) (vr_ComponentBlobsExpected r)
    (vr_ComponentBlobsPresent r).

Definition appendCapped (xs : list string) (x : string) (max : nat) : list string :=
  if decide (max ≤ length xs) then xs else xs ++ [x].

Section pipeline.
Context `{Badger} `{!Json MetadataStore.ManifestMeta} `{!Json MetadataStore.RepoMeta}.
Context `{!Json Release} `{!Json Events.Event} `{!Json Events.CloneHistoryEntry} `{!MapRange}.
Context `{!Unmarshal CloneManifest} `{!Unmarshal PullManifest} `{!Unmarshal dockerConfig}.
Context `{!Unmarshal LayersManifest} `{!Unmarshal ReleaseManifest} `{!Unmarshal ComponentManifest}.
Context `{!Unmarshal imageStream} `{!Unmarshal VerifyManifest} `{!Archive}.
Context `{!JsonDecoder Mirror.tokenResp} `{!Env}.
Context (F : Faults).

(** ** Verification *)

Definition vm_digests (m : VerifyManifest) : list string :=
  (if decide (vm_Config m = "") then [] else [vm_Config m]) ++ vm_Layers m.

(** One digest: the number present and the missing ones so far.  A digest that
    does not parse is neither. *)
Definition checkDigest (acc : Z * list string) (d : string) : M St (Z * list string) :=
  match Parse d with
  | Ok dg =>
    there ← blobs_Exists F dg;
    mret (if there : bool then (acc.1 + 1, acc.2)%Z else (acc.1, appendCapped acc.2 d 50))
  | _ => mret acc
  end.

Fixpoint checkDigests (acc : Z * list string) (ds : list string) : M St (Z * list string) :=
  match ds with
  | [] => mret acc
  | d :: ds => acc ← checkDigest acc d; checkDigests acc ds
  end.

(** The counts over the components so far. *)
Record Components := mkComponents {
  co_ManifestsOK : Z;
  co_Expected : Z;
  co_Present : Z;
  co_MissingBlobs : list string;
  co_Missing : list string
}.

Definition checkComponent (acc : Components) (component ref : string) : M St Components :=
  let missing msg := mkComponents (co_ManifestsOK acc) (co_Expected acc) (co_Present acc)
                       (co_MissingBlobs acc) (co_Missing acc ++ [component +:+ msg]) in
  r ← attempt (LookupComponentManifest F ref);
  match r with
  | inr e => mret (missing (": " +:+ truncateStr (err_msg e) 80))
  | inl manBytes =>
    let ok := (co_ManifestsOK acc + 1)%Z in
    r ← attempt (lift (unmarshal manBytes));
    match r with
    | inr e => mret (mkComponents ok (co_Expected acc) (co_Present acc) (co_MissingBlobs acc)
                       (co_Missing acc ++ [component +:+ ": parse " +:+ err_msg e]))
    | inl cm =>
      pm ← checkDigests (co_Present acc, co_MissingBlobs acc) (vm_digests cm);
      mret (mkComponents ok (co_Expected acc + Z.of_nat (length (vm_digests cm))) pm.1 pm.2
              (co_Missing acc))
    end
  end.

(** The components, until the context is cancelled. *)
Fixpoint checkComponents (acc : Components) (refs : list (string * string))
    : M St (Components * option error) :=
  match refs with
  | [] => mret (acc, None)
  | (component, ref) :: refs =>
    stop ← ctx_Err;
    if stop : bool then mret (acc, Some (Errorf "context canceled"))
    else acc ← checkComponent acc component ref; checkComponents acc refs
  end.

Definition verifyReport (tag : string) (complete : bool) (expected present : Z) (size : Z)
    (co : Components) : VerifyResult :=
  mkVerifyResult tag complete expected present size (co_ManifestsOK co) (co_Expected co)
    (co_Present co) (co_MissingBlobs co) (co_Missing co).

Definition releaseManifest (localRepo tag : string) : M St VerifyManifest :=
  rmeta ← wrapping "release manifest not found" (metadata_GetManifest localRepo tag);
  relBytes ← wrapping "reading release manifest" (blobs_Read F (MetadataStore.mm_Digest rmeta));
  wrapping "parsing release manifest" (lift (unmarshal relBytes)).

(** The report and the error, either of which may be absent. *)
Definition VerifyMirror (m : Manager) (version arch : string)
    : M St (option VerifyResult * option error) :=
  let tag := version +:+ "-" +:+ arch in
  r ← attempt (releaseManifest (rc_LocalRepo (mg_cfg m)) tag);
  match r with
  | inr e => mret (None, Some e)
  | inl relMan =>
    let relDigests := vm_digests relMan in
    let expected := Z.of_nat (length relDigests) in
    pm ← checkDigests (0%Z, []) relDigests;
    let none := mkComponents 0 0 0 pm.2 [] in
    r ← attempt (FindReleaseComponents F (mg_extractor m) version arch);
    match r with
    | inr e => mret (Some (verifyReport tag false expected pm.1 0 none),
                     Some (wrap "reading image-references" e))
    | inl refs =>
      let size := Z.of_nat (size refs) in
      l ← in_order (map_to_list refs);
      ce ← checkComponents none l;
      let '(co, err) := ce in
      match err with
      | Some e => mret (Some (verifyReport tag false expected pm.1 size co), Some e)
      | None =>
        let complete := bool_decide (pm.1 = expected ∧ co_ManifestsOK co = size ∧
                                     co_Present co = co_Expected co) in
        mret (Some (verifyReport tag complete expected pm.1 size co), None)
      end
    end
  end.

(** ** Calls of the goroutines *)

Definition on_db_result {A} (f : DB → result A * DB) : M St A := λ s,
  let w := st_w s in
  let '(res, db) := f (w_db w) in
  (res, mkSt (st_cl s) (mkWorld _ (w_bs w) (w_os w) db) (st_synced s) (st_calls s)).

(** A save whose error is dropped. *)
Definition save (rel : Release) : M St unit := ignoring (on_db (λ db, saveRelease db rel)).

(** The event of a step, if there is an event store. *)
Definition record (m : Manager) (typ sev ver details : string) : M St unit :=
  if mg_eventStore m then
    now1 ← time_Now; now2 ← time_Now;
    on_db (λ db, (Ok tt, Events.RecordEvent db now1 now2 typ sev ver details ∅))
  else mret tt.

(** The entry of the clone history of a run that began at [start]. *)
Definition history (m : Manager) (ver phase error : string) (start : Time) (blobs bytes : Z)
    (success : bool) : M St unit :=
  if mg_eventStore m then
    completed ← time_Now; since ← time_Now;
    ignoring (on_db (λ db, Events.SaveCloneHistory db
      (Events.mkCloneHistoryEntry ver phase (Seconds_String (Round_Second (since - start))) error
         start completed blobs bytes success)))
  else mret tt.

(** The totals of a progress record. *)
Definition totals (p : nat) : M St (Z * Z) :=
  c ← gets st_cl;
  mret (match cl_progress c !! p with
        | Some cp => (cp_TotalBlobs cp, cp_TotalBytes cp)
        | None => (0, 0)%Z
        end).

(** ** The pipeline *)

(** The gate: ready only when the mirror is complete. *)
Definition verifyPhase (m : Manager) (rel : Release) (ver arch : string) (start : Time) (p : nat)
    (artifacts : list Artifact) : M St Release :=
  v ← VerifyMirror m ver arch;
  let '(vRes, vErr) := v in
  match vRes, vErr with
  | Some r, None =>
    t ← time_Now;
    if vr_Complete r then
      let rel := with_artifacts (with_state (with_verify rel t (Some (summary r true t))) StateReady "")
                   artifacts in
      save rel ≫= λ _,
      record m Events.EventReleaseReady Events.SeveritySuccess ver
        ("Release ready with " +:+ fmt_d (Z.of_nat (length artifacts)) +:+ " artifacts") ≫= λ _,
      bb ← totals p;
      history m ver "complete" "" start bb.1 bb.2 true ≫= λ _, mret rel
    else
      let err := "verify: incomplete — release " +:+ fmt_d (vr_ReleaseBlobsPresent r) +:+ "/" +:+
                 fmt_d (vr_ReleaseBlobsExpected r) +:+ ", components " +:+
                 fmt_d (vr_ComponentManifestsOK r) +:+ "/" +:+ fmt_d (vr_ComponentsExpected r) +:+
                 ", component blobs " +:+ fmt_d (vr_ComponentBlobsPresent r) +:+ "/" +:+
                 fmt_d (vr_ComponentBlobsExpected r) in
      let rel := with_state (with_verify rel (rl_VerifiedAt rel) (Some (summary r false t)))
                   StateFailed err in
      save rel ≫= λ _,
      record m Events.EventReleaseFailed Events.SeverityError ver err ≫= λ _, mret rel
  | None, None => lift (Panic "invalid memory address or nil pointer dereference")
  | vRes, Some e =>
    v ← match vRes with
        | Some r => t ← time_Now; mret (Some (summary r (vr_Complete r) t))
        | None => mret (rl_Verify rel)
        end;
    let err := "verify: " +:+ err_msg e in
    let rel := with_state (with_verify rel (rl_VerifiedAt rel) v) StateFailed err in
    save rel ≫= λ _,
    record m Events.EventReleaseFailed Events.SeverityError ver err ≫= λ _, mret rel
  end.

Definition extractPhase (m : Manager) (rel : Release) (ver arch : string) (start : Time) (p : nat)
    : M St Release :=
  let rel := with_state rel StateExtracting (rl_Error rel) in
  save rel ≫= λ _,
  r ← attempt (Extract F (mg_extractor m) ver arch);
  match r with
  | inl artifacts => verifyPhase m rel ver arch start p artifacts
  | inr e =>
    let rel := with_state rel StateCloned ("extraction: " +:+ err_msg e) in
    save rel ≫= λ _,
    record m Events.EventReleaseFailed Events.SeverityError ver
      ("Extraction failed: " +:+ err_msg e) ≫= λ _,
    bb ← totals p;
    history m ver "extract" (err_msg e) start bb.1 bb.2 false ≫= λ _, mret rel
  end.

Definition mirrorPhase (m : Manager) (rel : Release) (ver arch : string) (start : Time) (p : nat)
    : M St Release :=
  r ← attempt (FindReleaseComponents F (mg_extractor m) ver arch);
  match r with
  | inr e =>
    let rel := with_state rel StateFailed ("mirror: " +:+ err_msg e) in
    save rel ≫= λ _, mret rel
  | inl refs =>
    r ← attempt (MirrorComponents F refs p);
    match r with
    | inr e =>
      let rel := with_state rel StateFailed ("mirror: " +:+ err_msg e) in
      save rel ≫= λ _,
      record m Events.EventReleaseFailed Events.SeverityError ver
        ("Mirror failed: " +:+ err_msg e) ≫= λ _,
      bb ← totals p;
      history m ver "mirror" (err_msg e) start bb.1 bb.2 false ≫= λ _, mret rel
    | inl _ =>
      t ← time_Now;
      let rel := with_clonedAt (with_state rel StateCloned (rl_Error rel)) t in
      save rel ≫= λ _,
      bb ← totals p;
      record m Events.EventReleaseCloned Events.SeveritySuccess ver
        ("Cloned + mirrored " +:+ fmt_d (Z.of_nat (size refs)) +:+ " components (" +:+
         fmt_d bb.1 +:+ " release blobs, " +:+ fmt_d bb.2 +:+ " bytes)") ≫= λ _,
      extractPhase m rel ver arch start p
    end
  end.

Definition clonePhase (m : Manager) (rel : Release) (ver arch : string) : M St Release :=
  start ← time_Now;
  record m Events.EventReleaseCloneStart Events.SeverityInfo ver
    ("Cloning release " +:+ ver +:+ " (" +:+ arch +:+ ")") ≫= λ _,
  r ← attempt (Clone F ver arch);
  match r with
  | inl p => mirrorPhase m rel ver arch start p
  | inr e =>
    let rel := with_state rel StateFailed (err_msg e) in
    save rel ≫= λ _,
    record m Events.EventReleaseFailed Events.SeverityError ver
      ("Clone failed: " +:+ err_msg e) ≫= λ _,
    history m ver "clone" (err_msg e) start 0 0 false ≫= λ _, mret rel
  end.

(** The goroutine of [CloneRelease]; the progress slot is given back at its
    end. *)
Definition cloneJob (m : Manager) (rel : Release) (ver arch : string) : M St Release :=
  rel ← clonePhase m rel ver arch;
  FinishProgress ver ≫= λ _, mret rel.

(** The goroutine of [ReExtract]. *)
Definition reExtractJob (m : Manager) (rel : Release) (ver arch : string) : M St Release :=
  r ← attempt (Extract F (mg_extractor m) ver arch);
  match r with
  | inr e =>
    let rel := with_state rel StateCloned ("extraction: " +:+ err_msg e) in
    save rel ≫= λ _,
    record m Events.EventReleaseFailed Events.SeverityError ver
      ("Re-extraction failed: " +:+ err_msg e) ≫= λ _, mret rel
  | inl artifacts =>
    let rel := with_artifacts (with_state rel StateReady "") artifacts in
    save rel ≫= λ _,
    record m Events.EventReleaseReady Events.SeveritySuccess ver
      ("Re-extraction complete with " +:+ fmt_d (Z.of_nat (length artifacts)) +:+ " artifacts") ≫= λ _,
    mret rel
  end.

(** ** Starting and repairing *)

Definition lookupRelease (version : string) : M St Release :=
  w ← gets st_w; lift (getRelease (w_db w) version).

(** The two states in which a goroutine owns the release. *)
Definition in_progress (rel : Release) : Prop :=
  rl_State rel = StateCloning ∨ rl_State rel = StateExtracting.
Global Instance in_progress_dec rel : Decision (in_progress rel) := _.

(** The release, version and architecture the goroutine is started with. *)
Definition CloneRelease `{!Mirror.HttpClient} `{!JsonDecoder quayTagsResponse} (m : Manager)
    (version : string) : M St (Release * string * string) :=
  r ← attempt (lookupRelease version);
  rel ← match r with
        | inl rel => mret rel
        | inr _ =>
          t ← time_Now;
          wrapping "release not found and auto-register failed"
            (on_db_result (λ db, autoRegister (mg_cfg m) t db version))
        end;
  if decide (in_progress rel) then
    throw (Errorf ("release " +:+ version +:+ " is already being processed"))
  else
    let rel := with_state rel StateCloning "" in
    on_db (λ db, saveRelease db rel) ≫= λ _,
    arch ← (if decide (rl_Architecture rel = "") then
              match rc_Architectures (mg_cfg m) with
              | a :: _ => mret a
              | [] => lift (Panic "index out of range")
              end
            else mret (rl_Architecture rel));
    mret (rel, rl_Version rel, arch).

Definition ReExtract (m : Manager) (version : string) : M St (Release * string * string) :=
  rel ← wrapping "release not found" (lookupRelease version);
  if decide (in_progress rel) then
    throw (Errorf ("release " +:+ version +:+ " is currently being processed"))
  else
    let arch := if decide (rl_Architecture rel = "") then default "" (head (rc_Architectures (mg_cfg m)))
                else rl_Architecture rel in
    let rel := with_state rel StateExtracting "" in
    save rel ≫= λ _, mret (rel, rl_Version rel, arch).

Definition ResetState (version : string) : M St unit :=
  rel ← wrapping "release not found" (lookupRelease version);
  if decide (in_progress rel) then on_db (λ db, saveRelease db (with_state rel StateCloned "reset by admin"))
  else mret tt.

Definition GetReleaseImage (m : Manager) (version : string) : string :=
  let tag := if Contains version "-" then version
             else match rc_Architectures (mg_cfg m) with
                  | a :: _ => version +:+ "-" +:+ a
                  | [] => version
                  end in
  "fastregistry.gw.lo:5000/" +:+ rc_LocalRepo (mg_cfg m) +:+ ":" +:+ tag.
End pipeline.
End Pipeline.
