(* ===== verification/PipelineSpec.v ===== *)
(** What the release pipeline guarantees: what a verification report means,
    and how a run of the pipeline ends. *)

From S2P Require Import Prelude Effect GoLib Digest Os Blob Badger Metadata Oci Mirror Events.
From S2P Require Import Discovery Cloner ClonerSpec Extractor Releases Pipeline.

Module PipelineSpec.
Import ClonerSpec.
Import Pipeline.

(** ** Calls that only read *)

(** The same metadata and the same files. *)
Definition same_view `{Badger} (s s' : St) : Prop :=
  w_db (st_w s') = w_db (st_w s) ∧ os_files (w_os (st_w s')) = os_files (w_os (st_w s)) ∧
  BlobStore.bs_root (w_bs (st_w s')) = BlobStore.bs_root (w_bs (st_w s)).

Global Instance same_view_equiv `{Badger} : Equivalence same_view.
Proof.
  split.
  - by intros s.
  - intros s s' (? & ? & ?). by split_and!.
  - intros s1 s2 s3 (Hd & Hf & Hr) (Hd' & Hf' & Hr'). split_and!; congruence.
Qed.

(** A call whose result depends on the metadata and the files, which it leaves
    as they are. *)
Definition readonly `{Badger} {A} (m : M St A) : Prop :=
  ∀ s, same_view s (m s).2 ∧ ∀ s', same_view s s' → (m s').1 = (m s).1.

Section readonly.
Context `{Badger} `{!Json MetadataStore.ManifestMeta} `{!Unmarshal LayersManifest}.
Context `{!Unmarshal imageStream} `{!Archive}.
Context (F : Faults).

Lemma readonly_lift {A} (r : result A) : readonly (lift r).
Proof. by intros s. Qed.

Lemma readonly_bind {A B} (m : M St A) (k : A → M St B) :
  readonly m → (∀ a, readonly (k a)) → readonly (m ≫= k).
Proof.
  intros Hm Hk s. destruct (Hm s) as [Hs Hr]. unfold mbind, M_bind.
  destruct (m s) as [r s1] eqn:E. simpl in Hs, Hr. destruct r as [a|e|x].
  - destruct (Hk a s1) as [Hs1 Hr1]. split; [by etrans|]. intros s' Hv. specialize (Hr s' Hv).
    destruct (Hm s') as [Hs' _]. destruct (m s') as [r' s1']. simpl in *. subst r'.
    apply Hr1. by rewrite <-Hs, <-Hs'.
  - split; [done|]. intros s' Hv. specialize (Hr s' Hv). destruct (m s') as [r' s1'].
    simpl in *. by subst r'.
  - split; [done|]. intros s' Hv. specialize (Hr s' Hv). destruct (m s') as [r' s1'].
    simpl in *. by subst r'.
Qed.

Lemma readonly_attempt {A} (m : M St A) : readonly m → readonly (attempt m).
Proof.
  intros Hm s. destruct (Hm s) as [Hs Hr]. unfold attempt.
  destruct (m s) as [r s1]. simpl in Hs, Hr. split; [by destruct r|].
  intros s' Hv. specialize (Hr s' Hv). destruct (m s') as [r' s1']. simpl in *. subst r'. by destruct r.
Qed.

Lemma readonly_wrapping {A} pre (m : M St A) : readonly m → readonly (wrapping pre m).
Proof.
  intros Hm s. destruct (Hm s) as [Hs Hr]. unfold wrapping.
  destruct (m s) as [r s1]. simpl in Hs, Hr. split; [by destruct r|].
  intros s' Hv. specialize (Hr s' Hv). destruct (m s') as [r' s1']. simpl in *. subst r'. by destruct r.
Qed.

Lemma readonly_blobs_Read d : readonly (blobs_Read F d).
Proof.
  intros s. unfold blobs_Read. split.
  - destruct (BlobStore.Get_files F (w_bs (st_w s)) (w_os (st_w s)) d) as [Hf Hr].
    destruct (BlobStore.Get _ _ _ _) as [res [bs os]]. simpl in *. by split_and!.
  - intros s' (_ & Hf & Hr). destruct s as [c [bs os db] n k], s' as [c' [bs' os' db'] n' k']. simpl in *.
    unfold BlobStore.Get, BlobStore.blobPath, BlobStore.bs_mmap, Stat, Open, Mmap. rewrite Hf, Hr.
    repeat (case_match; simplify_eq/=); done.
Qed.

Lemma readonly_GetManifest repo ref : readonly (metadata_GetManifest repo ref).
Proof. intros s. split; [done|]. intros s' (Hd & _). simpl. by rewrite Hd. Qed.

Lemma readonly_Exists d : readonly (blobs_Exists F d).
Proof.
  intros s. split; [done|]. intros s' (_ & Hf & Hr). simpl.
  unfold BlobStore.Exists, BlobStore.blobPath, Stat. by rewrite Hf, Hr.
Qed.

Lemma readonly_Lookup ref : readonly (LookupComponentManifest F ref).
Proof.
  unfold LookupComponentManifest. destruct (parseImageRef ref) as [[? ?] r]. case_decide.
  - apply readonly_lift.
  - apply readonly_bind; [by apply readonly_wrapping, readonly_lift|]. intros d.
    apply readonly_wrapping, readonly_blobs_Read.
Qed.

Lemma readonly_findImageReferences ds : readonly (findImageReferences F ds).
Proof.
  induction ds as [|d ds IH]; simpl; [apply readonly_lift|]. destruct (Parse d); [|done..].
  apply readonly_bind; [apply readonly_attempt|by intros [[refs|]|]; [apply readonly_lift|..]].
  unfold scanLayerForImageReferences. apply readonly_bind; [apply readonly_blobs_Read|].
  intros data. destruct (entries data); apply readonly_lift.
Qed.

Lemma readonly_FindReleaseComponents e ver arch : readonly (FindReleaseComponents F e ver arch).
Proof.
  unfold FindReleaseComponents.
  apply readonly_bind; [apply readonly_wrapping, readonly_GetManifest|]. intros meta.
  apply readonly_bind; [apply readonly_wrapping, readonly_blobs_Read|]. intros b.
  apply readonly_bind; [apply readonly_lift|]. intros m. apply readonly_findImageReferences.
Qed.

Lemma readonly_releaseManifest `{!Unmarshal VerifyManifest} repo tag :
  readonly (releaseManifest F repo tag).
Proof.
  unfold releaseManifest.
  apply readonly_bind; [apply readonly_wrapping, readonly_GetManifest|]. intros meta.
  apply readonly_bind; [apply readonly_wrapping, readonly_blobs_Read|]. intros b.
  apply readonly_wrapping, readonly_lift.
Qed.

(** A read call at two states with the same view. *)
Lemma readonly_at {A} (m : M St A) s s' r :
  readonly m → same_view s s' → (m s).1 = r → ∃ s2, m s' = (r, s2) ∧ same_view s s2.
Proof.
  intros Hm Hv <-. exists (m s').2. destruct (Hm s') as [Hs' _].
  rewrite <-(proj2 (Hm s) s' Hv). split; [by destruct (m s')|]. by etrans.
Qed.
End readonly.

(** ** Verification *)

Section verify.
Context `{Badger} `{!Json MetadataStore.ManifestMeta}.
Context `{!Unmarshal LayersManifest} `{!Unmarshal imageStream} `{!Unmarshal VerifyManifest}.
Context `{!Archive} `{!Env}.
Context (F : Faults).

(** A well-formed digest whose blob is there, and one whose blob is not. *)
Definition present (s : St) (d : string) : Prop :=
  Validate d = None ∧ BlobStore.Exists F (w_bs (st_w s)) (w_os (st_w s)) d = Ok true.
Definition missing (s : St) (d : string) : Prop := Validate d = None ∧ ¬ present s d.

Global Instance present_dec s d : Decision (present s d) := _.
Global Instance missing_dec s d : Decision (missing s d) := _.

Lemma present_view s s' d : same_view s s' → present s' d ↔ present s d.
Proof.
  intros (_ & Hf & Hr). unfold present, BlobStore.Exists, BlobStore.blobPath, Stat. by rewrite Hf, Hr.
Qed.

Lemma Exists_valid s d :
  valid d → ∃ b, blobs_Exists F d s = (Ok b, s) ∧ (b = true ↔ present s d).
Proof.
  intros Hv. assert (Validate d = None) as Hval by by apply Validate_valid.
  assert (∃ b, BlobStore.Exists F (w_bs (st_w s)) (w_os (st_w s)) d = Ok b) as [b Hb].
  { unfold BlobStore.Exists, BlobStore.blobPath. destruct Hv as (h & -> & Hl).
    rewrite Hex_sha256. unfold slice_to. rewrite decide_True by lia. by eexists. }
  exists b. unfold blobs_Exists. rewrite Hb. split; [done|]. unfold present. rewrite Hb.
  split; [by intros ->|by intros [_ [= ->]]].
Qed.

(** The missing digests, the first fifty of them. *)
Definition capped (xs ds : list string) : list string := foldl (λ xs x, appendCapped xs x 50) xs ds.

Lemma checkDigest_spec s acc d :
  checkDigest F acc d s =
    (Ok ((acc.1 + if decide (present s d) then 1 else 0)%Z,
         if decide (missing s d) then appendCapped acc.2 d 50 else acc.2), s).
Proof.
  destruct acc as [n ms]. unfold checkDigest. cbn [fst snd].
  destruct (Parse d) as [dg|e|x] eqn:E.
  - apply Parse_Ok in E as [<- Hv]. destruct (Exists_valid s d Hv) as (b & Hb & Hp).
    unfold mbind, M_bind. rewrite Hb. destruct b.
    + rewrite decide_True by by apply Hp. rewrite decide_False; [done|]. intros [_ Hm]. by apply Hm, Hp.
    + rewrite decide_False by (intros ?%Hp; done).
      rewrite decide_True; [by rewrite Z.add_0_r|]. split; [by apply Validate_valid|by intros ?%Hp].
  - assert (¬ valid d) as Hn by (intros Hv; by rewrite Parse_valid in E).
    rewrite decide_False, decide_False, Z.add_0_r; [done|..]; by intros [?%Validate_valid _].
  - assert (¬ valid d) as Hn by (intros Hv; by rewrite Parse_valid in E).
    rewrite decide_False, decide_False, Z.add_0_r; [done|..]; by intros [?%Validate_valid _].
Qed.

Lemma checkDigests_spec s ds : ∀ acc,
  checkDigests F acc ds s =
    (Ok ((acc.1 + Z.of_nat (length (filter (present s) ds)))%Z,
         capped acc.2 (filter (missing s) ds)), s).
Proof.
  induction ds as [|d ds IH]; intros acc; simpl.
  - unfold capped. simpl. rewrite Z.add_0_r. by destruct acc.
  - unfold mbind, M_bind. rewrite checkDigest_spec, IH. cbn [fst snd].
    rewrite !filter_cons. repeat case_decide; cbn [length capped foldl]; do 2 f_equal; f_equal; lia.
Qed.

(** Reading the blob of a well-formed digest does not panic. *)
Lemma blobs_Read_no_Panic s d x : valid d → (blobs_Read F d s).1 ≠ Panic x.
Proof.
  intros (h & -> & Hl). unfold blobs_Read, BlobStore.Get, BlobStore.blobPath, BlobStore.bs_mmap, Stat, Open, Mmap.
  rewrite Hex_sha256. unfold slice_to. rewrite decide_True by lia.
  repeat (case_match; simplify_eq/=); done.
Qed.

Lemma Lookup_no_Panic s ref x : (LookupComponentManifest F ref s).1 ≠ Panic x.
Proof.
  unfold LookupComponentManifest. destruct (parseImageRef ref) as [[? ?] r]. case_decide; [done|].
  unfold mbind, M_bind, wrapping, lift. destruct (Parse r) as [d|e|y] eqn:E; [|done|].
  - apply Parse_Ok in E as [<- Hv]. pose proof (blobs_Read_no_Panic s r) as Hn.
    destruct (blobs_Read F r s) as [[b|e|y] s']; [done..|]. by destruct (Hn y Hv).
  - unfold Parse in E. by destruct (Validate r).
Qed.

(** The component's manifest can be read, and, if it decodes, all its digests
    are present. *)
Definition component_ok (s : St) (ref : string) : Prop :=
  ∃ body, (LookupComponentManifest F ref s).1 = Ok body ∧
    ∀ m, unmarshal body = Ok m → Forall (present s) (vm_digests m).

Lemma filter_length_Forall {A} (P : A → Prop) `{!∀ x, Decision (P x)} l :
  length (filter P l) = length l ↔ Forall P l.
Proof.
  induction l as [|x l IH]; [done|]. rewrite filter_cons, Forall_cons. case_decide as Hx; simpl.
  - rewrite <-IH. naive_solver lia.
  - pose proof (length_filter P l). split; [lia|by intros [? _]].
Qed.

(** What a panic of the verification comes from. *)
Definition panics : Prop := ∃ b x, unmarshal (A := VerifyManifest) b = Panic x.

(** The counts grow by the component, and stay equal when it is in order. *)
Definition counts (s : St) (acc acc' : Components) (n : nat) (ok : Prop) : Prop :=
  ∃ k e p, co_ManifestsOK acc' = (co_ManifestsOK acc + k)%Z ∧
    co_Expected acc' = (co_Expected acc + e)%Z ∧ co_Present acc' = (co_Present acc + p)%Z ∧
    (0 ≤ k ≤ Z.of_nat n)%Z ∧ (0 ≤ p ≤ e)%Z ∧ (k = Z.of_nat n ∧ p = e ↔ ok).

Lemma checkComponent_spec s0 s acc c ref :
  same_view s0 s →
  match checkComponent F acc c ref s with
  | (Ok acc', s') => same_view s0 s' ∧ counts s0 acc acc' 1 (component_ok s0 ref)
  | (Err _, _) => False
  | (Panic _, _) => panics
  end.
Proof.
  intros Hv. unfold checkComponent.
  destruct (readonly_at (LookupComponentManifest F ref) s0 s _ (readonly_Lookup F ref) Hv eq_refl)
    as (s1 & Hl & Hv1).
  unfold mbind, M_bind, attempt. rewrite Hl. unfold component_ok, counts.
  destruct ((LookupComponentManifest F ref s0).1) as [body|e|x] eqn:E;
    [|split; [done|]|by destruct (Lookup_no_Panic s0 ref x)].
  2:{ exists 0%Z, 0%Z, 0%Z. cbn. split_and!; try lia. split; [lia|]. by intros (? & ? & _). }
  cbn [lift]. unfold lift. destruct (unmarshal body) as [m|e|x] eqn:Eu.
  - rewrite checkDigests_spec. split; [done|].
    exists 1%Z, (Z.of_nat (length (vm_digests m))), (Z.of_nat (length (filter (present s1) (vm_digests m)))).
    cbn. pose proof (length_filter (present s1) (vm_digests m)). split_and!; try lia.
    assert (Forall (present s1) (vm_digests m) ↔ Forall (present s0) (vm_digests m)) as Hf
      by (apply Forall_iff; intros d; by apply present_view).
    rewrite <-(filter_length_Forall (present s1)) in Hf. split.
    + intros [_ Hp%Nat2Z.inj]. exists body. split; [done|]. intros m' [= <-]%(eq_trans (eq_sym Eu)).
      by apply Hf.
    + intros (b & [= <-] & Hb). split; [done|]. f_equal. by apply Hf, Hb.
  - split; [done|]. exists 1%Z, 0%Z, 0%Z. cbn. split_and!; try lia. split; [|done]. intros _.
    exists body. split; [done|]. by rewrite Eu.
  - by exists body, x.
Qed.

Lemma counts_trans s a b c n1 n2 P Q :
  counts s a b n1 P → counts s b c n2 Q → counts s a c (n1 + n2) (P ∧ Q).
Proof.
  intros (k1 & e1 & p1 & ? & ? & ? & ? & ? & HP) (k2 & e2 & p2 & ? & ? & ? & ? & ? & HQ).
  exists (k1 + k2)%Z, (e1 + e2)%Z, (p1 + p2)%Z. split_and!; try lia.
  rewrite <-HP, <-HQ. split; [|lia]. intros [? ?]. split_and!; lia.
Qed.

Lemma counts_iff s a b n P Q : (P ↔ Q) → counts s a b n P → counts s a b n Q.
Proof. intros HPQ (k & e & p & ? & ? & ? & ? & ? & HP). exists k, e, p. by rewrite <-HPQ. Qed.

Lemma checkComponents_spec s0 l : ∀ s acc,
  same_view s0 s →
  match checkComponents F acc l s with
  | (Ok (acc', None), s') =>
    same_view s0 s' ∧ counts s0 acc acc' (length l) (Forall (component_ok s0) l.*2)
  | (Ok (_, Some _), s') => same_view s0 s' ∧ ∃ n, cancelled n = true
  | (Err _, _) => False
  | (Panic _, _) => panics
  end.
Proof.
  induction l as [|[c ref] l IH]; intros s acc Hv.
  { split; [done|]. exists 0%Z, 0%Z, 0%Z. simpl. split_and!; try lia. by split. }
  simpl. unfold mbind at 1, M_bind at 1, ctx_Err, env. destruct (cancelled (st_calls s)) eqn:Ec.
  { split; [done|]. by eexists. }
  set (s1 := mkSt _ _ _ _). assert (same_view s0 s1) as Hv1 by exact Hv.
  pose proof (checkComponent_spec s0 s1 acc c ref Hv1) as Hc. unfold mbind, M_bind.
  destruct (checkComponent F acc c ref s1) as [[acc1|e|x] s2]; [|done..].
  destruct Hc as [Hv2 Hc]. specialize (IH s2 acc1 Hv2).
  destruct (checkComponents F acc1 l s2) as [[[acc2 [e|]]|e|x] s3]; [done| |done..].
  destruct IH as [Hv3 IH]. split; [done|].
  eapply counts_iff; [|exact (counts_trans _ _ _ _ _ _ _ _ Hc IH)]. by rewrite Forall_cons.
Qed.

(** The release and its components, in full, as [s] has them. *)
Definition complete (m : Manager) (ver arch : string) (s : St) : Prop :=
  ∃ man refs,
    (releaseManifest F (rc_LocalRepo (mg_cfg m)) (ver +:+ "-" +:+ arch) s).1 = Ok man ∧
    (FindReleaseComponents F (mg_extractor m) ver arch s).1 = Ok refs ∧
    Forall (present s) (vm_digests man) ∧
    ∀ component ref, refs !! component = Some ref → component_ok s ref.

(** What was expected is there. *)
Definition all_counted (v : VerifySummary) : Prop :=
  vs_Complete v = true ∧ vs_ReleaseBlobsPresent v = vs_ReleaseBlobsExpected v ∧
  vs_ComponentManifestsOK v = vs_ComponentsExpected v ∧
  vs_ComponentBlobsPresent v = vs_ComponentBlobsExpected v.

(** The numbers of a report about a release manifest and its components. *)
Definition report_ok (s : St) (man : VerifyManifest) (refs : gmap string string) (r : VerifyResult) : Prop :=
  vr_ReleaseBlobsExpected r = Z.of_nat (length (vm_digests man)) ∧
  vr_ReleaseBlobsPresent r = Z.of_nat (length (filter (present s) (vm_digests man))) ∧
  vr_ComponentsExpected r = Z.of_nat (size refs) ∧
  (0 ≤ vr_ComponentManifestsOK r ≤ vr_ComponentsExpected r)%Z ∧
  (0 ≤ vr_ComponentBlobsPresent r ≤ vr_ComponentBlobsExpected r)%Z ∧
  (vr_Complete r = true → all_counted (summary r true 0)) ∧
  (vr_Complete r = true ↔ Forall (present s) (vm_digests man) ∧
     ∀ component ref, refs !! component = Some ref → component_ok s ref).

Lemma Forall_components s (l : list (string * string)) (refs : gmap string string) :
  l ≡ₚ map_to_list refs →
  Forall (component_ok s) l.*2 ↔ ∀ c ref, refs !! c = Some ref → component_ok s ref.
Proof.
  intros Hl. rewrite Forall_fmap, Hl, Forall_forall. split.
  - intros Hf c ref Hr%elem_of_map_to_list. by apply (Hf (c, ref)).
  - intros Hf [c ref] Hr%elem_of_map_to_list. by eapply Hf.
Qed.

(** The result of the verification, in all cases. *)
Lemma VerifyMirror_cases m ver arch s :
  match VerifyMirror F m ver arch s with
  | (Ok (Some r, None), s') => same_view s s' ∧ ∃ man refs,
      (releaseManifest F (rc_LocalRepo (mg_cfg m)) (ver +:+ "-" +:+ arch) s).1 = Ok man ∧
      (FindReleaseComponents F (mg_extractor m) ver arch s).1 = Ok refs ∧ report_ok s man refs r
  | (Ok (None, None), _) => False
  | (Ok (_, Some _), s') => same_view s s' ∧
      (is_ok (releaseManifest F (rc_LocalRepo (mg_cfg m)) (ver +:+ "-" +:+ arch) s).1 = false ∨
       is_ok (FindReleaseComponents F (mg_extractor m) ver arch s).1 = false ∨
       ∃ n, cancelled n = true)
  | (Err _, _) => False
  | (Panic _, _) => panics ∨
      (∃ x, (releaseManifest F (rc_LocalRepo (mg_cfg m)) (ver +:+ "-" +:+ arch) s).1 = Panic x) ∨
      ∃ x, (FindReleaseComponents F (mg_extractor m) ver arch s).1 = Panic x
  end.
Proof.
  unfold VerifyMirror. set (tag := ver +:+ "-" +:+ arch).
  unfold mbind at 1, M_bind at 1, attempt at 1.
  destruct (readonly_releaseManifest F (rc_LocalRepo (mg_cfg m)) tag s) as [Hv1 _].
  destruct (releaseManifest F _ tag s) as [[man|e|x] s1] eqn:Em; cbn [fst snd] in *.
  2:{ split; [done|]. by left. }
  2:{ right; left. by exists x. }
  unfold mbind at 1, M_bind at 1. rewrite checkDigests_spec. cbn [fst snd].
  unfold mbind at 1, M_bind at 1, attempt at 1.
  destruct (readonly_at (FindReleaseComponents F (mg_extractor m) ver arch) s s1 _
    (readonly_FindReleaseComponents F _ _ _) Hv1 eq_refl) as (s2 & Hf & Hv2).
  rewrite Hf. destruct (FindReleaseComponents F (mg_extractor m) ver arch s).1 as [refs|e|x] eqn:Er.
  2:{ split; [done|]. right. by left. }
  2:{ right; right. by exists x. }
  unfold mbind at 1, M_bind at 1, in_order at 1, env at 1.
  set (l := order _ _). set (s3 := mkSt _ _ _ _). set (none := mkComponents _ _ _ _ _).
  assert (l ≡ₚ map_to_list refs) as Hl by apply order_perm.
  pose proof (checkComponents_spec s l s3 none Hv2) as Hc. unfold mbind, M_bind.
  destruct (checkComponents F none l s3) as [[[co [e|]]|e|x] s4]; [|..|done|by left].
  { destruct Hc as [Hv [n Hn]]. split; [done|]. right; right. by exists n. }
  destruct Hc as (Hv & k & e & p & Hk & He & Hp & ? & ? & Hiff). split; [done|].
  exists man, refs. split; [done|]. split; [done|].
  assert (length l = size refs) as Hlen by by rewrite Hl, length_map_to_list.
  unfold none in *. cbn in Hk, He, Hp. unfold report_ok. cbn. rewrite Hk, He, Hp.
  assert (filter (present s1) (vm_digests man) = filter (present s) (vm_digests man)) as ->
    by (apply list_filter_iff; intros d; by apply present_view).
  pose proof (length_filter (present s) (vm_digests man)).
  split_and!; try lia; rewrite bool_decide_eq_true; [intros (? & ? & ?); unfold all_counted; cbn; lia|].
  rewrite <-(Forall_components s l refs Hl), <-Hiff.
  rewrite <-(filter_length_Forall (present s)). split; [intros (? & ? & ?)|intros (? & ? & ?)]; split_and!; lia.
Qed.

End verify.

(** ** Calls that leave the releases alone *)

Section calm.
Context `{BadgerLaws} `{!Json MetadataStore.ManifestMeta} `{!Json MetadataStore.RepoMeta}.
Context `{!Json Events.Event} `{!Json Events.CloneHistoryEntry}.
Context `{!Unmarshal CloneManifest} `{!Unmarshal PullManifest} `{!Unmarshal dockerConfig}.
Context `{!JsonDecoder Mirror.tokenResp} `{!Env}.
Context (F : Faults).

(** What the database holds under the key of a release. *)
Definition stored_release (s : St) (k : string) : option bytes :=
  view (w_db (st_w s)) !! (releaseKeyPrefix +:+ k).

Definition same_releases (s0 s : St) : Prop := ∀ k, stored_release s k = stored_release s0 k.

Definition calm {A} (m : M St A) : Prop := ∀ s0, keeps (same_releases s0) m.

Lemma calm_nodb {A} (m : M St A) : (∀ s, w_db (st_w (m s).2) = w_db (st_w s)) → calm m.
Proof. intros Hm s0 s Hs k. unfold stored_release. rewrite Hm. apply Hs. Qed.

Lemma calm_quiet {A} (m : M St A) : ClonerSpec.quiet m → calm m.
Proof. intros Hm. apply calm_nodb. intros s. by destruct (Hm s s) as [-> _]. Qed.

Lemma calm_on_db f :
  (∀ db k, view (f db).2 !! (releaseKeyPrefix +:+ k) = view db !! (releaseKeyPrefix +:+ k)) →
  calm (on_db f).
Proof.
  intros Hf s0 s Hs k. unfold on_db, stored_release. specialize (Hf (w_db (st_w s)) k).
  destruct (f _) as [res db]. simpl in *. rewrite Hf. apply Hs.
Qed.

(** An update of other keys. *)
Lemma Update_other db fn k :
  (∀ txn, fn (NewTransaction db) = Ok txn → tview txn !! k = view db !! k) →
  view (Update db fn).2 !! k = view db !! k.
Proof.
  intros Hfn. unfold Update. destruct (fn _) as [txn|e|x]; [|done..].
  destruct (Commit_law db txn) as (db' & -> & Hv). simpl. rewrite Hv. by apply Hfn.
Qed.

Lemma Set_other txn k v txn' k' :
  txn_Set txn k v = Ok txn' → k ≠ "" → k ≠ k' → tview txn' !! k' = tview txn !! k'.
Proof.
  intros Ht Hk Hne. destruct (Set_law txn k v Hk) as (t & Ht' & Hv). rewrite Ht in Ht'.
  injection Ht' as ->. by rewrite Hv, lookup_insert_ne.
Qed.

Lemma PutManifest_other db n1 n2 repo ref meta k :
  view (MetadataStore.PutManifest db n1 n2 repo ref meta).2 !! (releaseKeyPrefix +:+ k) =
    view db !! (releaseKeyPrefix +:+ k).
Proof.
  apply Update_other. intros txn Ht. rewrite <-NewTransaction_law.
  apply bind_Ok in Ht as (data & _ & Ht). apply bind_Ok in Ht as (t1 & HA & Ht).
  apply bind_Ok in Ht as (t2 & HB & HC). rewrite (Set_other _ _ _ _ _ HC) by done.
  transitivity (tview t1 !! (releaseKeyPrefix +:+ k)); [|by apply (Set_other _ _ _ _ _ HA)].
  destruct (negb _); [by apply (Set_other _ _ _ _ _ HB)|by injection HB as ->].
Qed.

Lemma Link_other db d repo k :
  view (MetadataStore.LinkBlobToRepo db d repo).2 !! (releaseKeyPrefix +:+ k) =
    view db !! (releaseKeyPrefix +:+ k).
Proof.
  apply Update_other. intros txn Ht. rewrite <-NewTransaction_law.
  apply bind_Ok in Ht as (t1 & HA & HB). rewrite (Set_other _ _ _ _ _ HB) by done.
  by apply (Set_other _ _ _ _ _ HA).
Qed.

Lemma RecordEvent_other db n1 n2 typ sev ver details extra k :
  view (Events.RecordEvent db n1 n2 typ sev ver details extra) !! (releaseKeyPrefix +:+ k) =
    view db !! (releaseKeyPrefix +:+ k).
Proof.
  unfold Events.RecordEvent. cbv zeta. destruct (json_Marshal _) as [data|e|x]; [|done..].
  apply Update_other. intros txn Ht. rewrite <-NewTransaction_law. by apply (Set_other _ _ _ _ _ Ht).
Qed.

Lemma SaveCloneHistory_other db entry k :
  view (Events.SaveCloneHistory db entry).2 !! (releaseKeyPrefix +:+ k) =
    view db !! (releaseKeyPrefix +:+ k).
Proof.
  unfold Events.SaveCloneHistory. destruct (json_Marshal _) as [data|e|x]; [|done..].
  apply Update_other. intros txn Ht. rewrite <-NewTransaction_law. by apply (Set_other _ _ _ _ _ Ht).
Qed.

Lemma calm_blobs_Put d r n : calm (blobs_Put F d r n).
Proof. apply calm_nodb. intros s. unfold blobs_Put. by destruct (BlobStore.Put _ _ _ _ _ _ _). Qed.

Lemma calm_countingPut d r n : calm (countingPut F d r n).
Proof. intros s0 s Hs. unfold countingPut. by apply calm_blobs_Put. Qed.

Lemma calm_blobs_Exists d : calm (blobs_Exists F d).
Proof. by apply calm_nodb. Qed.

Lemma calm_PutManifest repo ref meta : calm (metadata_PutManifest repo ref meta).
Proof.
  intros s0. unfold metadata_PutManifest, time_Now.
  repeat first [keeps_step | apply calm_quiet, ClonerSpec.quiet_env].
  apply calm_on_db. intros. apply PutManifest_other.
Qed.

Lemma calm_Link d repo : calm (metadata_Link d repo).
Proof.
  intros s0. unfold metadata_Link. keeps_step. apply calm_on_db. intros. apply Link_other.
Qed.

Ltac calm_step :=
  first
    [ keeps_step
    | apply calm_blobs_Exists | apply calm_blobs_Put | apply calm_countingPut
    | apply calm_PutManifest | apply calm_Link
    | apply calm_quiet; solve [eauto with fastreg | by apply ClonerSpec.quiet_modify] ].

Lemma calm_syncBlob d n : calm (syncBlob F d n).
Proof. intros s0. unfold syncBlob. repeat calm_step. Qed.

Lemma calm_syncBlobFromRepo reg repo d n : calm (syncBlobFromRepo F reg repo d n).
Proof. intros s0. unfold syncBlobFromRepo. repeat calm_step. Qed.

Lemma calm_Clone ver arch : calm (Clone F ver arch).
Proof.
  intros s0. unfold Clone, in_order, syncConfig, syncLayer, storeClone, recordClone, link_parsed, time_Now.
  repeat first [calm_step | apply calm_syncBlob].
Qed.

Lemma calm_PullComponentImage ref : calm (PullComponentImage F ref).
Proof.
  intros s0. unfold PullComponentImage, storeComponent, pullConfig, linkConfig, pullLayer, in_order, time_Now.
  repeat first [calm_step | apply calm_syncBlobFromRepo].
Qed.

Lemma calm_runJobs p n jobs : calm (runJobs F p n jobs).
Proof.
  revert n. induction jobs as [|[c ref] jobs IH]; intros [|n] s0; simpl; [repeat calm_step..|].
  unfold ctx_Err. repeat first [apply IH | calm_step | apply calm_PullComponentImage].
Qed.

Lemma calm_MirrorComponents refs p : calm (MirrorComponents F refs p).
Proof. intros s0. unfold MirrorComponents, in_order. repeat first [calm_step | apply calm_runJobs]. Qed.
End calm.

(** ** How the pipeline ends *)

Section ends.
Context `{BadgerLaws} `{!Json MetadataStore.ManifestMeta} `{!Json MetadataStore.RepoMeta}.
Context `{!Json Release} `{!Json Events.Event} `{!Json Events.CloneHistoryEntry} `{!MapRange}.
Context `{!Unmarshal CloneManifest} `{!Unmarshal PullManifest} `{!Unmarshal dockerConfig}.
Context `{!Unmarshal LayersManifest} `{!Unmarshal ReleaseManifest} `{!Unmarshal ComponentManifest}.
Context `{!Unmarshal imageStream} `{!Unmarshal VerifyManifest} `{!Archive}.
Context `{!JsonDecoder Mirror.tokenResp} `{!Env}.
Context (F : Faults) (mg : Manager).

(** The same releases and the same files. *)
Definition same_stores (s0 s : St) : Prop :=
  same_releases s0 s ∧ os_files (w_os (st_w s)) = os_files (w_os (st_w s0)) ∧
  BlobStore.bs_root (w_bs (st_w s)) = BlobStore.bs_root (w_bs (st_w s0)).

(** A call that changes neither and returns no error. *)
Definition tidy {A} (m : M St A) : Prop := ∀ s0,
  hoare (same_stores s0) m (λ r s, match r with Err _ => False | _ => same_stores s0 s end).

Lemma tidy_ret {A} (a : A) : tidy (mret a).
Proof. by intros s0 s Hs. Qed.

Lemma tidy_bind {A B} (m : M St A) (k : A → M St B) : tidy m → (∀ a, tidy (k a)) → tidy (m ≫= k).
Proof.
  intros Hm Hk s0. eapply hoare_bind with (R := λ _, same_stores s0); [|intros a; apply Hk].
  intros s Hs. specialize (Hm s0 s Hs). by destruct (m s) as [[]].
Qed.

Lemma tidy_env {A} (f : nat → A) : tidy (env (λ n, Ok (f n))).
Proof. by intros s0 s Hs. Qed.

Lemma tidy_gets {A} (f : St → A) : tidy (gets f).
Proof. by intros s0 s Hs. Qed.

Lemma tidy_on_db f :
  (∀ db k, view (f db) !! (releaseKeyPrefix +:+ k) = view db !! (releaseKeyPrefix +:+ k)) →
  tidy (on_db (λ db, (Ok tt, f db))).
Proof.
  intros Hf s0 s (Hr & Hs). split; [|done]. intros k. unfold stored_release. simpl.
  rewrite Hf. apply Hr.
Qed.

Lemma tidy_ignoring f :
  (∀ db k, view (f db).2 !! (releaseKeyPrefix +:+ k) = view db !! (releaseKeyPrefix +:+ k)) →
  tidy (ignoring (on_db f)).
Proof.
  intros Hf s0 s (Hr & Hs). unfold ignoring, attempt, on_db, mbind, M_bind.
  specialize (Hf (w_db (st_w s))). destruct (f _) as [[u|e|x] db]; simpl in *;
    (split; [|done]; intros k; unfold stored_release; simpl; rewrite Hf; apply Hr).
Qed.

Lemma tidy_record typ sev ver details : tidy (record mg typ sev ver details).
Proof.
  unfold record, time_Now. destruct (mg_eventStore mg); [|apply tidy_ret].
  do 2 (apply tidy_bind; [apply tidy_env|intros ?]). apply tidy_on_db.
  intros. apply RecordEvent_other.
Qed.

Lemma tidy_history ver phase err start b n ok : tidy (history mg ver phase err start b n ok).
Proof.
  unfold history, time_Now. destruct (mg_eventStore mg); [|apply tidy_ret].
  do 2 (apply tidy_bind; [apply tidy_env|intros ?]). apply tidy_ignoring.
  intros. apply SaveCloneHistory_other.
Qed.

Lemma tidy_totals p : tidy (totals p).
Proof. unfold totals. apply tidy_bind; [apply tidy_gets|]. intros c. apply tidy_ret. Qed.

Lemma tidy_FinishProgress ver : tidy (FinishProgress ver).
Proof. by intros s0 s Hs. Qed.
End ends.

#[local] Hint Resolve tidy_ret tidy_record tidy_history tidy_totals tidy_FinishProgress : fastreg.

Section outcome.
Context `{BadgerLaws} `{!Json MetadataStore.ManifestMeta} `{!Json MetadataStore.RepoMeta}.
Context `{!Json Release} `{!Json Events.Event} `{!Json Events.CloneHistoryEntry} `{!MapRange}.
Context `{!Unmarshal CloneManifest} `{!Unmarshal PullManifest} `{!Unmarshal dockerConfig}.
Context `{!Unmarshal LayersManifest} `{!Unmarshal ReleaseManifest} `{!Unmarshal ComponentManifest}.
Context `{!Unmarshal imageStream} `{!Unmarshal VerifyManifest} `{!Archive}.
Context `{!JsonDecoder Mirror.tokenResp} `{!Env}.
Context (F : Faults) (mg : Manager).
Context (key : string) (before : string → option bytes) (V : Release → St → Prop).
Context (HV : ∀ rel s s', os_files (w_os (st_w s')) = os_files (w_os (st_w s)) →
  BlobStore.bs_root (w_bs (st_w s')) = BlobStore.bs_root (w_bs (st_w s)) → V rel s → V rel s').

(** The release is saved under its key, and no other release has changed. *)
Definition others (s : St) : Prop := ∀ k, k ≠ key → stored_release s k = before k.

Definition saved (rel : Release) (s : St) : Prop :=
  others s ∧ ∀ b, json_Marshal rel = Ok b → stored_release s key = Some b.

Definition settled (rel : Release) : Prop := rl_State rel ∈ [StateFailed; StateCloned; StateReady].

(** A call that ends with a settled release, which is saved. *)
Definition ends (r : result Release) (s : St) : Prop :=
  match r with
  | Ok rel => rel_key rel = key ∧ settled rel ∧ saved rel s ∧ (rl_State rel = StateReady → V rel s)
  | Err _ => False
  | Panic _ => True
  end.

Lemma others_calm {A} (m : M St A) : calm m → keeps others m.
Proof.
  intros Hm s Hs k Hk. rewrite (Hm s s (λ k, eq_refl) k). by apply Hs.
Qed.

(** A call whose error is handled. *)
Lemma ends_attempt {A} (m : M St A) (k : A + error → M St Release) :
  calm m → (∀ r, hoare others (k r) ends) → hoare others (attempt m ≫= k) ends.
Proof.
  intros Hm Hk. eapply hoare_bind with (R := λ _, others); [|done].
  intros s Hs. pose proof (others_calm m Hm s Hs) as Hs'. unfold attempt.
  by destruct (m s) as [[a|e|x] s'].
Qed.

Lemma ends_tidy {A} (P : St → Prop) (m : M St A) (k : A → M St Release) :
  (∀ s s', same_stores s s' → P s → P s') →
  tidy m → (∀ a, hoare P (k a) ends) → hoare P (m ≫= k) ends.
Proof.
  intros HP Hm Hk. eapply hoare_bind with (R := λ _, P); [|done]. intros s Hs.
  assert (same_stores s s) as Hss by by split_and!.
  specialize (Hm s s Hss). destruct (m s) as [[a|e|x] s']; simpl in *; [by eapply HP|done|done].
Qed.

Lemma others_stores s s' : same_stores s s' → others s → others s'.
Proof. intros [Hr _] Ho k Hk. rewrite Hr. by apply Ho. Qed.

Lemma save_spec rel P :
  rel_key rel = key → (∀ s s', os_files (w_os (st_w s')) = os_files (w_os (st_w s)) →
    BlobStore.bs_root (w_bs (st_w s')) = BlobStore.bs_root (w_bs (st_w s)) → P s → P s') →
  hoare (λ s, others s ∧ P s) (save rel)
    (λ r s, match r with Err _ => False | Ok _ => saved rel s ∧ P s | Panic _ => True end).
Proof.
  intros Hk HP s [Ho Hs]. unfold save, ignoring, attempt, on_db, mbind, M_bind, saveRelease.
  fold (rel_key rel). rewrite Hk. destruct (json_Marshal rel) as [b|e|x] eqn:E; [| |done].
  - destruct (MetadataStore.PutRaw_view (w_db (st_w s)) (releaseKeyPrefix +:+ key) b)
      as (db' & -> & Hv); [done|]. simpl. split; [split|].
    + intros k Hne. unfold stored_release. simpl. rewrite Hv, lookup_insert_ne; [by apply Ho|].
      by intros ->%sapp_inj_r.
    + intros b' Hb. rewrite E in Hb. injection Hb as <-. unfold stored_release. simpl.
      by rewrite Hv, lookup_insert_eq.
    + by apply (HP s).
  - simpl. split; [split|].
    + intros k Hne. by apply Ho.
    + intros b' Hb. by rewrite E in Hb.
    + by apply (HP s).
Qed.

(** After the last save. *)
Definition closed (rel : Release) (s : St) : Prop :=
  saved rel s ∧ (rl_State rel = StateReady → V rel s).

Lemma closed_stores rel s s' : same_stores s s' → closed rel s → closed rel s'.
Proof.
  intros (Hr & Hf & Hb) [[Ho Hs] Hv]. split; [split|].
  - intros k Hk. rewrite Hr. by apply Ho.
  - intros b Hb'. rewrite Hr. by apply Hs.
  - intros Hst. by apply (HV rel s); auto.
Qed.

Lemma ends_ret rel : rel_key rel = key → settled rel → hoare (closed rel) (mret rel) ends.
Proof. intros Hk Hs s [Hc Hv]. by split_and!. Qed.

(** The last save, and calls after it. *)
Lemma ends_save rel (tl : M St Release) :
  rel_key rel = key → hoare (closed rel) tl ends →
  hoare (λ s, others s ∧ (rl_State rel = StateReady → V rel s)) (save rel ≫= λ _, tl) ends.
Proof.
  intros Hk Htl. eapply hoare_bind; [|intros u; exact Htl].
  intros s Hs. pose proof (save_spec rel (λ s, rl_State rel = StateReady → V rel s) Hk) as Hsave.
  assert (∀ s s', os_files (w_os (st_w s')) = os_files (w_os (st_w s)) →
    BlobStore.bs_root (w_bs (st_w s')) = BlobStore.bs_root (w_bs (st_w s)) →
    (rl_State rel = StateReady → V rel s) → rl_State rel = StateReady → V rel s') as HP
    by (intros s1 s2 ?? Hv Hr; by apply (HV rel s1); auto).
  specialize (Hsave HP s Hs). by destruct (save rel s) as [[[]|e|x] s'].
Qed.

Lemma ends_save_other rel (tl : M St Release) :
  rel_key rel = key → rl_State rel ≠ StateReady → hoare (closed rel) tl ends →
  hoare others (save rel ≫= λ _, tl) ends.
Proof.
  intros Hk Hn Htl. eapply hoare_conseq; [by apply ends_save| |done]. intros s Hs. by split.
Qed.

(** A save in between. *)
Lemma ends_mid rel (k : M St Release) :
  rel_key rel = key → hoare others k ends → hoare others (save rel ≫= λ _, k) ends.
Proof.
  intros Hk Hkk. eapply hoare_bind; [|intros u; exact Hkk].
  intros s Hs. pose proof (save_spec rel (λ _, True) Hk (λ _ _ _ _ _, I) s (conj Hs I)) as Hsave.
  destruct (save rel s) as [[u|e|x] s']; [by apply Hsave|done..].
Qed.

Lemma ends_tidy_closed {A} rel (m : M St A) k :
  tidy m → (∀ a, hoare (closed rel) (k a) ends) → hoare (closed rel) (m ≫= k) ends.
Proof. intros Hm Hk. apply ends_tidy; [apply closed_stores|done|done]. Qed.

Lemma ends_tidy_others {A} (m : M St A) k :
  tidy m → (∀ a, hoare others (k a) ends) → hoare others (m ≫= k) ends.
Proof. intros Hm Hk. apply ends_tidy; [apply others_stores|done|done]. Qed.
End outcome.

Section phases.
Context `{BadgerLaws} `{!Json MetadataStore.ManifestMeta} `{!Json MetadataStore.RepoMeta}.
Context `{!Json Release} `{!Json Events.Event} `{!Json Events.CloneHistoryEntry} `{!MapRange}.
Context `{!Unmarshal CloneManifest} `{!Unmarshal PullManifest} `{!Unmarshal dockerConfig}.
Context `{!Unmarshal LayersManifest} `{!Unmarshal ReleaseManifest} `{!Unmarshal ComponentManifest}.
Context `{!Unmarshal imageStream} `{!Unmarshal VerifyManifest} `{!Archive}.
Context `{!JsonDecoder Mirror.tokenResp} `{!Env}.
Context (F : Faults) (mg : Manager) (ver arch : string).
Context (key : string) (before : string → option bytes).

(** The release was found complete, with the files as they still are, and its
    summary says so. *)
Definition verified (rel : Release) (s : St) : Prop :=
  ∃ s1 v, complete F mg ver arch s1 ∧
    os_files (w_os (st_w s)) = os_files (w_os (st_w s1)) ∧
    BlobStore.bs_root (w_bs (st_w s)) = BlobStore.bs_root (w_bs (st_w s1)) ∧
    rl_Verify rel = Some v ∧ all_counted v ∧ rl_VerifiedAt rel = vs_At v.

Abbreviation ends := (ends key before verified).
Abbreviation others := (others key before).
Abbreviation closed := (closed key before verified).

Lemma verified_files rel s s' : os_files (w_os (st_w s')) = os_files (w_os (st_w s)) →
  BlobStore.bs_root (w_bs (st_w s')) = BlobStore.bs_root (w_bs (st_w s)) → verified rel s → verified rel s'.
Proof.
  intros Hf Hr (s1 & v & ? & ? & ? & ? & ? & ?). exists s1, v. split_and!; try done; congruence.
Qed.

(** The calls after the last save. *)
Ltac finish :=
  repeat (apply (ends_tidy_closed key before verified verified_files); [eauto with fastreg|intros ?]);
  apply ends_ret; [done|unfold settled; simpl; set_solver].

Lemma failed_ends rel err (tl : M St Release) :
  rel_key rel = key → hoare (closed (with_state rel StateFailed err)) tl ends →
  hoare others (save (with_state rel StateFailed err) ≫= λ _, tl) ends.
Proof. intros Hk Htl. by apply (ends_save_other key before verified verified_files). Qed.

Lemma verifyPhase_ends rel start p artifacts :
  rel_key rel = key → hoare others (verifyPhase F mg rel ver arch start p artifacts) ends.
Proof.
  intros Hk. unfold verifyPhase.
  eapply hoare_bind with (R := λ v s, others s ∧
    match v with
    | (Some r, None) => vr_Complete r = true → all_counted (summary r true 0) ∧ ∃ s1, complete F mg ver arch s1 ∧
        os_files (w_os (st_w s)) = os_files (w_os (st_w s1)) ∧
        BlobStore.bs_root (w_bs (st_w s)) = BlobStore.bs_root (w_bs (st_w s1))
    | (None, None) => False
    | _ => True
    end).
  { intros s Ho. pose proof (VerifyMirror_cases F mg ver arch s) as Hc.
    destruct (VerifyMirror F mg ver arch s) as [[[[r|] [e|]]|e|x] s']; try done; simpl.
    - destruct Hc as [(Hd & _ & _) _]. split; [|done]. intros k Hne. unfold stored_release.
      rewrite Hd. by apply Ho.
    - destruct Hc as [(Hd & Hf & Hr) (man & refs & Hm & Hrefs & _ & _ & _ & _ & _ & Hcount & Hcomp)].
      split; [intros k Hne; unfold stored_release; rewrite Hd; by apply Ho|]. intros Hv.
      split; [by apply Hcount|]. exists s. split; [|done]. exists man, refs. by apply Hcomp in Hv as [? ?].
    - destruct Hc as [(Hd & _ & _) _]. split; [|done]. intros k Hne. unfold stored_release.
      rewrite Hd. by apply Ho. }
  intros [[r|] [e|]].
  - eapply hoare_conseq with (P' := others); [|by intros s []|done].
    apply ends_tidy_others; [unfold time_Now; apply tidy_bind; [apply tidy_env|intros t; apply tidy_ret]|].
    intros v. apply failed_ends; [done|]. finish.
  - eapply ends_tidy; [|apply tidy_env|intros t].
    { intros s s' Hst [Ho Hv]. split; [by eapply others_stores|]. intros Hc.
      destruct (Hv Hc) as (? & s1 & ? & ? & ?). split; [done|]. exists s1.
      destruct Hst as (_ & Hf & Hr). split_and!; congruence. }
    destruct (vr_Complete r) eqn:Ec.
    + eapply hoare_conseq; [apply (ends_save key before verified verified_files)|..]; [done|finish| |done].
      intros s [Ho Hv]. split; [done|]. intros _. destruct (Hv eq_refl) as ((? & ? & ? & ?) & s1 & ? & ? & ?).
      exists s1, (summary r true t). by split_and!.
    + eapply hoare_conseq with (P' := others); [|by intros s []|done]. apply failed_ends; [done|]. finish.
  - eapply hoare_conseq with (P' := others); [|by intros s []|done].
    apply ends_tidy_others; [apply tidy_ret|]. intros v. apply failed_ends; [done|]. finish.
  - by intros s [_ []].
Qed.

Lemma calm_Extract : calm (Extract F (mg_extractor mg) ver arch).
Proof.
  apply calm_nodb. intros s.
  destruct (reports_Extract F _ (mg_extractor mg) ver arch eq_refl) as [Hf _].
  by destruct (frames_at _ _ s Hf) as [-> _].
Qed.

Lemma calm_readonly {A} (m : M St A) : readonly m → calm m.
Proof. intros Hm. apply calm_nodb. intros s. by destruct (Hm s) as [(-> & _) _]. Qed.

Lemma extractPhase_ends rel start p :
  rel_key rel = key → hoare others (extractPhase F mg rel ver arch start p) ends.
Proof.
  intros Hk. unfold extractPhase. apply ends_mid; [done|].
  apply ends_attempt; [apply calm_Extract|]. intros [artifacts|e].
  - by apply verifyPhase_ends.
  - apply (ends_save_other key before verified verified_files); [done..|]. finish.
Qed.

Lemma mirrorPhase_ends rel start p :
  rel_key rel = key → hoare others (mirrorPhase F mg rel ver arch start p) ends.
Proof.
  intros Hk. unfold mirrorPhase. apply ends_attempt; [apply calm_readonly, readonly_FindReleaseComponents|].
  intros [refs|e]; [|apply failed_ends; [done|]; finish].
  apply ends_attempt; [apply calm_MirrorComponents|]. intros [u|e].
  - apply ends_tidy_others; [apply tidy_env|intros t]. apply ends_mid; [done|].
    apply ends_tidy_others; [apply tidy_totals|intros bb].
    apply ends_tidy_others; [apply tidy_record|intros _]. by apply extractPhase_ends.
  - apply failed_ends; [done|]. finish.
Qed.

Lemma clonePhase_ends rel :
  rel_key rel = key → hoare others (clonePhase F mg rel ver arch) ends.
Proof.
  intros Hk. unfold clonePhase. apply ends_tidy_others; [apply tidy_env|intros start].
  apply ends_tidy_others; [apply tidy_record|intros _].
  apply ends_attempt; [apply calm_Clone|]. intros [p|e].
  - by apply mirrorPhase_ends.
  - apply failed_ends; [done|]. finish.
Qed.

Lemma cloneJob_ends rel s :
  rel_key rel = key → others s →
  let '(r, s') := cloneJob F mg rel ver arch s in
  ends r s' ∧ (is_ok r = true → cl_active (st_cl s') !! ver = None).
Proof.
  intros Hk Ho. unfold cloneJob, mbind, M_bind. pose proof (clonePhase_ends rel Hk s Ho) as He.
  destruct (clonePhase F mg rel ver arch s) as [[rel'|e|x] s1]; [|done..].
  simpl. split; [|by rewrite lookup_delete_eq]. destruct He as (? & ? & Hs & Hv). by split_and!.
Qed.

(** A save and one more call: the release is returned as saved. *)
Lemma save_then rel (m : M St unit) :
  rel_key rel = key → tidy m →
  hoare others (save rel ≫= λ _, m ≫= λ _, mret rel) (λ r s,
    match r with Ok rel' => rel' = rel ∧ saved key before rel s | Err _ => False | Panic _ => True end).
Proof.
  intros Hk Hm s Ho. unfold mbind, M_bind.
  pose proof (save_spec key before rel (λ _, True) Hk (λ _ _ _ _ _, I) s (conj Ho I)) as Hs.
  destruct (save rel s) as [[u|e|x] s1]; [|done..]. destruct Hs as [Hs _].
  assert (same_stores s1 s1) as Hss by by split_and!.
  specialize (Hm s1 s1 Hss). destruct (m s1) as [[u'|e|x] s2]; [|done..]. simpl in *. split; [done|].
  destruct Hs as [Ho' Hs], Hm as (Hr & _). split.
  - intros k Hne. rewrite Hr. by apply Ho'.
  - intros b Hb. rewrite Hr. by apply Hs.
Qed.

Lemma reExtractJob_ends rel s :
  rel_key rel = key → others s →
  match reExtractJob F mg rel ver arch s with
  | (Ok rel', s') => saved key before rel' s' ∧
      rl_Verify rel' = rl_Verify rel ∧ rl_VerifiedAt rel' = rl_VerifiedAt rel ∧
      rl_State rel' = if is_ok (Extract F (mg_extractor mg) ver arch s).1 then StateReady else StateCloned
  | (Err _, _) => False
  | (Panic _, _) => True
  end.
Proof.
  intros Hk Ho. unfold reExtractJob. unfold mbind at 1, M_bind at 1, attempt.
  pose proof (others_calm key before _ calm_Extract s Ho) as Ho'.
  destruct (Extract F (mg_extractor mg) ver arch s) as [[artifacts|e|x] s1]; [| |done]; cbn [fst snd is_ok].
  - set (rel' := with_artifacts _ _). set (m := record _ _ _ _ _).
    pose proof (save_then rel' m Hk (tidy_record mg _ _ _ _) s1 Ho') as Hs.
    destruct ((save rel' ≫= λ _, m ≫= λ _, mret rel') s1) as [[r|e|x] s2]; [|done..].
    by destruct Hs as [-> ?].
  - set (rel' := with_state _ _ _). set (m := record _ _ _ _ _).
    pose proof (save_then rel' m Hk (tidy_record mg _ _ _ _) s1 Ho') as Hs.
    destruct ((save rel' ≫= λ _, m ≫= λ _, mret rel') s1) as [[r|e'|x] s2]; [|done..].
    by destruct Hs as [-> ?].
Qed.
End phases.

Section theorems.
Context `{BadgerLaws} `{!Json MetadataStore.ManifestMeta} `{!Json MetadataStore.RepoMeta}.
Context `{!Json Release} `{!Json Events.Event} `{!Json Events.CloneHistoryEntry} `{!MapRange}.
Context `{!Unmarshal CloneManifest} `{!Unmarshal PullManifest} `{!Unmarshal dockerConfig}.
Context `{!Unmarshal LayersManifest} `{!Unmarshal ReleaseManifest} `{!Unmarshal ComponentManifest}.
Context `{!Unmarshal imageStream} `{!Unmarshal VerifyManifest} `{!Archive}.
Context `{!JsonDecoder Mirror.tokenResp} `{!Env}.
Context (F : Faults).

(** C14 The pipeline settles: whatever the upstream answers and whatever system
    call fails, the goroutine of a clone never stops with an error; unless the
    process panics, it leaves the release in one of the states failed, cloned
    and ready, that state is what the database holds under the key of the
    release (if it can be encoded), no other release has changed, and the
    progress slot of the version is given back. *)
Theorem cloneJob_settles mg rel ver arch s :
  match cloneJob F mg rel ver arch s with
  | (Ok rel', s') =>
    rl_State rel' ∈ [StateFailed; StateCloned; StateReady] ∧
    (∀ b, json_Marshal rel' = Ok b → stored_release s' (rel_key rel) = Some b) ∧
    (∀ k, k ≠ rel_key rel → stored_release s' k = stored_release s k) ∧
    cl_active (st_cl s') !! ver = None
  | (Err _, _) => False
  | (Panic _, _) => True
  end.
Proof.
  pose proof (cloneJob_ends F mg ver arch (rel_key rel) (stored_release s) rel s eq_refl
    (λ _ _, eq_refl)) as He.
  destruct (cloneJob F mg rel ver arch s) as [[rel'|e|x] s'].
  - destruct He as [(_ & Hset & [Ho Hs] & _) Hp]. split_and!; auto.
  - by destruct He.
  - done.
Qed.


(** Extracting again does not verify: the goroutine marks the release ready
    whenever the extraction returns, with the verification summary and time the
    release had before, whatever blobs have gone missing since; when the
    extraction fails the release is cloned. *)
Theorem reExtract_unverified mg rel ver arch s :
  match reExtractJob F mg rel ver arch s with
  | (Ok rel', s') =>
    rl_Verify rel' = rl_Verify rel ∧ rl_VerifiedAt rel' = rl_VerifiedAt rel ∧
    (rl_State rel' = if is_ok (Extract F (mg_extractor mg) ver arch s).1
                     then StateReady else StateCloned) ∧
    (∀ b, json_Marshal rel' = Ok b → stored_release s' (rel_key rel) = Some b) ∧
    (∀ k, k ≠ rel_key rel → stored_release s' k = stored_release s k)
  | (Err _, _) => False
  | (Panic _, _) => True
  end.
Proof.
  pose proof (reExtractJob_ends F mg ver arch (rel_key rel) (stored_release s) rel s eq_refl
    (λ _ _, eq_refl)) as He.
  destruct (reExtractJob F mg rel ver arch s) as [[rel'|e|x] s']; [|done..].
  destruct He as ([Ho Hs] & ? & ? & ?). split_and!; auto.
Qed.
End theorems.

(** ** Starting a pipeline *)

Section start.
Context `{BadgerLaws} `{!Json Release} `{!JsonLaws Release release_ok} `{!MapRange}.
Context `{!Mirror.HttpClient} `{!JsonDecoder quayTagsResponse} `{!Env}.

Lemma on_db_save s cat rel :
  release_ok rel → catalog (view (w_db (st_w s))) cat →
  ∃ s', on_db (λ db, saveRelease db rel) s = (Ok tt, s') ∧
    catalog (view (w_db (st_w s'))) (<[rel_key rel := rel]> cat).
Proof.
  intros Hr Hc. destruct (saveRelease_spec (w_db (st_w s)) cat rel Hr Hc) as (db' & Hs & Hc').
  unfold on_db. rewrite Hs. eexists. split; [done|]. exact Hc'.
Qed.

Lemma lookupRelease_key s cat version rel :
  catalog (view (w_db (st_w s))) cat → cat !! version = Some rel →
  lookupRelease version s = (Ok rel, s).
Proof.
  intros Hc Hk. unfold lookupRelease, mbind, M_bind, gets, lift, getRelease.
  pose proof (GetRaw_catalog (w_db (st_w s)) cat version Hc) as Hg. rewrite Hk in Hg.
  destruct Hg as (b & -> & Hj). by rewrite Hj.
Qed.

Lemma with_state_ok rel st err :
  release_ok rel → MetadataStore.is_ascii st → MetadataStore.is_ascii err →
  release_ok (with_state rel st err).
Proof.
  intros (Ha & Ht & Hs & Har & Hv) Hst Herr. rewrite !Forall_cons in Ha.
  destruct Ha as (? & ? & ? & _ & ? & ? & _ & _). split_and!; [|done..].
  by repeat (apply Forall_cons; split).
Qed.

(** Neither a clone nor an extraction can be started. *)
Definition busy (m : Manager) (version : string) (s : St) : Prop :=
  (∃ e, CloneRelease m version s = (Err e, s)) ∧ (∃ e, ReExtract m version s = (Err e, s)).

(** Every operation refuses a release that is in progress. *)
Lemma refused m version s cat rel :
  catalog (view (w_db (st_w s))) cat → cat !! version = Some rel → in_progress rel → busy m version s.
Proof.
  intros Hc Hk Hp. pose proof (lookupRelease_key s cat version rel Hc Hk) as Hl.
  unfold busy, CloneRelease, ReExtract, mbind, M_bind, attempt, wrapping. rewrite Hl. cbn [fst snd].
  unfold mret at 1, M_ret at 1. rewrite !decide_True by done. split; by eexists.
Qed.


(** Without an architecture and without configured ones the call panics, after
    the release has been marked as being cloned. *)
Fact no_architecture_panics m version s cat rel :
  catalog (view (w_db (st_w s))) cat → cat !! version = Some rel → rel_key rel = version →
  release_ok rel → ¬ in_progress rel → rl_Architecture rel = "" → rc_Architectures (mg_cfg m) = [] →
  ∃ x s1, CloneRelease m version s = (Panic x, s1) ∧
    catalog (view (w_db (st_w s1))) (<[version := with_state rel StateCloning ""]> cat).
Proof.
  intros Hc Hk Hkey Hr Hp Ha Harch.
  destruct (on_db_save s cat (with_state rel StateCloning "")) as (s1 & Hs1 & Hc1);
    [by apply with_state_ok; [..|by apply (bool_decide_unpack _)|by apply (bool_decide_unpack _)]|done|].
  change (rel_key (with_state rel StateCloning "")) with (rel_key rel) in Hc1. rewrite Hkey in Hc1.
  eexists _, s1. split; [|done]. unfold CloneRelease, mbind, M_bind, attempt.
  rewrite (lookupRelease_key s cat version rel) by done. cbn [fst snd]. unfold mret at 1, M_ret at 1.
  rewrite decide_False by done. rewrite Hs1. simpl. rewrite decide_True by done. by rewrite Harch.
Qed.
End start.

(** ** A run *)

(** An upstream that has the release of the extraction's example: the release
    manifest, the layer with the references, one component with one layer. *)
Definition exUpstreamDo (n : nat) (url : string) (auth : option string) : result Response :=
  Ok (mkResponse 200 "" "" (NewReader
    (if Contains url "/manifests/4.18.2" then exRelease
     else if Contains url "/manifests/" then exComponent
     else if Contains url (FromBytes exReferences) then exReferences else exBinary))).

Program Definition exPipelineEnv : Env := {|
  NewRequest _ := None;
  Do := exUpstreamDo;
  now n := exTime (Z.of_nat n);
  rnds n := [N.of_nat n];
  cancelled _ := false;
  order _ _ l := l
|}.
Next Obligation. done. Qed.

Definition exVerifyManifests : Unmarshal VerifyManifest := λ b,
  Ok (mkVerifyManifest "" (Fields (bytes_str b))).
(** No history is kept in the example. *)
Definition exHistory : Json Events.CloneHistoryEntry :=
  {| json_Marshal _ := Err (Errorf "no history"); json_Unmarshal _ := Err (Errorf "no history") |}.

Definition exManager : Manager := SetEventStore (NewManager exRelConfig).
Definition exCloning : Release :=
  with_state (available "4.18.2" "x86_64" "4.18.2-x86_64" "sha256:b" (exTime 1)) StateCloning "".
Definition exStart (db : @DB mapBadger) : @St mapBadger :=
  mkSt (NewCloner "quay.io" "ocp/release" "openshift/release" "")
    (mkWorld _ (BlobStore.NewBlobStore BlobStore.srvRoot) os_empty db) 0 0.

#[local] Existing Instances mapBadger mapBadgerLaws MetadataStore.jsonMeta MetadataStore.jsonRepo
  jsonRelease Events.jsonEvent exHistory listRange exClone exPull exSecret exToken
  exArchive exStream exManifests exReleaseManifests exComponentManifests exVerifyManifests
  exPipelineEnv Discovery.exUpstream Discovery.exPages.

Definition exJob : result Release * St :=
  cloneJob noFaults exManager exCloning "4.18.2" "x86_64" (exStart ∅).

Lemma exJob_ready : (rl_State <$> exJob.1) = Ok StateReady.
Proof. vm_compute. reflexivity. Qed.


(** Where the run ends, and the manifest and the components it has there. *)
Definition exEnd : St := exJob.2.


End PipelineSpec.
