(* ===== verification/Iso.v ===== *)
(** internal/releases/iso.go: agent ISOs, copies of a release's CoreOS image
    with an ignition configuration embedded.

    The first half is the generator; the second half describes the two formats
    it has to agree with, directories of ISO 9660 and archives of cpio (newc),
    independently of the code, and relates the generator to them.  The deflate
    algorithm of compress/gzip is a parameter, and so is the random identifier
    of github.com/google/uuid.  A failing read or write transfers nothing. *)

From S2P Require Import Prelude GoLib Os.

(** [gzip.NewWriter], one [Write] and [Close], into a buffer. *)
Class Gzip := gzip_all : bytes → bytes.
Class GzipLaws `{Gzip} := {
  gunzip : bytes → option bytes;
  gunzip_gzip : ∀ b, gunzip (gzip_all b) = Some b
}.

(** ** What the file uses of the standard library *)

(** [File.ReadAt] of a whole buffer of [n] bytes. *)
Definition ReadAt (F : Faults) (c : bytes) (n : nat) (off : Z) : result bytes :=
  if decide (off < 0)%Z then Err (Errorf "negative offset")
  else if decide (n = 0) then Ok []
  else match F OpRead with
       | Some e => Err e
       | None => if decide (Z.to_nat off + n ≤ length c)
                 then Ok (take n (drop (Z.to_nat off) c)) else Err (Errorf "EOF")
       end.

(** The slice [b\[i:i+n\]], where the code knows it to be in range. *)
Definition slice (b : bytes) (i n : nat) : bytes := take n (drop i b).
Definition byte_at (b : bytes) (i : nat) : nat := Z.to_nat (Z_of_byte (default "000"%char (b !! i))).

(** [binary.LittleEndian.Uint32]. *)
Fixpoint le_val (b : bytes) : Z :=
  match b with [] => 0 | c :: b => Z_of_byte c + 256 * le_val b end.
Definition le32 (b : bytes) (i : nat) : Z := le_val (slice b i 4).

(** [strings.EqualFold] with an ASCII string: letters fold, and so do the two
    other runes of the simple case folding that ASCII letters have, U+017F for
    s and U+212A for k. *)
Definition fold_byte (c : ascii) : ascii :=
  if decide (65 ≤ Z_of_byte c ≤ 90)%Z then byte_of_Z (Z_of_byte c + 32) else c.
Fixpoint fold_ascii (b : bytes) : bytes :=
  match b with
  | [] => []
  | c :: b' =>
    match b with
    | "197"%char :: "191"%char :: b'' => "s"%char :: fold_ascii b''
    | "226"%char :: "132"%char :: "170"%char :: b'' => "k"%char :: fold_ascii b''
    | _ => fold_byte c :: fold_ascii b'
    end
  end.
Definition EqualFold (s t : string) : bool :=
  bool_decide (fold_ascii (str_bytes s) = fold_ascii (str_bytes t)).

(** [%08X]: upper-case hexadecimal, at least eight digits. *)
Definition hex_upper (n : Z) : ascii := byte_of_Z (if decide (n < 10)%Z then 48 + n else 55 + n).
Fixpoint fmt_nX (n : nat) (z : Z) : bytes :=
  match n with
  | O => []
  | S n => fmt_nX n (z / 16) ++ [hex_upper (z mod 16)]
  end.
Definition fmt_08X (z : Z) : bytes := fmt_nX (Nat.max 8 (Z.to_nat (Z.log2 z / 4 + 1))) z.

(** [%q] of a string of letters, digits and dots. *)
Definition fmt_q (s : string) : string := String "034" (s +:+ String "034" "").

Module Iso.

Definition sectorSize : nat := 2048.
Definition pvdSector : nat := 16.

Record ISOGenerator := mkISOGenerator {
  ig_artifactPath : string;
  ig_installsPath : string
}.

(** ** Finding the slot *)

(** The loop of [findDirEntry] over the bytes of a directory; [None] when the
    fuel runs out. *)
Fixpoint scan (fuel : nat) (dirData : bytes) (name : string) (pos : nat)
    : option (result (Z * Z)) :=
  let missing := Some (Err (Errorf ("entry " +:+ fmt_q name +:+ " not found"))) in
  match fuel with
  | O => None
  | S fuel =>
    if decide (pos < length dirData) then
      let recLen := byte_at dirData pos in
      if decide (recLen = 0) then
        let nextSector := (Nat.div pos sectorSize + 1) * sectorSize in
        if decide (length dirData ≤ nextSector) then missing
        else scan fuel dirData name nextSector
      else if decide (length dirData ≤ pos + 33) then missing
      else
        let nameLen := byte_at dirData (pos + 32) in
        if decide (length dirData < pos + 33 + nameLen) then missing
        else
          let entryName := TrimSuffix (bytes_str (slice dirData (pos + 33) nameLen)) ";1" in
          if EqualFold entryName name
          then Some (Ok (le32 dirData (pos + 2), le32 dirData (pos + 10)))
          else scan fuel dirData name (pos + recLen)
    else missing
  end.

Definition findDirEntry (F : Faults) (c : bytes) (dirExtent dirSize : Z) (name : string)
    : option (result (Z * Z)) :=
  match ReadAt F c (Z.to_nat dirSize) (dirExtent * Z.of_nat sectorSize) with
  | Err e => Some (Err (wrap "reading directory" e))
  | Panic m => Some (Panic m)
  | Ok dirData => scan (S (length dirData)) dirData name 0
  end.

Definition findIgnitionImg (F : Faults) (c : bytes) : option (result (Z * Z)) :=
  match ReadAt F c sectorSize (Z.of_nat (pvdSector * sectorSize)) with
  | Err e => Some (Err (wrap "reading PVD" e))
  | Panic m => Some (Panic m)
  | Ok pvd =>
    if decide (byte_at pvd 0 ≠ 1 ∨ slice pvd 1 5 ≠ str_bytes "CD001")
    then Some (Err (Errorf "invalid PVD: bad type or signature"))
    else
      let rootRecord := slice pvd 156 34 in
      root ← findDirEntry F c (le32 rootRecord 2) (le32 rootRecord 10) "IMAGES";
      match root with
      | Err e => Some (Err (wrap "finding IMAGES directory" e))
      | Panic m => Some (Panic m)
      | Ok (imagesExtent, imagesSize) =>
        ign ← findDirEntry F c imagesExtent imagesSize "IGNITION.IMG";
        match ign with
        | Err e => Some (Err (wrap "finding IGNITION.IMG" e))
        | Panic m => Some (Panic m)
        | Ok (ignExtent, ignSize) => Some (Ok (ignExtent * Z.of_nat sectorSize, ignSize)%Z)
        end
      end
  end.

(** ** The archive *)

Definition zeros (n : nat) : bytes := repeat (byte_of_Z 0) n.

Definition writeCPIOEntry (name : string) (data : bytes) : bytes :=
  let nameWithNull := str_bytes name ++ zeros 1 in
  let headerSize := 110 + length nameWithNull in
  let namePad := Nat.modulo (4 - Nat.modulo headerSize 4) 4 in
  let dataPad := Nat.modulo (4 - Nat.modulo (length data) 4) 4 in
  let hdr := str_bytes "070701" ++
    concat (fmt_08X <$> [0; 33188; 0; 0; 1; 0; blen data; 0; 0; 0; 0; blen nameWithNull; 0]%Z) in
  hdr ++ nameWithNull ++ zeros namePad ++
    (if decide (0 < length data) then data ++ zeros dataPad else []).

Definition cpioData (ignition : bytes) : bytes :=
  writeCPIOEntry "config.ign" ignition ++ writeCPIOEntry "TRAILER!!!" [].

Section generator.
Context `{Gzip}.

Definition buildInitrd (ignition : bytes) : bytes := gzip_all (cpioData ignition).

(** ** Embedding and generating *)

Definition NewISOGenerator (artifactPath : string) : ISOGenerator :=
  mkISOGenerator artifactPath (Join [Dir artifactPath; "installs"]).

(** [io.Copy(out, in)] reads [src] after [dst] has been created. *)
Definition copyFile (F : Faults) (os : Os) (src dst : string) : result unit * Os :=
  match Open F os src with
  | Err e => (Err e, os)
  | Panic m => (Panic m, os)
  | Ok _ =>
    match Create F os dst with
    | (Err e, os1) => (Err e, os1)
    | (Panic m, os1) => (Panic m, os1)
    | (Ok _, os1) =>
      match F OpRead, F OpWrite with
      | Some e, _ | None, Some e => (Err e, os1)
      | None, None =>
        let os2 := set_files (<[dst := default [] (os_files os1 !! src)]>) os1 in
        (match F OpSync with Some e => Err e | None => Ok tt end, os2)
      end
    end
  end.

(** [None]: out of fuel; [findIgnitionImg_total] excludes it. *)
Definition embedIgnition (F : Faults) (os : Os) (isoPath : string) (ignition : bytes)
    : option (result unit * Os) :=
  match Open F os isoPath with
  | Err e => Some (Err (wrap "opening ISO" e), os)
  | Panic m => Some (Panic m, os)
  | Ok c =>
    slot ← findIgnitionImg F c;
    match slot with
    | Err e => Some (Err (wrap "finding ignition.img in ISO" e), os)
    | Panic m => Some (Panic m, os)
    | Ok (offset, size) =>
      let initrd := buildInitrd ignition in
      if decide (size < blen initrd)%Z then
        Some (Err (Errorf ("initrd (" +:+ fmt_d (blen initrd) +:+
                           " bytes) exceeds ignition.img slot (" +:+ fmt_d size +:+ " bytes)")), os)
      else
        let buf := initrd ++ zeros (Z.to_nat size - length initrd) in
        match F OpWrite with
        | Some e => Some (Err (wrap "writing initrd to ISO" e), os)
        | None =>
          let os' := set_files (<[isoPath := write_at c (Z.to_nat offset) buf]>) os in
          Some (match F OpSync with Some e => Err e | None => Ok tt end, os')
        end
    end
  end.

(** [os.RemoveAll] of a directory: the files below it. *)
Definition below (dir p : string) : bool := HasPrefix p (dir +:+ "/").
Definition RemoveAll (F : Faults) (os : Os) (dir : string) : Os :=
  match F OpRemove with
  | Some _ => os
  | None => set_files (filter (λ pc, below dir pc.1 = false)) os
  end.

Definition GetInstallPath (g : ISOGenerator) (id : string) : string :=
  Join [ig_installsPath g; id].
Definition InstallsPath (g : ISOGenerator) : string := ig_installsPath g.

Definition baseISO (g : ISOGenerator) (version : string) : string :=
  Join [ig_artifactPath g; version; "coreos.iso"].
Definition outISO (g : ISOGenerator) (id : string) : string :=
  Join [Join [ig_installsPath g; id]; "agent.iso"].

(** [id] is the identifier [uuid.New] gives. *)
Definition GenerateAgentISO (F : Faults) (g : ISOGenerator) (os : Os) (id version : string)
    (ignition : bytes) : option (result (string * string) * Os) :=
  match Stat F os (baseISO g version) with
  | Err _ => Some (Err (Errorf ("base ISO not found: " +:+ baseISO g version)), os)
  | Panic m => Some (Panic m, os)
  | Ok _ =>
    match F OpMkdirAll with
    | Some e => Some (Err (wrap "creating output dir" e), os)
    | None =>
      match copyFile F os (baseISO g version) (outISO g id) with
      | (Err e, os1) => Some (Err (wrap "copying base ISO" e), os1)
      | (Panic m, os1) => Some (Panic m, os1)
      | (Ok _, os1) =>
        r ← embedIgnition F os1 (outISO g id) ignition;
        match r with
        | (Err e, os2) =>
          Some (Err (wrap "embedding ignition" e), RemoveAll F os2 (GetInstallPath g id))
        | (Panic m, os2) => Some (Panic m, os2)
        | (Ok _, os2) => Some (Ok (id, outISO g id), os2)
        end
      end
    end
  end.

End generator.

(** ** The loop ends *)

Lemma byte_at_lt b i : byte_at b i < 256.
Proof. unfold byte_at. pose proof (Z_of_byte_bound (default "000"%char (b !! i))). lia. Qed.

Lemma next_sector pos : pos < (Nat.div pos sectorSize + 1) * sectorSize.
Proof.
  unfold sectorSize. pose proof (Nat.div_mod pos 2048). pose proof (Nat.mod_upper_bound pos 2048). lia.
Qed.

Lemma scan_fuel name d f1 : ∀ f2 pos,
  length d - pos < f1 → length d - pos < f2 → scan f1 d name pos = scan f2 d name pos.
Proof.
  induction f1 as [|f1 IH]; intros [|f2] pos H1 H2; [lia..|]. cbn [scan].
  destruct (decide (pos < length d)); [|done].
  pose proof (next_sector pos). repeat case_decide; try done; try (apply IH; lia).
  destruct (EqualFold _ _); [done|]. apply IH; lia.
Qed.

(** A value or an error, without running out of fuel and without a panic. *)
Definition settles {A} (o : option (result A)) : Prop := ∃ r, o = Some r ∧ ∀ m, r ≠ Panic m.

Lemma settles_Some {A} (r : result A) : (∀ m, r ≠ Panic m) → settles (Some r).
Proof. intros. by exists r. Qed.

Lemma scan_settles name d fuel : ∀ pos, length d - pos < fuel → settles (scan fuel d name pos).
Proof.
  induction fuel as [|fuel IH]; intros pos Hf; [lia|]. cbn [scan].
  destruct (decide (pos < length d)); [|by apply settles_Some].
  pose proof (next_sector pos). repeat case_decide; try (by apply settles_Some); try (apply IH; lia).
  destruct (EqualFold _ _); [by apply settles_Some|]. apply IH; lia.
Qed.

Lemma ReadAt_no_panic F c n off m : ReadAt F c n off ≠ Panic m.
Proof. unfold ReadAt. by repeat case_match. Qed.

Lemma findDirEntry_settles F c ext size name : settles (findDirEntry F c ext size name).
Proof.
  unfold findDirEntry. destruct (ReadAt F c _ _) as [d|e|m] eqn:E.
  - apply scan_settles. lia.
  - by apply settles_Some.
  - by apply ReadAt_no_panic in E.
Qed.

Lemma findIgnitionImg_settles F c : settles (findIgnitionImg F c).
Proof.
  unfold findIgnitionImg. destruct (ReadAt F c _ _) as [pvd|e|m] eqn:E;
    [|by apply settles_Some|by apply ReadAt_no_panic in E].
  case_decide; [by apply settles_Some|]. set (rr := slice pvd 156 34).
  destruct (findDirEntry_settles F c (le32 rr 2) (le32 rr 10) "IMAGES") as ([[e s]|e|m] & -> & Hp);
    cbn [mbind option_bind]; [|by apply settles_Some|by destruct (Hp m)].
  destruct (findDirEntry_settles F c e s "IGNITION.IMG") as ([[e' s']|e'|m] & -> & Hp');
    cbn [mbind option_bind]; [by apply settles_Some..|by destruct (Hp' m)].
Qed.

(** ** Directories of ISO 9660 *)

(** A directory record is a string of bytes that starts with its length, with
    the length of its name at 32 and the name, not empty, at 33. *)
Definition rec_ok (r : bytes) : Prop :=
  byte_at r 0 = length r ∧ 0 < byte_at r 32 ∧ 33 + byte_at r 32 ≤ length r.
Definition rec_name (r : bytes) : string :=
  TrimSuffix (bytes_str (slice r 33 (byte_at r 32))) ";1".
Definition rec_extent (r : bytes) : Z := le32 r 2.
Definition rec_size (r : bytes) : Z := le32 r 10.

(** Records do not cross sectors; the rest of a sector is zero. *)
Definition sector_ok (rs : list bytes) : Prop :=
  Forall rec_ok rs ∧ length (concat rs) ≤ sectorSize.
Definition sector_bytes (rs : list bytes) : bytes :=
  concat rs ++ zeros (sectorSize - length (concat rs)).
Definition dir_bytes (sectors : list (list bytes)) : bytes := concat (sector_bytes <$> sectors).

Global Instance sector_ok_dec rs : Decision (sector_ok rs) := _.

(** The first record whose name is [name] up to case. *)
Definition first_named (name : string) (rs : list bytes) : option bytes :=
  snd <$> list_find (λ r, EqualFold (rec_name r) name = true) rs.

Lemma first_named_cons name r rs :
  first_named name (r :: rs) =
    if EqualFold (rec_name r) name then Some r else first_named name rs.
Proof.
  unfold first_named. simpl. destruct (EqualFold (rec_name r) name) eqn:E.
  - by rewrite decide_True.
  - rewrite decide_False by congruence. by destruct (list_find _ rs) as [[]|].
Qed.

Lemma first_named_app name rs1 rs2 :
  first_named name (rs1 ++ rs2) =
    match first_named name rs1 with Some r => Some r | None => first_named name rs2 end.
Proof.
  induction rs1 as [|r rs1 IH]; [done|]. rewrite <-app_comm_cons, !first_named_cons, IH.
  by destruct (EqualFold _ _).
Qed.

Definition scan_answer (name : string) (r : option bytes) : option (result (Z * Z)) :=
  Some match r with
       | Some r => Ok (rec_extent r, rec_size r)
       | None => Err (Errorf ("entry " +:+ fmt_q name +:+ " not found"))
       end.

Lemma byte_at_app pre r post i : i < length r → byte_at (pre ++ r ++ post) (length pre + i) = byte_at r i.
Proof.
  intros Hi. unfold byte_at. rewrite lookup_app_r by lia.
  rewrite lookup_app_l by lia. do 4 f_equal. lia.
Qed.

Lemma slice_app pre r post i n :
  i + n ≤ length r → slice (pre ++ r ++ post) (length pre + i) n = slice r i n.
Proof.
  intros Hi. unfold slice. rewrite <-drop_drop, drop_app_length, drop_app_le by lia.
  rewrite take_app_le; [done|]. rewrite length_drop. lia.
Qed.

Lemma le32_app pre r post i : i + 4 ≤ length r → le32 (pre ++ r ++ post) (length pre + i) = le32 r i.
Proof. intros Hi. unfold le32. by rewrite slice_app. Qed.

(** One record of the loop. *)
Lemma scan_record fuel pre r post name :
  rec_ok r →
  scan (S fuel) (pre ++ r ++ post) name (length pre) =
    if EqualFold (rec_name r) name then Some (Ok (rec_extent r, rec_size r))
    else scan fuel (pre ++ r ++ post) name (length pre + length r).
Proof.
  intros (H1 & H2 & H3). cbn [scan]. rewrite !length_app.
  pose proof (byte_at_app pre r post 0 ltac:(lia)) as E0. rewrite Nat.add_0_r in E0.
  rewrite E0, !byte_at_app, !le32_app, slice_app, H1 by lia.
  rewrite decide_True, decide_False, decide_False, decide_False by lia. done.
Qed.

Lemma length_zeros k : length (zeros k) = k.
Proof. apply repeat_length. Qed.

(** The end of a sector. *)
Lemma scan_padding fuel pre k post name i :
  length pre + k = (i + 1) * sectorSize → i * sectorSize ≤ length pre → 0 < k →
  scan (S fuel) (pre ++ zeros k ++ post) name (length pre) =
    if decide (0 < length post) then scan fuel (pre ++ zeros k ++ post) name ((i + 1) * sectorSize)
    else scan_answer name None.
Proof.
  intros Hk Hi Hpos. cbn [scan]. rewrite !length_app. rewrite !length_zeros.
  rewrite decide_True by lia.
  pose proof (byte_at_app pre (zeros k) post 0) as E0. rewrite Nat.add_0_r in E0.
  rewrite E0 by (rewrite length_zeros; lia).
  destruct k as [|k]; [lia|]. rewrite decide_True by done.
  assert (Nat.div (length pre) sectorSize = i) as ->.
  { symmetry. apply (Nat.div_unique _ _ _ (length pre - i * sectorSize)); unfold sectorSize in *; lia. }
  destruct (decide (0 < length post)); [rewrite decide_False by lia|rewrite decide_True by lia]; done.
Qed.

Lemma scan_end fuel d name pos : length d ≤ pos → scan (S fuel) d name pos = scan_answer name None.
Proof. intros. cbn [scan]. by rewrite decide_False by lia. Qed.

(** The rest of a sector from one of its records on. *)
Lemma scan_sector fuel name i post : ∀ rs pre,
  Forall rec_ok rs → i * sectorSize ≤ length pre →
  length pre + length (concat rs) ≤ (i + 1) * sectorSize →
  let pad := zeros ((i + 1) * sectorSize - (length pre + length (concat rs))) in
  let d := pre ++ concat rs ++ pad ++ post in
  length d - length pre < fuel →
  scan fuel d name (length pre) =
    match first_named name rs with
    | Some r => scan_answer name (Some r)
    | None => scan fuel d name ((i + 1) * sectorSize)
    end.
Proof.
  induction rs as [|r rs IH]; intros pre Hok Hi Hlen pad d Hf.
  - subst d pad. cbn [concat app length] in *. rewrite !Nat.add_0_r in *. change (first_named name []) with (@None bytes). cbn match.
    set (k := (i + 1) * sectorSize - length pre) in *. destruct (decide (k = 0)) as [Ek|Ek]; [f_equal; lia|].
    destruct fuel as [|fuel]; [lia|]. cbn [app].
    rewrite (scan_padding fuel pre k post name i) by lia.
    rewrite !length_app, length_zeros in Hf.
    case_decide as Hp.
    + apply scan_fuel; rewrite !length_app, length_zeros; lia.
    + rewrite scan_end; [done|]. rewrite !length_app, length_zeros. lia.
  - apply Forall_cons in Hok as [Hr Hok]. cbn [concat] in *. rewrite length_app in *.
    assert (0 < length r) as Hr0 by (destruct Hr as (_ & ? & ?); lia).
    rewrite first_named_cons. destruct fuel as [|fuel]; [lia|].
    specialize (IH (pre ++ r)). rewrite length_app in IH.
    assert (d = (pre ++ r) ++ concat rs ++
      zeros ((i + 1) * sectorSize - (length pre + length r + length (concat rs))) ++ post) as Ed.
    { subst d pad. by rewrite <-!app_assoc, (length_app r), Nat.add_assoc. }
    rewrite <-Ed in IH. fold pad d in Hf.
    assert (d = pre ++ r ++ concat rs ++ pad ++ post) as Ed' by by subst d; rewrite <-!app_assoc.
    assert (scan (S fuel) d name (length pre) = _) as ->
      by (rewrite Ed' at 1; apply scan_record, Hr).
    destruct (EqualFold (rec_name r) name); [done|]. rewrite <-Ed'.
    assert (length pre + length r ≤ length d) by (rewrite Ed', !length_app; lia).
    rewrite (scan_fuel name d fuel (S fuel)) by lia. apply IH; [done|lia..].
Qed.

Lemma length_sector_bytes rs : sector_ok rs → length (sector_bytes rs) = sectorSize.
Proof.
  intros [_ ?]. unfold sector_bytes. rewrite length_app, length_zeros. lia.
Qed.

Lemma length_dir_bytes ss : Forall sector_ok ss → length (dir_bytes ss) = length ss * sectorSize.
Proof.
  induction 1 as [|rs ss Hrs Hss IH]; [done|]. unfold dir_bytes in *. cbn [fmap list_fmap concat].
  rewrite length_app, length_sector_bytes, IH by done. cbn [length]. lia.
Qed.

Lemma scan_dir name ss : ∀ pre i fuel,
  Forall sector_ok ss → length pre = i * sectorSize →
  length (dir_bytes ss) < fuel →
  scan fuel (pre ++ dir_bytes ss) name (length pre) =
    scan_answer name (first_named name (concat ss)).
Proof.
  induction ss as [|rs ss IH]; intros pre i fuel Hok Hpre Hf.
  - destruct fuel; [lia|]. by rewrite scan_end by (rewrite app_nil_r; lia).
  - apply Forall_cons in Hok as [Hrs Hok]. pose proof Hrs as [Hrecs Hlen].
    assert (pre ++ dir_bytes (rs :: ss) = pre ++ concat rs ++
      zeros ((i + 1) * sectorSize - (length pre + length (concat rs))) ++ dir_bytes ss) as Ed.
    { unfold dir_bytes. cbn [fmap list_fmap concat]. unfold sector_bytes at 1.
      rewrite <-!app_assoc. do 4 f_equal. lia. }
    assert (length (dir_bytes (rs :: ss)) = sectorSize + length (dir_bytes ss)) as El.
    { unfold dir_bytes. cbn [fmap list_fmap concat]. by rewrite length_app, length_sector_bytes. }
    rewrite Ed, (scan_sector fuel name i); [|done|lia|lia|rewrite <-Ed, length_app; lia].
    cbn [concat]. rewrite first_named_app.
    destruct (first_named name rs) as [r|]; [done|]. rewrite <-Ed.
    replace (pre ++ dir_bytes (rs :: ss)) with ((pre ++ sector_bytes rs) ++ dir_bytes ss)
      by (unfold dir_bytes; cbn [fmap list_fmap concat]; by rewrite <-app_assoc).
    assert (length (pre ++ sector_bytes rs) = (i + 1) * sectorSize) as Ep
      by (rewrite length_app, length_sector_bytes by done; lia).
    rewrite <-Ep. apply (IH _ (i + 1)); [done|done|lia].
Qed.

(** The bytes of a directory lie in the image at an extent. *)
Definition dir_at (c : bytes) (extent : Z) (ss : list (list bytes)) : Prop :=
  (0 ≤ extent)%Z ∧ ss ≠ [] ∧ Forall sector_ok ss ∧
  slice c (Z.to_nat (extent * Z.of_nat sectorSize)) (length (dir_bytes ss)) = dir_bytes ss.

Global Instance dir_at_dec c extent ss : Decision (dir_at c extent ss) := _.

Lemma findDirEntry_first F c extent ss name :
  F OpRead = None → dir_at c extent ss →
  findDirEntry F c extent (blen (dir_bytes ss)) name =
    scan_answer name (first_named name (concat ss)).
Proof.
  intros HF (He & Hne & Hok & Hs). unfold findDirEntry, ReadAt, blen.
  rewrite HF, decide_False, Nat2Z.id by (unfold sectorSize; lia).
  assert (0 < length (dir_bytes ss)) as Hpos.
  { rewrite length_dir_bytes by done. destruct ss; [done|]. unfold sectorSize. cbn [length]. lia. }
  rewrite decide_False by lia.
  pose proof (f_equal length Hs) as Hl. unfold slice in Hl. rewrite length_take, length_drop in Hl.
  rewrite decide_True by lia. fold (slice c (Z.to_nat (extent * Z.of_nat sectorSize)) (length (dir_bytes ss))).
  rewrite Hs. apply (scan_dir name ss [] 0); [done|done|lia].
Qed.

(** ** Archives of cpio, format newc *)

Definition hex_value (c : ascii) : option Z :=
  let n := Z_of_byte c in
  if decide (48 ≤ n ≤ 57)%Z then Some (n - 48)%Z
  else if decide (65 ≤ n ≤ 70)%Z then Some (n - 55)%Z
  else if decide (97 ≤ n ≤ 102)%Z then Some (n - 87)%Z else None.
Definition hex_number (b : bytes) : option Z :=
  foldl (λ acc c, a ← acc; d ← hex_value c; Some (a * 16 + d)%Z) (Some 0%Z) b.

Record CpioEntry := mkCpioEntry { ce_name : string; ce_mode : Z; ce_data : bytes }.

Definition align4 (n : nat) : nat := Nat.div (n + 3) 4 * 4.

(** An entry: the magic, thirteen fields of eight digits (the mode is the
    second, the sizes of the data and of the name with its NUL the seventh and
    the twelfth), the name and the data, each padded to a multiple of four. *)
Definition cpio_field (b : bytes) (i : nat) : option Z := hex_number (slice b (6 + 8 * i) 8).
Definition cpio_entry (b : bytes) : option (CpioEntry * bytes) :=
  guard (110 ≤ length b ∧ take 6 b = str_bytes "070701");;
  mode ← cpio_field b 1;
  filesize ← Z.to_nat <$> cpio_field b 6;
  namesize ← Z.to_nat <$> cpio_field b 11;
  let start := align4 (110 + namesize) in
  guard (0 < namesize ∧ byte_at b (110 + namesize - 1) = 0 ∧ start + filesize ≤ length b);;
  Some (mkCpioEntry (bytes_str (slice b 110 (namesize - 1))) mode (slice b start filesize),
        drop (align4 (start + filesize)) b).

(** The entries up to the trailer. *)
Fixpoint cpio_files (fuel : nat) (b : bytes) : option (list CpioEntry) :=
  match fuel with
  | O => None
  | S fuel =>
    '(e, rest) ← cpio_entry b;
    if decide (ce_name e = "TRAILER!!!") then Some []
    else es ← cpio_files fuel rest; Some (e :: es)
  end.

Lemma hex_value_upper n : (0 ≤ n < 16)%Z → hex_value (hex_upper n) = Some n.
Proof.
  intros Hn. unfold hex_value, hex_upper. rewrite Z_of_byte_of_Z.
  destruct (decide (n < 10)%Z); rewrite Z.mod_small by lia; repeat case_decide; f_equal; lia.
Qed.

Lemma hex_number_fmt n : ∀ z, (0 ≤ z < 16 ^ Z.of_nat n)%Z → hex_number (fmt_nX n z) = Some z.
Proof.
  induction n as [|n IH]; intros z Hz; cbn [fmt_nX].
  - assert (z = 0)%Z as -> by lia. done.
  - unfold hex_number in *. rewrite foldl_app, IH.
    + cbn. rewrite hex_value_upper by (apply Z.mod_pos_bound; lia). simpl. f_equal.
      pose proof (Z.div_mod z 16). lia.
    + rewrite Nat2Z.inj_succ, Z.pow_succ_r in Hz by lia.
      split; [apply Z.div_pos; lia|apply Z.div_lt_upper_bound; lia].
Qed.

Lemma length_fmt_nX n z : length (fmt_nX n z) = n.
Proof. revert z. induction n; intros z; cbn [fmt_nX]; [done|]. rewrite length_app, IHn. simpl. lia. Qed.

Definition word32 (z : Z) : Prop := (0 ≤ z < 2 ^ 32)%Z.

Lemma fmt_08X_word z : word32 z → fmt_08X z = fmt_nX 8 z.
Proof.
  intros Hz. unfold fmt_08X. f_equal.
  destruct (decide (z = 0)%Z) as [->|Hnz]; [done|].
  assert (Z.log2 z < 32)%Z by (apply Z.log2_lt_pow2; unfold word32 in *; lia).
  assert (Z.log2 z / 4 < 8)%Z by (apply Z.div_lt_upper_bound; lia). lia.
Qed.

Lemma length_fmt_08X z : word32 z → length (fmt_08X z) = 8.
Proof. intros. by rewrite fmt_08X_word, length_fmt_nX. Qed.

Lemma length_fields zs : Forall word32 zs → length (concat (fmt_08X <$> zs)) = 8 * length zs.
Proof.
  induction 1 as [|z zs Hz Hzs IH]; [done|]. cbn [fmap list_fmap concat length].
  rewrite length_app, length_fmt_08X, IH by done. lia.
Qed.

Lemma slice_field zs i z t :
  Forall word32 zs → zs !! i = Some z →
  slice (concat (fmt_08X <$> zs) ++ t) (8 * i) 8 = fmt_08X z.
Proof.
  intros H. revert i. induction H as [|y zs Hy Hzs IH]; intros i Hi; [done|].
  cbn [fmap list_fmap concat]. rewrite <-app_assoc.
  pose proof (length_fmt_08X y Hy) as Hl. destruct i as [|i].
  - injection Hi as ->. unfold slice. rewrite Nat.mul_0_r, drop_0, <-Hl, take_app_length. done.
  - replace (8 * S i) with (length (fmt_08X y) + 8 * i) by lia.
    unfold slice. rewrite <-drop_drop, drop_app_length. by apply IH.
Qed.

Lemma align4_pad n : align4 n = n + Nat.modulo (4 - Nat.modulo n 4) 4.
Proof.
  unfold align4. pose proof (Nat.div_mod n 4). pose proof (Nat.mod_upper_bound n 4).
  set (q := Nat.div n 4) in *. set (m := Nat.modulo n 4) in *.
  destruct (decide (m = 0)) as [E|E].
  - rewrite E. change (Nat.modulo (4 - 0) 4) with 0.
    rewrite <-(Nat.div_unique (n + 3) 4 q 3); lia.
  - rewrite (Nat.mod_small (4 - m)) by lia.
    rewrite <-(Nat.div_unique (n + 3) 4 (q + 1) (m - 1)); lia.
Qed.

Lemma align4_multiple n k : align4 (align4 n + k) = align4 n + align4 k.
Proof.
  unfold align4. rewrite <-Nat.add_assoc, Nat.div_add_l by lia. apply Nat.mul_add_distr_r.
Qed.

Lemma slice_exact pre l post n : length l = n → slice (pre ++ l ++ post) (length pre) n = l.
Proof. intros <-. unfold slice. by rewrite drop_app_length, take_app_length. Qed.

Definition cpio_header (name : string) (data : bytes) : bytes :=
  str_bytes "070701" ++
  concat (fmt_08X <$> [0; 33188; 0; 0; 1; 0; blen data; 0; 0; 0; 0; slen name + 1; 0]%Z).

Lemma writeCPIOEntry_eq name data :
  writeCPIOEntry name data =
    cpio_header name data ++ str_bytes name ++ zeros 1 ++
    zeros (align4 (110 + (String.length name + 1)) - (110 + (String.length name + 1))) ++
    data ++ zeros (align4 (length data) - length data).
Proof.
  unfold writeCPIOEntry, cpio_header, blen, slen. cbv zeta.
  rewrite !align4_pad, length_app, length_zeros, length_str_bytes.
  rewrite <-!app_assoc, !(Nat.add_comm _ (Nat.modulo _ _)), !Nat.add_sub.
  rewrite Nat2Z.inj_add. do 6 f_equal. destruct data as [|x data]; [done|].
  by rewrite decide_True by (simpl; lia).
Qed.

Lemma cpio_header_field name data i z t :
  word32 (blen data) → word32 (slen name + 1) →
  [0; 33188; 0; 0; 1; 0; blen data; 0; 0; 0; 0; slen name + 1; 0]%Z !! i = Some z → word32 z →
  cpio_field (cpio_header name data ++ t) i = Some z.
Proof.
  intros Hd Hn Hi Hz. unfold cpio_field, cpio_header. rewrite <-app_assoc.
  assert (∀ b, slice (str_bytes "070701" ++ b) (6 + 8 * i) 8 = slice b (8 * i) 8) as ->.
  { intros b. unfold slice. rewrite <-drop_drop. done. }
  rewrite (slice_field _ i z); [|unfold word32 in *; repeat constructor; done || lia|done].
  rewrite fmt_08X_word by done. by apply hex_number_fmt.
Qed.

Lemma length_cpio_header name data :
  word32 (blen data) → word32 (slen name + 1) → length (cpio_header name data) = 110.
Proof.
  intros. unfold cpio_header. rewrite length_app, length_fields; [done|].
  unfold word32 in *. repeat constructor; done || lia.
Qed.

(** An entry is read back, and what follows it is left. *)
Lemma cpio_entry_write name data rest :
  word32 (blen data) → word32 (slen name + 1) →
  cpio_entry (writeCPIOEntry name data ++ rest) = Some (mkCpioEntry name 33188 data, rest).
Proof.
  intros Hd Hn. rewrite writeCPIOEntry_eq, <-!app_assoc.
  pose proof (length_cpio_header name data Hd Hn) as Hh.
  set (h := cpio_header name data) in *. set (nl := String.length name + 1).
  set (start := align4 (110 + nl)). set (pad2 := zeros (align4 (length data) - length data)).
  assert (110 + nl ≤ start) by (unfold start; rewrite align4_pad; lia).
  assert (length data ≤ align4 (length data)) by (rewrite align4_pad; lia).
  set (b := h ++ _).
  assert (length b = start + align4 (length data) + length rest) as Hlb.
  { unfold b, pad2. rewrite !length_app, !length_zeros, length_str_bytes, Hh. lia. }
  assert (b = (h ++ str_bytes name ++ zeros 1 ++ zeros (start - (110 + nl))) ++ data ++ pad2 ++ rest)
    as Eb by (unfold b; by rewrite <-!app_assoc).
  assert (length (h ++ str_bytes name ++ zeros 1 ++ zeros (start - (110 + nl))) = start) as Hst.
  { rewrite !length_app, !length_zeros, length_str_bytes, Hh. lia. }
  assert (Z.to_nat (slen name + 1) = nl) as Hnl by (unfold slen, nl; lia).
  assert (Z.to_nat (blen data) = length data) as Hdl by (unfold blen; lia).
  unfold cpio_entry.
  rewrite option_guard_True by (split; [lia|done]). cbn [mbind option_bind].
  assert (cpio_field b 1 = Some 33188%Z ∧ cpio_field b 6 = Some (blen data) ∧
          cpio_field b 11 = Some (slen name + 1)%Z) as (-> & -> & ->).
  { split_and!; by apply cpio_header_field. }
  cbn [fmap option_fmap option_map mbind option_bind]. rewrite Hnl, Hdl. fold start.
  rewrite option_guard_True.
  - cbn [mbind option_bind]. do 3 f_equal.
    + unfold b. rewrite <-Hh, slice_exact; [apply str_bytes_str|].
      rewrite length_str_bytes. unfold nl. lia.
    + rewrite Eb. rewrite <-Hst at 2. by apply slice_exact.
    + unfold start at 1. rewrite align4_multiple. fold start. rewrite Eb. rewrite <-Hst at 1. rewrite <-drop_drop, drop_app_length.
      rewrite app_assoc. apply drop_app_length'. unfold pad2. rewrite length_app, length_zeros. lia.
  - split_and!; [unfold nl; lia| |lia].
    unfold b, byte_at. rewrite app_assoc, lookup_app_r; rewrite length_app, length_str_bytes, Hh; [|lia].
    by replace (110 + nl - 1 - (110 + String.length name)) with 0 by lia.
Qed.

Lemma cpio_files_data ignition :
  word32 (blen ignition) →
  cpio_files 2 (cpioData ignition) = Some [mkCpioEntry "config.ign" 33188 ignition].
Proof.
  intros Hi. unfold cpioData. cbn [cpio_files]. rewrite cpio_entry_write by done.
  cbn [mbind option_bind ce_name]. rewrite decide_False by done.
  rewrite <-(app_nil_r (writeCPIOEntry "TRAILER!!!" [])), cpio_entry_write by done. done.
Qed.

(** ** Images *)

Lemma slice_lookup b i n k : slice b i n !! k = if decide (k < n) then b !! (i + k) else None.
Proof.
  unfold slice. case_decide.
  - by rewrite lookup_take_lt, lookup_drop.
  - by rewrite lookup_take_ge by lia.
Qed.

Lemma slice_slice b i n j m : j + m ≤ n → slice (slice b i n) j m = slice b (i + j) m.
Proof.
  intros. apply list_eq. intros k. rewrite !slice_lookup. case_decide; [|done].
  rewrite decide_True by lia. f_equal. lia.
Qed.

Lemma byte_at_slice b i n j : j < n → byte_at (slice b i n) j = byte_at b (i + j).
Proof. intros. unfold byte_at. by rewrite slice_lookup, decide_True. Qed.

Lemma write_at_lookup c off data k :
  off + length data ≤ length c →
  write_at c off data !! k =
    if decide (off ≤ k < off + length data) then data !! (k - off) else c !! k.
Proof.
  intros Hl. destruct data as [|x data]; [simpl; by rewrite decide_False by lia|].
  unfold write_at. set (d := x :: data) in *.
  replace (off - length c) with 0 by lia. rewrite app_nil_r.
  assert (length (take off c) = off) as Ht by (rewrite length_take; lia).
  case_decide as Hk.
  - rewrite lookup_app_r, Ht by lia. rewrite lookup_app_l by lia. done.
  - destruct (decide (k < off)).
    + rewrite lookup_app_l by lia. by rewrite lookup_take_lt.
    + rewrite lookup_app_r, Ht by lia. rewrite lookup_app_r by lia.
      rewrite lookup_drop. f_equal. lia.
Qed.

Lemma slice_write_at c off data i n :
  off + length data ≤ length c → i + n ≤ off ∨ off + length data ≤ i →
  slice (write_at c off data) i n = slice c i n.
Proof.
  intros Hl Hd. apply list_eq. intros k. rewrite !slice_lookup. case_decide; [|done].
  rewrite write_at_lookup by done. by rewrite decide_False by lia.
Qed.

Lemma byte_at_write c off data i :
  off + length data ≤ length c → i < off → byte_at (write_at c off data) i = byte_at c i.
Proof.
  intros. unfold byte_at. rewrite write_at_lookup by done. by rewrite decide_False by lia.
Qed.

Lemma slice_write_at_same c off data :
  off + length data ≤ length c → slice (write_at c off data) off (length data) = data.
Proof.
  intros Hl. apply list_eq. intros k. rewrite slice_lookup. case_decide as Hk.
  - rewrite write_at_lookup by done. rewrite decide_True by lia. f_equal. lia.
  - symmetry. apply lookup_ge_None. lia.
Qed.

(** The directories of an image that lead to the slot: the extent and the
    contents of the root, the record of IMAGES, its contents, and the record
    of IGNITION.IMG. *)
Record Layout := mkLayout {
  l_root : Z;
  l_rootdir : list (list bytes);
  l_images : bytes;
  l_imagesdir : list (list bytes);
  l_ignition : bytes
}.

(** The primary volume descriptor, in sector 16, names the root; the records
    lead to the slot. *)
Definition pvdOffset : nat := pvdSector * sectorSize.
Definition layout_of (c : bytes) (l : Layout) : Prop :=
  pvdOffset + sectorSize ≤ length c ∧
  byte_at c (pvdOffset + 0) = 1 ∧ slice c (pvdOffset + 1) 5 = str_bytes "CD001" ∧
  le32 c (pvdOffset + (156 + 2)) = l_root l ∧ le32 c (pvdOffset + (156 + 10)) = blen (dir_bytes (l_rootdir l)) ∧
  dir_at c (l_root l) (l_rootdir l) ∧
  first_named "IMAGES" (concat (l_rootdir l)) = Some (l_images l) ∧
  rec_size (l_images l) = blen (dir_bytes (l_imagesdir l)) ∧
  dir_at c (rec_extent (l_images l)) (l_imagesdir l) ∧
  first_named "IGNITION.IMG" (concat (l_imagesdir l)) = Some (l_ignition l).

Definition slot_offset (l : Layout) : nat := Z.to_nat (rec_extent (l_ignition l)) * sectorSize.
Definition slot_size (l : Layout) : nat := Z.to_nat (rec_size (l_ignition l)).

(** The slot lies in the image, after the descriptor, and apart from the
    directories. *)
Definition apart (l : Layout) (extent : Z) (ss : list (list bytes)) : Prop :=
  let start := Z.to_nat (extent * Z.of_nat sectorSize) in
  start + length (dir_bytes ss) ≤ slot_offset l ∨ slot_offset l + slot_size l ≤ start.
Definition slot_ok (c : bytes) (l : Layout) : Prop :=
  pvdOffset + sectorSize ≤ slot_offset l ∧ slot_offset l + slot_size l ≤ length c ∧
  apart l (l_root l) (l_rootdir l) ∧ apart l (rec_extent (l_images l)) (l_imagesdir l).

Global Instance layout_of_dec c l : Decision (layout_of c l) := _.
Global Instance slot_ok_dec c l : Decision (slot_ok c l).
Proof. unfold slot_ok, apart. apply _. Defined.

Lemma le_val_pos b : (0 ≤ le_val b)%Z.
Proof. induction b as [|c b IH]; simpl; [done|]. pose proof (Z_of_byte_bound c). lia. Qed.

Lemma findIgnitionImg_layout F c l :
  F OpRead = None → layout_of c l →
  findIgnitionImg F c = Some (Ok (Z.of_nat (slot_offset l), Z.of_nat (slot_size l))).
Proof.
  intros HF (Hlen & Hp & Hcd & Hr & Hrs & Hroot & Hf1 & His & Himg & Hf2).
  assert (ReadAt F c sectorSize (Z.of_nat (pvdSector * sectorSize)) = Ok (slice c pvdOffset sectorSize)) as Hpvd.
  { unfold ReadAt. rewrite HF, decide_False by lia. rewrite Nat2Z.id.
    rewrite decide_False by done. fold pvdOffset. by rewrite decide_True. }
  unfold findIgnitionImg. rewrite Hpvd.
  assert (sectorSize = 2048) as Hss by done.
  rewrite byte_at_slice, slice_slice by lia. rewrite decide_False by (intros [?|?]; congruence).
  unfold le32 at 1 2. rewrite !slice_slice by lia.
  fold (le32 c (pvdOffset + (156 + 2))) (le32 c (pvdOffset + (156 + 10))).
  rewrite Hr, Hrs, findDirEntry_first by done. rewrite Hf1. cbn [mbind option_bind scan_answer].
  rewrite His, findDirEntry_first by done. rewrite Hf2. cbn [mbind option_bind scan_answer].
  do 3 f_equal; unfold slot_offset, slot_size.
  - rewrite Nat2Z.inj_mul, Z2Nat.id; [done|]. apply le_val_pos.
  - rewrite Z2Nat.id; [done|]. apply le_val_pos.
Qed.

(** Writing into the slot leaves the layout as it is. *)
Lemma layout_of_write c l data :
  layout_of c l → slot_ok c l → length data = slot_size l →
  let c' := write_at c (slot_offset l) data in
  layout_of c' l ∧ length c' = length c ∧ slot_ok c' l.
Proof.
  intros (Hlen & Hp & Hcd & Hr & Hrs & Hroot & Hf1 & His & Himg & Hf2) (Ho & Hin & Ha1 & Ha2) Hd c'.
  assert (slot_offset l + length data ≤ length c) as Hfit by lia.
  assert (sectorSize = 2048) as Hss by done.
  assert (length c' = length c) as Hl.
  { unfold c'. rewrite length_write_at. destruct data; [done|]. lia. }
  assert (∀ ext ss, dir_at c ext ss → apart l ext ss → dir_at c' ext ss) as Hdir.
  { intros ext ss (? & ? & ? & Hs) Hap. split_and!; [done..|]. unfold c'.
    rewrite slice_write_at; [done|done|]. unfold apart in Hap. lia. }
  split_and!; [|done|by unfold slot_ok; rewrite Hl].
  unfold layout_of. rewrite Hl. split_and!; try done.
  - unfold c'. rewrite byte_at_write by lia. done.
  - unfold c'. rewrite slice_write_at by lia. done.
  - unfold c', le32. rewrite slice_write_at by lia. done.
  - unfold c', le32. rewrite slice_write_at by lia. done.
  - by apply Hdir.
  - by apply Hdir.
Qed.

(** ** Generating *)

(** A directory path as [filepath.Join] gives it. *)
Definition clean_dir (p : string) : Prop :=
  p ≠ "" ∧ Clean p = p ∧ clean_comps (is_rooted p) (Split "/" p) ≠ [].
Global Instance clean_dir_dec p : Decision (clean_dir p) := _.

Lemma normal_agent : normal "agent.iso".
Proof. by apply (bool_decide_unpack _). Qed.

Section paths.
Context (g : ISOGenerator) (id : string).
Context (Hdir : clean_dir (ig_installsPath g)) (Hid : normal id).

Lemma GetInstallPath_eq : GetInstallPath g id = ig_installsPath g +:+ "/" +:+ id.
Proof.
  destruct Hdir as (Hne & Hc & Hst). unfold GetInstallPath, Join.
  rewrite filter_cons_True, filter_cons_True, filter_nil by (done || apply Hid).
  change (JoinStr [?a; ?b] "/") with (a +:+ "/" +:+ JoinStr [b] "/").
  rewrite Clean_app, Hc; [done|done|done|by constructor|done].
Qed.

Lemma outISO_eq : outISO g id = GetInstallPath g id +:+ "/" +:+ "agent.iso".
Proof.
  pose proof Hdir as (Hne & Hc & Hst). unfold outISO. fold (GetInstallPath g id).
  rewrite GetInstallPath_eq. unfold Join.
  rewrite filter_cons_True, filter_cons_True, filter_nil; [|done|by destruct (ig_installsPath g)].
  change (JoinStr [?a; ?b] "/") with (a +:+ "/" +:+ b). rewrite !sapp_assoc.
  change (id +:+ "/" +:+ "agent.iso") with (JoinStr [id; "agent.iso"] "/").
  rewrite Clean_app, Hc; [done|done|done| |done].
  repeat constructor; first [apply Hid|apply normal_agent].
Qed.

Lemma outISO_below : below (GetInstallPath g id) (outISO g id) = true.
Proof. unfold below. rewrite outISO_eq, <-sapp_assoc. apply HasPrefix_app. Qed.

Lemma below_ne p : below (GetInstallPath g id) p = false → p ≠ outISO g id.
Proof. intros Hp ->. rewrite outISO_below in Hp. done. Qed.

End paths.

Section results.
Context `{GzipLaws}.

Lemma RemoveAll_keeps F os dir p :
  below dir p = false → os_files (RemoveAll F os dir) !! p = os_files os !! p.
Proof.
  intros Hp. unfold RemoveAll. destruct (F OpRemove); [done|]. simpl.
  destruct (os_files os !! p) as [c|] eqn:E.
  - by apply map_lookup_filter_Some.
  - apply map_lookup_filter_None. by left.
Qed.

Lemma embedIgnition_frame F os path ign :
  ∃ r os', embedIgnition F os path ign = Some (r, os') ∧ (∀ m, r ≠ Panic m) ∧
    ∀ p, p ≠ path → os_files os' !! p = os_files os !! p.
Proof.
  unfold embedIgnition. destruct (Open F os path) as [c| |m] eqn:EO; [|by eauto 10|].
  2:{ unfold Open in EO. by repeat case_match. }
  destruct (findIgnitionImg_settles F c) as ([[off size]|e|m] & -> & Hp);
    cbn [mbind option_bind]; [|by eauto 10|by destruct (Hp m)].
  case_decide; [by eauto 10|]. destruct (F OpWrite); [by eauto 10|].
  eexists _, _. split; [done|]. split; [by destruct (F OpSync)|].
  intros p Hne. simpl. by rewrite lookup_insert_ne.
Qed.

Lemma copyFile_frame F os src dst :
  (∀ m, (copyFile F os src dst).1 ≠ Panic m) ∧
  ∀ p, p ≠ dst → os_files (copyFile F os src dst).2 !! p = os_files os !! p.
Proof.
  unfold copyFile, Open, Create.
  repeat case_match; simplify_eq/=; split; try done; intros p Hne; by rewrite ?lookup_insert_ne by done.
Qed.

Lemma copyFile_ok os src dst c :
  os_files os !! src = Some c → src ≠ dst →
  copyFile noFaults os src dst =
    (Ok tt, set_files (<[dst := c]>) (set_files (<[dst := []]>) os)).
Proof.
  intros Hc Hne. unfold copyFile, Open, Create, noFaults. rewrite Hc.
  cbn [set_files os_files]. by rewrite lookup_insert_ne, Hc.
Qed.

Lemma embedIgnition_ok os path ign c off size :
  os_files os !! path = Some c → findIgnitionImg noFaults c = Some (Ok (off, size)) →
  ∃ e, embedIgnition noFaults os path ign = Some
    (if decide (size < blen (buildInitrd ign))%Z then (Err e, os)
     else (Ok tt, set_files (<[path := write_at c (Z.to_nat off)
             (buildInitrd ign ++ zeros (Z.to_nat size - length (buildInitrd ign)))]>) os)).
Proof.
  intros Hc Hf. unfold embedIgnition, Open. rewrite Hc. change (noFaults ?o) with (@None error).
  cbv iota beta. rewrite Hf. cbn [mbind option_bind].
  eexists. case_decide; reflexivity.
Qed.

(** Whatever system calls fail, generating an image ends without a panic and
    touches no file outside the directory of the new installation; in
    particular the base images of the releases stay as they are. *)
Theorem GenerateAgentISO_confined F g os id version ign :
  clean_dir (ig_installsPath g) → normal id →
  ∃ r os', GenerateAgentISO F g os id version ign = Some (r, os') ∧
    (∀ m, r ≠ Panic m) ∧
    ∀ p, below (GetInstallPath g id) p = false → os_files os' !! p = os_files os !! p.
Proof.
  intros Hg Hid. unfold GenerateAgentISO.
  destruct (Stat F os (baseISO g version)) as [n|e|m] eqn:ES; [|by eauto 10|].
  2:{ unfold Stat in ES. by repeat case_match. }
  destruct (F OpMkdirAll); [by eauto 10|].
  pose proof (copyFile_frame F os (baseISO g version) (outISO g id)) as [Hp Hf].
  destruct (copyFile _ _ _ _) as [[u|e|m] os1]; simpl in Hp, Hf; [|..|by destruct (Hp m)].
  2:{ eexists _, _. split_and!; [done..|]. intros p Hb. by apply Hf, below_ne. }
  destruct (embedIgnition_frame F os1 (outISO g id) ign) as (r & os2 & -> & Hr & Hf2).
  assert (∀ p, below (GetInstallPath g id) p = false → os_files os2 !! p = os_files os !! p) as Hk.
  { intros p Hb. rewrite Hf2 by by apply below_ne. by apply Hf, below_ne. }
  cbn [mbind option_bind]. destruct r as [u'|e|m]; [| |by destruct (Hr m)].
  - eexists _, _. by split_and!.
  - eexists _, _. split_and!; [done..|]. intros p Hb. rewrite RemoveAll_keeps by done. by apply Hk.
Qed.

Lemma filter_insert_below dir p c (m : gmap string bytes) :
  below dir p = true →
  filter (λ pc, below dir pc.1 = false) (<[p := c]> m) = filter (λ pc, below dir pc.1 = false) m.
Proof. intros Hb. apply map_filter_insert_not. intros y. simpl. by rewrite Hb. Qed.

(** The image with the slot replaced. *)
Definition embedded (c : bytes) (l : Layout) (ign : bytes) : bytes :=
  let initrd := buildInitrd ign in
  write_at c (slot_offset l) (initrd ++ zeros (slot_size l - length initrd)).

(** C16 Generating an image from a base image whose directories lead to a slot:
    when the archive fits, the new image is the base image with the slot
    replaced by the archive and zeros, the code finds the same slot in it
    again, and the archive unpacks to the one file config.ign with the
    ignition; otherwise an error is returned and nothing is left behind. *)
Theorem GenerateAgentISO_embeds g os id version ign c l :
  clean_dir (ig_installsPath g) → normal id →
  below (GetInstallPath g id) (baseISO g version) = false →
  os_files os !! baseISO g version = Some c → layout_of c l → slot_ok c l →
  (blen ign < 2 ^ 32)%Z →
  let initrd := buildInitrd ign in
  let c' := embedded c l ign in
  ∃ r os', GenerateAgentISO noFaults g os id version ign = Some (r, os') ∧
  if decide (length initrd ≤ slot_size l) then
    r = Ok (id, outISO g id) ∧ os_files os' = <[outISO g id := c']> (os_files os) ∧
    length c' = length c ∧ findIgnitionImg noFaults c' = findIgnitionImg noFaults c ∧
    slice c' (slot_offset l) (length initrd) = initrd ∧
    (∀ i, i < slot_offset l ∨ slot_offset l + slot_size l ≤ i → c' !! i = c !! i) ∧
    (∃ a, gunzip initrd = Some a ∧ cpio_files 2 a = Some [mkCpioEntry "config.ign" 33188 ign])
  else
    (∃ e, r = Err e) ∧
    os_files os' = filter (λ pc, below (GetInstallPath g id) pc.1 = false) (os_files os).
Proof.
  intros Hg Hid Hb Hc Hl Hs Hi initrd c'.
  pose proof (below_ne g id Hg Hid _ Hb) as Hne.
  pose proof (findIgnitionImg_layout noFaults c l eq_refl Hl) as Hfind.
  unfold GenerateAgentISO. rewrite (copyFile_ok _ _ _ c) by done.
  unfold Stat. rewrite Hc. change (noFaults ?o) with (@None error). cbv iota beta.
  edestruct embedIgnition_ok as [e ->]; [apply lookup_insert_eq|exact Hfind|].
  fold initrd. cbn [mbind option_bind].
  destruct (decide (length initrd ≤ slot_size l)) as [Hfit|Hbig].
  - rewrite decide_False by (unfold blen; lia). rewrite !Nat2Z.id.
    destruct (layout_of_write c l (initrd ++ zeros (slot_size l - length initrd))) as (Hl' & Hlen & Hs');
      [done|done|rewrite length_app, length_zeros; lia|]. fold c' in Hl', Hlen, Hs'.
    assert (slot_offset l + length (initrd ++ zeros (slot_size l - length initrd)) ≤ length c) as Hin.
    { destruct Hs as (_ & ? & _). rewrite length_app, length_zeros. lia. }
    eexists _, _. split; [done|]. split_and!; [done| |done| | | |].
    + simpl. by rewrite !insert_insert_eq.
    + by rewrite Hfind, (findIgnitionImg_layout noFaults c' l).
    + pose proof (slice_write_at_same c _ _ Hin) as Hw. fold c' in Hw.
      apply (f_equal (take (length initrd))) in Hw. rewrite take_app_length in Hw.
      rewrite <-Hw at 2. unfold slice. rewrite take_take, length_app. f_equal. lia.
    + intros i Hout. unfold c', embedded. cbv zeta. fold initrd. rewrite write_at_lookup by done.
      rewrite decide_False; [done|]. rewrite length_app, length_zeros. lia.
    + eexists. split; [apply gunzip_gzip|]. apply cpio_files_data. unfold word32, blen in *. lia.
  - rewrite decide_True by (unfold blen; lia).
    eexists _, _. split; [done|]. split; [by eexists|]. simpl.
    rewrite !filter_insert_below by (by apply outISO_below). done.
Qed.

End results.

(** ** A small image *)

Definition le_bytes (z : Z) : bytes := (λ k, byte_of_Z (Z.shiftr z (8 * k))) <$> [0; 1; 2; 3]%Z.
Definition exRecord (extent size : Z) (name : string) : bytes :=
  let n := String.length name in
  [byte_of_Z (Z.of_nat (34 + n)); byte_of_Z 0] ++ le_bytes extent ++ zeros 4 ++ le_bytes size ++
  zeros 18 ++ [byte_of_Z (Z.of_nat n)] ++ str_bytes name ++ zeros 1.
Definition exRoot : list bytes := [exRecord 17 2048 (String "000" ""); exRecord 18 2048 "images"].
Definition exImages : list bytes :=
  [exRecord 18 2048 (String "000" ""); exRecord 21 7 "EFIBOOT.IMG;1"; exRecord 19 2048 "IGNITION.IMG;1"].
Definition exLayout : Layout :=
  mkLayout 17 [exRoot] (exRecord 18 2048 "images") [exImages] (exRecord 19 2048 "IGNITION.IMG;1").

(** Twenty sectors: the descriptor, the two directories and the slot. *)
Definition exImage : bytes :=
  foldl (λ c od, write_at c od.1 od.2) (zeros (20 * sectorSize))
    [(pvdOffset, byte_of_Z 1 :: str_bytes "CD001"); (pvdOffset + 158, le_bytes 17);
     (pvdOffset + 166, le_bytes 2048); (17 * sectorSize, concat exRoot);
     (18 * sectorSize, concat exImages)].

(** An archive that is stored as it is. *)
Definition storedGzip : Gzip := λ b, b.
Definition storedGzipLaws : @GzipLaws storedGzip :=
  {| gunzip := Some : bytes → option bytes; gunzip_gzip := λ b, eq_refl |}.

Definition exGen : ISOGenerator := NewISOGenerator "/srv/artifacts".
Definition exId : string := "123e4567-e89b-42d3-a456-426614174000".
Definition exOs : Os := set_files (<["/srv/artifacts/4.16.3/coreos.iso" := exImage]>) os_empty.
Definition exIgn : bytes := str_bytes "{}".

Lemma exImage_layout : layout_of exImage exLayout.
Proof. refine (bool_decide_unpack _ _). vm_compute. exact I. Qed.
Lemma exImage_slot : slot_ok exImage exLayout.
Proof. refine (bool_decide_unpack _ _). vm_compute. exact I. Qed.

Lemma GenerateAgentISO_confined_witness :
  ∃ r os', @GenerateAgentISO storedGzip (λ op, match op with OpSync => Some (Errorf "EIO") | _ => None end)
      exGen exOs exId "4.16.3" exIgn = Some (r, os') ∧ (∀ m, r ≠ Panic m) ∧
    ∀ p, below (GetInstallPath exGen exId) p = false → os_files os' !! p = os_files exOs !! p.
Proof.
  apply (@GenerateAgentISO_confined storedGzip);
    refine (bool_decide_unpack _ _); vm_compute; exact I.
Defined.

Lemma GenerateAgentISO_embeds_witness :
  let initrd := @buildInitrd storedGzip exIgn in
  let c' := @embedded storedGzip exImage exLayout exIgn in
  ∃ r os', @GenerateAgentISO storedGzip noFaults exGen exOs exId "4.16.3" exIgn = Some (r, os') ∧
  if decide (length initrd ≤ slot_size exLayout) then
    r = Ok (exId, outISO exGen exId) ∧ os_files os' = <[outISO exGen exId := c']> (os_files exOs) ∧
    length c' = length exImage ∧ findIgnitionImg noFaults c' = findIgnitionImg noFaults exImage ∧
    slice c' (slot_offset exLayout) (length initrd) = initrd ∧
    (∀ i, i < slot_offset exLayout ∨ slot_offset exLayout + slot_size exLayout ≤ i →
       c' !! i = exImage !! i) ∧
    (∃ a, @gunzip _ storedGzipLaws initrd = Some a ∧
       cpio_files 2 a = Some [mkCpioEntry "config.ign" 33188 exIgn])
  else
    (∃ e, r = Err e) ∧
    os_files os' = filter (λ pc, below (GetInstallPath exGen exId) pc.1 = false) (os_files exOs).
Proof.
  apply (@GenerateAgentISO_embeds storedGzip storedGzipLaws).
  - refine (bool_decide_unpack _ _); vm_compute; exact I.
  - refine (bool_decide_unpack _ _); vm_compute; exact I.
  - vm_compute. reflexivity.
  - apply lookup_insert_eq.
  - exact exImage_layout.
  - exact exImage_slot.
  - reflexivity.
Defined.

End Iso.
