(* ===== verification/Mesh.v ===== *)
(** internal/mesh: the cluster view (gossip.go), routing of blob requests to the
    node that owns them (router.go), replication and anti-entropy
    (replication.go).

    The mesh is a set of nodes by registry address, each with the blob store its
    [InternalHandler] serves.  An operation of a node is a computation in
    [M Net]: it works on the node's own store and exchanges requests with the
    handlers of other nodes.  The outcome of the k-th system or network call is
    an oracle ([MeshEnv]).  Membership is what the third-party library
    memberlist reports. *)

From S2P Require Import Prelude Effect GoLib Digest Os Blob Badger Metadata HashRing.

Module Mesh.
Import BlobStore.

(** ** gossip.go *)

Record ClusterConfig := mkClusterConfig {
  cc_NodeID : string;
  cc_Peers : list string;
  cc_ReplicationFactor : Z;
  cc_RegistryAddr : string
}.

Record NodeMeta := mkNodeMeta {
  nm_NodeID : string;
  nm_RegistryAddr : string;
  nm_GRPCAddr : string;
  nm_JoinedAt : Z
}.

(** encoding/json on [NodeMeta]; [meta_Unmarshal] is the value left in a zero
    [NodeMeta], also when decoding fails, since the code drops the error. *)
Class MetaJson := {
  meta_Marshal : NodeMeta → bytes;
  meta_Unmarshal : bytes → NodeMeta
}.
Class MetaJsonLaws `{MetaJson} := {
  meta_roundtrip m : meta_Unmarshal (meta_Marshal m) = m;
  meta_nonempty m : meta_Marshal m ≠ []
}.

(** A member as memberlist reports it. *)
Record MlNode := mkMlNode { mn_Name : string; mn_Meta : bytes }.

Record Cluster := mkCluster {
  cl_config : ClusterConfig;
  cl_memberlist : list MlNode;
  cl_hash : HashRing.ConsistentHash;
  cl_localNode : NodeMeta;
  cl_onJoin : bool;
  cl_onLeave : bool
}.

Definition with_hash (c : Cluster) (h : HashRing.ConsistentHash) : Cluster :=
  mkCluster (cl_config c) (cl_memberlist c) h (cl_localNode c) (cl_onJoin c) (cl_onLeave c).

(** [created] is what [memberlist.Create] returns. *)
Definition NewCluster (cfg : ClusterConfig) (now : Time) (created : result (list MlNode))
    : result Cluster :=
  match created with
  | Err e => Err (wrap "creating memberlist" e)
  | Panic m => Panic m
  | Ok members =>
    Ok (mkCluster cfg members
          (HashRing.Add (HashRing.NewConsistentHash 150) (cc_NodeID cfg))
          (mkNodeMeta (cc_NodeID cfg) (cc_RegistryAddr cfg) "" ((now - unixEpoch) / Second))
          false false)
  end.

(** [joined] is what [memberlist.Join] returns for a list of peers. *)
Definition Join (c : Cluster) (joined : list string → result Z) (peers : list string)
    : result unit :=
  let peers := match peers with [] => cc_Peers (cl_config c) | _ => peers end in
  match peers with
  | [] => Ok tt
  | _ => match joined peers with
         | Err e => Err (wrap "joining cluster" e)
         | Panic m => Panic m
         | Ok _ => Ok tt
         end
  end.

Definition LocalNode (c : Cluster) : NodeMeta := cl_localNode c.

Definition emptyMeta : NodeMeta := mkNodeMeta "" "" "" 0.

Section cluster.
Context {MJ : MetaJson}.

Definition member_meta (m : MlNode) : NodeMeta :=
  let meta := match mn_Meta m with [] => emptyMeta | _ => meta_Unmarshal (mn_Meta m) end in
  if decide (nm_NodeID meta = "")
  then mkNodeMeta (mn_Name m) (nm_RegistryAddr meta) (nm_GRPCAddr meta) (nm_JoinedAt meta)
  else meta.

Definition Members (c : Cluster) : list NodeMeta := member_meta <$> cl_memberlist c.

Definition GetNode (c : Cluster) (nodeID : string) : option NodeMeta :=
  (λ im, member_meta im.2) <$> list_find (λ m, mn_Name m = nodeID) (cl_memberlist c).

Definition GetPrimaryNode (c : Cluster) (key : string) : string := HashRing.Get (cl_hash c) key.

(** The fuel is one turn of the ring and one step; [None] is a loop that does
    not end, which needs virtual nodes that collide. *)
Definition GetReplicaNodes (c : Cluster) (key : string) : option (list string) :=
  HashRing.GetN (S (length (HashRing.ch_ring (cl_hash c)))) (cl_hash c) key
    (cc_ReplicationFactor (cl_config c)).

Definition IsLocalPrimary (c : Cluster) (key : string) : bool :=
  bool_decide (HashRing.Get (cl_hash c) key = cc_NodeID (cl_config c)).

Definition NumMembers (c : Cluster) : Z := Z.of_nat (length (cl_memberlist c)).

Definition OnJoin (c : Cluster) : Cluster :=
  mkCluster (cl_config c) (cl_memberlist c) (cl_hash c) (cl_localNode c) true (cl_onLeave c).
Definition OnLeave (c : Cluster) : Cluster :=
  mkCluster (cl_config c) (cl_memberlist c) (cl_hash c) (cl_localNode c) (cl_onJoin c) true.

(** [clusterDelegate.NodeMeta]: what the node announces; [nil] above the
    limit. *)
Definition delegate_NodeMeta (c : Cluster) (limit : Z) : bytes :=
  let data := meta_Marshal (cl_localNode c) in
  if decide (limit < blen data)%Z then [] else data.

(** The callbacks of memberlist: the cluster afterwards and the name the
    goroutine of a registered callback is started with. *)
Definition NotifyJoin (c : Cluster) (node : MlNode) : Cluster * option string :=
  (with_hash c (HashRing.Add (cl_hash c) (mn_Name node)),
   if cl_onJoin c then Some (mn_Name node) else None).

Definition NotifyLeave (c : Cluster) (node : MlNode) : result (Cluster * option string) :=
  h ← HashRing.Remove (cl_hash c) (mn_Name node);
  Ok (with_hash c h, if cl_onLeave c then Some (mn_Name node) else None).

End cluster.

(** ** Nodes and requests between them *)

Record Peer := mkPeer { pe_blobs : BlobStore; pe_os : Os }.

(** The nodes by registry address, and the number of the next call. *)
Record Net := mkNet { nt_nodes : gmap string Peer; nt_calls : nat }.

(** The k-th call: which system calls fail on the node it works on, the random
    names of temporary files, whether the network fails, and where it cuts the
    response. *)
Class MeshEnv := {
  mesh_faults : nat → Faults;
  mesh_rnds : nat → list N;
  mesh_link : nat → option error;
  mesh_cut : nat → option (nat * error)
}.

Definition NodeOp (A : Type) : Type :=
  Faults → list N → BlobStore → Os → result A * (BlobStore * Os).

Record Reply := mkReply { rp_Status : Z; rp_Length : Z; rp_Body : Reader }.

Inductive Method := GET | HEAD | PUT | POST.
Global Instance Method_eq_dec : EqDecision Method.
Proof. solve_decision. Defined.

(** [http.Error]. *)
Definition http_Error (msg : string) (code : Z) : Reply :=
  let b := str_bytes (msg +:+ String "010" "") in mkReply code (blen b) (NewReader b).

(** ** router.go: InternalHandler *)

Definition internalPrefix : string := "/v2/_internal/blobs/".

Definition handleGet (d : Digest) : NodeOp Reply := λ F rnds bs os,
  match Get F bs os d with
  | (Ok (reader, size), st) => (Ok (mkReply 200 size (NewReader (reader_data reader))), st)
  | (Err e, st) =>
    (Ok (if decide (e = ErrBlobNotFound) then http_Error "not found" 404
         else http_Error (err_msg e) 500), st)
  | (Panic m, st) => (Panic m, st)
  end.

Definition handleHead (d : Digest) : NodeOp Reply := λ F rnds bs os,
  (match Size F bs os d with
   | Ok size => Ok (mkReply 200 size (NewReader []))
   | Err e => Ok (if decide (e = ErrBlobNotFound) then http_Error "not found" 404
                  else http_Error (err_msg e) 500)
   | Panic m => Panic m
   end, (bs, os)).

Definition handlePut (d : Digest) (body : Reader) (ContentLength : Z) : NodeOp Reply :=
  λ F rnds bs os,
  match Put F bs os rnds d body ContentLength with
  | (Ok _, os') => (Ok (mkReply 201 0 (NewReader [])), (bs, os'))
  | (Err e, os') => (Ok (http_Error (err_msg e) 500), (bs, os'))
  | (Panic m, os') => (Panic m, (bs, os'))
  end.

Definition InternalHandler_ServeHTTP (method : Method) (path : string) (body : Reader)
    (ContentLength : Z) : NodeOp Reply := λ F rnds bs os,
  if decide (slen path < 30)%Z then (Ok (http_Error "invalid path" 400), (bs, os))
  else
    match Parse (sdrop (String.length internalPrefix) path) with
    | Err _ => (Ok (http_Error "invalid digest" 400), (bs, os))
    | Panic m => (Panic m, (bs, os))
    | Ok dgst =>
      match method with
      | GET => handleGet dgst F rnds bs os
      | HEAD => handleHead dgst F rnds bs os
      | PUT => handlePut dgst body ContentLength F rnds bs os
      | POST => (Ok (http_Error "method not allowed" 405), (bs, os))
      end
    end.

(** ** net/http and net/url between nodes *)

(** Percent-decoding; [None] on a malformed escape. *)
Definition hex_nibble (c : ascii) : option Z :=
  let n := Z_of_byte c in
  if decide (48 ≤ n ≤ 57)%Z then Some (n - 48)%Z
  else if decide (65 ≤ n ≤ 70)%Z then Some (n - 55)%Z
  else if decide (97 ≤ n ≤ 102)%Z then Some (n - 87)%Z else None.
Fixpoint unescape (s : string) : option string :=
  match s with
  | EmptyString => Some EmptyString
  | String "%" (String a (String b s)) =>
    x ← hex_nibble a; y ← hex_nibble b; r ← unescape s; Some (String (byte_of_Z (16 * x + y)) r)
  | String "%" _ => None
  | String c s => r ← unescape s; Some (String c r)
  end.

Definition before (c : ascii) (s : string) : string := default "" (head (Split2 c s)).

(** The path of a URL after its host; control characters are refused. *)
Definition is_control (c : ascii) : bool := bool_decide (Z_of_byte c < 32 ∨ Z_of_byte c = 127)%Z.
Definition url_path (rest : string) : option string :=
  if existsb is_control (str_bytes rest) then None
  else unescape (before "?" (before "#" rest)).

(** A request body of a given [ContentLength] on the wire: what the server
    reads, the length it is told, and the error of the client.  A length of
    zero or less with a body is sent without a length. *)
Definition send_body (r : Reader) (len : Z) : Reader * Z * option error :=
  if decide (len ≤ 0)%Z then
    match rd_err r with
    | None => (r, -1, None)%Z
    | Some e => (mkReader (rd_data r) (Some (Errorf "unexpected EOF")), -1, Some e)%Z
    end
  else if decide (blen (rd_data r) < len)%Z then
    (mkReader (rd_data r) (Some (Errorf "unexpected EOF")), len,
     Some (default (Errorf "http: ContentLength with Body length") (rd_err r)))
  else if decide (blen (rd_data r) = len ∧ rd_err r = None) then (r, len, None)
  else (NewReader (take (Z.to_nat len) (rd_data r)), len,
        Some (default (Errorf "http: ContentLength with Body length") (rd_err r))).

Section mesh.
Context {MJ : MetaJson} {ME : MeshEnv}.

(** A call on the store of one node. *)
Definition on_node {A} (addr : string) (op : NodeOp A) : M Net A := λ n,
  let k := nt_calls n in
  match nt_nodes n !! addr with
  | None => (Err (Errorf "connection refused"), mkNet (nt_nodes n) (S k))
  | Some p =>
    let '(r, (bs, os)) := op (mesh_faults k) (mesh_rnds k) (pe_blobs p) (pe_os p) in
    (r, mkNet (<[addr := mkPeer bs os]> (nt_nodes n)) (S k))
  end.

(** The network in front of a call. *)
Definition reach : M Net unit := λ n,
  (match mesh_link (nt_calls n) with Some e => Err e | None => Ok tt end,
   mkNet (nt_nodes n) (S (nt_calls n))).

(** The response as the client reads it. *)
Definition receive (rp : Reply) : M Net Reply := λ n,
  (Ok match mesh_cut (nt_calls n) with
      | Some (k, e) =>
        mkReply (rp_Status rp) (rp_Length rp) (mkReader (take k (rd_data (rp_Body rp))) (Some e))
      | None => rp
      end, mkNet (nt_nodes n) (S (nt_calls n))).

(** A handler that panics closes the connection. *)
Definition recovered {A} (op : NodeOp A) : NodeOp A := λ F rnds bs os,
  match op F rnds bs os with (Panic _, st) => (Err (Errorf "EOF"), st) | r => r end.

(** [client.Do] of a request to [http://addr/v2/_internal/blobs/dgst]. *)
Definition client_Do (addr : string) (method : Method) (d : Digest) (body : Reader) (len : Z)
    : M Net Reply :=
  match url_path (internalPrefix +:+ d) with
  | None => throw (Errorf "parse: invalid URL")
  | Some path =>
    reach ≫= λ _,
    let '(body', len', err) := send_body body len in
    on_node addr (recovered (InternalHandler_ServeHTTP method path body' len')) ≫= λ rp,
    match err with Some e => throw e | None => receive rp end
  end.

(** ** router.go: Router *)

(** [rt_self]: the address whose node holds the router's blob store. *)
Record Router := mkRouter { rt_cluster : Cluster; rt_self : string }.

Definition local_Exists (self : string) (d : Digest) : M Net bool :=
  on_node self (λ F _ bs os, (Exists F bs os d, (bs, os))).
Definition local_Get (self : string) (d : Digest) : M Net (Reader * Z) :=
  on_node self (λ F _ bs os,
    match Get F bs os d with
    | (Ok (r, size), st) => (Ok (NewReader (reader_data r), size), st)
    | (Err e, st) => (Err e, st)
    | (Panic m, st) => (Panic m, st)
    end).
Definition local_Put (self : string) (d : Digest) (r : Reader) (size : Z) : M Net unit :=
  on_node self (λ F rnds bs os, let '(res, os') := Put F bs os rnds d r size in (res, (bs, os'))).

(** A node with an address. *)
Definition reachable (c : Cluster) (nodeID : string) : option NodeMeta :=
  node ← GetNode c nodeID;
  if decide (nm_RegistryAddr node = "") then None else Some node.

Definition status_error (st : Z) : error := Errorf ("node returned status " +:+ fmt_d st).

Definition fetchBlobFromNode (node : NodeMeta) (d : Digest) : M Net (Reader * Z) :=
  client_Do (nm_RegistryAddr node) GET d (NewReader []) 0 ≫= λ resp,
  if decide (rp_Status resp = 404)%Z then throw ErrBlobNotFound
  else if decide (rp_Status resp ≠ 200)%Z then throw (status_error (rp_Status resp))
  else mret (rp_Body resp, rp_Length resp).

Definition pushBlobToNode (node : NodeMeta) (d : Digest) (r : Reader) (size : Z) : M Net unit :=
  client_Do (nm_RegistryAddr node) PUT d r size ≫= λ resp,
  if decide (rp_Status resp ≠ 200 ∧ rp_Status resp ≠ 201)%Z then throw (status_error (rp_Status resp))
  else mret tt.

Definition checkBlobOnNode (node : NodeMeta) (d : Digest) : M Net bool :=
  attempt (client_Do (nm_RegistryAddr node) HEAD d (NewReader []) 0) ≫= λ r,
  mret match r with inl resp => bool_decide (rp_Status resp = 200)%Z | inr _ => false end.

Definition GetBlob (r : Router) (d : Digest) : M Net (Reader * Z) :=
  let c := rt_cluster r in
  local_Exists (rt_self r) d ≫= λ here,
  if (here : bool) then local_Get (rt_self r) d
  else if IsLocalPrimary c d then throw ErrBlobNotFound
  else
    let primary := GetPrimaryNode c d in
    if decide (primary = "") then throw ErrBlobNotFound
    else match reachable c primary with
         | None => throw (Errorf ("primary node " +:+ primary +:+ " not reachable"))
         | Some node => fetchBlobFromNode node d
         end.

Definition PutBlob (r : Router) (d : Digest) (reader : Reader) (size : Z) : M Net unit :=
  let c := rt_cluster r in
  if IsLocalPrimary c d then local_Put (rt_self r) d reader size
  else
    let primary := GetPrimaryNode c d in
    if decide (primary = "") then local_Put (rt_self r) d reader size
    else match reachable c primary with
         | None => local_Put (rt_self r) d reader size
         | Some node => pushBlobToNode node d reader size
         end.

Definition HasBlob (r : Router) (d : Digest) : M Net bool :=
  let c := rt_cluster r in
  local_Exists (rt_self r) d ≫= λ here,
  if (here : bool) then mret true
  else if IsLocalPrimary c d then mret false
  else
    let primary := GetPrimaryNode c d in
    if decide (primary = "") then mret false
    else match reachable c primary with
         | None => mret false
         | Some node => checkBlobOnNode node d
         end.

(** ** replication.go: Replicator *)

Record replicationJob := mkJob { rj_digest : Digest; rj_targets : list string }.

Record Replicator := mkReplicator {
  rp_cluster : Cluster;
  rp_self : string;
  rp_queue : list replicationJob;
  rp_closed : bool
}.

Definition queueCapacity : Z := 10000.

Definition NewReplicator (c : Cluster) (self : string) : Replicator := mkReplicator c self [] false.

(** [Replicate]: the targets but this node; a full queue drops the job, a
    closed one panics.  [None]: the ring loop does not end. *)
Definition Replicate (r : Replicator) (d : Digest) : option (result Replicator) :=
  targets ← GetReplicaNodes (rp_cluster r) d;
  let localID := nm_NodeID (LocalNode (rp_cluster r)) in
  let replicaTargets := filter (λ id, id ≠ localID) targets in
  Some (if decide (replicaTargets = []) then Ok r
        else if rp_closed r then Panic "send on closed channel"
        else if decide (Z.of_nat (length (rp_queue r)) < queueCapacity)%Z then
          Ok (mkReplicator (rp_cluster r) (rp_self r)
                (rp_queue r ++ [mkJob d replicaTargets]) false)
        else Ok r).

(** [Stop] closes the queue; closing it twice panics. *)
Definition Stop (r : Replicator) : result Replicator :=
  if rp_closed r then Panic "close of closed channel"
  else Ok (mkReplicator (rp_cluster r) (rp_self r) (rp_queue r) true).

(** [bytesReader.Read] into a buffer of [n] bytes: the bytes, the offset
    afterwards and whether [io.EOF] is returned. *)
Definition bytesReader_Read (data : bytes) (offset n : nat) : bytes * nat * bool :=
  if decide (length data ≤ offset) then ([], offset, true)
  else let p := take n (drop offset data) in (p, offset + length p, false).

Definition replicateToNode (node : NodeMeta) (d : Digest) (data : bytes) (size : Z) : M Net unit :=
  client_Do (nm_RegistryAddr node) PUT d (NewReader data) size ≫= λ resp,
  if decide (rp_Status resp ≠ 200 ∧ rp_Status resp ≠ 201)%Z then throw (status_error (rp_Status resp))
  else mret tt.

Definition processJob (r : Replicator) (job : replicationJob) : M Net unit :=
  attempt (local_Get (rp_self r) (rj_digest job)) ≫= λ got,
  match got with
  | inr _ => mret tt
  | inl (reader, size) =>
    for_each (λ nodeID,
      match reachable (rp_cluster r) nodeID with
      | None => mret tt
      | Some node => ignoring (replicateToNode node (rj_digest job) (rd_data reader) size)
      end) (rj_targets job)
  end.

(** One turn of a worker: it stops when the queue is closed and empty. *)
Definition worker (r : Replicator) : M Net Replicator :=
  match rp_queue r with
  | [] => mret r
  | job :: queue =>
    processJob r job ≫= λ _,
    mret (mkReplicator (rp_cluster r) (rp_self r) queue (rp_closed r))
  end.

(** ** replication.go: AntiEntropySync *)

Record AntiEntropySync := mkAntiEntropy { ae_cluster : Cluster; ae_self : string }.

Definition pullFromNode (s : AntiEntropySync) (node : NodeMeta) (d : Digest) : M Net unit :=
  client_Do (nm_RegistryAddr node) GET d (NewReader []) 0 ≫= λ resp,
  if decide (rp_Status resp ≠ 200)%Z then throw (status_error (rp_Status resp))
  else local_Put (ae_self s) d (rp_Body resp) (rp_Length resp).

(** The other replicas in order, until one delivers the blob. *)
Fixpoint pullFromAny (s : AntiEntropySync) (localID : string) (d : Digest) (replicas : list string)
    : M Net bool :=
  match replicas with
  | [] => mret false
  | nodeID :: replicas =>
    if decide (nodeID = localID) then pullFromAny s localID d replicas
    else match reachable (ae_cluster s) nodeID with
         | None => pullFromAny s localID d replicas
         | Some node =>
           attempt (pullFromNode s node d) ≫= λ r,
           match r with
           | inl _ => mret true
           | inr _ => pullFromAny s localID d replicas
           end
         end
  end.

(** One blob of the pass: how many were pulled.  A ring loop that does not end
    is a panic of the model. *)
Definition syncBlob (s : AntiEntropySync) (count : Z) (d : Digest) : M Net Z :=
  let localID := nm_NodeID (LocalNode (ae_cluster s)) in
  match GetReplicaNodes (ae_cluster s) d with
  | None => lift (Panic "GetN does not return")
  | Some replicas =>
    if decide (localID ∈ replicas) then
      local_Exists (ae_self s) d ≫= λ here,
      if (here : bool) then mret count
      else pullFromAny s localID d replicas ≫= λ ok,
           mret (if (ok : bool) then count + 1 else count)%Z
    else mret count
  end.

Fixpoint sync_fold {A} (f : Z → A → M Net Z) (count : Z) (l : list A) : M Net Z :=
  match l with
  | [] => mret count
  | x :: l => f count x ≫= λ count, sync_fold f count l
  end.

(** [sync]; [db] is the metadata as the pass reads it. *)
Definition sync `{Badger} (s : AntiEntropySync) (db : DB) : M Net Z :=
  match MetadataStore.ListRepositories db with
  | Err _ => mret 0%Z
  | Panic m => lift (Panic m)
  | Ok repos =>
    sync_fold (λ count repo,
      match MetadataStore.GetRepoBlobs db repo with
      | Err _ => mret count
      | Panic m => lift (Panic m)
      | Ok digests => sync_fold (syncBlob s) count digests
      end) 0%Z repos
  end.

End mesh.
End Mesh.
