(* ===== verification/MeshSpec.v ===== *)
(** What the mesh guarantees: no exchange between nodes breaks a store, a blob
    stored through one node is found through every other, replication delivers
    to every replica and anti-entropy restores what is missing. *)

From S2P Require Import Prelude Effect GoLib Digest Os Blob Badger Metadata HashRing Mesh.

Module MeshSpec.
Import BlobStore.
Import Mesh.

(** ** The files of a node *)

Definition files_of (n : Net) (addr : string) : option (string * gmap string bytes) :=
  (λ p, (bs_root (pe_blobs p), os_files (pe_os p))) <$> nt_nodes n !! addr.

(** A store between two calls: content addressed, and without temporary
    files. *)
Definition node_ok (root : string) (files : gmap string bytes) : Prop :=
  good_root root ∧ store_ok root files ∧ ∀ dir k, files !! tempName dir k = None.
Definition net_ok (n : Net) : Prop :=
  ∀ addr root files, files_of n addr = Some (root, files) → node_ok root files.

(** The node at an address has a blob, and with the given contents. *)
Definition holds (n : Net) (addr : string) (d : Digest) (c : bytes) : Prop :=
  ∃ root files, files_of n addr = Some (root, files) ∧ files !! blobFile root d = Some c.

(** Nothing is lost: the nodes and their roots stay, and every blob. *)
Definition grows (root : string) (f f' : gmap string bytes) : Prop :=
  ∀ d c, canonical d → f !! blobFile root d = Some c → ∃ c', f' !! blobFile root d = Some c'.

(** ** Calls on one store *)

(** A call keeps the store in order and its blobs. *)
Definition node_safe {A} (op : NodeOp A) : Prop :=
  ∀ F rnds bs os, F OpRemove = None → node_ok (bs_root bs) (os_files os) →
    let '(bs', os') := (op F rnds bs os).2 in
    bs_root bs' = bs_root bs ∧ node_ok (bs_root bs) (os_files os') ∧
    grows (bs_root bs) (os_files os) (os_files os').

Lemma grows_refl root f : grows root f f.
Proof. intros d c _ Hc. eauto. Qed.

Lemma node_safe_same {A} (op : NodeOp A) :
  (∀ F rnds bs os, bs_root (op F rnds bs os).2.1 = bs_root bs ∧
     os_files (op F rnds bs os).2.2 = os_files os) → node_safe op.
Proof.
  intros Hs F rnds bs os _ Hok. destruct (Hs F rnds bs os) as [Hr Hf].
  destruct (op F rnds bs os) as [r [bs' os']]. simpl in *. rewrite Hf.
  split_and!; [done|done|apply grows_refl].
Qed.

Lemma Get_same F rnds bs os d :
  bs_root (handleGet d F rnds bs os).2.1 = bs_root bs ∧
  os_files (handleGet d F rnds bs os).2.2 = os_files os.
Proof.
  unfold handleGet. destruct (Get_files F bs os d) as [Hf Hr].
  destruct (Get F bs os d) as [[[r size]|e|m] [bs' os']]; simpl in *; done.
Qed.

Lemma Put_safe F bs os rnds d r n :
  F OpRemove = None → node_ok (bs_root bs) (os_files os) →
  let os' := (Put F bs os rnds d r n).2 in
  node_ok (bs_root bs) (os_files os') ∧ grows (bs_root bs) (os_files os) (os_files os').
Proof.
  intros HF Hok. assert (node_ok (bs_root bs) (os_files os) ∧
    grows (bs_root bs) (os_files os) (os_files os)) as Hsame by (split; [done|apply grows_refl]).
  destruct (blobPath bs d) as [p|e|m] eqn:Hp; [|unfold Put; by rewrite Hp..].
  destruct (Put F bs os rnds d r n) as [res os'] eqn:HP. cbn [snd].
  destruct Hok as (Hr & Hs & Ht).
  destruct (Put_cases_path F HF bs os rnds d r n res os' p Hr Hp HP)
    as [(e & _ & ->)|[(_ & -> & _)|(_ & Hd & _ & _ & -> & ->)]]; [done|done|].
  subst d. split; [split_and!; [done|by apply store_ok_insert_blob|]|].
  - intros dir k. rewrite lookup_insert_ne; [done|]. intros E. symmetry in E. revert E.
    apply tempName_not_blobFile, FromBytes_canonical.
  - intros d c Hd Hc. rewrite lookup_insert. case_decide; eauto.
Qed.

Lemma handlePut_safe d r n : node_safe (handlePut d r n).
Proof.
  intros F rnds bs os HF Hok. unfold handlePut. pose proof (Put_safe F bs os rnds d r n HF Hok) as [H1 H2].
  destruct (Put F bs os rnds d r n) as [[]]; simpl in *; done.
Qed.

Lemma handleGet_safe d : node_safe (handleGet d).
Proof. apply node_safe_same. intros. apply Get_same. Qed.

Lemma ServeHTTP_safe method path r n : node_safe (InternalHandler_ServeHTTP method path r n).
Proof.
  intros F rnds bs os HF Hok. unfold InternalHandler_ServeHTTP.
  assert (∀ r : result Reply, let '(bs', os') := (r, (bs, os)).2 in
    bs_root bs' = bs_root bs ∧ node_ok (bs_root bs) (os_files os') ∧
    grows (bs_root bs) (os_files os) (os_files os')) as Hsame.
  { intros ?. cbn. split_and!; [done|done|apply grows_refl]. }
  case_decide; [apply Hsame|]. destruct (Parse _) as [d|e|m]; [|apply Hsame..].
  destruct method; [by apply handleGet_safe|apply Hsame|by apply handlePut_safe|apply Hsame].
Qed.

Lemma recovered_safe {A} (op : NodeOp A) : node_safe op → node_safe (recovered op).
Proof.
  intros Hop F rnds bs os HF Hok. specialize (Hop F rnds bs os HF Hok). unfold recovered.
  by destruct (op F rnds bs os) as [[]].
Qed.

(** ** Calls of the mesh *)

Section safety.
Context {MJ : MetaJson} {ME : MeshEnv}.
Context (Hrm : ∀ k, mesh_faults k OpRemove = None).

(** The nodes of [n0] are there with their roots and blobs, and in order. *)
Definition extends (n0 n : Net) : Prop :=
  net_ok n ∧ ∀ addr root f, files_of n0 addr = Some (root, f) →
    ∃ f', files_of n addr = Some (root, f') ∧ grows root f f'.

Lemma extends_refl n : net_ok n → extends n n.
Proof. intros Hn. split; [done|]. intros addr root f Hf. eauto using grows_refl. Qed.

Lemma extends_holds n0 n addr d c :
  canonical d → extends n0 n → holds n0 addr d c → ∃ c', holds n addr d c'.
Proof.
  intros Hd [_ He] (root & f & Hf & Hc). destruct (He addr root f Hf) as (f' & Hf' & Hg).
  destruct (Hg d c Hd Hc) as [c' Hc']. exists c', root, f'. done.
Qed.

Lemma extends_tick n0 n k : extends n0 n → extends n0 (mkNet (nt_nodes n) k).
Proof. done. Qed.

Lemma on_node_keeps {A} n0 addr (op : NodeOp A) : node_safe op → keeps (extends n0) (on_node addr op).
Proof.
  intros Hop n [Hok He]. unfold on_node.
  destruct (nt_nodes n !! addr) as [p|] eqn:Hp; [|done].
  assert (files_of n addr = Some (bs_root (pe_blobs p), os_files (pe_os p))) as Hfp
    by by unfold files_of; rewrite Hp.
  pose proof (Hop (mesh_faults (nt_calls n)) (mesh_rnds (nt_calls n)) (pe_blobs p) (pe_os p)
    (Hrm _) (Hok _ _ _ Hfp)) as Hs.
  destruct (op _ _ _ _) as [r [bs os]]. simpl in Hs. destruct Hs as (Hr & Hs & Hg).
  assert (∀ a, files_of (mkNet (<[addr:=mkPeer bs os]> (nt_nodes n)) (S (nt_calls n))) a =
    if decide (a = addr) then Some (bs_root (pe_blobs p), os_files os) else files_of n a) as Hfo.
  { intros a. unfold files_of. simpl. case_decide as E; [subst|by rewrite lookup_insert_ne].
    rewrite lookup_insert_eq. simpl. by rewrite Hr. }
  split.
  - intros a root f. rewrite Hfo. case_decide; [by intros [= <- <-]|apply Hok].
  - intros a root f Hf. simpl. rewrite Hfo. destruct (He a root f Hf) as (f' & Hf' & Hg').
    case_decide; [|eauto]. subst a. rewrite Hfp in Hf'. injection Hf' as <- <-.
    eexists. split; [done|]. intros d c Hd Hc. destruct (Hg' d c Hd Hc) as [c' Hc']. by eapply Hg.
Qed.

Lemma reach_keeps n0 : keeps (extends n0) reach.
Proof. by intros n Hn. Qed.
Lemma receive_keeps n0 rp : keeps (extends n0) (receive rp).
Proof. by intros n Hn. Qed.

Lemma client_Do_keeps n0 addr method d r len : keeps (extends n0) (client_Do addr method d r len).
Proof.
  unfold client_Do. destruct (url_path _) as [path|]; [|apply keeps_lift].
  apply keeps_bind; [apply reach_keeps|]. intros _. destruct (send_body r len) as [[r' len'] err].
  apply keeps_bind; [apply on_node_keeps, recovered_safe, ServeHTTP_safe|]. intros rp.
  destruct err; [apply keeps_lift|apply receive_keeps].
Qed.

Lemma local_Exists_keeps n0 self d : keeps (extends n0) (local_Exists self d).
Proof. by apply on_node_keeps, node_safe_same. Qed.

Lemma local_Get_keeps n0 self d : keeps (extends n0) (local_Get self d).
Proof.
  apply on_node_keeps, node_safe_same. intros F rnds bs os.
  destruct (Get_files F bs os d) as [Hf Hr].
  destruct (Get F bs os d) as [[[r size]|e|m] [bs' os']]; simpl in *; done.
Qed.

Lemma local_Put_keeps n0 self d r size : keeps (extends n0) (local_Put self d r size).
Proof.
  apply on_node_keeps. intros F rnds bs os HF Hok.
  pose proof (Put_safe F bs os rnds d r size HF Hok) as [H1 H2].
  by destruct (Put F bs os rnds d r size) as [res os'].
Qed.

Ltac mesh_keeps :=
  repeat first
    [ apply client_Do_keeps | apply local_Exists_keeps | apply local_Get_keeps
    | apply local_Put_keeps | keeps_step ].

Lemma GetBlob_keeps n0 r d : keeps (extends n0) (GetBlob r d).
Proof. unfold GetBlob, fetchBlobFromNode. mesh_keeps. Qed.
Lemma PutBlob_keeps n0 r d rd size : keeps (extends n0) (PutBlob r d rd size).
Proof. unfold PutBlob, pushBlobToNode. mesh_keeps. Qed.
Lemma HasBlob_keeps n0 r d : keeps (extends n0) (HasBlob r d).
Proof. unfold HasBlob, checkBlobOnNode. mesh_keeps. Qed.
Lemma worker_keeps n0 r : keeps (extends n0) (worker r).
Proof. unfold worker, processJob, replicateToNode. mesh_keeps. Qed.

Lemma pullFromAny_keeps n0 s id d l : keeps (extends n0) (pullFromAny s id d l).
Proof.
  induction l as [|x l IH]; simpl; [apply keeps_ret|]. unfold pullFromNode.
  case_decide; [done|]. destruct (reachable _ x); [|done]. mesh_keeps. done.
Qed.

Lemma syncBlob_keeps n0 s count d : keeps (extends n0) (syncBlob s count d).
Proof.
  unfold syncBlob. destruct (GetReplicaNodes _ _); [|apply keeps_lift]. cbv zeta.
  case_decide; [|apply keeps_ret]. apply keeps_bind; [apply local_Exists_keeps|].
  intros []; [apply keeps_ret|]. apply keeps_bind; [apply pullFromAny_keeps|].
  intros ?. apply keeps_ret.
Qed.

Lemma keeps_sync_fold {A} I (f : Z → A → M Net Z) l :
  (∀ c x, keeps I (f c x)) → ∀ c, keeps I (sync_fold f c l).
Proof.
  intros Hf. induction l as [|x l IH]; intros c; simpl; [apply keeps_ret|].
  apply keeps_bind; [apply Hf|]. intros ?. apply IH.
Qed.

Lemma sync_keeps `{Badger} n0 s (db : DB) : keeps (extends n0) (sync s db).
Proof.
  unfold sync. destruct (MetadataStore.ListRepositories db); [|apply keeps_ret|apply keeps_lift].
  apply keeps_sync_fold. intros c repo.
  destruct (MetadataStore.GetRepoBlobs db repo); [|apply keeps_ret|apply keeps_lift].
  apply keeps_sync_fold. intros ??. apply syncBlob_keeps.
Qed.

(** Everything that happens in the mesh: requests routed by some node, jobs of
    its replicator, passes of its anti-entropy, and any other request to an
    internal handler. *)
Inductive Activity `{Badger} :=
  | AGet (r : Router) (d : Digest)
  | APut (r : Router) (d : Digest) (rd : Reader) (size : Z)
  | AHas (r : Router) (d : Digest)
  | AReplicate (r : Replicator)
  | ASync (s : AntiEntropySync) (db : DB)
  | ARequest (addr : string) (method : Method) (path : string) (body : Reader) (len : Z).

Definition activity `{Badger} (a : Activity) : M Net unit :=
  match a with
  | AGet r d => ignoring (GetBlob r d)
  | APut r d rd size => ignoring (PutBlob r d rd size)
  | AHas r d => ignoring (HasBlob r d)
  | AReplicate r => ignoring (worker r)
  | ASync s db => ignoring (sync s db)
  | ARequest addr method path body len =>
    ignoring (on_node addr (recovered (InternalHandler_ServeHTTP method path body len)))
  end.

Definition history `{Badger} (l : list Activity) : Net → Net :=
  λ n, foldl (λ n a, (activity a n).2) n l.

Lemma activity_keeps `{Badger} n0 a : keeps (extends n0) (activity a).
Proof.
  destruct a; apply keeps_ignoring.
  - apply GetBlob_keeps.
  - apply PutBlob_keeps.
  - apply HasBlob_keeps.
  - apply worker_keeps.
  - apply sync_keeps.
  - apply on_node_keeps, recovered_safe, ServeHTTP_safe.
Qed.

Lemma history_extends `{Badger} n0 l n : extends n0 n → extends n0 (history l n).
Proof.
  revert n. induction l as [|a l IH]; intros n Hn; [done|]. apply IH. by apply activity_keeps.
Qed.

End safety.

(** ** URLs of blobs *)

Definition plain (c : ascii) : bool :=
  bool_decide (c ≠ "%"%char ∧ c ≠ "?"%char ∧ c ≠ "#"%char) && negb (is_control c).

Lemma plain_url_path s : Forall (λ c, plain c = true) (str_bytes s) → url_path s = Some s.
Proof.
  intros Hs. assert (existsb is_control (str_bytes s) = false) as Hc.
  { induction Hs as [|c l Hc _ IH]; [done|]. simpl. unfold plain in Hc.
    destruct (is_control c); [by rewrite andb_false_r in Hc|done]. }
  assert (∀ c, plain c = false → not_in c s) as Hn.
  { intros c Hc' Hin. rewrite Forall_forall in Hs. apply Hs in Hin. congruence. }
  unfold url_path. rewrite Hc. unfold before.
  rewrite (Split2_none "#") by by apply Hn. simpl. rewrite Split2_none by by apply Hn. simpl.
  clear Hc Hn. induction s as [|c s IH]; [done|]. simpl in Hs. apply Forall_cons in Hs as [Hc Hs].
  specialize (IH Hs). simpl.
  destruct c as [[] [] [] [] [] [] [] []]; first [by rewrite IH|by vm_compute in Hc].
Qed.

Lemma hex_plain c : is_hex c = true → plain c = true.
Proof. by destruct c as [[] [] [] [] [] [] [] []]. Qed.

Lemma blob_url d : canonical d → url_path (internalPrefix +:+ d) = Some (internalPrefix +:+ d).
Proof.
  intros (h & -> & _ & Hh). apply plain_url_path. rewrite !str_bytes_app. rewrite !Forall_app.
  split_and!; [by repeat constructor|by repeat constructor|].
  unfold all_hex in Hh. eapply Forall_impl; [exact Hh|]. intros c Hc. apply hex_plain. by apply Is_true_true.
Qed.

Lemma ServeHTTP_blob method d r n F rnds bs os :
  canonical d →
  InternalHandler_ServeHTTP method (internalPrefix +:+ d) r n F rnds bs os =
    match method with
    | GET => handleGet d F rnds bs os
    | HEAD => handleHead d F rnds bs os
    | PUT => handlePut d r n F rnds bs os
    | POST => (Ok (http_Error "method not allowed" 405), (bs, os))
    end.
Proof.
  intros Hd. unfold InternalHandler_ServeHTTP. rewrite decide_False.
  - by rewrite sdrop_app, Parse_canonical.
  - destruct Hd as (h & -> & Hl & _). unfold slen. rewrite !slength_app, Hl. simpl. lia.
Qed.

(** ** A mesh in which nothing fails *)

(** [upd n addr f n']: the files of one node have become [f]. *)
Definition upd (n : Net) (addr root : string) (f : gmap string bytes) (n' : Net) : Prop :=
  ∀ a, files_of n' a = if decide (a = addr) then Some (root, f) else files_of n a.
Definition same_files (n n' : Net) : Prop := ∀ a, files_of n' a = files_of n a.

Lemma upd_same n addr root f n' : files_of n addr = Some (root, f) → upd n addr root f n' → same_files n n'.
Proof. intros Hf Hu a. rewrite Hu. case_decide; congruence. Qed.

Lemma same_trans n1 n2 n3 : same_files n1 n2 → same_files n2 n3 → same_files n1 n3.
Proof. intros H1 H2 a. by rewrite H2, H1. Qed.

Lemma same_net_ok n n' : same_files n n' → net_ok n → net_ok n'.
Proof. intros Hs Hok addr root f. rewrite Hs. apply Hok. Qed.

Lemma same_holds n n' addr d c : same_files n n' → holds n' addr d c ↔ holds n addr d c.
Proof. intros Hs. unfold holds. by rewrite (Hs addr). Qed.

Lemma holds_content n addr d c : net_ok n → canonical d → holds n addr d c → d = FromBytes c.
Proof. intros Hok Hd (root & f & Hf & Hc). destruct (Hok _ _ _ Hf) as (_ & Hs & _). by apply Hs. Qed.

Class Calm {ME : MeshEnv} : Prop := {
  calm_faults k : mesh_faults k = noFaults;
  calm_rnds k : mesh_rnds k ≠ [];
  calm_link k : mesh_link k = None;
  calm_cut k : mesh_cut k = None
}.

Local Opaque FromBytes.

Section calm.
Context {MJ : MetaJson} {ME : MeshEnv} {CA : Calm}.

(** The effect of a call whose result and files do not depend on the mapping
    tables. *)
Lemma on_node_calm {A} n addr root f (op : NodeOp A) r f' :
  files_of n addr = Some (root, f) →
  (∀ rnds bs os, rnds ≠ [] → bs_root bs = root → os_files os = f →
     ∃ bs' os', op noFaults rnds bs os = (r, (bs', os')) ∧ bs_root bs' = root ∧ os_files os' = f') →
  ∃ n', on_node addr op n = (r, n') ∧ upd n addr root f' n'.
Proof.
  intros Hf Hop. unfold files_of in Hf. destruct (nt_nodes n !! addr) as [p|] eqn:Hp; [|done].
  injection Hf as Hr Hf. unfold on_node. rewrite Hp, calm_faults.
  destruct (Hop (mesh_rnds (nt_calls n)) (pe_blobs p) (pe_os p)) as (bs & os & -> & Hr' & Hf');
    [apply calm_rnds|done..|].
  eexists. split; [done|]. intros a. unfold files_of. simpl. case_decide as E.
  - subst a. rewrite lookup_insert_eq. simpl. by rewrite Hr', Hf'.
  - by rewrite lookup_insert_ne.
Qed.

(** The same for a request to its handler. *)
Lemma client_Do_calm n addr root f method d r len r' len' rp f' :
  canonical d → files_of n addr = Some (root, f) → send_body r len = (r', len', None) →
  (∀ rnds bs os, rnds ≠ [] → bs_root bs = root → os_files os = f →
     ∃ bs' os', InternalHandler_ServeHTTP method (internalPrefix +:+ d) r' len' noFaults rnds bs os =
       (Ok rp, (bs', os')) ∧ bs_root bs' = root ∧ os_files os' = f') →
  ∃ n', client_Do addr method d r len n = (Ok rp, n') ∧ upd n addr root f' n'.
Proof.
  intros Hd Hf Hsend Hop. unfold client_Do. rewrite blob_url by done.
  unfold mbind, M_bind, reach. rewrite calm_link, Hsend.
  destruct (on_node_calm (mkNet (nt_nodes n) (S (nt_calls n))) addr root f
    (recovered (InternalHandler_ServeHTTP method (internalPrefix +:+ d) r' len')) (Ok rp) f')
    as (n' & -> & Hu); [done| |].
  { intros rnds bs os Hr Hb Ho. unfold recovered.
    destruct (Hop rnds bs os Hr Hb Ho) as (bs' & os' & -> & ? & ?). by exists bs', os'. }
  unfold receive. rewrite calm_cut. eexists. by split.
Qed.

Definition stored (root : string) (f : gmap string bytes) (d : Digest) : option bytes :=
  f !! blobFile root d.

Lemma client_GET n addr root f d :
  net_ok n → canonical d → files_of n addr = Some (root, f) →
  ∃ n', client_Do addr GET d (NewReader []) 0 n =
    (Ok match stored root f d with
        | Some c => mkReply 200 (blen c) (NewReader c)
        | None => http_Error "not found" 404
        end, n') ∧ same_files n n'.
Proof.
  intros Hok Hd Hf. destruct (Hok _ _ _ Hf) as (Hr & _ & _).
  edestruct (client_Do_calm n addr root f GET d (NewReader []) 0) as (n' & -> & Hu); [done..| |].
  2:{ exists n'. split; [done|]. by eapply upd_same. }
  intros rnds bs os _ <- <-. rewrite ServeHTTP_blob by done. unfold handleGet, stored.
  destruct (os_files os !! blobFile (bs_root bs) d) as [c|] eqn:Hc.
  - destruct (Get_present bs os d c Hr Hd Hc) as (rd & bs' & os' & -> & <- & ? & ?). by exists bs', os'.
  - rewrite Get_absent by done. by exists bs, os.
Qed.

Lemma client_HEAD n addr root f d :
  net_ok n → canonical d → files_of n addr = Some (root, f) →
  ∃ rp n', client_Do addr HEAD d (NewReader []) 0 n = (Ok rp, n') ∧ same_files n n' ∧
    (rp_Status rp = 200%Z ↔ is_Some (stored root f d)).
Proof.
  intros Hok Hd Hf. destruct (Hok _ _ _ Hf) as (Hr & _ & _).
  edestruct (client_Do_calm n addr root f HEAD d (NewReader []) 0 (NewReader []) (-1)
    match stored root f d with
    | Some c => mkReply 200 (blen c) (NewReader []) | None => http_Error "not found" 404 end)
    as (n' & -> & Hu); [done..| |].
  2:{ eexists _, n'. split_and!; [done|by eapply upd_same|]. by destruct (stored root f d); split. }
  intros rnds bs os _ <- <-. exists bs, os. rewrite ServeHTTP_blob by done.
  unfold handleHead, stored. rewrite Size_canonical by done.
  by destruct (os_files os !! _).
Qed.

Lemma rnds_fresh root f dir rnds :
  rnds ≠ [] → node_ok root f → List.Exists (λ k, f !! tempName dir k = None) rnds.
Proof. intros Hne (_ & _ & Ht). destruct rnds as [|k rnds]; [done|]. left. apply Ht. Qed.

Lemma local_PUT_op root f data len rnds bs os :
  node_ok root f → rnds ≠ [] → bs_root bs = root → os_files os = f → (len ≤ 0 ∨ len = blen data)%Z →
  ∃ os' c, Put noFaults bs os rnds (FromBytes data) (NewReader data) len = (Ok tt, os') ∧
    os_files os' = <[blobFile root (FromBytes data) := c]> f.
Proof.
  intros Hok Hr <- <- Hl. apply Put_again; [apply Hok| |done]. by eapply rnds_fresh.
Qed.

Lemma send_all data : ∃ len', send_body (NewReader data) (blen data) = (NewReader data, len', None) ∧
  (len' ≤ 0 ∨ len' = blen data)%Z.
Proof.
  unfold send_body. case_decide; [exists (-1)%Z; split; [done|lia]|].
  exists (blen data). cbn [rd_data rd_err NewReader].
  rewrite decide_False by lia. rewrite decide_True by done. split; [done|lia].
Qed.

(** A blob sent to a node is there afterwards. *)
Lemma client_PUT n addr root f data :
  net_ok n → files_of n addr = Some (root, f) →
  ∃ rp n' c, client_Do addr PUT (FromBytes data) (NewReader data) (blen data) n = (Ok rp, n') ∧
    rp_Status rp = 201%Z ∧ holds n' addr (FromBytes data) c.
Proof.
  intros Hok Hf. pose proof (FromBytes_canonical data) as Hd.
  destruct (send_all data) as (len' & Hs & Hl).
  (* the contents do not depend on the names of temporary files *)
  unfold client_Do. rewrite blob_url by done. unfold mbind, M_bind, reach. rewrite calm_link, Hs.
  unfold files_of in Hf. destruct (nt_nodes n !! addr) as [p|] eqn:Hp; [|done]. injection Hf as Hr' Hf'.
  unfold on_node. cbn [nt_nodes nt_calls]. rewrite Hp, calm_faults. unfold recovered. rewrite ServeHTTP_blob by done.
  unfold handlePut.
  destruct (local_PUT_op root f data len' (mesh_rnds (S (nt_calls n))) (pe_blobs p) (pe_os p))
    as (os' & c & -> & Hos); [apply (Hok addr); unfold files_of; rewrite Hp; simpl; congruence|apply calm_rnds|done..|].
  unfold receive. simpl. rewrite calm_cut. eexists _, _, c. split_and!; [done|done|].
  exists root, (os_files os'). unfold files_of. simpl. rewrite lookup_insert_eq. simpl.
  rewrite Hr'. split; [done|]. by rewrite Hos, lookup_insert_eq.
Qed.

Lemma local_Put_calm n self root f data :
  net_ok n → files_of n self = Some (root, f) →
  ∃ n' c, local_Put self (FromBytes data) (NewReader data) (blen data) n = (Ok tt, n') ∧
    holds n' self (FromBytes data) c.
Proof.
  intros Hok Hf. pose proof Hf as Hf0. unfold files_of in Hf.
  destruct (nt_nodes n !! self) as [p|] eqn:Hp; [|done]. injection Hf as Hr' Hf'.
  unfold local_Put, on_node. rewrite Hp, calm_faults.
  destruct (local_PUT_op root f data (blen data) (mesh_rnds (nt_calls n)) (pe_blobs p) (pe_os p))
    as (os' & c & -> & Hos); [by apply (Hok self)|apply calm_rnds|done|done|by right|].
  eexists _, c. split; [done|]. exists root, (os_files os'). unfold files_of. simpl.
  rewrite lookup_insert_eq. simpl. rewrite Hr'. split; [done|]. by rewrite Hos, lookup_insert_eq.
Qed.

Lemma local_Exists_calm n self root f d :
  net_ok n → canonical d → files_of n self = Some (root, f) →
  ∃ n', local_Exists self d n = (Ok (bool_decide (is_Some (stored root f d))), n') ∧ same_files n n'.
Proof.
  intros Hok Hd Hf. destruct (Hok _ _ _ Hf) as (Hr & _ & _).
  edestruct (on_node_calm (A := bool) n self root f) as (n' & E & Hu); [done| |].
  2:{ unfold local_Exists. rewrite E. exists n'. split; [done|]. by eapply upd_same. }
  intros rnds bs os _ <- <-. exists bs, os. by rewrite Exists_canonical.
Qed.

Lemma local_Get_calm n self root f d c :
  net_ok n → canonical d → files_of n self = Some (root, f) → stored root f d = Some c →
  ∃ n', local_Get self d n = (Ok (NewReader c, blen c), n') ∧ same_files n n'.
Proof.
  intros Hok Hd Hf Hc. destruct (Hok _ _ _ Hf) as (Hr & _ & _).
  edestruct (on_node_calm (A := Reader * Z) n self root f) as (n' & E & Hu); [done| |].
  2:{ unfold local_Get. rewrite E. exists n'. split; [done|]. by eapply upd_same. }
  intros rnds bs os _ <- <-.
  destruct (Get_present bs os d c Hr Hd Hc) as (rd & bs' & os' & -> & <- & ? & ?). by exists bs', os'.
Qed.

End calm.

(** ** Views of the mesh *)

(** Two rings with the same members assign every key to the same member. *)
Lemma same_owner c c' key :
  HashRing.exact c → HashRing.exact c' → HashRing.ch_replicas c = HashRing.ch_replicas c' →
  HashRing.ch_members c = HashRing.ch_members c' → HashRing.Get c key = HashRing.Get c' key.
Proof.
  intros Hc Hc' Hr Hm.
  assert (∀ h, h ∈ HashRing.ch_ring c ↔ h ∈ HashRing.ch_ring c') as Hring.
  { intros h. rewrite !HashRing.elem_of_ring by done. by rewrite Hr, Hm. }
  destruct (decide (HashRing.ch_ring c = [])) as [E|E].
  - assert (HashRing.ch_ring c' = []) as E'.
    { apply HashRing.ring_empty in E; [|done]. apply HashRing.ring_empty; [done|congruence]. }
    unfold HashRing.Get. by rewrite E, E'.
  - assert (HashRing.ch_ring c' ≠ []) as E'.
    { intros E'. apply E, HashRing.ring_empty; [done|]. rewrite Hm. by apply HashRing.ring_empty. }
    destruct (HashRing.Get_nearest c key Hc E) as (h & [Hh Hn] & Ho).
    destruct (HashRing.Get_nearest c' key Hc' E') as (h' & Hn' & Ho').
    assert (HashRing.nearest c' key h) as Hnh.
    { split; [by apply Hring|]. intros y Hy. by apply Hn, Hring. }
    rewrite <-(HashRing.nearest_unique c' key h h' Hc' Hnh Hn') in Ho'.
    apply (HashRing.ex_nodes c Hc) in Ho. rewrite Hr, Hm in Ho.
    apply (HashRing.ex_nodes c' Hc') in Ho. congruence.
Qed.

Lemma owner_member c key :
  HashRing.exact c → HashRing.ch_members c ≠ ∅ → HashRing.Get c key ∈ HashRing.ch_members c.
Proof.
  intros Hc Hm. destruct (HashRing.Get_nearest c key Hc) as (h & _ & Ho).
  - intros E. by apply Hm, HashRing.ring_empty.
  - by apply (HashRing.ex_nodes c Hc) in Ho as [? _].
Qed.

Section views.
Context {MJ : MetaJson}.

(** A node sees the mesh as it is: its ring holds the members without
    collisions, memberlist resolves the others to their addresses, and its own
    store is the one at its address. *)
Record view_ok (addrs : gmap string string) (c : Cluster) (self : string) : Prop := {
  vo_ring : HashRing.exact (cl_hash c);
  vo_replicas : HashRing.ch_replicas (cl_hash c) = 150%Z;
  vo_members : HashRing.ch_members (cl_hash c) = dom addrs;
  vo_self : addrs !! cc_NodeID (cl_config c) = Some self;
  vo_local : nm_NodeID (cl_localNode c) = cc_NodeID (cl_config c);
  vo_others id a : addrs !! id = Some a → id ≠ cc_NodeID (cl_config c) →
    ∃ node, reachable c id = Some node ∧ nm_RegistryAddr node = a;
  vo_named : addrs !! "" = None
}.

Lemma view_primary addrs c self key :
  view_ok addrs c self →
  ∃ a, addrs !! GetPrimaryNode c key = Some a ∧ GetPrimaryNode c key ≠ "" ∧
    if IsLocalPrimary c key then a = self
    else ∃ node, reachable c (GetPrimaryNode c key) = Some node ∧ nm_RegistryAddr node = a.
Proof.
  intros Hv. assert (GetPrimaryNode c key ∈ dom addrs) as Hp.
  { rewrite <-(vo_members _ _ _ Hv). apply owner_member; [apply Hv|]. rewrite (vo_members _ _ _ Hv).
    intros E. pose proof (elem_of_dom_2 _ _ _ (vo_self _ _ _ Hv)) as Hd. rewrite E in Hd. set_solver. }
  apply elem_of_dom in Hp as [a Ha]. exists a. split_and!; [done| |].
  - intros E. rewrite E, (vo_named _ _ _ Hv) in Ha. done.
  - unfold IsLocalPrimary. case_bool_decide as E.
    + unfold GetPrimaryNode in Ha. rewrite E, (vo_self _ _ _ Hv) in Ha. congruence.
    + by apply (vo_others _ _ _ Hv).
Qed.

Lemma views_agree addrs c1 self1 c2 self2 key :
  view_ok addrs c1 self1 → view_ok addrs c2 self2 → GetPrimaryNode c1 key = GetPrimaryNode c2 key.
Proof.
  intros H1 H2. apply same_owner; [apply H1|apply H2| |].
  - by rewrite (vo_replicas _ _ _ H1), (vo_replicas _ _ _ H2).
  - by rewrite (vo_members _ _ _ H1), (vo_members _ _ _ H2).
Qed.

(** Every member runs a node. *)
Definition all_up (addrs : gmap string string) (n : Net) : Prop :=
  ∀ id a, addrs !! id = Some a → is_Some (files_of n a).

Lemma extends_up addrs n0 n : extends n0 n → all_up addrs n0 → all_up addrs n.
Proof.
  intros [_ He] Hup id a Ha. destruct (Hup id a Ha) as [[root f] Hf].
  destruct (He a root f Hf) as (f' & Hf' & _). eauto.
Qed.

(** Putting at any node stores at the primary. *)
Lemma PutBlob_calm {ME : MeshEnv} {CA : Calm} addrs r n data :
  let d := FromBytes data in
  view_ok addrs (rt_cluster r) (rt_self r) → net_ok n → all_up addrs n →
  ∃ n' a c, PutBlob r d (NewReader data) (blen data) n = (Ok tt, n') ∧
    addrs !! GetPrimaryNode (rt_cluster r) d = Some a ∧ holds n' a d c.
Proof.
  intros d Hv Hok Hup. destruct (view_primary addrs _ _ d Hv) as (a & Ha & Hne & Hcase).
  destruct (Hup _ _ Ha) as [[root f] Hf]. unfold PutBlob.
  destruct (IsLocalPrimary (rt_cluster r) d).
  - subst a. destruct (local_Put_calm n (rt_self r) root f data Hok Hf) as (n' & c & HP & Hh). fold d in HP. rewrite HP.
    by exists n', (rt_self r), c.
  - destruct Hcase as (node & Hnode & Haddr). rewrite decide_False by done. rewrite Hnode.
    unfold pushBlobToNode. rewrite Haddr.
    destruct (client_PUT n a root f data Hok Hf) as (rp & n' & c & Hdo & Hst & Hh).
    exists n', a, c. split; [|done]. unfold mbind, M_bind. fold d in Hdo. rewrite Hdo.
    by rewrite Hst, decide_False by lia.
Qed.

(** Getting at any node finds what its own store or the primary has. *)
Lemma GetBlob_calm {ME : MeshEnv} {CA : Calm} addrs r n d a c :
  view_ok addrs (rt_cluster r) (rt_self r) → net_ok n → all_up addrs n → canonical d →
  addrs !! GetPrimaryNode (rt_cluster r) d = Some a → holds n a d c →
  ∃ n' a' c', GetBlob r d n = (Ok (NewReader c', blen c'), n') ∧
    (a' = rt_self r ∨ a' = a) ∧ holds n a' d c' ∧ same_files n n'.
Proof.
  intros Hv Hok Hup Hd Ha (root & f & Hf & Hc).
  destruct (view_primary addrs _ _ d Hv) as (a0 & Ha0 & Hne & Hcase).
  assert (a0 = a) as -> by congruence.
  destruct (Hup _ _ (vo_self _ _ _ Hv)) as [[roots fs] Hfs].
  unfold GetBlob. destruct (local_Exists_calm n (rt_self r) roots fs d Hok Hd Hfs) as (n1 & HE & Hs1).
  unfold mbind at 1, M_bind at 1. rewrite HE. case_bool_decide as Hhere.
  - destruct Hhere as [c' Hc'].
    destruct (local_Get_calm n1 (rt_self r) roots fs d c') as (n2 & HG & Hs2);
      [by eapply same_net_ok|done|by rewrite Hs1|done|].
    exists n2, (rt_self r), c'. split_and!; [done|by left| |by eapply same_trans].
    by exists roots, fs.
  - destruct (IsLocalPrimary (rt_cluster r) d).
    { exfalso. apply Hhere. subst a. rewrite Hfs in Hf. injection Hf as -> ->. by exists c. }
    destruct Hcase as (node & Hnode & Haddr). rewrite decide_False by done. rewrite Hnode.
    unfold fetchBlobFromNode. rewrite Haddr.
    destruct (client_GET n1 a root f d) as (n2 & HG & Hs2); [by eapply same_net_ok|done|by rewrite Hs1|].
    unfold mbind, M_bind. rewrite HG. unfold stored. rewrite Hc.
    exists n2, a, c. split_and!; [done|by right| |by eapply same_trans]. by exists root, f.
Qed.

Lemma HasBlob_calm {ME : MeshEnv} {CA : Calm} addrs r n d a c :
  view_ok addrs (rt_cluster r) (rt_self r) → net_ok n → all_up addrs n → canonical d →
  addrs !! GetPrimaryNode (rt_cluster r) d = Some a → holds n a d c →
  (HasBlob r d n).1 = Ok true.
Proof.
  intros Hv Hok Hup Hd Ha (root & f & Hf & Hc).
  destruct (view_primary addrs _ _ d Hv) as (a0 & Ha0 & Hne & Hcase).
  assert (a0 = a) as -> by congruence.
  destruct (Hup _ _ (vo_self _ _ _ Hv)) as [[roots fs] Hfs].
  unfold HasBlob. destruct (local_Exists_calm n (rt_self r) roots fs d Hok Hd Hfs) as (n1 & HE & Hs1).
  unfold mbind at 1, M_bind at 1. rewrite HE. case_bool_decide as Hhere; [done|].
  destruct (IsLocalPrimary (rt_cluster r) d).
  { exfalso. apply Hhere. subst a. rewrite Hfs in Hf. injection Hf as -> ->. by exists c. }
  destruct Hcase as (node & Hnode & Haddr). rewrite decide_False by done. rewrite Hnode.
  unfold checkBlobOnNode, attempt. rewrite Haddr.
  destruct (client_HEAD n1 a root f d) as (rp & n2 & HG & Hs2 & Hst);
    [by eapply same_net_ok|done|by rewrite Hs1|].
  unfold mbind, M_bind. rewrite HG. simpl. rewrite bool_decide_eq_true_2; [done|].
  apply Hst. by exists c.
Qed.

End views.

(** ** Replication and anti-entropy *)

Section repair.
Context {MJ : MetaJson} {ME : MeshEnv} {CA : Calm}.
Context (addrs : gmap string string).

Lemma calm_remove k : mesh_faults k OpRemove = None.
Proof. by rewrite calm_faults. Qed.

Lemma keeps_extends {A} (m : M Net A) n r n' :
  (∀ n0, keeps (extends n0) m) → net_ok n → m n = (r, n') → extends n n'.
Proof. intros Hm Hok E. pose proof (Hm n n (extends_refl n Hok)) as Hk. by rewrite E in Hk. Qed.

Lemma extends_trans n1 n2 n3 : extends n1 n2 → extends n2 n3 → extends n1 n3.
Proof.
  intros [_ H1] [Hok H2]. split; [done|]. intros addr root f Hf.
  destruct (H1 addr root f Hf) as (f' & Hf' & Hg). destruct (H2 addr root f' Hf') as (f'' & Hf'' & Hg').
  exists f''. split; [done|]. intros d c Hd Hc. destruct (Hg d c Hd Hc) as [c' Hc']. by eapply Hg'.
Qed.

(** A member's node, reached from another one. *)
Lemma member_reached c self id a :
  view_ok addrs c self → addrs !! id = Some a → id ≠ cc_NodeID (cl_config c) →
  ∃ node, reachable c id = Some node ∧ nm_RegistryAddr node = a.
Proof. intros Hv. apply (vo_others _ _ _ Hv). Qed.

(** Sending a blob to a list of members: all have it afterwards. *)
Lemma push_all c self data size targets : ∀ n,
  let d := FromBytes data in
  view_ok addrs c self → size = blen data → net_ok n → all_up addrs n →
  Forall (λ id, id ∈ dom addrs ∧ id ≠ cc_NodeID (cl_config c)) targets →
  ∃ n', for_each (λ nodeID,
      match reachable c nodeID with
      | None => mret tt
      | Some node => ignoring (replicateToNode node d data size)
      end) targets n = (Ok tt, n') ∧ extends n n' ∧
    Forall (λ id, ∃ a c', addrs !! id = Some a ∧ holds n' a d c') targets.
Proof.
  induction targets as [|id targets IH]; intros n d Hv -> Hok Hup Ht.
  { exists n. split_and!; [done|by apply extends_refl|constructor]. }
  apply Forall_cons in Ht as [[Hid Hne] Ht]. apply elem_of_dom in Hid as [a Ha].
  destruct (member_reached c self id a Hv Ha Hne) as (node & Hnode & Haddr).
  destruct (Hup id a Ha) as [[root f] Hf].
  destruct (client_PUT n a root f data Hok Hf) as (rp & n1 & c1 & HP & Hst & Hh).
  fold d in HP, Hh.
  assert (extends n n1) as He1.
  { eapply keeps_extends; [|done|exact HP]. intros n0. apply client_Do_keeps, calm_remove. }
  destruct (IH n1) as (n' & HF & He & Hall); [done|done|apply He1|by eapply extends_up|done|].
  exists n'. cbn [for_each]. unfold mbind at 1, M_bind at 1. rewrite Hnode. fold d in HF, Hall.
  assert (ignoring (replicateToNode node d data (blen data)) n = (Ok tt, n1)) as ->.
  { unfold ignoring, attempt, replicateToNode, mbind, M_bind. rewrite Haddr, HP, Hst.
    by rewrite decide_False by lia. }
  split_and!; [exact HF|by eapply extends_trans|]. constructor; [|done].
  destruct (extends_holds n1 n' a d c1) as [c' Hc']; [apply FromBytes_canonical|done|done|eauto].
Qed.

(** Asking the other replicas in turn. *)
Lemma pullFromAny_calm s d replicas : ∀ n,
  view_ok addrs (ae_cluster s) (ae_self s) → canonical d → net_ok n → all_up addrs n →
  Forall (λ id, id ∈ dom addrs) replicas →
  ∃ b n', pullFromAny s (cc_NodeID (cl_config (ae_cluster s))) d replicas n = (Ok b, n') ∧
    extends n n' ∧
    ((∃ id a c, id ∈ replicas ∧ id ≠ cc_NodeID (cl_config (ae_cluster s)) ∧
       addrs !! id = Some a ∧ holds n a d c) → b = true ∧ ∃ c, holds n' (ae_self s) d c).
Proof.
  induction replicas as [|id replicas IH]; intros n Hv Hd Hok Hup Hr.
  { exists false, n. split_and!; [done|by apply extends_refl|].
    intros (id & a & c & Hin & _). by apply not_elem_of_nil in Hin. }
  apply Forall_cons in Hr as [Hid Hr]. cbn [pullFromAny]. case_decide as Hloc.
  { destruct (IH n Hv Hd Hok Hup Hr) as (b & n' & HP & He & Hb). exists b, n'.
    split_and!; [done|done|]. intros (id' & a & c & [->|Hin]%elem_of_cons & Hne & Ha & Hh); [done|].
    apply Hb. eauto 10. }
  apply elem_of_dom in Hid as [a Ha].
  destruct (member_reached _ _ id a Hv Ha Hloc) as (node & Hnode & Haddr). rewrite Hnode.
  destruct (Hup id a Ha) as [[root f] Hf].
  destruct (client_GET n a root f d Hok Hd Hf) as (n1 & HG & Hs1).
  unfold mbind at 1, M_bind at 1, attempt, pullFromNode. rewrite Haddr.
  unfold mbind at 1, M_bind at 1. rewrite HG.
  destruct (stored root f d) as [c|] eqn:Hc.
  - assert (d = FromBytes c) as Hdc.
    { eapply holds_content; [exact Hok|exact Hd|]. exists root, f. split; [exact Hf|exact Hc]. }
    destruct (Hup _ _ (vo_self _ _ _ Hv)) as [[roots fs] Hfs].
    destruct (local_Put_calm n1 (ae_self s) roots fs c) as (n2 & c2 & HP & Hh2);
      [by eapply same_net_ok|by rewrite Hs1|]. rewrite <-Hdc in HP, Hh2.
    cbn [rp_Status rp_Body rp_Length]. rewrite decide_False by lia. rewrite HP.
    exists true, n2. split_and!; [done| |eauto].
    apply (extends_trans n n1 n2).
    + eapply keeps_extends; [|done|exact HG]. intros n0. apply client_Do_keeps, calm_remove.
    + eapply keeps_extends; [|by eapply same_net_ok|exact HP]. intros n0.
      apply local_Put_keeps, calm_remove.
  - cbn [rp_Status http_Error]. rewrite decide_True by lia. cbn [throw lift].
    destruct (IH n1) as (b & n' & HP & He & Hb);
      [done|done|by eapply same_net_ok|intros id' a' Ha'; rewrite Hs1; by eapply Hup|done|].
    exists b, n'. split_and!; [exact HP| |].
    + apply (extends_trans n n1 n'); [|done]. eapply keeps_extends; [|done|exact HG].
      intros n0. apply client_Do_keeps, calm_remove.
    + intros (id' & a' & c & [->|Hin]%elem_of_cons & Hne & Ha' & Hh).
      * exfalso. assert (a' = a) as -> by congruence. destruct Hh as (root' & f' & Hf' & Hc').
        rewrite Hf in Hf'. injection Hf' as <- <-. unfold stored in Hc. congruence.
      * apply Hb. exists id', a', c. split_and!; [done..|]. by apply (same_holds n n1).
Qed.

Definition mine (c : Cluster) (d : Digest) : Prop :=
  ∃ reps, GetReplicaNodes c d = Some reps ∧ cc_NodeID (cl_config c) ∈ reps.

(** The members that should hold a blob. *)
Lemma replicas_spec c self d :
  view_ok addrs c self → ∃ reps, GetReplicaNodes c d = Some reps ∧ NoDup reps ∧
    Forall (λ id, id ∈ dom addrs) reps.
Proof.
  intros Hv. unfold GetReplicaNodes.
  destruct (HashRing.GetN_spec (cl_hash c) d (cc_ReplicationFactor (cl_config c))
    (S (length (HashRing.ch_ring (cl_hash c))))) as (l & -> & Hnd & Hm & _); [apply Hv|lia|].
  rewrite (vo_members _ _ _ Hv) in Hm. eauto.
Qed.

(** A loop of the pass: what its steps establish is there at the end. *)
Lemma sync_fold_calm {A} (f : Z → A → M Net Z) (P Q : A → Digest → Net → Prop) l :
  (∀ x d n n', extends n n' → P x d n → P x d n') →
  (∀ x d n n', extends n n' → Q x d n → Q x d n') →
  (∀ x count n, x ∈ l → net_ok n → all_up addrs n →
     ∃ k n', f count x n = (Ok k, n') ∧ extends n n' ∧ ∀ d, P x d n → Q x d n') →
  ∀ count n, net_ok n → all_up addrs n →
  ∃ k n', sync_fold f count l n = (Ok k, n') ∧ extends n n' ∧
    ∀ x d, x ∈ l → P x d n → Q x d n'.
Proof.
  intros HP HQ. induction l as [|x l IH]; intros Hf count n Hok Hup.
  { exists count, n. split_and!; [done|by apply extends_refl|]. intros x d Hx. by apply not_elem_of_nil in Hx. }
  destruct (Hf x count n) as (k & n1 & E1 & He1 & Hx); [apply list_elem_of_here|done|done|].
  destruct (IH (λ y c m Hy, Hf y c m (list_elem_of_further _ _ _ Hy)) k n1)
    as (k' & n' & E' & He & Hl); [apply He1|by eapply extends_up|].
  exists k', n'. split_and!; [cbn [sync_fold]; unfold mbind, M_bind; by rewrite E1|by eapply extends_trans|].
  intros y d [->|Hy]%elem_of_cons Hp; [by eapply HQ, Hx|]. apply Hl; [done|]. by eapply HP.
Qed.

(** This node should have the blob, and some replica has it. *)
Definition recoverable (c : Cluster) (d : Digest) (n : Net) : Prop :=
  canonical d ∧ ∃ reps id a x, GetReplicaNodes c d = Some reps ∧
    cc_NodeID (cl_config c) ∈ reps ∧ id ∈ reps ∧ addrs !! id = Some a ∧ holds n a d x.
Definition present (self : string) (d : Digest) (n : Net) : Prop :=
  canonical d ∧ ∃ x, holds n self d x.

Lemma recoverable_extends c d n n' : extends n n' → recoverable c d n → recoverable c d n'.
Proof.
  intros He (Hd & reps & id & a & x & Hr & Hl & Hi & Ha & Hh). split; [done|].
  destruct (extends_holds n n' a d x Hd He Hh) as [x' Hx']. by exists reps, id, a, x'.
Qed.

Lemma present_extends self d n n' : extends n n' → present self d n → present self d n'.
Proof.
  intros He (Hd & x & Hh). split; [done|]. by destruct (extends_holds n n' self d x Hd He Hh); eauto.
Qed.

Lemma syncBlob_calm s count d n :
  view_ok addrs (ae_cluster s) (ae_self s) → canonical d → net_ok n → all_up addrs n →
  ∃ k n', syncBlob s count d n = (Ok k, n') ∧ extends n n' ∧
    (recoverable (ae_cluster s) d n → present (ae_self s) d n').
Proof.
  intros Hv Hd Hok Hup. unfold syncBlob, LocalNode. rewrite (vo_local _ _ _ Hv).
  destruct (replicas_spec _ _ d Hv) as (reps & Hrep & _ & Hreps). rewrite Hrep. cbv zeta.
  case_decide as Hmine.
  2:{ exists count, n. split_and!; [done|by apply extends_refl|].
      intros (_ & reps' & id & a & x & Hr & Hl & _). rewrite Hrep in Hr. injection Hr as <-. done. }
  destruct (Hup _ _ (vo_self _ _ _ Hv)) as [[roots fs] Hfs].
  destruct (local_Exists_calm n (ae_self s) roots fs d Hok Hd Hfs) as (n1 & HE & Hs1).
  assert (extends n n1) as He1.
  { eapply keeps_extends; [|done|exact HE]. intros n0. apply local_Exists_keeps, calm_remove. }
  unfold mbind at 1, M_bind at 1. rewrite HE. case_bool_decide as Hhere.
  - exists count, n1. split_and!; [done|done|]. intros _. split; [done|]. destruct Hhere as [x Hx].
    exists x, roots, fs. by rewrite Hs1.
  - destruct (pullFromAny_calm s d reps n1) as (b & n2 & HP & He2 & Hb);
      [done|done|apply He1|by eapply extends_up|done|].
    unfold mbind, M_bind. rewrite HP. exists (if b then count + 1 else count)%Z, n2. split_and!; [done|by eapply extends_trans|].
    intros (_ & reps' & id & a & x & Hr & Hl & Hi & Ha & Hh). split; [done|].
    apply Hb. exists id, a, x. split_and!; [congruence| |done|by apply (same_holds n n1)].
    intros ->. apply Hhere. rewrite (vo_self _ _ _ Hv) in Ha. injection Ha as <-.
    destruct Hh as (root & f & Hf & Hc). rewrite Hfs in Hf. injection Hf as <- <-. by exists x.
Qed.

End repair.

(** ** Properties *)

(** C15 What one node stores every node finds: when the nodes agree on the
    membership and nothing fails while the blob is stored, storing it through
    any node succeeds, and after any later activity of the mesh, with any
    failures, fetching it through any node in a calm moment delivers contents
    with that digest that some node holds, with their length, and asking for
    it answers yes. *)
Theorem stored_is_found {MJ : MetaJson} {B : Badger} (E1 E2 E3 : MeshEnv) addrs r1 r2 n data :
  @Calm E1 → @Calm E3 → (∀ k, @mesh_faults E2 k OpRemove = None) →
  view_ok addrs (rt_cluster r1) (rt_self r1) → view_ok addrs (rt_cluster r2) (rt_self r2) →
  net_ok n → all_up addrs n →
  let d := FromBytes data in
  ∃ n1, PutBlob (ME := E1) r1 d (NewReader data) (blen data) n = (Ok tt, n1) ∧
    ∀ l, let n2 := history (ME := E2) l n1 in
      net_ok n2 ∧
      (∃ n3 a c, GetBlob (ME := E3) r2 d n2 = (Ok (NewReader c, blen c), n3) ∧
        d = FromBytes c ∧ holds n2 a d c) ∧
      (HasBlob (ME := E3) r2 d n2).1 = Ok true.
Proof.
  intros HE1 HE3 HE2 Hv1 Hv2 Hok Hup d. pose proof (FromBytes_canonical data) as Hd. fold d in Hd.
  destruct (PutBlob_calm (ME := E1) addrs r1 n data Hv1 Hok Hup) as (n1 & a & c & HP & Ha & Hh). fold d in HP, Ha, Hh.
  assert (∀ k, @mesh_faults E1 k OpRemove = None) as Hrm1 by (intros k; by rewrite calm_faults).
  assert (extends n n1) as He1.
  { pose proof (PutBlob_keeps (ME := E1) Hrm1 n r1 d (NewReader data) (blen data) n (extends_refl n Hok)) as Hk.
    by rewrite HP in Hk. }
  exists n1. split; [done|]. intros l n2.
  assert (extends n1 n2) as He2 by (apply history_extends; [done|by apply extends_refl, He1]).
  assert (all_up addrs n2) as Hup2 by eauto using extends_up.
  destruct (extends_holds n1 n2 a d c Hd He2 Hh) as [c2 Hh2].
  rewrite (views_agree addrs _ _ _ _ d Hv1 Hv2) in Ha.
  destruct (GetBlob_calm (ME := E3) addrs r2 n2 d a c2) as (n3 & a3 & c3 & HG & _ & Hh3 & _); try done; [apply He2|].
  split_and!; [apply He2| |].
  - exists n3, a3, c3. split_and!; [done| |done]. eapply holds_content; [apply He2|exact Hd|exact Hh3].
  - eapply HasBlob_calm; try done. apply He2.
Qed.

(** C32 A calm pass of anti-entropy ends and repairs the node: every blob of a
    listed repository that this node should hold, and that some replica holds,
    is in its store afterwards, and nothing is lost anywhere. *)
Theorem sync_repairs {MJ : MetaJson} {ME : MeshEnv} {CA : Calm} {B : Badger} addrs s (db : DB) repos n :
  view_ok addrs (ae_cluster s) (ae_self s) → net_ok n → all_up addrs n →
  MetadataStore.ListRepositories db = Ok repos →
  (∀ repo, repo ∈ repos → ∃ ds, MetadataStore.GetRepoBlobs db repo = Ok ds ∧ Forall canonical ds) →
  ∃ k n', sync s db n = (Ok k, n') ∧ extends n n' ∧
    ∀ repo ds d, repo ∈ repos → MetadataStore.GetRepoBlobs db repo = Ok ds → d ∈ ds →
      recoverable addrs (ae_cluster s) d n → ∃ c, d = FromBytes c ∧ holds n' (ae_self s) d c.
Proof.
  intros Hv Hok Hup Hrepos Hds. unfold sync. rewrite Hrepos.
  set (P := λ repo d n', (∃ ds, MetadataStore.GetRepoBlobs db repo = Ok ds ∧ d ∈ ds) ∧
    recoverable addrs (ae_cluster s) d n').
  match goal with |- context [sync_fold ?f _ _] => set (pass := f) end.
  edestruct (sync_fold_calm addrs pass P (λ _, present (ae_self s)) repos) as (k & n' & E & He & Hall).
  - intros repo d m m' He [Hin Hr]. split; [done|]. by eapply recoverable_extends.
  - intros _ d m m'. apply present_extends.
  - intros repo count m Hin Hokm Hupm. destruct (Hds repo Hin) as (ds & Hg & Hcan).
    destruct (sync_fold_calm addrs (syncBlob s) (λ x d n, x = d ∧ recoverable addrs (ae_cluster s) d n)
      (λ _, present (ae_self s)) ds) with (count := count) (n := m) as (k & m' & E & He & Hl); [..|done|done|].
    + intros x d n1 n2 He [-> Hr]. split; [done|]. by eapply recoverable_extends.
    + intros _ d n1 n2. apply present_extends.
    + intros x c0 m0 Hx Hok0 Hup0. rewrite Forall_forall in Hcan.
      destruct (syncBlob_calm addrs s c0 x m0 Hv (Hcan x Hx) Hok0 Hup0) as (k0 & m1 & E0 & He0 & H0).
      exists k0, m1. split_and!; [done|done|]. intros d [-> Hr]. by apply H0.
    + exists k, m'. unfold pass. rewrite Hg. split_and!; [exact E|done|].
      intros d [(ds' & Hg' & Hd) Hr]. apply (Hl d d); [congruence|done].
  - exact Hok.
  - exact Hup.
  - exists k, n'. split_and!; [exact E|done|]. intros repo ds d Hin Hg Hd Hr.
    destruct (Hall repo d Hin) as (Hcan & c & Hh); [split; [by exists ds|done]|].
    exists c. split; [|done]. eapply holds_content; [apply He|done|exact Hh].
Qed.

(** Replication: an idle replicator that is given a blob this node holds
    queues one job, and the calm turn of a worker that takes it leaves the
    blob at every replica the ring names. *)
Theorem replicas_receive {MJ : MetaJson} {ME : MeshEnv} {CA : Calm} addrs r d c n :
  view_ok addrs (rp_cluster r) (rp_self r) → net_ok n → all_up addrs n →
  canonical d → holds n (rp_self r) d c → rp_queue r = [] → rp_closed r = false →
  ∃ reps r' n', GetReplicaNodes (rp_cluster r) d = Some reps ∧
    Replicate r d = Some (Ok r') ∧ length (rp_queue r') ≤ 1 ∧
    worker r' n = (Ok (mkReplicator (rp_cluster r) (rp_self r) [] false), n') ∧ extends n n' ∧
    Forall (λ id, ∃ a c', addrs !! id = Some a ∧ holds n' a d c' ∧ d = FromBytes c') reps.
Proof.
  intros Hv Hok Hup Hd Hh Hq Hcl. destruct (replicas_spec addrs _ _ d Hv) as (reps & Hreps & _ & Hin).
  pose proof (holds_content _ _ _ _ Hok Hd Hh) as Hdc.
  set (others := filter (λ id, id ≠ cc_NodeID (cl_config (rp_cluster r))) reps).
  assert (∀ n', extends n n' → Forall (λ id, ∃ a c', addrs !! id = Some a ∧ holds n' a d c') others →
    Forall (λ id, ∃ a c', addrs !! id = Some a ∧ holds n' a d c' ∧ d = FromBytes c') reps) as Hall.
  { intros n' He Hl. rewrite Forall_forall in *. intros id Hid.
    destruct (decide (id = cc_NodeID (cl_config (rp_cluster r)))) as [->|Hne].
    - destruct (extends_holds n n' _ d c Hd He Hh) as [c' Hc']. exists (rp_self r), c'.
      split_and!; [apply Hv|done|]. eapply holds_content; [apply He|done|exact Hc'].
    - destruct (Hl id) as (a & c' & Ha & Hc'); [by apply list_elem_of_filter|].
      exists a, c'. split_and!; [done|done|]. eapply holds_content; [apply He|done|exact Hc']. }
  unfold Replicate, LocalNode. rewrite (vo_local _ _ _ Hv), Hreps. cbn [mbind option_bind]. cbv zeta.
  fold others. destruct (decide (others = [])) as [E|E].
  - exists reps, r, n. unfold worker. rewrite Hq. split_and!; [done|done|simpl; lia| |by apply extends_refl|].
    + destruct r; simpl in *; by subst.
    + apply Hall; [by apply extends_refl|]. rewrite E. constructor.
  - rewrite Hcl, Hq. rewrite decide_True by (unfold queueCapacity; simpl; lia). cbn [app].
    destruct Hh as (root & f & Hf & Hc).
    destruct (local_Get_calm n (rp_self r) root f d c Hok Hd Hf Hc) as (n1 & HG & Hs1).
    assert (extends n n1) as He1.
    { eapply keeps_extends; [|done|exact HG]. intros n0. apply local_Get_keeps, calm_remove. }
    destruct (push_all addrs (rp_cluster r) (rp_self r) c (blen c) others n1) as (n2 & HF & He2 & Hl);
      [done|done|apply He1|by eapply extends_up| |].
    { rewrite Forall_forall in *. intros id [Hne Hid]%list_elem_of_filter. by split; [apply Hin|]. }
    rewrite <-Hdc in HF, Hl. eexists reps, _, n2. split_and!; [done|done|simpl; lia| |by eapply extends_trans|].
    + unfold worker. cbn [rp_queue rp_cluster rp_self rp_closed]. unfold processJob, attempt.
      cbn [rj_digest rj_targets rp_cluster rp_self]. unfold mbind, M_bind. rewrite HG. cbn match. cbn [rd_data NewReader]. by rewrite HF.
    + apply Hall; [by eapply extends_trans|done].
Qed.

(** C31 No activity of the mesh breaks a store: whatever fails, except the removal
    of temporary files, after any sequence of routed requests, replication
    jobs, anti-entropy passes and requests of strangers to internal handlers,
    every node's store is content addressed and free of temporary files, and
    every blob a node had is still there, with its digest. *)
Theorem mesh_preserves_stores {MJ : MetaJson} {ME : MeshEnv} {B : Badger} l n :
  (∀ k, mesh_faults k OpRemove = None) → net_ok n →
  net_ok (history l n) ∧
  ∀ addr d c, canonical d → holds n addr d c →
    ∃ c', holds (history l n) addr d c' ∧ d = FromBytes c'.
Proof.
  intros Hrm Hok. assert (extends n (history l n)) as He by (apply history_extends, extends_refl; done).
  split; [apply He|]. intros addr d c Hd Hh.
  destruct (extends_holds n (history l n) addr d c Hd He Hh) as [c' Hc'].
  exists c'. split; [done|]. eapply holds_content; [apply He|done|exact Hc'].
Qed.

(** The primary of a blob answers that it does not exist when its own store
    has lost it, also when every replica holds it. *)
Fact primary_ignores_replicas {MJ : MetaJson} {ME : MeshEnv} {CA : Calm} r d n root f :
  net_ok n → canonical d → files_of n (rt_self r) = Some (root, f) → stored root f d = None →
  IsLocalPrimary (rt_cluster r) d = true →
  (GetBlob r d n).1 = Err ErrBlobNotFound ∧ (HasBlob r d n).1 = Ok false.
Proof.
  intros Hok Hd Hf Hc Hp. destruct (local_Exists_calm n (rt_self r) root f d Hok Hd Hf) as (n1 & HE & _).
  unfold GetBlob, HasBlob, mbind, M_bind. rewrite HE, Hc. simpl. by rewrite Hp.
Qed.

(** A digest of sixty-four bytes that climbs out of the store. *)
Definition climbing : string :=
  "sha256:../../../etc//////////////////////////////////////////////passwd".

(** The internal handler serves files outside the store: the digest it accepts
    need not be hexadecimal. *)
Fact internal_get_traversal F rnds os c mm :
  F OpStat = None → F OpOpen = None →
  os_files os !! "/etc/passwd" = Some c →
  ∃ size st, InternalHandler_ServeHTTP GET (internalPrefix +:+ climbing) (NewReader []) 0 F rnds
    (mkBlobStore srvRoot mm) os = (Ok (mkReply 200 size (NewReader c)), st).
Proof.
  intros HS HO Hc. unfold InternalHandler_ServeHTTP. rewrite decide_False by by vm_compute.
  assert (Parse (sdrop (String.length internalPrefix) (internalPrefix +:+ climbing)) = Ok climbing)
    as -> by by vm_compute.
  assert (blobPath (mkBlobStore srvRoot mm) climbing = Ok "/etc/passwd") as Hp by by vm_compute.
  unfold handleGet, Get. rewrite Hp. unfold Stat, bs_mmap, Open. rewrite HS, HO, Hc. cbn [os_files].
  case_decide; [by eexists _, _|]. unfold Mmap.
  destruct (F OpMmap); [by eexists _, _|]. case_decide; [by eexists _, _|].
  by eexists _, _.
Qed.

(** Replicating after the replicator has been stopped panics. *)
Fact Replicate_after_Stop r r' d reps :
  Stop r = Ok r' → GetReplicaNodes (rp_cluster r) d = Some reps →
  (∃ id, id ∈ reps ∧ id ≠ nm_NodeID (LocalNode (rp_cluster r))) →
  Replicate r' d = Some (Panic "send on closed channel").
Proof.
  unfold Stop. intros HS Hr (id & Hin & Hne). destruct (rp_closed r); [done|]. injection HS as <-.
  unfold Replicate. cbn [rp_cluster rp_closed]. rewrite Hr. cbn [mbind option_bind]. cbv zeta.
  rewrite decide_False; [done|]. intros E.
  assert (id ∈ filter (λ id, id ≠ nm_NodeID (LocalNode (rp_cluster r))) reps) as Hf
    by by apply list_elem_of_filter. rewrite E in Hf. by apply not_elem_of_nil in Hf.
Qed.

(** ** A mesh of two nodes *)

(** The announced bytes are the address. *)
Definition exMeta : MetaJson := {|
  meta_Marshal := λ m, str_bytes (nm_RegistryAddr m);
  meta_Unmarshal := λ b, mkNodeMeta "" (bytes_str b) "" 0
|}.

Definition exAddrs : gmap string string :=
  {["node-1" := "10.0.0.1:5000"; "node-2" := "10.0.0.2:5000"]}.
Definition exMembers : list MlNode :=
  [mkMlNode "node-1" (str_bytes "10.0.0.1:5000"); mkMlNode "node-2" (str_bytes "10.0.0.2:5000")].
Definition exHash : HashRing.ConsistentHash :=
  HashRing.Add (HashRing.Add (HashRing.NewConsistentHash 150) "node-1") "node-2".
Definition exCluster (id : string) : Cluster :=
  mkCluster (mkClusterConfig id [] 2 "") exMembers exHash (mkNodeMeta id "" "" 0) false false.
Definition exNet : Net :=
  mkNet {["10.0.0.1:5000" := mkPeer (NewBlobStore srvRoot) os_empty;
          "10.0.0.2:5000" := mkPeer (NewBlobStore srvRoot) os_empty]} 0.

(** Nothing fails, or writing back fails and every other message is lost. *)
Definition calmEnv : MeshEnv := {|
  mesh_faults := λ _, noFaults; mesh_rnds := λ _, [1%N];
  mesh_link := λ _, None; mesh_cut := λ _, None
|}.
Definition roughEnv : MeshEnv := {|
  mesh_faults := λ _ op, match op with OpSync => Some (Errorf "EIO") | _ => None end;
  mesh_rnds := λ _, [1%N];
  mesh_link := λ k, if Nat.even k then Some (Errorf "timeout") else None;
  mesh_cut := λ k, Some (k, Errorf "EOF")
|}.
#[local] Instance calmEnv_calm : @Calm calmEnv.
Proof. by split. Qed.

Lemma exHash_free M : M ⊆ {["node-1"; "node-2"]} → HashRing.collision_free 150 M.
Proof.
  intros HM. eapply HashRing.collision_free_subseteq;
    [|apply (HashRing.disjoint_collision_free 150 ["node-1"; "node-2"])].
  - intros x Hx. apply HM in Hx. set_solver.
  - vm_compute. reflexivity.
Qed.

Lemma exMembers_1 : {["node-1"]} ∪ HashRing.ch_members (HashRing.NewConsistentHash 150)
  ⊆ {["node-1"; "node-2"]}.
Proof. change (HashRing.ch_members _) with (∅ : gset string). set_solver. Qed.

Lemma exMembers_2 : {["node-2"]} ∪ ({["node-1"]} ∪ HashRing.ch_members (HashRing.NewConsistentHash 150))
  = {["node-1"; "node-2"]}.
Proof. change (HashRing.ch_members _) with (∅ : gset string). set_solver. Qed.

Lemma exHash_exact : HashRing.exact exHash.
Proof.
  apply HashRing.Add_exact; [apply HashRing.Add_exact; [apply HashRing.exact_new|]|].
  - apply exHash_free, exMembers_1.
  - rewrite HashRing.Add_replicas, HashRing.Add_members, exMembers_2. by apply exHash_free.
Qed.

Lemma exAddrs_cases id a :
  exAddrs !! id = Some a →
  (id = "node-1" ∧ a = "10.0.0.1:5000") ∨ (id = "node-2" ∧ a = "10.0.0.2:5000").
Proof.
  unfold exAddrs. intros [[<- <-]|[_ [<- <-]%lookup_singleton_Some]]%lookup_insert_Some; auto.
Qed.

Lemma exView id a : exAddrs !! id = Some a → @view_ok exMeta exAddrs (exCluster id) a.
Proof.
  intros Ha. split.
  - exact exHash_exact.
  - change (HashRing.ch_replicas exHash = 150%Z). unfold exHash. by rewrite !HashRing.Add_replicas.
  - cbn [cl_hash exCluster]. unfold exHash, exAddrs.
    rewrite !HashRing.Add_members, dom_insert_L, dom_singleton_L. apply exMembers_2.
  - exact Ha.
  - reflexivity.
  - intros id' a' [[-> ->]|[-> ->]]%exAddrs_cases _;
      (eexists; split; [vm_compute; reflexivity|reflexivity]).
  - reflexivity.
Qed.

Lemma exNet_files addr root f : files_of exNet addr = Some (root, f) → root = srvRoot ∧ f = ∅.
Proof.
  unfold files_of. intros [p [Hp E]]%fmap_Some. injection E as -> ->. simpl in Hp.
  apply lookup_insert_Some in Hp as [[_ <-]|[_ [_ <-]%lookup_singleton_Some]]; done.
Qed.

Lemma exNet_ok : net_ok exNet.
Proof.
  intros addr root f [-> ->]%exNet_files. split_and!; [apply good_srvRoot|apply store_ok_empty|].
  intros dir k. apply lookup_empty.
Qed.

Lemma exNet_up : all_up exAddrs exNet.
Proof. intros id a [[-> ->]|[-> ->]]%exAddrs_cases; by eexists. Qed.

Definition exBlob : bytes := str_bytes "layer".
Definition exRouter (id a : string) : Router := mkRouter (exCluster id) a.

(** Stored through the first node, found through the second after a rough
    pass of anti-entropy and a stranger's request. *)
Lemma stored_is_found_witness :
  ∃ n1, @PutBlob exMeta calmEnv (exRouter "node-1" "10.0.0.1:5000") (FromBytes exBlob)
      (NewReader exBlob) (blen exBlob) exNet = (Ok tt, n1) ∧
    (@HasBlob exMeta calmEnv (exRouter "node-2" "10.0.0.2:5000") (FromBytes exBlob)
      (@history exMeta roughEnv mapBadger
        [@ASync mapBadger (mkAntiEntropy (exCluster "node-2") "10.0.0.2:5000") ∅;
         @ARequest mapBadger "10.0.0.1:5000" PUT (internalPrefix +:+ climbing) (NewReader exBlob) 5] n1)).1
      = Ok true.
Proof.
  destruct (@stored_is_found exMeta mapBadger calmEnv roughEnv calmEnv exAddrs
    (exRouter "node-1" "10.0.0.1:5000") (exRouter "node-2" "10.0.0.2:5000") exNet exBlob)
    as (n1 & HP & Hl).
  - exact calmEnv_calm.
  - exact calmEnv_calm.
  - reflexivity.
  - apply exView. reflexivity.
  - apply exView. reflexivity.
  - exact exNet_ok.
  - exact exNet_up.
  - exists n1. split; [exact HP|]. apply (Hl _).
Defined.

(** The first node holds a blob of the repository; the second has lost it. *)
Definition exLost : Net :=
  mkNet {["10.0.0.1:5000" := mkPeer (NewBlobStore srvRoot)
            (mkOs {[blobFile srvRoot (FromBytes exBlob) := exBlob]} ∅ 0);
          "10.0.0.2:5000" := mkPeer (NewBlobStore srvRoot) os_empty]} 0.
Definition exDb : gmap string bytes :=
  {["r:app" := str_bytes "{}"; "rb:app:" +:+ FromBytes exBlob := []]}.

Lemma exLost_files addr root f :
  files_of exLost addr = Some (root, f) →
  root = srvRoot ∧ (f = ∅ ∨ f = {[blobFile srvRoot (FromBytes exBlob) := exBlob]}).
Proof.
  unfold files_of. intros [p [Hp E]]%fmap_Some. injection E as -> ->. simpl in Hp.
  apply lookup_insert_Some in Hp as [[_ <-]|[_ [_ <-]%lookup_singleton_Some]]; auto.
Qed.

Lemma exLost_ok : net_ok exLost.
Proof.
  intros addr root f [-> Hf]%exLost_files. split; [apply good_srvRoot|].
  destruct Hf as [->| ->]; (split; [|intros dir k]).
  - apply store_ok_empty.
  - apply lookup_empty.
  - apply store_ok_insert_blob, store_ok_empty.
  - rewrite lookup_singleton_ne; [done|]. intros E. symmetry in E. revert E.
    apply tempName_not_blobFile, FromBytes_canonical.
Qed.

Lemma exLost_up : all_up exAddrs exLost.
Proof. intros id a [[-> ->]|[-> ->]]%exAddrs_cases; by eexists. Qed.

Lemma exLost_holds : holds exLost "10.0.0.1:5000" (FromBytes exBlob) exBlob.
Proof. eexists _, _. split; [reflexivity|]. apply lookup_singleton_eq. Qed.

Lemma sync_repairs_witness :
  ∃ k n', @sync exMeta calmEnv mapBadger (mkAntiEntropy (exCluster "node-2") "10.0.0.2:5000") exDb exLost
    = (Ok k, n') ∧ ∃ c, holds n' "10.0.0.2:5000" (FromBytes exBlob) c.
Proof.
  destruct (@sync_repairs exMeta calmEnv calmEnv_calm mapBadger exAddrs
    (mkAntiEntropy (exCluster "node-2") "10.0.0.2:5000") exDb ["app"] exLost) as (k & n' & HS & _ & Hr).
  - apply exView. reflexivity.
  - exact exLost_ok.
  - exact exLost_up.
  - vm_compute. reflexivity.
  - intros repo ->%list_elem_of_singleton. exists [FromBytes exBlob].
    split; [vm_compute; reflexivity|]. constructor; [apply FromBytes_canonical|constructor].
  - exists k, n'. split; [exact HS|].
    destruct (Hr "app" [FromBytes exBlob] (FromBytes exBlob)) as (c & _ & Hc).
    + apply list_elem_of_here.
    + vm_compute. reflexivity.
    + apply list_elem_of_here.
    + split; [apply FromBytes_canonical|].
      exists ["node-2"; "node-1"], "node-1", "10.0.0.1:5000", exBlob.
      split; [vm_compute; reflexivity|]. split; [apply (bool_decide_unpack _); vm_compute; exact I|].
      split; [apply (bool_decide_unpack _); vm_compute; exact I|]. split; [reflexivity|exact exLost_holds].
    + exists c. exact Hc.
Defined.

Lemma replicas_receive_witness :
  let r := NewReplicator (exCluster "node-1") "10.0.0.1:5000" in
  ∃ r' n', Replicate r (FromBytes exBlob) = Some (Ok r') ∧
    @worker exMeta calmEnv r' exLost = (Ok r, n') ∧
    ∃ c, holds n' "10.0.0.2:5000" (FromBytes exBlob) c.
Proof.
  intros r.
  destruct (@replicas_receive exMeta calmEnv calmEnv_calm exAddrs r (FromBytes exBlob) exBlob exLost)
    as (reps & r' & n' & Hreps & HR & _ & HW & _ & Hall).
  - apply exView. reflexivity.
  - exact exLost_ok.
  - exact exLost_up.
  - apply FromBytes_canonical.
  - exact exLost_holds.
  - reflexivity.
  - reflexivity.
  - exists r', n'. split; [exact HR|]. split; [exact HW|].
    assert (reps = ["node-2"; "node-1"]) as ->.
    { assert (GetReplicaNodes (rp_cluster r) (FromBytes exBlob) = Some ["node-2"; "node-1"]) as E
        by (vm_compute; reflexivity). congruence. }
    apply Forall_cons in Hall as [(a & c & Ha & Hc & _) _].
    exists c. apply exAddrs_cases in Ha as [[E _]|[_ ->]]; [discriminate E|exact Hc].
Defined.

Lemma mesh_preserves_stores_witness :
  net_ok (@history exMeta roughEnv mapBadger
    [@ARequest mapBadger "10.0.0.1:5000" PUT (internalPrefix +:+ FromBytes exBlob) (NewReader []) 0] exLost) ∧
  ∃ c, holds (@history exMeta roughEnv mapBadger
    [@ARequest mapBadger "10.0.0.1:5000" PUT (internalPrefix +:+ FromBytes exBlob) (NewReader []) 0] exLost)
    "10.0.0.1:5000" (FromBytes exBlob) c.
Proof.
  destruct (@mesh_preserves_stores exMeta roughEnv mapBadger
    [@ARequest mapBadger "10.0.0.1:5000" PUT (internalPrefix +:+ FromBytes exBlob) (NewReader []) 0] exLost)
    as [Hok Hk].
  - reflexivity.
  - exact exLost_ok.
  - split; [exact Hok|].
    destruct (Hk "10.0.0.1:5000" (FromBytes exBlob) exBlob (FromBytes_canonical _) exLost_holds) as (c & Hc & _).
    exists c. exact Hc.
Defined.

End MeshSpec.
