(* ===== verification/SyncClients.v ===== *)
(** internal/sync/registry.go and quay.go: copying repositories from another
    registry into the local stores.

    A call of a client is a computation in [M St]: the shared stores, the
    progress record of the job and the number of the next call to the
    environment, which indexes the clock, the random names, the upstream's
    answers, the state of the context and the order of concurrent work.
    Goroutines are linearised as in [Cloner]: the layers of a manifest are
    handled one by one in an order the environment chooses. *)

From S2P Require Import Prelude Effect GoLib Digest Os Blob Badger Metadata Oci Base64 Glob Mirror.

Module Sync.

(** config/config.go. *)
Record SyncSource := mkSyncSource {
  ss_Name : string;
  ss_Type : string;
  ss_URL : string;
  ss_Token : string;
  ss_RobotAccount : string;
  ss_RobotToken : string;
  ss_Organizations : list string;
  ss_Repositories : list string;
  ss_IncludeTags : string;
  ss_ExcludeTags : string;
  ss_SyncSignatures : bool;
  ss_SyncSBOMs : bool;
  ss_Schedule : string;
  ss_Mode : string;
  ss_Concurrency : Z
}.

(** quay.go: the channel [mu] of a progress record, which [addBytes] tries to
    take, is represented by what its attempts count ([tally] below). *)
Record Progress := mkProgress {
  pg_TotalRepos : Z;
  pg_SyncedRepos : Z;
  pg_FailedRepos : Z;
  pg_TotalTags : Z;
  pg_SyncedTags : Z;
  pg_FailedTags : Z;
  pg_BytesTotal : Z;
  pg_BytesSynced : Z;
  pg_StartTime : Time
}.

Definition NewProgress (now : Time) : Progress := mkProgress 0 0 0 0 0 0 0 0 now.

Record QuayRepository := mkQuayRepository {
  qr_Namespace : string;
  qr_Name : string;
  qr_Description : string;
  qr_IsPublic : bool
}.

Record QuayTag := mkQuayTag {
  qt_Name : string;
  qt_ManifestDigest : string;
  qt_LastModified : string;
  qt_Size : Z
}.

(** The anonymous structs the answers are decoded into. *)
Record Catalog := mkCatalog { ct_Repositories : list string }.
Record TagsList := mkTagsList { tl_Tags : list string }.
Record QuayRepositories := mkQuayRepositories { qrs_Repositories : list QuayRepository }.
Record QuayTags := mkQuayTags { qts_Tags : list QuayTag }.

Record ManifestRef := mkManifestRef {
  mr_Digest : string;
  mr_Size : Z;
  mr_Architecture : string;
  mr_OS : string
}.
Record SyncManifest := mkSyncManifest {
  sm_MediaType : string;
  sm_Config : string * Z;
  sm_Layers : list (string * Z);
  sm_Manifests : list ManifestRef
}.
Record QuayManifest := mkQuayManifest {
  qm_Config : string * Z;
  qm_Layers : list (string * Z)
}.

(** [json.Unmarshal] with the struct as it is left and the error. *)
Class UnmarshalInto (A : Type) := unmarshal_into : bytes → A * option error.

Record Response := mkResponse {
  rp_StatusCode : Z;
  rp_ContentType : string;
  rp_Link : string;
  rp_Body : Reader
}.

(** The environment: building a request, the answer to the [n]-th one (with
    the Authorization header, if set), the clock, the random names, the
    context's error, the order of concurrent work, and how many of the bytes a
    transfer reads are counted: [addBytes] drops what it cannot add because
    another transfer holds the channel. *)
Class Env := {
  NewRequest : string → option error;
  Do : nat → string → option string → result Response;
  now : nat → Time;
  rnds : nat → list N;
  ctx_Err : nat → option error;
  order : ∀ {A}, nat → list A → list A;
  order_perm {A} n (l : list A) : order n l ≡ₚ l;
  tally : nat → bytes → Z;
  tally_bound n b : (0 ≤ tally n b ≤ blen b)%Z
}.

(** ** Configuration *)

Section source.
Context (cfg : SyncSource).

(** Both clients filter tags alike. *)
Definition matched (pattern tag : string) : bool := default false (Glob.Match pattern tag).

Definition shouldIncludeTag (tag : string) : bool :=
  if decide (ss_ExcludeTags cfg ≠ "" ∧ matched (ss_ExcludeTags cfg) tag = true) then false
  else if decide (ss_IncludeTags cfg ≠ "") then matched (ss_IncludeTags cfg) tag
  else true.

Definition filterTags (tags : list string) : list string :=
  if decide (ss_IncludeTags cfg = "" ∧ ss_ExcludeTags cfg = "") then tags
  else filter (λ t, shouldIncludeTag t = true) tags.

(** [req.SetBasicAuth]. *)
Definition basic (user password : string) : string :=
  "Basic " +:+ Base64.EncodeToString (str_bytes (user +:+ ":" +:+ password)).

Definition tokenAuth (token : string) : option string :=
  if decide (token = "") then None
  else if Contains token ":" then
    match Split2 ":" token with
    | [u; p] => Some (basic u p)
    | _ => None
    end
  else Some ("Bearer " +:+ token).

(** [RegistryClient.addAuth]: the Authorization header. *)
Definition addAuth : option string :=
  if decide (ss_RobotAccount cfg ≠ "" ∧ ss_RobotToken cfg ≠ "")
  then Some (basic (ss_RobotAccount cfg) (ss_RobotToken cfg))
  else tokenAuth (ss_Token cfg).

(** [QuayClient.addAuth]. *)
Definition quayAddAuth : option string :=
  if decide (ss_Token cfg ≠ "") then Some ("Bearer " +:+ ss_Token cfg)
  else if decide (ss_RobotToken cfg ≠ "") then Some ("Bearer " +:+ ss_RobotToken cfg)
  else None.

(** The base URL without a trailing slash. *)
Definition baseURL : string := TrimSuffix (ss_URL cfg) "/".
End source.

(** [getNextLink]: the target of the first part of a Link header that says
    next and has one. *)
Definition quote : string := String (ascii_of_N 34) "".

Definition linkTarget (part : string) : option string :=
  let part := TrimSpace part in
  if Contains part ("rel=" +:+ quote +:+ "next" +:+ quote) then
    match Index part "<", Index part ">" with
    | Some start, Some end_ =>
      if decide (start < end_) then Some (stake (end_ - S start) (sdrop (S start) part)) else None
    | _, _ => None
    end
  else None.

Definition getNextLink (linkHeader : string) : string :=
  if decide (linkHeader = "") then ""
  else default "" (head (omap linkTarget (Split "," linkHeader))).

Example next_page :
  getNextLink ("</v2/a?last=x>; rel=" +:+ quote +:+ "prev" +:+ quote +:+ ", <http://h/v2/a?n=1&last=y>; rel=" +:+
               quote +:+ "next" +:+ quote) = "http://h/v2/a?n=1&last=y".
Proof. by vm_compute. Qed.

(** ** Calls *)

Section client.
Context `{Badger} `{!Json MetadataStore.ManifestMeta} `{!Json MetadataStore.RepoMeta}.
Context `{!JsonDecoder Catalog} `{!JsonDecoder TagsList} `{!UnmarshalInto SyncManifest}.
Context `{!JsonDecoder QuayRepositories} `{!JsonDecoder QuayTags} `{!UnmarshalInto QuayManifest}.
Context `{!Env}.
Context (F : Faults).

Record St := mkSt {
  st_w : World;
  st_pr : Progress;
  st_calls : nat
}.

(** A call to the environment takes its number. *)
Definition env {A} (f : nat → result A) : M St A := λ s,
  (f (st_calls s), mkSt (st_w s) (st_pr s) (S (st_calls s))).

Definition time_Now : M St Time := env (λ n, Ok (now n)).
Definition ctx_check : M St (option error) := env (λ n, Ok (ctx_Err n)).
Definition in_order {A} (l : list A) : M St (list A) := env (λ n, Ok (order n l)).

Definition http_Do (url : string) (auth : option string) : M St Response :=
  match NewRequest url with
  | Some e => throw e
  | None => env (λ n, Do n url auth)
  end.

Definition readAll (r : Reader) : M St bytes :=
  match rd_err r with Some e => throw e | None => mret (rd_data r) end.

Definition progress (f : Progress → Progress) : M St unit :=
  modify (λ s, mkSt (st_w s) (f (st_pr s)) (st_calls s)).

(** A goroutine that waits for a channel nobody serves never returns; the
    computation ends there as it does with a panic. *)
Definition blocked : string := "blocked for ever".

Definition never {A} : M St A := lift (Panic blocked).

(** ** The stores *)

Definition blobs_Exists (d : Digest) : M St bool := λ s,
  (BlobStore.Exists F (w_bs (st_w s)) (w_os (st_w s)) d, s).

Definition blobs_Put (d : Digest) (r : Reader) (size : Z) : M St unit := λ s,
  let w := st_w s in
  let '(res, os) := BlobStore.Put F (w_bs w) (w_os w) (rnds (st_calls s)) d r size in
  (res, mkSt (mkWorld _ (w_bs w) os (w_db w)) (st_pr s) (S (st_calls s))).

Definition on_db (f : DB → result unit * DB) : M St unit := λ s,
  let w := st_w s in
  let '(res, db) := f (w_db w) in
  (res, mkSt (mkWorld _ (w_bs w) (w_os w) db) (st_pr s) (st_calls s)).

Definition metadata_GetManifest (repo ref : string) : M St MetadataStore.ManifestMeta := λ s,
  (MetadataStore.GetManifest (w_db (st_w s)) repo ref, s).

Definition metadata_PutManifest (repo ref : string) (meta : MetadataStore.ManifestMeta) : M St unit :=
  now1 ← time_Now; now2 ← time_Now;
  on_db (λ db, MetadataStore.PutManifest db now1 now2 repo ref meta).

Definition metadata_Link (d : Digest) (repo : string) : M St unit :=
  ignoring (on_db (λ db, MetadataStore.LinkBlobToRepo db d repo)).

(** [digest.Parse] with its error dropped: the empty digest. *)
Definition parsed (s : string) : Digest := match Parse s with Ok d => d | _ => "" end.

(** The recorded manifest, if any, is the one with the digest. *)
Definition upToDate (existing : MetadataStore.ManifestMeta + error) (d : string) : bool :=
  match existing with
  | inl ex => bool_decide (MetadataStore.mm_Digest ex = d)
  | inr _ => false
  end.

(** ** What the two clients share: requests with their own authorization *)

Section requests.
Context (cfg : SyncSource) (auth : option string).

(** [blobs.Put] through a [progressReader]. *)
Definition progressPut (d : Digest) (r : Reader) (size : Z) : M St unit := λ s,
  let n := if Mirror.Put_reads F (st_w s) (rnds (st_calls s)) d size
           then tally (st_calls s) (rd_data r) else 0%Z in
  let p := st_pr s in
  blobs_Put d r size (mkSt (st_w s)
    (mkProgress (pg_TotalRepos p) (pg_SyncedRepos p) (pg_FailedRepos p) (pg_TotalTags p)
       (pg_SyncedTags p) (pg_FailedTags p) (pg_BytesTotal p) (pg_BytesSynced p + n) (pg_StartTime p))
    (st_calls s)).

Definition fetchManifestWith (failed : string) (repo ref : string)
    : M St (MetadataStore.ManifestMeta * bytes) :=
  resp ← http_Do (baseURL cfg +:+ "/v2/" +:+ repo +:+ "/manifests/" +:+ ref) auth;
  if decide (rp_StatusCode resp ≠ 200)%Z then
    throw (Errorf (failed +:+ fmt_d (rp_StatusCode resp)))
  else
    body ← readAll (rp_Body resp);
    mret (MetadataStore.mkManifestMeta (FromBytes body) (rp_ContentType resp) (blen body) 0 [] "" ∅,
          body).

Definition syncBlobWith (failed : string) (repo : string) (dgst : Digest) (size : Z) : M St unit :=
  there ← blobs_Exists dgst;
  if there : bool then mret tt
  else
    resp ← http_Do (baseURL cfg +:+ "/v2/" +:+ repo +:+ "/blobs/" +:+ dgst) auth;
    if decide (rp_StatusCode resp ≠ 200)%Z then
      throw (Errorf (failed +:+ fmt_d (rp_StatusCode resp)))
    else progressPut dgst (rp_Body resp) size.

(** The goroutine of one layer; the error names the first 12 bytes of the
    digest, a slice that panics on a shorter one. *)
Definition syncLayerWith (failed : string) (repo : string) (layer : string * Z) : M St unit :=
  r ← attempt (syncBlobWith failed repo (parsed layer.1) layer.2);
  match r with
  | inl _ => mret tt
  | inr e => short ← lift (slice_to layer.1 12); throw (wrap ("syncing layer " +:+ short) e)
  end.

Definition syncConfigWith (failed : string) (repo : string) (config : string * Z) : M St unit :=
  if decide (config.1 = "") then mret tt
  else wrapping "syncing config" (syncBlobWith failed repo (parsed config.1) config.2).

(** All layers at once, then the first error sent. *)
Definition syncLayersWith (failed : string) (repo : string) (layers : list (string * Z)) : M St unit :=
  l ← in_order layers;
  errs ← for_all (syncLayerWith failed repo) l;
  match errs with e :: _ => throw e | [] => mret tt end.

(** The manifest is stored and recorded, and the blobs are linked. *)
Definition storeManifest (repo tag : string) (meta : MetadataStore.ManifestMeta) (dgst : Digest)
    (body : bytes) (config : string * Z) (layers : list (string * Z)) : M St unit :=
  wrapping "storing manifest" (blobs_Put dgst (NewReader body) (blen body)) ≫= λ _,
  wrapping "storing manifest metadata" (metadata_PutManifest repo tag meta) ≫= λ _,
  metadata_Link dgst repo ≫= λ _,
  (if decide (config.1 = "") then mret tt else metadata_Link (parsed config.1) repo) ≫= λ _,
  for_each (λ l, metadata_Link (parsed l.1) repo) layers.
End requests.

Definition setTotalTags (n : Z) (p : Progress) : Progress :=
  mkProgress (pg_TotalRepos p) (pg_SyncedRepos p) (pg_FailedRepos p) n
    (pg_SyncedTags p) (pg_FailedTags p) (pg_BytesTotal p) (pg_BytesSynced p) (pg_StartTime p).
Definition addTag (synced failed : Z) (p : Progress) : Progress :=
  mkProgress (pg_TotalRepos p) (pg_SyncedRepos p) (pg_FailedRepos p) (pg_TotalTags p)
    (pg_SyncedTags p + synced) (pg_FailedTags p + failed) (pg_BytesTotal p) (pg_BytesSynced p)
    (pg_StartTime p).

(** The tags one after the other, until the context ends. *)
Fixpoint syncTags {A} (syncTag : A → M St unit) (tags : list A) : M St unit :=
  match tags with
  | [] => mret tt
  | tag :: tags =>
    err ← ctx_check;
    match (err : option error) with
    | Some e => throw e
    | None =>
      r ← attempt (syncTag tag);
      match r with
      | inl _ => progress (addTag 1 0)
      | inr _ => progress (addTag 0 1)
      end ≫= λ _, syncTags syncTag tags
    end
  end.

(** ** registry.go *)

Section registry.
Context (cfg : SyncSource).

Definition fetchManifest := fetchManifestWith cfg (addAuth cfg) "manifest fetch returned ".
Definition syncBlob := syncBlobWith cfg (addAuth cfg) "blob fetch returned ".

(** The pages of a listing, from a first URL along the Link headers; [fuel]
    bounds the number of pages. *)
Fixpoint listPages {B} (decode : bytes → result B) (names : B → list string)
    (failed : Response → option (result (list string))) (wrap_do wrap_dec : error → error)
    (fuel : nat) (url : string) (acc : list string) : M St (list string) :=
  if decide (url = "") then mret acc
  else
    match fuel with
    | O => never
    | S fuel =>
      match NewRequest url with
      | Some e => throw e
      | None =>
        answer ← attempt (env (λ n, Do n url (addAuth cfg)));
        match answer with
        | inr e => throw (wrap_do e)
        | inl resp =>
          match failed resp with
          | Some r => lift r
          | None =>
            match decode (rd_data (rp_Body resp)) with
            | Ok b => listPages decode names failed wrap_do wrap_dec fuel
                        (getNextLink (rp_Link resp)) (acc ++ names b)
            | Err e => throw (wrap_dec e)
            | Panic p => lift (Panic p)
            end
          end
        end
      end
    end.

Definition catalogFailed (resp : Response) : option (result (list string)) :=
  if decide (rp_StatusCode resp ≠ 200)%Z
  then Some (Err (Errorf ("catalog returned " +:+ fmt_d (rp_StatusCode resp)))) else None.

Definition ListRepositories (fuel : nat) : M St (list string) :=
  if decide (ss_Repositories cfg ≠ []) then mret (ss_Repositories cfg)
  else listPages json_Decode ct_Repositories catalogFailed (wrap "catalog request failed")
         (wrap "decoding catalog") fuel (baseURL cfg +:+ "/v2/_catalog") [].

(** A repository that is not there has no tags. *)
Definition tagsFailed (resp : Response) : option (result (list string)) :=
  if decide (rp_StatusCode resp = 404)%Z then Some (Ok [])
  else if decide (rp_StatusCode resp ≠ 200)%Z
  then Some (Err (Errorf ("tags list returned " +:+ fmt_d (rp_StatusCode resp)))) else None.

Definition listTags (fuel : nat) (repo : string) : M St (list string) :=
  listPages json_Decode tl_Tags tagsFailed id id fuel
    (baseURL cfg +:+ "/v2/" +:+ repo +:+ "/tags/list") [].

(** [make(chan struct{}, n)]. *)
Definition makechan (n : Z) : result unit :=
  if decide (n < 0)%Z then Panic "makechan: size out of range" else Ok tt.

(** A tag, or a manifest named by its digest; [fuel] bounds the depth of
    nested indexes, as the stack of the goroutine does. *)
Fixpoint syncTag (fuel : nat) (repo tag : string) : M St unit :=
  match fuel with
  | O => lift (Panic "stack overflow")
  | S fuel =>
    mb ← wrapping "fetching manifest" (fetchManifest repo tag);
    let '(manifest, body) := mb in
    existing ← attempt (metadata_GetManifest repo tag);
    if upToDate existing (MetadataStore.mm_Digest manifest) then mret tt
    else
      let '(m, err) := unmarshal_into body in
      match err with
      | Some e => throw (wrap "parsing manifest" e)
      | None =>
        for_each (λ r, ignoring (syncTag fuel repo (mr_Digest r))) (sm_Manifests m) ≫= λ _,
        syncConfigWith cfg (addAuth cfg) "blob fetch returned " repo (sm_Config m) ≫= λ _,
        lift (makechan (ss_Concurrency cfg)) ≫= λ _,
        syncLayersWith cfg (addAuth cfg) "blob fetch returned " repo (sm_Layers m) ≫= λ _,
        storeManifest repo tag manifest (MetadataStore.mm_Digest manifest) body
          (sm_Config m) (sm_Layers m)
      end
  end.

(** [pages] bounds the listing, [fuel] the depth of indexes. *)
Definition SyncRepository (pages fuel : nat) (repo : string) : M St unit :=
  tags ← wrapping "listing tags" (listTags pages repo);
  let filteredTags := filterTags cfg tags in
  progress (setTotalTags (Z.of_nat (length filteredTags))) ≫= λ _,
  syncTags (syncTag fuel repo) filteredTags.
End registry.

(** ** quay.go *)

Section quay.
Context (cfg : SyncSource).

Definition quayFetchManifest := fetchManifestWith cfg (quayAddAuth cfg) "upstream returned ".
Definition quaySyncBlob := syncBlobWith cfg (quayAddAuth cfg) "upstream returned ".

(** One request to Quay's own API. *)
Definition quayGet {B} `{!JsonDecoder B} (failed : string) (url : string) : M St B :=
  resp ← http_Do url (quayAddAuth cfg);
  if decide (rp_StatusCode resp ≠ 200)%Z then
    throw (Errorf (failed +:+ fmt_d (rp_StatusCode resp)))
  else lift (json_Decode (rd_data (rp_Body resp))).

Definition listOrgRepositories (org : string) : M St (list string) :=
  result ← quayGet "Quay API returned " (baseURL cfg +:+ "/api/v1/repository?namespace=" +:+ org);
  mret ((λ r, Join [qr_Namespace r; qr_Name r]) <$> qrs_Repositories result).

(** An organization that cannot be listed is left out. *)
Fixpoint quayListOrgs (orgs : list string) (repos : list string) : M St (list string) :=
  match orgs with
  | [] => mret repos
  | org :: orgs =>
    r ← attempt (listOrgRepositories org);
    quayListOrgs orgs (repos ++ match r with inl l => l | inr _ => [] end)
  end.

Definition quayListRepositories : M St (list string) :=
  repos ← quayListOrgs (ss_Organizations cfg) [];
  mret (repos ++ ss_Repositories cfg).

Definition ListTags (repo : string) : M St (list QuayTag) :=
  result ← quayGet "Quay API returned " (baseURL cfg +:+ "/api/v1/repository/" +:+ repo +:+ "/tag/");
  mret (filter (λ t, shouldIncludeTag cfg (qt_Name t) = true) (qts_Tags result)).

(** With no concurrency the first layer waits for ever. *)
Definition quaySemaphore (layers : list (string * Z)) : M St unit :=
  lift (makechan (ss_Concurrency cfg)) ≫= λ _,
  if decide (ss_Concurrency cfg = 0%Z ∧ layers ≠ []) then never else mret tt.

Definition quaySyncTag (repo : string) (tag : QuayTag) : M St unit :=
  existing ← attempt (metadata_GetManifest repo (qt_Name tag));
  if upToDate existing (qt_ManifestDigest tag) then mret tt
  else
    mb ← wrapping "fetching manifest" (quayFetchManifest repo (qt_Name tag));
    let '(manifest, body) := mb in
    let m := (unmarshal_into body).1 in
    syncConfigWith cfg (quayAddAuth cfg) "upstream returned " repo (qm_Config m) ≫= λ _,
    quaySemaphore (qm_Layers m) ≫= λ _,
    syncLayersWith cfg (quayAddAuth cfg) "upstream returned " repo (qm_Layers m) ≫= λ _,
    storeManifest repo (qt_Name tag) manifest (FromBytes body) body (qm_Config m) (qm_Layers m).

Definition quaySyncRepository (repo : string) : M St unit :=
  tags ← wrapping "listing tags" (ListTags repo);
  progress (setTotalTags (Z.of_nat (length tags))) ≫= λ _,
  syncTags (quaySyncTag repo) tags.
End quay.
End client.
End Sync.
