(* ===== verification/SyncSpec.v ===== *)
(** What synchronising a repository leaves in the stores: every manifest that
    is recorded has its blobs, and every tag counted as synced is recorded. *)

From S2P Require Import Prelude Effect GoLib Digest Os Blob Badger Metadata Oci Base64 Glob Mirror Cloner ClonerSpec SyncClients.

Module SyncSpec.
Import Sync.
Import ClonerSpec (world_ok, stored, kept).

(** ** Computations with an invariant for their early ends *)

Section runs.
Context {S : Type}.

(** From [P], a value leads to [Q] and everything else to [I]. *)
Definition runs {A} (P : S → Prop) (m : M S A) (I : S → Prop) (Q : A → S → Prop) : Prop :=
  hoare P m (λ r s, match r with Ok a => Q a s | _ => I s end).

Lemma runs_bind {A B} P I R Q (m : M S A) (k : A → M S B) :
  runs P m I R → (∀ a, runs (R a) (k a) I Q) → runs P (m ≫= k) I Q.
Proof. intros Hm Hk. eapply hoare_bind; [|exact Hk]. intros s Hs. specialize (Hm s Hs). by destruct (m s).1. Qed.

Lemma runs_keeps {A} (I : S → Prop) (m : M S A) : keeps I m → runs I m I (λ _, I).
Proof. intros Hm s Hs. specialize (Hm s Hs). by destruct (m s).1. Qed.

Lemma keeps_runs {A} (I : S → Prop) (m : M S A) : runs I m I (λ _, I) → keeps I m.
Proof. intros Hm s Hs. specialize (Hm s Hs). by destruct (m s).1. Qed.

Lemma runs_conseq {A} P P' I Q Q' (m : M S A) :
  runs P' m I Q' → (∀ s, P s → P' s) → (∀ a s, Q' a s → Q a s) → runs P m I Q.
Proof. intros Hm HP HQ s Hs. specialize (Hm s (HP s Hs)). destruct (m s).1; eauto. Qed.

Lemma runs_and {A} P I Q1 Q2 (m : M S A) :
  runs P m I Q1 → runs P m I Q2 → runs P m I (λ a s, Q1 a s ∧ Q2 a s).
Proof. intros H1 H2 s Hs. specialize (H1 s Hs). specialize (H2 s Hs). by destruct (m s).1. Qed.

Lemma runs_pure {A} (φ : Prop) P I Q (m : M S A) : (φ → runs P m I Q) → runs (λ s, φ ∧ P s) m I Q.
Proof. intros Hm s [? ?]. by apply Hm. Qed.

Lemma runs_wrapping {A} pre P I Q (m : M S A) : runs P m I Q → runs P (wrapping pre m) I Q.
Proof. intros Hm s Hs. specialize (Hm s Hs). unfold wrapping. by destruct (m s) as [[]]. Qed.

Lemma runs_throw {A} e (P I : S → Prop) (Q : A → S → Prop) : (∀ s, P s → I s) → runs P (throw e) I Q.
Proof. intros HI s Hs. by apply HI. Qed.

Lemma runs_lift {A} (P I : S → Prop) (r : result A) :
  (∀ s, P s → I s) → runs P (lift r) I (λ a s, r = Ok a ∧ P s).
Proof. intros HI s Hs. destruct r; simpl; auto. Qed.

Lemma runs_ret {A} (P I : S → Prop) (Q : A → S → Prop) a : (∀ s, P s → Q a s) → runs P (mret a) I Q.
Proof. intros HQ s Hs. by apply HQ. Qed.

(** The caller goes on after an error. *)
Lemma runs_attempt {A} P I Q (m : M S A) :
  runs P m I Q → runs P (attempt m) I (λ r s, match r with inl a => Q a s | inr _ => I s end).
Proof. intros Hm s Hs. specialize (Hm s Hs). unfold attempt. by destruct (m s) as [[]]. Qed.

Lemma bind_attempt {A B} (m : M S A) (k : A + error → M S B) s :
  (attempt m ≫= k) s =
  match m s with
  | (Ok a, s') => k (inl a) s'
  | (Err e, s') => k (inr e) s'
  | (Panic p, s') => (Panic p, s')
  end.
Proof. unfold mbind, M_bind, attempt. by destruct (m s) as [[]]. Qed.
End runs.

Section spec.
Context `{BadgerLaws} `{!Json MetadataStore.ManifestMeta} `{!Json MetadataStore.RepoMeta}.
Context `{!JsonLaws MetadataStore.ManifestMeta MetadataStore.meta_ok}.
Context `{!JsonLaws MetadataStore.RepoMeta MetadataStore.repo_ok}.
Context `{!JsonDecoder Catalog} `{!JsonDecoder TagsList} `{!UnmarshalInto SyncManifest}.
Context `{!JsonDecoder QuayRepositories} `{!JsonDecoder QuayTags} `{!UnmarshalInto QuayManifest}.
Context `{!Env}.
Context (F : Faults) (HRemove : F OpRemove = None).
Context (root : string) (Hroot : BlobStore.good_root root).
Context (Hclock : ∀ n, MetadataStore.time_ok (now n)).
(** The repository, the digests a manifest's bytes refer to, and where the
    digest of a tag may come from. *)
Context (repo : string) (Hrepo : MetadataStore.good_repo repo).
Context (refs : bytes → list Digest) (src : string → Digest → Prop).

(** A manifest is in the store with the blobs it refers to. *)
Definition image (w : World) (d : Digest) : Prop :=
  ∃ body, d = FromBytes body ∧ Forall (λ d, kept root d w) (d :: refs body).

Definition tagged (ix : MetadataStore.Index) (t : string) : Prop :=
  HasPrefix t "sha256:" = false → ∃ d, MetadataStore.ix_tags ix !! (repo, t) = Some d ∧ src t d ∧
    is_Some (MetadataStore.ix_manifests ix !! (repo, d)).

(** The index of the database: its manifests are images, and the given tags
    are recorded. *)
Definition index_ok (w : World) (D : list string) (ix : MetadataStore.Index) : Prop :=
  MetadataStore.represents (view (w_db w)) ix ∧
  (∀ r d m, MetadataStore.ix_manifests ix !! (r, d) = Some m →
    MetadataStore.mm_Digest m = d ∧ image w d) ∧
  Forall (tagged ix) D.

(** What every state has in common, from a world [w0] on: with the numbers of
    tags synced and failed, and the tags recorded. *)
Definition inv (w0 : World) (c : Z * Z) (D : list string) (s : St) : Prop :=
  world_ok root (st_w s) ∧ (∀ d, canonical d → stored root w0 d → stored root (st_w s) d) ∧
  (pg_SyncedTags (st_pr s), pg_FailedTags (st_pr s)) = c ∧ ∃ ix, index_ok (st_w s) D ix.

Context (w0 : World).

Lemma inv_weaken c D D' s : (∀ t, t ∈ D' → t ∈ D) → inv w0 c D s → inv w0 c D' s.
Proof.
  intros HD (? & ? & ? & ix & ? & ? & Ht). split_and!; [done..|]. exists ix. split_and!; [done..|].
  rewrite Forall_forall in *. auto.
Qed.

Lemma kept_mono d w w' :
  (∀ d, canonical d → stored root w d → stored root w' d) → kept root d w → kept root d w'.
Proof. intros Hm [Hv Hk]. split; auto. Qed.

(** A step that only adds blobs and leaves the database and the counters. *)
Lemma inv_grow c D s s' :
  inv w0 c D s → world_ok root (st_w s') →
  (∀ d, canonical d → stored root (st_w s) d → stored root (st_w s') d) →
  w_db (st_w s') = w_db (st_w s) → 
  (pg_SyncedTags (st_pr s'), pg_FailedTags (st_pr s')) = (pg_SyncedTags (st_pr s), pg_FailedTags (st_pr s)) →
  inv w0 c D s'.
Proof.
  intros (Hok & Hmono & Hc & ix & Hrep & Him & Ht) Hok' Hm Hdb Hp.
  split; [done|]. split; [auto|]. split; [by rewrite Hp|]. exists ix. split; [by rewrite Hdb|].
  split; [|done]. intros r d m Hr. destruct (Him r d m Hr) as [? (body & -> & Hk)].
  split; [done|]. exists body. split; [done|]. eapply Forall_impl; [exact Hk|].
  intros d'. by apply kept_mono.
Qed.

(** ** The calls *)

Lemma inv_env {A} c D (f : nat → result A) : keeps (inv w0 c D) (env f).
Proof. by intros s Hs. Qed.

Lemma kept_env {A} ds (f : nat → result A) : keeps (λ s, Forall (λ d, kept root d (st_w s)) ds) (env f).
Proof. by intros s Hs. Qed.

(** With some blobs that are known to be there. *)
Definition have (c : Z * Z) (D : list string) (ds : list Digest) (s : St) : Prop :=
  inv w0 c D s ∧ Forall (λ d, kept root d (st_w s)) ds.

Definition adds {A} (m : M St A) : Prop := ∀ c D ds, keeps (have c D ds) m.

Lemma adds_env {A} (f : nat → result A) : adds (env f).
Proof. by intros c D ds s Hs. Qed.

Lemma adds_http_Do url auth : adds (http_Do url auth).
Proof. intros c D ds. unfold http_Do. repeat keeps_step. apply adds_env. Qed.

Lemma adds_readAll r : adds (readAll r).
Proof. intros c D ds. unfold readAll. repeat keeps_step. Qed.

Lemma adds_Exists d : adds (blobs_Exists F d).
Proof. by intros c D ds s Hs. Qed.

Lemma Put_world s d r n :
  world_ok root (st_w s) →
  let s' := (blobs_Put F d r n s).2 in
  world_ok root (st_w s') ∧ (∀ d, canonical d → stored root (st_w s) d → stored root (st_w s') d) ∧
  w_db (st_w s') = w_db (st_w s) ∧ st_pr s' = st_pr s.
Proof.
  intros Hok. unfold blobs_Put.
  pose proof (ClonerSpec.Put_files F HRemove root Hroot (w_bs (st_w s)) (w_os (st_w s)) (rnds (st_calls s))
    d r n (proj1 Hok)) as HP.
  destruct (BlobStore.Put _ _ _ _ _ _ _) as [res os']. cbn [snd st_w st_pr w_db] in *.
  destruct (ClonerSpec.grown_files root (st_w s) ("","","","",0%Z) (st_w s) ("","","","",0%Z) os'
    (ClonerSpec.grown_refl root (st_w s) _ Hok) HP (w_bs (st_w s)) (w_db (st_w s)) (proj1 Hok))
    as (? & ? & _). done.
Qed.

Lemma adds_Put d r n : adds (blobs_Put F d r n).
Proof.
  intros c D ds s [Hs Hk]. destruct (Put_world s d r n) as (? & Hm & ? & Hp); [apply Hs|].
  split; [apply (inv_grow c D s); [done..|by rewrite Hp]|].
  eapply Forall_impl; [exact Hk|]. intros d'. by apply kept_mono.
Qed.

Lemma adds_progressPut d r n : adds (progressPut F d r n).
Proof. intros c D ds s [Hs Hk]. unfold progressPut. by apply adds_Put. Qed.

Ltac adds_step :=
  first [ keeps_step | apply adds_env | apply adds_http_Do | apply adds_readAll | apply adds_Exists
        | apply adds_Put | apply adds_progressPut ].

Section requests.
Context (cfg : SyncSource) (auth : option string) (failed : string).

Lemma adds_syncBlob r d n : adds (syncBlobWith F cfg auth failed r d n).
Proof. intros c D ds. unfold syncBlobWith. repeat adds_step. Qed.

Lemma adds_syncLayer r l : adds (syncLayerWith F cfg auth failed r l).
Proof. intros c D ds. unfold syncLayerWith. repeat first [adds_step | apply adds_syncBlob]. Qed.

Lemma adds_fetchManifest r t : adds (fetchManifestWith cfg auth failed r t).
Proof. intros c D ds. unfold fetchManifestWith. repeat adds_step. Qed.

Lemma Exists_post c D ds d :
  hoare (have c D ds) (blobs_Exists F d)
    (on_ok (λ b s, have c D ds s ∧ (b = true → canonical d → stored root (st_w s) d))).
Proof.
  intros s Hs b Hb. split; [exact Hs|]. intros -> Hd. revert Hb. simpl. unfold BlobStore.Exists.
  destruct Hs as [[[Hbs _] _] _]. rewrite BlobStore.blobPath_canonical by (rewrite ?Hbs; done).
  rewrite Hbs. simpl. unfold Stat, stored. destruct (F OpStat); [done|].
  destruct (_ !! _); [by eexists|done].
Qed.

(** A digest [Parse] rejects is the empty one, on which [Exists] panics. *)
Lemma Exists_parsed x s b : (blobs_Exists F (parsed x) s).1 = Ok b → valid x ∧ parsed x = x.
Proof.
  unfold parsed. destruct (Parse x) as [d|e|m] eqn:E; [|done..].
  by apply Parse_Ok in E as [<- ?].
Qed.

Lemma Put_stored s d r n :
  world_ok root (st_w s) → (blobs_Put F d r n s).1 = Ok tt → canonical d →
  stored root (st_w (blobs_Put F d r n s).2) d.
Proof.
  intros [Hbs _] Hres Hd. revert Hres. unfold blobs_Put, stored.
  destruct (BlobStore.Put _ _ _ _ _ _ _) as [res os'] eqn:HP. cbn [fst snd st_w w_os]. intros ->.
  apply BlobStore.Put_cases in HP; [|by rewrite ?Hbs..].
  rewrite Hbs in HP. destruct HP as [(e & ? & _)|[(_ & -> & c & -> & _)|(_ & _ & _ & _ & ->)]];
    [done|by eexists|]. rewrite lookup_insert_eq. by eexists.
Qed.

(** A blob that is synced without an error is there. *)
Lemma runs_syncBlob c D ds r x n :
  runs (have c D ds) (syncBlobWith F cfg auth failed r (parsed x) n) (have c D ds)
    (λ _, have c D (x :: ds)).
Proof.
  intros s Hs. pose proof (adds_syncBlob r (parsed x) n c D ds s Hs) as Hk.
  destruct (syncBlobWith F cfg auth failed r (parsed x) n s) as [res s'] eqn:E.
  cbn [fst snd] in Hk |- *. destruct res as [[]|e|m]; [|done..].
  split; [apply Hk|]. constructor; [|apply Hk]. revert E. unfold syncBlobWith, mbind, M_bind.
  destruct (blobs_Exists F (parsed x) s) as [[b|e|m] s1] eqn:Ex; [|done..].
  pose proof (Exists_parsed x s b) as Hx. rewrite Ex in Hx. destruct (Hx eq_refl) as [Hv Hp].
  rewrite Hp in *. clear Hx. pose proof (Exists_post c D ds x s Hs b) as He. rewrite Ex in He.
  destruct (He eq_refl) as [Hs1 Hst]. cbn [snd] in Hs1, Hst. clear He.
  destruct b; [intros [= <-]; split; auto|].
  pose proof (adds_http_Do (baseURL cfg +:+ "/v2/" +:+ r +:+ "/blobs/" +:+ x) auth c D ds s1 Hs1) as Hw.
  destruct (http_Do _ auth s1) as [[resp|e|m] s2]; [|done..]. cbn [snd] in Hw.
  case_decide; [done|]. unfold progressPut. intros E. split; [done|]. intros Hd.
  match type of E with blobs_Put _ _ ?rd _ ?s3 = _ =>
    pose proof (Put_stored s3 x rd n) as HP end.
  rewrite E in HP. apply HP; [apply Hw|done|done].
Qed.

Lemma runs_syncConfig c D ds r cf :
  runs (have c D ds) (syncConfigWith F cfg auth failed r cf) (have c D ds)
    (λ _, have c D ((if decide (cf.1 = "") then [] else [cf.1]) ++ ds)).
Proof.
  unfold syncConfigWith. case_decide; [by apply runs_ret|].
  apply runs_wrapping, runs_syncBlob.
Qed.

Lemma runs_syncLayer c D ds r l :
  runs (have c D ds) (syncLayerWith F cfg auth failed r l) (have c D ds)
    (λ _, have c D (l.1 :: ds)).
Proof.
  unfold syncLayerWith. eapply runs_bind; [apply runs_attempt, runs_syncBlob|].
  intros [u|e]; [by apply runs_ret|].
  eapply runs_bind; [by apply runs_lift|]. intros short. apply runs_pure. intros _. by apply runs_throw.
Qed.

Lemma have_perm c D ds ds' s : (∀ d, d ∈ ds' → d ∈ ds) → have c D ds s → have c D ds' s.
Proof. intros Hd [? Hk]. split; [done|]. rewrite Forall_forall in *. auto. Qed.

Lemma for_all_post c D r ls ds :
  runs (have c D ds) (for_all (syncLayerWith F cfg auth failed r) ls) (have c D ds)
    (λ errs s, have c D ds s ∧ (errs = [] → have c D (ls.*1 ++ ds) s)).
Proof.
  revert ds. induction ls as [|l ls IH]; intros ds; simpl; [by apply runs_ret|].
  intros s Hs. unfold mbind, M_bind, attempt. pose proof (runs_syncLayer c D ds r l s Hs) as Hl.
  destruct (syncLayerWith F cfg auth failed r l s) as [[u|e|m] s1]; cbn [fst snd] in *; [| |done].
  - specialize (IH (l.1 :: ds) s1 Hl).
    destruct (for_all _ ls s1) as [[es|e|m] s2]; cbn [fst snd] in *.
    + destruct IH as [Hi Hj]. split; [eapply have_perm; [|exact Hi]; set_solver|].
      intros Hes. eapply have_perm; [|exact (Hj Hes)]. set_solver.
    + eapply have_perm; [|exact IH]; set_solver.
    + eapply have_perm; [|exact IH]; set_solver.
  - specialize (IH ds s1 Hl).
    destruct (for_all _ ls s1) as [[es|e'|m] s2]; cbn [fst snd] in *; [|done..].
    split; [apply IH|done].
Qed.

Lemma syncLayers_post c D ds r ls :
  runs (have c D ds) (syncLayersWith F cfg auth failed r ls) (have c D ds)
    (λ _, have c D (ls.*1 ++ ds)).
Proof.
  unfold syncLayersWith, in_order.
  eapply runs_bind with (R := λ l s, l ≡ₚ ls ∧ have c D ds s).
  { intros s Hs. split; [apply order_perm|exact Hs]. }
  intros l. apply runs_pure. intros Hl. eapply runs_bind; [apply for_all_post|].
  intros [|e errs].
  - apply runs_ret. intros s [_ Hs]. specialize (Hs eq_refl). eapply have_perm; [|exact Hs].
    intros d. rewrite Hl. done.
  - apply runs_throw. by intros s [? _].
Qed.
End requests.

(** ** The manifest and its record *)

Context (Hplain : ∀ n url auth r, Do n url auth = Ok r →
  MetadataStore.is_ascii (rp_ContentType r) ∧ (blen (rd_data (rp_Body r)) ≤ maxInt64)%Z).

(** The upstream has answered with a body. *)
Definition answered (url : string) (body : bytes) : Prop :=
  ∃ n auth resp, Do n url auth = Ok resp ∧ rp_StatusCode resp = 200%Z ∧ rd_data (rp_Body resp) = body.

Definition manifestURL (cfg : SyncSource) (t : string) : string :=
  baseURL cfg +:+ "/v2/" +:+ repo +:+ "/manifests/" +:+ t.

Definition fetched (cfg : SyncSource) (t : string) (mb : MetadataStore.ManifestMeta * bytes) : Prop :=
  answered (manifestURL cfg t) mb.2 ∧ MetadataStore.mm_Digest mb.1 = FromBytes mb.2 ∧
  MetadataStore.meta_ok mb.1.

Lemma runs_fetchManifest cfg auth failed c D ds t :
  runs (have c D ds) (fetchManifestWith cfg auth failed repo t) (have c D ds)
    (λ mb s, fetched cfg t mb ∧ have c D ds s).
Proof.
  unfold fetchManifestWith. fold (manifestURL cfg t).
  eapply runs_bind with (R := λ resp s, (∃ n, Do n (manifestURL cfg t) auth = Ok resp) ∧ have c D ds s).
  { unfold http_Do. destruct (NewRequest _); [by apply runs_throw|].
    intros s Hs. unfold env. cbn [fst snd]. destruct (Do _ _ auth) as [resp|e|m] eqn:E; [|done..].
    split; [by eexists|done]. }
  intros resp. apply runs_pure. intros [n Hn]. case_decide as Hst; [by apply runs_throw|].
  unfold readAll. destruct (rd_err _); [by apply runs_throw|].
  intros s Hs. split; [|exact Hs]. destruct (Hplain _ _ _ _ Hn) as [Hct Hlen].
  split; [exists n, auth, resp; by split_and!|]. split; [done|]. cbn [fst snd].
  split; [apply MetadataStore.canonical_ascii, FromBytes_canonical|]. split; [done|].
  split; [unfold in64, minInt64; cbn [MetadataStore.mm_Size]; unfold blen in *; lia|].
  split; [by apply (bool_decide_unpack _)|]. split; [constructor|].
  split; [by apply (bool_decide_unpack _)|]. apply map_Forall_empty.
Qed.

Lemma PutManifest_post c D tag meta :
  MetadataStore.meta_ok meta → src tag (MetadataStore.mm_Digest meta) →
  runs (λ s, inv w0 c D s ∧ image (st_w s) (MetadataStore.mm_Digest meta))
    (metadata_PutManifest repo tag meta) (inv w0 c D) (λ _, inv w0 c (tag :: D)).
Proof.
  intros Hm Hsrc s [(Hok & Hmono & Hc & ix & Hrep & Him & Ht) Himg].
  unfold metadata_PutManifest, time_Now, env, on_db, mbind, M_bind. cbn [fst snd st_calls st_w st_pr].
  set (n1 := now (st_calls s)). set (n2 := now (S (st_calls s))).
  destruct (MetadataStore.run_refines (MetadataStore.OpPutManifest n1 n2 repo tag meta)
    (w_db (st_w s)) ix) as [Hres Hrep']; [|done|].
  { split; [done|]. split; [done|]. split; apply Hclock. }
  simpl in Hres, Hrep'. destruct (MetadataStore.PutManifest _ _ _ _ _ _) as [res db'].
  simpl in Hres, Hrep'. subst res. split_and!; [done..|]. cbn [st_w]. eexists.
  split; [exact Hrep'|]. split.
  - intros r d m. cbn [MetadataStore.ix_manifests]. rewrite lookup_insert_Some.
    intros [[[= <- <-] <-]|[_ Hr]]; [done|]. by apply (Him r d m).
  - assert (∀ t, t = tag ∨ tagged ix t → tagged (MetadataStore.mkIndex
      (<[(repo, MetadataStore.mm_Digest meta):=meta]> (MetadataStore.ix_manifests ix))
      (if HasPrefix tag "sha256:" then MetadataStore.ix_tags ix
       else <[(repo, tag):=MetadataStore.mm_Digest meta]> (MetadataStore.ix_tags ix))
      (<[repo := MetadataStore.mkRepoMeta repo (match MetadataStore.ix_repos ix !! repo with
         Some r => MetadataStore.rm_CreatedAt r | None => n2 end) n1]> (MetadataStore.ix_repos ix))
      (MetadataStore.ix_blobRepos ix) (MetadataStore.ix_repoBlobs ix)) t) as Hall.
    { intros t Hor Hp. cbn [MetadataStore.ix_tags MetadataStore.ix_manifests].
      destruct (decide (t = tag)) as [->|Hne].
      + exists (MetadataStore.mm_Digest meta). rewrite Hp, !lookup_insert_eq. by eauto.
      + destruct Hor as [?|Htg]; [done|]. destruct (Htg Hp) as (d & Hd & ? & Hs'). exists d.
        split; [|split; [done|by apply lookup_insert_is_Some'; right]].
        destruct (HasPrefix tag "sha256:"); [done|]. by rewrite lookup_insert_ne by congruence. }
    constructor; [apply Hall; by left|]. eapply Forall_impl; [exact Ht|]. intros t Htg.
    apply Hall. by right.
Qed.

Lemma Link_post c D d : valid d → keeps (inv w0 c D) (metadata_Link d repo).
Proof.
  intros Hd. unfold metadata_Link. keeps_step. intros s (Hok & Hmono & Hc & ix & Hrep & Him & Ht).
  destruct (MetadataStore.Link_refines (w_db (st_w s)) ix d repo) as [_ Hrep']; [by split|done|].
  unfold on_db. destruct (MetadataStore.LinkBlobToRepo _ _ _) as [res db']. simpl in *.
  split_and!; [done..|]. eexists. by split_and!.
Qed.

Definition manifest_refs (cf : string * Z) (ls : list (string * Z)) : list Digest :=
  ls.*1 ++ (if decide (cf.1 = "") then [] else [cf.1]).

Lemma parsed_valid x : valid x → parsed x = x.
Proof. intros Hx. unfold parsed. by rewrite Parse_valid. Qed.

Lemma links_post c D cf ls dg :
  valid dg → Forall valid (manifest_refs cf ls) →
  keeps (inv w0 c D) (metadata_Link dg repo ≫= λ _,
    (if decide (cf.1 = "") then mret tt else metadata_Link (parsed cf.1) repo) ≫= λ _,
    for_each (λ l, metadata_Link (parsed l.1) repo) ls).
Proof.
  intros Hdg Hv. unfold manifest_refs in Hv. apply Forall_app in Hv as [Hls Hcf].
  apply keeps_bind; [by apply Link_post|]. intros _. apply keeps_bind.
  - case_decide; [apply keeps_ret|]. apply Forall_cons in Hcf as [Hcf _].
    rewrite parsed_valid by done. by apply Link_post.
  - intros _. induction ls as [|l ls IH]; simpl; [apply keeps_ret|].
    apply Forall_cons in Hls as [Hl Hls]. apply keeps_bind; [|auto].
    rewrite parsed_valid by done. by apply Link_post.
Qed.

Lemma storeManifest_post c D tag meta body cf ls :
  MetadataStore.meta_ok meta → MetadataStore.mm_Digest meta = FromBytes body →
  src tag (FromBytes body) → refs body = manifest_refs cf ls →
  runs (have c D (refs body)) (storeManifest F repo tag meta (FromBytes body) body cf ls)
    (inv w0 c D) (λ _, inv w0 c (tag :: D)).
Proof.
  intros Hm Hd Hsrc Hrefs. unfold storeManifest.
  pose proof (FromBytes_canonical body) as Hcan. set (dg := FromBytes body) in *.
  eapply runs_bind with (R := λ _, have c D (dg :: refs body)).
  { apply runs_wrapping. intros s Hs.
    pose proof (adds_Put dg (NewReader body) (blen body) c D (refs body) s Hs) as Hk.
    pose proof (Put_stored s dg (NewReader body) (blen body) (proj1 (proj1 Hs))) as HP.
    destruct (blobs_Put F dg _ _ s) as [[[]|e|m] s1]; cbn [fst snd] in *; [|apply Hk..].
    destruct Hk as [Hi Hk]. split; [exact Hi|]. constructor; [|exact Hk].
    split; [by apply canonical_valid|]. auto. }
  intros _. intros s Hs. assert (Forall valid (manifest_refs cf ls)) as Hv.
  { rewrite <-Hrefs. destruct Hs as [_ Hk]. apply Forall_cons in Hk as [_ Hk].
    eapply Forall_impl; [exact Hk|]. by intros d [? _]. }
  revert s Hs. change (runs (have c D (dg :: refs body)) (wrapping "storing manifest metadata"
    (metadata_PutManifest repo tag meta) ≫= λ _, metadata_Link dg repo ≫= λ _,
    (if decide (cf.1 = "") then mret tt else metadata_Link (parsed cf.1) repo) ≫= λ _,
    for_each (λ l, metadata_Link (parsed l.1) repo) ls) (inv w0 c D) (λ _, inv w0 c (tag :: D))).
  eapply runs_bind.
  { apply runs_wrapping. eapply runs_conseq; [apply PutManifest_post; [done|by rewrite Hd]| |done].
    intros s [Hi Hk]. split; [done|]. rewrite Hd. by exists body. }
  intros _ s Hs.
  pose proof (links_post c (tag :: D) cf ls dg (canonical_valid _ Hcan) Hv s Hs) as Hl.
  match goal with |- context [?m s] => destruct (m s) as [[[]|e|m'] s1] end; cbn [fst snd] in *;
    [done|eapply inv_weaken; [|exact Hl]; set_solver..].
Qed.

(** A tag that is up to date is recorded. *)
Lemma upToDate_post c D s tag d :
  inv w0 c D s → src tag d →
  (∃ ex, (metadata_GetManifest repo tag s).1 = Ok ex ∧ MetadataStore.mm_Digest ex = d) →
  inv w0 c (tag :: D) s.
Proof.
  intros (Hok & Hmono & Hc & ix & Hrep & Him & Ht) Hsrc (ex & Hex & Hd).
  split_and!; [done..|]. exists ix. split_and!; [done..|]. constructor; [|done]. intros Hp.
  unfold metadata_GetManifest in Hex. cbn [fst] in Hex.
  rewrite (MetadataStore.GetManifest_spec _ ix _ _ (proj1 Hrepo) Hrep) in Hex.
  unfold MetadataStore.ix_resolve in Hex. rewrite Hp in Hex.
  destruct (MetadataStore.ix_tags ix !! (repo, tag)) as [d'|] eqn:Et; [|done]. simpl in Hex.
  destruct (MetadataStore.ix_manifests ix !! (repo, d')) as [m|] eqn:Em; [|done].
  injection Hex as ->. destruct (Him _ _ _ Em) as [Hd' _].
  assert (d' = d) as -> by congruence. exists d. split; [done|]. split; [done|]. by eexists.
Qed.

(** ** The tags of a repository *)

Lemma have_nil c D s : inv w0 c D s → have c D [] s.
Proof. intros Hs. by split; [|constructor]. Qed.

Lemma inv_of_have {A} c D (m : M St A) Q : runs (have c D []) m (have c D []) Q → runs (inv w0 c D) m (inv w0 c D) Q.
Proof.
  intros Hm s Hs. specialize (Hm s (have_nil c D s Hs)). destruct (m s).1; [done|apply Hm..].
Qed.

Definition synced_by {A} (name : A → string) (m : A → M St unit) (a : A) : Prop :=
  ∀ c D, runs (inv w0 c D) (m a) (inv w0 c D) (λ _, inv w0 c (name a :: D)).

(** The counters count the tags, and the tags counted as synced are recorded. *)
Lemma syncTags_post {A} (name : A → string) (m : A → M St unit) tags c D :
  Forall (synced_by name m) tags →
  hoare (inv w0 c D) (syncTags m tags) (λ r s, ∃ done rest,
    inv w0 (c.1 + Z.of_nat (length done), c.2 + Z.of_nat (length rest))%Z ((name <$> done) ++ D) s ∧
    (r = Ok tt → done ++ rest ≡ₚ tags)).
Proof.
  clear HRemove Hroot Hclock Hrepo Hplain.
  intros Hm. revert c D. induction Hm as [|a tags Ha Hm IH]; intros c D; simpl.
  { intros s Hs. exists [], []. simpl. rewrite !Z.add_0_r. by destruct c. }
  intros s Hs. unfold mbind, M_bind, ctx_check, env, attempt. cbn [fst snd].
  assert (∀ s r, inv w0 c D s → r ≠ Ok tt → ∃ done rest,
    inv w0 (c.1 + Z.of_nat (length done), c.2 + Z.of_nat (length rest))%Z ((name <$> done) ++ D) s ∧
    (r = Ok tt → done ++ rest ≡ₚ a :: tags)) as Hstop.
  { intros s' r Hs' Hr. exists [], []. simpl. rewrite !Z.add_0_r. split; [by destruct c|done]. }
  destruct (ctx_Err (st_calls s)) as [e|]; [by apply Hstop|].
  set (s1 := mkSt (st_w s) (st_pr s) (S (st_calls s))).
  pose proof (Ha c D s1 Hs) as H1'. destruct (m a s1) as [[u|e|x] s2]; cbn [fst snd] in *;
    unfold progress, modify; cbn [fst snd]; [| |by apply Hstop].
  - edestruct (IH (c.1 + 1, c.2)%Z (name a :: D)) as (done & rest & Hi & Hp).
    2:{ exists (a :: done), rest. split.
        - eapply inv_weaken with (D := (name <$> done) ++ name a :: D); [set_solver|].
          replace (c.1 + Z.of_nat (length (a :: done)))%Z with (c.1 + 1 + Z.of_nat (length done))%Z
            by (simpl; lia). exact Hi.
        - intros Hr. simpl. by rewrite (Hp Hr). }
    destruct H1' as (? & ? & Hc & ?). split_and!; [done|done| |done].
    simpl. rewrite <-Hc. simpl. by rewrite Z.add_0_r.
  - edestruct (IH (c.1, c.2 + 1)%Z D) as (done & rest & Hi & Hp).
    2:{ exists done, (a :: rest). split.
        - replace (c.2 + Z.of_nat (length (a :: rest)))%Z with (c.2 + 1 + Z.of_nat (length rest))%Z
            by (simpl; lia). exact Hi.
        - intros Hr. rewrite <-Permutation_middle. by rewrite (Hp Hr). }
    destruct H1' as (? & ? & Hc & ?). split_and!; [done|done| |done].
    simpl. rewrite <-Hc. simpl. by rewrite Z.add_0_r.
Qed.

(** *** registry.go *)

Section registry.
Context (cfg : SyncSource).
Context (Hrefs : ∀ b m, unmarshal_into b = (m, None) → refs b = manifest_refs (sm_Config m) (sm_Layers m)).
Context (Hsrc : ∀ t b, answered (manifestURL cfg t) b → src t (FromBytes b)).

(** The nested manifests, the blobs and the record. *)
Lemma syncBody_post (nested : string → M St unit) c D tag meta body :
  (∀ t, synced_by id nested t) →
  MetadataStore.meta_ok meta → MetadataStore.mm_Digest meta = FromBytes body → src tag (FromBytes body) →
  runs (inv w0 c D)
    (let '(m, err) := unmarshal_into body in
     match err with
     | Some e => throw (wrap "parsing manifest" e)
     | None =>
       for_each (λ r, ignoring (nested (mr_Digest r))) (sm_Manifests m) ≫= λ _,
       syncConfigWith F cfg (addAuth cfg) "blob fetch returned " repo (sm_Config m) ≫= λ _,
       lift (makechan (ss_Concurrency cfg)) ≫= λ _,
       syncLayersWith F cfg (addAuth cfg) "blob fetch returned " repo (sm_Layers m) ≫= λ _,
       storeManifest F repo tag meta (MetadataStore.mm_Digest meta) body (sm_Config m) (sm_Layers m)
     end) (inv w0 c D) (λ _, inv w0 c (tag :: D)).
Proof.
  intros Hn Hm Hd Hs. destruct (unmarshal_into body) as [m [e|]] eqn:Em; [by apply runs_throw|].
  rewrite Hd. apply Hrefs in Em. eapply runs_bind.
  { apply runs_keeps. induction (sm_Manifests m) as [|r rs IHr]; simpl; [apply keeps_ret|].
    apply keeps_bind; [|intros _; exact IHr]. unfold ignoring. apply keeps_bind; [|intros ?; apply keeps_ret].
    apply keeps_attempt, keeps_runs. eapply runs_conseq; [apply (Hn (mr_Digest r) c D)|done|].
    intros u s Hi. eapply inv_weaken; [|exact Hi]. intros t Ht. by apply list_elem_of_further. }
  intros ?. eapply runs_bind; [apply inv_of_have, runs_syncConfig|]. intros ?.
  set (ds := _ ++ []).
  assert (∀ (k : M St unit) , runs (have c D ds) k (have c D ds) (λ _, have c D ((sm_Layers m).*1 ++ ds)) →
    runs (have c D ds) k (inv w0 c D) (λ _, have c D (refs body))) as Hk.
  { intros k Hk s Hh. specialize (Hk s Hh). destruct (k s).1; [|apply Hk..].
    rewrite Em. unfold manifest_refs. subst ds. by rewrite app_nil_r in Hk. }
  eapply runs_bind with (R := λ _, have c D ds).
  { eapply runs_conseq; [apply runs_lift|done|]; [by intros s [? _]|]. by intros ?? [_ ?]. }
  intros ?. eapply runs_bind; [apply Hk, syncLayers_post|]. intros ?. by apply storeManifest_post.
Qed.

Lemma syncTag_post fuel tag : synced_by id (syncTag F cfg fuel repo) tag.
Proof.
  revert tag. induction fuel as [|fuel IH]; intros tag c D; cbn [syncTag]; [by intros s Hs|].
  eapply runs_bind; [apply inv_of_have, runs_wrapping, runs_fetchManifest|].
  intros [meta body]. apply runs_pure. intros (Hans & Hd & Hm). cbn [fst snd] in *.
  apply Hsrc in Hans. intros s [Hs _]. rewrite bind_attempt.
  pose proof (syncBody_post _ c D tag meta body IH Hm Hd Hans s Hs) as Hbody.
  destruct (metadata_GetManifest repo tag s) as [r s1] eqn:Eg.
  assert (s1 = s) as -> by (by injection Eg as _ <-).
  destruct r as [ex|e|x]; [|exact Hbody|exact Hs].
  destruct (upToDate (inl ex) (MetadataStore.mm_Digest meta)) eqn:Eu; [|exact Hbody].
  apply bool_decide_eq_true in Eu. apply (upToDate_post c D s tag (FromBytes body)); [done|done|].
  exists ex. rewrite Eg. split; [done|congruence].
Qed.
End registry.

(** *** quay.go: the digest of an up-to-date tag is the one the API lists *)

Section quay.
Context (cfg : SyncSource).
Context (Hrefs : ∀ b, refs b = manifest_refs (qm_Config (unmarshal_into b).1) (qm_Layers (unmarshal_into b).1)).
Context (Hsrc : ∀ t b, answered (manifestURL cfg t) b → src t (FromBytes b)).

Lemma runs_after_have {A B} c D ds (m : M St A) (k : A → M St B) R Q :
  runs (have c D ds) m (have c D ds) R → (∀ a, runs (R a) (k a) (inv w0 c D) Q) →
  runs (have c D ds) (m ≫= k) (inv w0 c D) Q.
Proof.
  intros Hm. apply runs_bind. intros s Hs. specialize (Hm s Hs). destruct (m s).1; [done|apply Hm..].
Qed.

Lemma quaySyncBody_post c D tag :
  runs (inv w0 c D)
    (mb ← wrapping "fetching manifest" (quayFetchManifest cfg repo tag);
     let '(manifest, body) := mb in
     let m := (unmarshal_into body).1 in
     syncConfigWith F cfg (quayAddAuth cfg) "upstream returned " repo (qm_Config m) ≫= λ _,
     quaySemaphore cfg (qm_Layers m) ≫= λ _,
     syncLayersWith F cfg (quayAddAuth cfg) "upstream returned " repo (qm_Layers m) ≫= λ _,
     storeManifest F repo tag manifest (FromBytes body) body (qm_Config m) (qm_Layers m))
    (inv w0 c D) (λ _, inv w0 c (tag :: D)).
Proof.
  eapply runs_bind; [apply inv_of_have, runs_wrapping, runs_fetchManifest|].
  intros [meta body]. apply runs_pure. intros (Hans & Hd & Hm). cbn [fst snd] in *. cbv zeta.
  apply Hsrc in Hans. pose proof (Hrefs body) as Hr. set (m := (unmarshal_into body).1) in *.
  eapply runs_after_have; [apply runs_syncConfig|]. intros ?. set (ds := _ ++ []).
  eapply runs_after_have with (R := λ _, have c D ds).
  { apply runs_keeps. unfold quaySemaphore, never. repeat keeps_step. }
  intros ?. eapply runs_after_have; [apply syncLayers_post|]. intros ?.
  eapply runs_conseq; [by apply storeManifest_post| |done].
  intros s Hs. rewrite Hr. unfold manifest_refs. subst ds. by rewrite app_nil_r in Hs.
Qed.

Lemma quaySyncTag_post tag :
  src (qt_Name tag) (qt_ManifestDigest tag) → synced_by qt_Name (quaySyncTag F cfg repo) tag.
Proof.
  intros Hl c D s Hs. unfold quaySyncTag. rewrite bind_attempt.
  pose proof (quaySyncBody_post c D (qt_Name tag) s Hs) as Hbody.
  destruct (metadata_GetManifest repo (qt_Name tag) s) as [r s1] eqn:Eg.
  assert (s1 = s) as -> by (by injection Eg as _ <-).
  destruct r as [ex|e|x]; [|exact Hbody|exact Hs].
  destruct (upToDate (inl ex) (qt_ManifestDigest tag)) eqn:Eu; [|exact Hbody].
  apply bool_decide_eq_true in Eu. apply (upToDate_post c D s _ (qt_ManifestDigest tag)); [done|done|].
  exists ex. by rewrite Eg.
Qed.
End quay.

Lemma adds_listPages {B} cfg (decode : bytes → result B) names failed wd wc fuel url acc :
  adds (listPages cfg decode names failed wd wc fuel url acc).
Proof.
  intros c D ds. revert url acc. induction fuel as [|fuel IH]; intros url acc; cbn [listPages];
    unfold never; repeat first [apply adds_env | apply IH | keeps_step].
Qed.

Lemma inv_adds {A} c D (m : M St A) : adds m → keeps (inv w0 c D) m.
Proof. intros Hm s Hs. by destruct (Hm c D [] s (have_nil c D s Hs)). Qed.

Lemma inv_setTotalTags c D n : keeps (inv w0 c D) (progress (setTotalTags n)).
Proof. by intros s Hs. Qed.

(** What is read back for a tag that is recorded. *)
Lemma recorded_tag c D s t :
  inv w0 c D s → t ∈ D → HasPrefix t "sha256:" = false →
  ∃ d m, src t d ∧ (metadata_GetManifest repo t s).1 = Ok m ∧ MetadataStore.mm_Digest m = d ∧
    image (st_w s) d.
Proof.
  intros (_ & _ & _ & ix & Hrep & Him & Ht) Hin Hp.
  eapply Forall_forall in Ht; [|exact Hin]. destruct (Ht Hp) as (d & Hd & Hs & [m Hm]).
  exists d, m. split; [done|]. destruct (Him _ _ _ Hm) as [? ?]. split; [|done].
  unfold metadata_GetManifest. cbn [fst].
  rewrite (MetadataStore.GetManifest_spec _ ix _ _ (proj1 Hrepo) Hrep).
  unfold MetadataStore.ix_resolve. rewrite Hp, Hd. simpl. by rewrite Hm.
Qed.
End spec.

(** ** What a synchronised repository is *)

Section theorems.
Context `{BadgerLaws} `{!Json MetadataStore.ManifestMeta} `{!Json MetadataStore.RepoMeta}.
Context `{!JsonLaws MetadataStore.ManifestMeta MetadataStore.meta_ok}.
Context `{!JsonLaws MetadataStore.RepoMeta MetadataStore.repo_ok}.
Context `{!JsonDecoder Catalog} `{!JsonDecoder TagsList} `{!UnmarshalInto SyncManifest}.
Context `{!JsonDecoder QuayRepositories} `{!JsonDecoder QuayTags} `{!UnmarshalInto QuayManifest}.
Context `{!Env}.
Context (F : Faults) (HRemove : F OpRemove = None).
Context (root : string) (Hroot : BlobStore.good_root root).

(** The digests a manifest's bytes refer to, as each client reads them. *)
Definition registry_refs (b : bytes) : list Digest :=
  let m := (unmarshal_into (A := SyncManifest) b).1 in manifest_refs (sm_Config m) (sm_Layers m).
Definition quay_refs (b : bytes) : list Digest :=
  let m := (unmarshal_into (A := QuayManifest) b).1 in manifest_refs (qm_Config m) (qm_Layers m).

(** A consistent blob store, and every recorded manifest is in it with the
    blobs it refers to. *)
Definition complete (refs : bytes → list Digest) (w : World) : Prop :=
  world_ok root w ∧ ∃ ix, MetadataStore.represents (view (w_db w)) ix ∧
    ∀ r d m, MetadataStore.ix_manifests ix !! (r, d) = Some m →
      MetadataStore.mm_Digest m = d ∧ image root refs w d.

(** The tag resolves to a manifest that is there as a whole, with a digest the
    source vouches for. *)
Definition tag_synced (refs : bytes → list Digest) (src : string → Digest → Prop) (repo t : string)
    (w : World) : Prop :=
  ∃ d m, src t d ∧ MetadataStore.GetManifest (w_db w) repo t = Ok m ∧
    MetadataStore.mm_Digest m = d ∧ image root refs w d.

(** The answers of the registry can be recorded: ASCII media types and sizes
    in range; and the clock is in range. *)
Definition plain_upstream : Prop :=
  (∀ n, MetadataStore.time_ok (now n)) ∧
  ∀ n url auth r, Do n url auth = Ok r →
    MetadataStore.is_ascii (rp_ContentType r) ∧ (blen (rd_data (rp_Body r)) ≤ maxInt64)%Z.

Lemma complete_inv refs src repo w0 s :
  complete refs (st_w s) → w0 = st_w s →
  inv root repo refs src w0 (pg_SyncedTags (st_pr s), pg_FailedTags (st_pr s)) [] s.
Proof. intros (Hok & ix & Hrep & Him) ->. split_and!; [done..|]. exists ix. by split_and!. Qed.

Lemma inv_complete refs src repo w0 c D s : inv root repo refs src w0 c D s → complete refs (st_w s).
Proof. intros (Hok & _ & _ & ix & Hrep & Him & _). split; [done|]. by exists ix. Qed.

(** A repository loop over tags, put together. *)
Lemma sync_loop {A} refs src repo (name : A → string) (m : A → M St unit) tags n s :
  MetadataStore.good_repo repo →
  complete refs (st_w s) →
  Forall (synced_by root repo refs src (st_w s) name m) tags →
  let '(res, s1) := (progress (setTotalTags n) ≫= λ _, syncTags m tags) s in
  complete refs (st_w s1) ∧
  (∀ d, canonical d → stored root (st_w s) d → stored root (st_w s1) d) ∧
  (res = Ok tt → ∃ done failed, done ++ failed ≡ₚ tags ∧
     pg_SyncedTags (st_pr s1) = (pg_SyncedTags (st_pr s) + Z.of_nat (length done))%Z ∧
     pg_FailedTags (st_pr s1) = (pg_FailedTags (st_pr s) + Z.of_nat (length failed))%Z ∧
     Forall (λ a, HasPrefix (name a) "sha256:" = false → tag_synced refs src repo (name a) (st_w s1)) done).
Proof.
  intros Hr Hc Hm. unfold progress, modify, mbind, M_bind.
  set (s' := mkSt (st_w s) (setTotalTags n (st_pr s)) (st_calls s)).
  pose proof (syncTags_post root repo refs src (st_w s) name m tags
    (pg_SyncedTags (st_pr s'), pg_FailedTags (st_pr s')) [] Hm s'
    (complete_inv refs src repo (st_w s) s' Hc eq_refl)) as (done & rest & Hi & Hp).
  destruct (syncTags m tags s') as [res s1]. cbn [fst snd] in *.
  split; [by eapply inv_complete|]. split; [apply Hi|]. intros Hres. exists done, rest.
  split; [by apply Hp|]. pose proof Hi as (_ & _ & [= -> ->] & _). split; [done|]. split; [done|].
  apply Forall_forall. intros a Ha Hpre.
  apply (recorded_tag root repo Hr refs src (st_w s) _ _ s1 (name a) Hi); [|done].
  rewrite app_nil_r. by apply list_elem_of_fmap_2.
Qed.

(** For every reading of manifests that agrees with the client's. *)
Lemma SyncRepository_spec refs cfg pages fuel repo s :
  (∀ b m, unmarshal_into b = (m, None) → refs b = manifest_refs (sm_Config m) (sm_Layers m)) →
  MetadataStore.good_repo repo → plain_upstream → complete refs (st_w s) →
  let '(res, s1) := SyncRepository F cfg pages fuel repo s in
  complete refs (st_w s1) ∧
  (∀ d, canonical d → stored root (st_w s) d → stored root (st_w s1) d) ∧
  (res = Ok tt → ∃ tags s', listTags cfg pages repo s = (Ok tags, s') ∧
     ∃ done failed, done ++ failed ≡ₚ filterTags cfg tags ∧
     pg_SyncedTags (st_pr s1) = (pg_SyncedTags (st_pr s) + Z.of_nat (length done))%Z ∧
     pg_FailedTags (st_pr s1) = (pg_FailedTags (st_pr s) + Z.of_nat (length failed))%Z ∧
     Forall (λ t, HasPrefix t "sha256:" = false →
       tag_synced refs (λ t d, ∃ b, answered (manifestURL repo cfg t) b ∧ d = FromBytes b)
         repo t (st_w s1)) done).
Proof.
  intros Hrefs Hr [Hclock Hplain] Hc. set (src := λ t d, ∃ b, answered (manifestURL repo cfg t) b ∧ d = FromBytes b).
  unfold SyncRepository, wrapping. unfold mbind at 1, M_bind at 1.
  pose proof (adds_listPages root repo refs src (st_w s) cfg json_Decode tl_Tags tagsFailed id id pages
    (baseURL cfg +:+ "/v2/" +:+ repo +:+ "/tags/list") []) as Hl.
  apply (inv_adds _ _ _ _ _ (pg_SyncedTags (st_pr s), pg_FailedTags (st_pr s)) []) in Hl.
  specialize (Hl s (complete_inv refs src repo (st_w s) s Hc eq_refl)).
  unfold listTags. set (lp := listPages _ _ _ _ _ _ _ _ _) in *.
  destruct (lp s) as [[tags|e|x] s1] eqn:El; cbn [fst snd] in *.
  2,3: split; [by eapply inv_complete|]; split; [apply Hl|done].
  destruct Hl as (Hok & Hmono & [= Hsy Hfa] & Hix).
  assert (complete refs (st_w s1)) as Hc1.
  { eapply (inv_complete _ src repo (st_w s) _ []). by split_and!. }
  pose proof (sync_loop refs src repo id (syncTag F cfg fuel repo) (filterTags cfg tags)
    (Z.of_nat (length (filterTags cfg tags))) s1 Hr Hc1) as Hloop.
  destruct ((progress _ ≫= _) s1) as [res s2]. destruct Hloop as (? & Hm & Hend).
  { apply Forall_forall. intros t _. apply (syncTag_post F HRemove root Hroot Hclock repo Hr); [done..|].
    intros t' b Hb. by exists b. }
  split; [done|]. split; [auto|]. intros Hres. exists tags, s1. split; [done|].
  rewrite <-Hsy, <-Hfa. by apply Hend.
Qed.


Definition tagURL (cfg : SyncSource) (repo : string) : string :=
  baseURL cfg +:+ "/api/v1/repository/" +:+ repo +:+ "/tag/".

(** The API has listed a tag with a digest. *)
Definition api_lists (cfg : SyncSource) (repo t d : string) : Prop :=
  ∃ n auth resp l q, Do n (tagURL cfg repo) auth = Ok resp ∧ json_Decode (rd_data (rp_Body resp)) = Ok l ∧
    q ∈ qts_Tags l ∧ qt_Name q = t ∧ qt_ManifestDigest q = d.

Lemma ListTags_listed cfg repo s tags s1 :
  ListTags cfg repo s = (Ok tags, s1) →
  Forall (λ q, api_lists cfg repo (qt_Name q) (qt_ManifestDigest q)) tags.
Proof.
  unfold ListTags, quayGet, http_Do. fold (tagURL cfg repo). unfold mbind, M_bind.
  destruct (NewRequest _); [done|]. unfold env.
  destruct (Do _ _ _) as [resp|e|x] eqn:Hdo; [|done..]. case_decide; [done|]. unfold lift.
  destruct (json_Decode _) as [l|e|x] eqn:Hj; [|done..]. intros [= <- <-].
  apply Forall_forall. intros q [_ Hq]%list_elem_of_filter. by repeat eexists.
Qed.

Lemma adds_ListTags root' repo' refs src w0 cfg repo : adds root' repo' refs src w0 (ListTags cfg repo).
Proof.
  intros c D ds. unfold ListTags, quayGet, http_Do.
  repeat first [keeps_step | apply adds_env].
Qed.

(** The same for a Quay registry: the store stays complete and loses
    nothing, and every tag counted as synced resolves to a manifest stored as a
    whole, whose digest is that of bytes Quay has answered with for the tag, or
    the one its API lists for it when nothing had to be fetched. *)
Theorem quaySyncRepository_complete cfg repo s :
  MetadataStore.good_repo repo → plain_upstream → complete quay_refs (st_w s) →
  let '(res, s1) := quaySyncRepository F cfg repo s in
  complete quay_refs (st_w s1) ∧
  (∀ d, canonical d → stored root (st_w s) d → stored root (st_w s1) d) ∧
  (res = Ok tt → ∃ tags s', ListTags cfg repo s = (Ok tags, s') ∧
     ∃ done failed, done ++ failed ≡ₚ tags ∧
     pg_SyncedTags (st_pr s1) = (pg_SyncedTags (st_pr s) + Z.of_nat (length done))%Z ∧
     pg_FailedTags (st_pr s1) = (pg_FailedTags (st_pr s) + Z.of_nat (length failed))%Z ∧
     Forall (λ q, HasPrefix (qt_Name q) "sha256:" = false →
       tag_synced quay_refs (λ t d, (∃ b, answered (manifestURL repo cfg t) b ∧ d = FromBytes b) ∨
                                    api_lists cfg repo t d)
         repo (qt_Name q) (st_w s1)) done).
Proof.
  intros Hr [Hclock Hplain] Hc.
  set (src := λ t d, (∃ b, answered (manifestURL repo cfg t) b ∧ d = FromBytes b) ∨ api_lists cfg repo t d).
  unfold quaySyncRepository, wrapping. unfold mbind at 1, M_bind at 1.
  pose proof (inv_adds root repo quay_refs src (st_w s)
    (pg_SyncedTags (st_pr s), pg_FailedTags (st_pr s)) [] _
    (adds_ListTags root repo quay_refs src (st_w s) cfg repo) s
    (complete_inv quay_refs src repo (st_w s) s Hc eq_refl)) as Hl.
  destruct (ListTags cfg repo s) as [[tags|e|x] s1] eqn:El; cbn [fst snd] in *.
  2,3: split; [by eapply inv_complete|]; split; [apply Hl|done].
  destruct Hl as (Hok & Hmono & [= Hsy Hfa] & Hix).
  assert (complete quay_refs (st_w s1)) as Hc1.
  { eapply (inv_complete _ src repo (st_w s) _ []). by split_and!. }
  pose proof (sync_loop quay_refs src repo qt_Name (quaySyncTag F cfg repo) tags
    (Z.of_nat (length tags)) s1 Hr Hc1) as Hloop.
  destruct ((progress _ ≫= _) s1) as [res s2]. destruct Hloop as (? & Hm & Hend).
  { pose proof (ListTags_listed cfg repo s tags s1 El) as Hq. eapply Forall_impl; [exact Hq|].
    intros q Hin. apply (quaySyncTag_post F HRemove root Hroot Hclock repo Hr); [done|done| |by right].
    intros t b Hb. left. by exists b. }
  split; [done|]. split; [auto|]. intros Hres. exists tags, s1. split; [done|].
  rewrite <-Hsy, <-Hfa. by apply Hend.
Qed.

(** ** Listings in pages *)

(** A listing the registry serves in [k] pages from a URL on. *)
Inductive served {B} (decode : bytes → result B) (names : B → list string) (auth : option string) :
    nat → string → list string → Prop :=
  | served_end : served decode names auth 0 "" []
  | served_page k url resp b rest :
    url ≠ "" → NewRequest url = None → (∀ n, Do n url auth = Ok resp) → rp_StatusCode resp = 200%Z →
    decode (rd_data (rp_Body resp)) = Ok b →
    served decode names auth k (getNextLink (rp_Link resp)) rest →
    served decode names auth (S k) url (names b ++ rest).

Lemma listPages_served {B} cfg (decode : bytes → result B) names failed wd wc k url l fuel acc s :
  (∀ resp, rp_StatusCode resp = 200%Z → failed resp = None) →
  served decode names (addAuth cfg) k url l → k ≤ fuel →
  listPages cfg decode names failed wd wc fuel url acc s =
  (Ok (acc ++ l), mkSt (st_w s) (st_pr s) (st_calls s + k)).
Proof.
  intros Hf Hs. revert fuel acc s. induction Hs as [|k url resp b rest Hu Hn Hdo Hst Hdec Hs IH];
    intros fuel acc s Hk.
  { destruct fuel; cbn [listPages]; rewrite decide_True by done;
      rewrite app_nil_r, Nat.add_0_r; by destruct s. }
  destruct fuel as [|fuel]; [lia|]. cbn [listPages]. rewrite decide_False, Hn by done.
  rewrite bind_attempt. unfold env. rewrite Hdo, Hf, Hdec by done. rewrite IH by lia. simpl.
  by rewrite <-app_assoc, Nat.add_succ_r.
Qed.

(** A listing is followed to its last page: when the registry serves the
    catalogue in [k] pages, each with the URL of the next one in its Link
    header, [ListRepositories] asks exactly [k] times and returns the
    repositories of all pages in order; and so does [listTags]. *)
Theorem listings_are_complete cfg repo fuel k l s :
  (ss_Repositories cfg = [] →
   served json_Decode ct_Repositories (addAuth cfg) k (baseURL cfg +:+ "/v2/_catalog") l → k ≤ fuel →
   ListRepositories cfg fuel s = (Ok l, mkSt (st_w s) (st_pr s) (st_calls s + k))) ∧
  (served json_Decode tl_Tags (addAuth cfg) k (baseURL cfg +:+ "/v2/" +:+ repo +:+ "/tags/list") l → k ≤ fuel →
   listTags cfg fuel repo s = (Ok l, mkSt (st_w s) (st_pr s) (st_calls s + k))).
Proof.
  split.
  - intros Hr Hs Hk. unfold ListRepositories. rewrite decide_False by tauto.
    apply (listPages_served cfg _ _ _ _ _ k _ l fuel [] s); [|done..]. intros resp Hst. unfold catalogFailed. by rewrite decide_False by tauto.
  - intros Hs Hk. unfold listTags. apply (listPages_served cfg _ _ _ _ _ k _ l fuel [] s); [|done..].
    intros resp Hst. unfold tagsFailed. rewrite Hst. done.
Qed.
End theorems.

(** ** Tag filters *)

(** A tag is in the language of a pattern; no tag is in that of a malformed
    one. *)
Definition accepts (pattern tag : string) : Prop :=
  ∃ ts, Glob.parse pattern = Some ts ∧ Glob.globs ts (str_bytes tag).

Lemma matched_accepts pattern tag :
  Glob.plain (str_bytes tag) → matched pattern tag = true ↔ accepts pattern tag.
Proof.
  intros Ht. unfold matched. pose proof (Glob.Match_globs pattern tag Ht) as Hm. unfold accepts.
  rewrite <-Hm. destruct (Glob.Match pattern tag) as [[]|]; simpl; naive_solver.
Qed.

(** C33 A tag filter keeps exactly the tags it describes: of tags in ASCII
    without slashes, those in the language of the include pattern, if there is
    one, and not in that of the exclude pattern, in the order they were
    listed. *)
Theorem filterTags_spec cfg tags :
  Forall (λ t, Glob.plain (str_bytes t)) tags →
  filterTags cfg tags `sublist_of` tags ∧
  ∀ t, t ∈ filterTags cfg tags ↔ t ∈ tags ∧
    (ss_IncludeTags cfg = "" ∨ accepts (ss_IncludeTags cfg) t) ∧
    (ss_ExcludeTags cfg = "" ∨ ¬ accepts (ss_ExcludeTags cfg) t).
Proof.
  intros Hp. unfold filterTags. case_decide as Hd.
  { destruct Hd as [-> ->]. split; [done|]. naive_solver. }
  split; [apply sublist_filter|]. intros t. rewrite list_elem_of_filter.
  assert (t ∈ tags → shouldIncludeTag cfg t = true ↔
    (ss_IncludeTags cfg = "" ∨ accepts (ss_IncludeTags cfg) t) ∧
    (ss_ExcludeTags cfg = "" ∨ ¬ accepts (ss_ExcludeTags cfg) t)); [|tauto].
  intros Hin. eapply Forall_forall in Hp; [|exact Hin]. unfold shouldIncludeTag.
  rewrite <-!(matched_accepts _ t Hp).
  destruct (decide (ss_ExcludeTags cfg = "")), (decide (ss_IncludeTags cfg = ""));
    destruct (matched (ss_IncludeTags cfg) t), (matched (ss_ExcludeTags cfg) t);
    repeat case_decide; intuition congruence.
Qed.

(** ** An upstream *)

(** Lists are words; a manifest lists its layers; the catalogue has two
    pages. *)
Import ClonerSpec (exLayer, exManifest).

Definition words (b : bytes) : list string := Fields (bytes_str b).
Definition exCatalog : JsonDecoder Catalog := λ b, Ok (mkCatalog (words b)).
Definition exTags : JsonDecoder TagsList := λ b, Ok (mkTagsList (words b)).
Definition exManifests : UnmarshalInto SyncManifest := λ b,
  (mkSyncManifest "" ("", 0%Z) ((λ d, (d, 0%Z)) <$> words b) [], None).
Definition exQuayRepos : JsonDecoder QuayRepositories := λ b,
  Ok (mkQuayRepositories ((λ n, mkQuayRepository "org" n "" true) <$> words b)).
Definition exQuayTags : JsonDecoder QuayTags := λ b,
  Ok (mkQuayTags ((λ n, mkQuayTag n "" "" 0) <$> words b)).
Definition exQuayManifests : UnmarshalInto QuayManifest := λ b,
  (mkQuayManifest ("", 0%Z) ((λ d, (d, 0%Z)) <$> words b), None).

Definition exNext : string := "<http://up/v2/_catalog?last=app>; rel=" +:+ quote +:+ "next" +:+ quote.

Definition exAnswer (url : string) : Response :=
  if decide (url = "http://up/v2/_catalog") then mkResponse 200 "" exNext (NewReader (str_bytes "app"))
  else if HasPrefix url "http://up/v2/_catalog" then mkResponse 200 "" "" (NewReader (str_bytes "base tools"))
  else if Contains url "/tag" then mkResponse 200 "" "" (NewReader (str_bytes "v1 tmp"))
  else if Contains url "/manifests/" then mkResponse 200 "" "" (NewReader exManifest)
  else mkResponse 200 "" "" (NewReader exLayer).

Program Definition exEnv : Env := {|
  NewRequest _ := None;
  Do _ url _ := Ok (exAnswer url);
  now _ := 1%Z;
  rnds n := [N.of_nat n];
  ctx_Err _ := None;
  order _ _ l := l;
  tally _ b := blen b
|}.
Next Obligation. done. Qed.
Next Obligation. intros n b. unfold blen. simpl. lia. Qed.

#[local] Existing Instances mapBadger mapBadgerLaws MetadataStore.jsonMeta MetadataStore.jsonRepo
  exCatalog exTags exManifests exQuayRepos exQuayTags exQuayManifests exEnv.
#[local] Instance exMetaLaws : JsonLaws MetadataStore.ManifestMeta MetadataStore.meta_ok :=
  countableJsonLaws _ _.
#[local] Instance exRepoLaws : JsonLaws MetadataStore.RepoMeta MetadataStore.repo_ok :=
  countableJsonLaws _ _.

Definition exSource : SyncSource :=
  mkSyncSource "up" "registry" "http://up/" "bot:secret" "" "" [] [] "" "t*" false false "*/15 * * * *"
    "continuous" 2.
Definition exWorld : World := mkWorld _ (BlobStore.NewBlobStore BlobStore.srvRoot) os_empty ∅.
Definition exSt : St := mkSt exWorld (NewProgress 1) 0.

Lemma exUpstream_plain : plain_upstream.
Proof.
  split; [intros n; by apply (bool_decide_unpack _)|]. intros n url auth r [= <-].
  unfold exAnswer. repeat case_match; split; try constructor; by vm_compute.
Qed.

Lemma exComplete refs : complete BlobStore.srvRoot refs exWorld.
Proof.
  split; [split; [done|apply BlobStore.store_ok_empty]|].
  exists MetadataStore.ix_empty. split; [apply MetadataStore.represents_empty|].
  intros r d m Hm. cbn in Hm. by rewrite lookup_empty in Hm.
Qed.

Lemma exRepo : MetadataStore.good_repo "app".
Proof. by apply (bool_decide_unpack _). Qed.


Lemma quaySyncRepository_complete_witness :
  is_ok (quaySyncRepository noFaults exSource "app" exSt).1 = true ∧
  pg_SyncedTags (st_pr (quaySyncRepository noFaults exSource "app" exSt).2) = 1%Z ∧
  complete BlobStore.srvRoot quay_refs (st_w (quaySyncRepository noFaults exSource "app" exSt).2).
Proof.
  split; [by vm_compute|]. split; [by vm_compute|].
  pose proof (quaySyncRepository_complete noFaults eq_refl BlobStore.srvRoot BlobStore.good_srvRoot
    exSource "app" exSt exRepo exUpstream_plain (exComplete _)) as H.
  destruct (quaySyncRepository noFaults exSource "app" exSt) as [res s1]. apply H.
Defined.

Lemma exServed : served json_Decode ct_Repositories (addAuth exSource) 2 "http://up/v2/_catalog"
  ["app"; "base"; "tools"].
Proof.
  change ["app"; "base"; "tools"] with (ct_Repositories (mkCatalog ["app"]) ++ ["base"; "tools"]).
  eapply (served_page _ _ _ 1 _ (exAnswer "http://up/v2/_catalog") (mkCatalog ["app"]) ["base"; "tools"]);
    try done.
  assert (getNextLink (rp_Link (exAnswer "http://up/v2/_catalog")) = "http://up/v2/_catalog?last=app")
    as -> by by vm_compute.
  change ["base"; "tools"] with (ct_Repositories (mkCatalog ["base"; "tools"]) ++ []).
  eapply (served_page _ _ _ 0 _ (exAnswer "http://up/v2/_catalog?last=app") (mkCatalog ["base"; "tools"]) []);
    try done. constructor.
Qed.

Lemma listings_are_complete_witness :
  ListRepositories exSource 5 exSt =
  (Ok ["app"; "base"; "tools"], mkSt exWorld (NewProgress 1) 2).
Proof.
  apply (listings_are_complete exSource "" 5 2 ["app"; "base"; "tools"] exSt); [done|exact exServed|lia].
Defined.

Lemma filterTags_spec_witness :
  filterTags exSource ["v1"; "tmp"] = ["v1"] ∧
  (filterTags exSource ["v1"; "tmp"] `sublist_of` ["v1"; "tmp"] ∧
   ∀ t, t ∈ filterTags exSource ["v1"; "tmp"] ↔ t ∈ ["v1"; "tmp"] ∧
     (ss_IncludeTags exSource = "" ∨ accepts (ss_IncludeTags exSource) t) ∧
     (ss_ExcludeTags exSource = "" ∨ ¬ accepts (ss_ExcludeTags exSource) t)).
Proof.
  split; [by vm_compute|]. apply (filterTags_spec exSource ["v1"; "tmp"]).
  apply (bool_decide_unpack _). by vm_compute.
Defined.

(** ** Two behaviours the theorems leave room for *)

(** A manifest that names a malformed digest ends the process: its goroutine
    panics, [Parse]'s error having been dropped. *)
Fact malformed_layer_panics F cfg auth failed repo x n s :
  ¬ valid x →
  (syncLayerWith F cfg auth failed repo (x, n) s).1 = Panic "slice bounds out of range".
Proof.
  intros Hx. unfold syncLayerWith, syncBlobWith. rewrite bind_attempt. cbn [fst snd].
  assert (parsed x = "") as ->; [|done]. unfold parsed.
  destruct (Parse x) as [d|e|m] eqn:E; [|done..]. apply Parse_Ok in E as [_ ?]. done.
Qed.

(** An index is recorded although the manifest it names could not be had, its
    tag is counted as synced, and the next run finds it up to date: it asks
    for the tags and the index, and no more. *)
Definition exIndexed : UnmarshalInto SyncManifest := λ b,
  (mkSyncManifest "" ("", 0%Z) [] ((λ d, mkManifestRef d 0 "" "") <$> words b), None).
Definition exChild : Digest := FromBytes exLayer.
Definition exIndexAnswer (url : string) : Response :=
  if Contains url "/tags/list" then mkResponse 200 "" "" (NewReader (str_bytes "v1"))
  else if Contains url "/manifests/v1" then mkResponse 200 "" "" (NewReader (str_bytes exChild))
  else mkResponse 404 "" "" (NewReader []).

Program Definition exIndexEnv : Env := {|
  NewRequest _ := None;
  Do _ url _ := Ok (exIndexAnswer url);
  now _ := 1%Z;
  rnds n := [N.of_nat n];
  ctx_Err _ := None;
  order _ _ l := l;
  tally _ b := blen b
|}.
Next Obligation. done. Qed.
Next Obligation. intros n b. unfold blen. simpl. lia. Qed.

Definition exIndexRun (s : St) : result unit * St :=
  @SyncRepository _ _ _ exTags exIndexed exIndexEnv noFaults exSource 1 2 "app" s.

Fact incomplete_index_is_final :
  let '(res1, s1) := exIndexRun exSt in
  let '(res2, s2) := exIndexRun s1 in
  res1 = Ok tt ∧ pg_SyncedTags (st_pr s1) = 1%Z ∧ pg_FailedTags (st_pr s1) = 0%Z ∧
  is_ok (MetadataStore.GetManifest (w_db (st_w s1)) "app" exChild) = false ∧
  res2 = Ok tt ∧ pg_SyncedTags (st_pr s2) = 2%Z ∧ st_calls s2 = st_calls s1 + 3 ∧
  is_ok (MetadataStore.GetManifest (w_db (st_w s2)) "app" exChild) = false.
Proof. by vm_compute. Qed.
End SyncSpec.
