(* ===== verification/Replication.v ===== *)
(** internal/sync/replication.go: copying another instance whole.  The
    exporter collects the catalogue of releases and the event store of one
    instance; the client syncs repositories like a registry client and imports
    what the other instance exports. *)

From S2P Require Import Prelude Effect GoLib Digest Os Blob Badger Metadata Oci Mirror Events Discovery Releases SyncClients SyncSpec.

Module Replication.
Import Sync.

Record ReplicationExport := mkReplicationExport {
  re_ExportedAt : Time;
  re_Version : string;
  re_Releases : list Releases.Release;
  re_Events : list Events.Event;
  re_CloneHistory : list Events.CloneHistoryEntry;
  re_DownloadRecords : list Events.DownloadRecord;
  re_DownloadStats : option Events.DownloadCounter
}.

(** ** The export *)

(** The components an instance may run without. *)
Record Exporter := mkExporter {
  ex_releaseMgr : bool;
  ex_eventStore : bool;
  ex_version : string
}.

Definition NewExporter (releaseMgr eventStore : bool) (version : string) : Exporter :=
  mkExporter releaseMgr eventStore version.

(** [list, _ := f()]. *)
Definition or_nil {A} (r : result (list A)) : result (list A) :=
  match r with Err _ => Ok [] | r => r end.

Section export.
Context `{Badger} `{!Json Releases.Release} `{Releases.MapRange}.
Context `{!Json Events.Event} `{!Json Events.CloneHistoryEntry}.
Context `{!Json Events.DownloadRecord} `{!Json Events.DownloadCounter}.

(** manager.go. *)
Definition ListAllReleases (db : DB) : result (list Releases.Release) :=
  or_nil (Releases.ListReleases db).

Definition Export (e : Exporter) (now : Time) (db : DB) : result ReplicationExport :=
  releases ← (if ex_releaseMgr e then ListAllReleases db else Ok []);
  if ex_eventStore e then
    events ← or_nil (Events.ListEvents db 1000 "");
    history ← or_nil (Events.ListCloneHistory Releases.range_values db 100);
    downloads ← or_nil (Events.ListRecentDownloads db 1000);
    Ok (mkReplicationExport now (ex_version e) releases events history downloads
          (Some (Events.GetDownloadStats db)))
  else Ok (mkReplicationExport now (ex_version e) releases [] [] [] None).
End export.

(** ** The client *)

Section client.
Context `{Badger} `{!Json MetadataStore.ManifestMeta} `{!Json MetadataStore.RepoMeta}.
Context `{!JsonDecoder Catalog} `{!JsonDecoder TagsList} `{!UnmarshalInto SyncManifest}.
Context `{!Json Releases.Release} `{Releases.MapRange}.
Context `{!Json Events.Event} `{!Json Events.CloneHistoryEntry} `{!Json Events.DownloadRecord}.
Context `{!JsonDecoder ReplicationExport} `{!Env}.
Context (F : Faults).

(** The embedded registry client is the source's configuration. *)
Record ReplicationClient := mkReplicationClient {
  rc_config : SyncSource;
  rc_releaseMgr : bool;
  rc_eventStore : bool
}.

Definition NewReplicationClient (cfg : SyncSource) (releaseMgr eventStore : bool) : ReplicationClient :=
  mkReplicationClient cfg releaseMgr eventStore.

Definition addReplicationAuth (r : ReplicationClient) : option string := tokenAuth (ss_Token (rc_config r)).

(** The imports, whose errors are logged or dropped. *)
Definition importEach {A} (f : DB → A → result unit * DB) (l : list A) : M St unit :=
  for_each (λ a, ignoring (on_db (λ db, f db a))) l.

Definition importAll (r : ReplicationClient) (e : ReplicationExport) : M St unit :=
  (if rc_releaseMgr r then importEach Releases.ImportRelease (re_Releases e) else mret tt) ≫= λ _,
  if rc_eventStore r then
    importEach Events.ImportEvent (re_Events e) ≫= λ _,
    importEach Events.ImportCloneHistory (re_CloneHistory e) ≫= λ _,
    importEach Events.ImportDownloadRecord (re_DownloadRecords e)
  else mret tt.

Definition exportURL (r : ReplicationClient) : string := baseURL (rc_config r) +:+ "/admin/sync/export".

Definition syncMetadata (r : ReplicationClient) : M St unit :=
  match NewRequest (exportURL r) with
  | Some e => throw e
  | None =>
    resp ← wrapping "export request failed" (env (λ n, Do n (exportURL r) (addReplicationAuth r)));
    if decide (rp_StatusCode resp ≠ 200)%Z then
      throw (Errorf ("export returned " +:+ fmt_d (rp_StatusCode resp) +:+ ": " +:+
                     bytes_str (rd_data (rp_Body resp))))
    else
      export ← wrapping "decoding export" (lift (json_Decode (rd_data (rp_Body resp))));
      importAll r export
  end.

Definition SyncMetadata (r : ReplicationClient) : M St unit := syncMetadata r.

(** All repositories with a progress record of its own, then the metadata. *)
Definition SyncAll (r : ReplicationClient) (pages fuel : nat) : M St unit :=
  repos ← attempt (ListRepositories (rc_config r) pages);
  match repos with
  | inr _ => mret tt
  | inl repos =>
    saved ← gets st_pr;
    t ← time_Now;
    progress (λ _, NewProgress t) ≫= λ _,
    for_each (λ repo, ignoring (SyncRepository F (rc_config r) pages fuel repo)) repos ≫= λ _,
    progress (λ _, saved)
  end ≫= λ _,
  wrapping "metadata sync failed" (syncMetadata r).
End client.

(** ** Imports write only keys of their own *)

Section writes.
Context `{BadgerLaws} `{!Json Releases.Release} `{Releases.MapRange}.
Context `{!Json Events.Event} `{!Json Events.CloneHistoryEntry} `{!Json Events.DownloadRecord}.

(** Nothing, or one value under a key with the prefix. *)
Definition writes (p : string) (f : DB → result unit * DB) : Prop :=
  ∀ db, (f db).2 = db ∨ ∃ k v, (f db).2 = (MetadataStore.PutRaw db (p +:+ k) v).2.

Lemma ImportRelease_writes rel : writes Releases.releaseKeyPrefix (λ db, Releases.ImportRelease db rel).
Proof.
  intros db. unfold Releases.ImportRelease, Releases.saveRelease.
  repeat case_match; simpl; eauto.
Qed.

Lemma ImportEvent_writes ev : writes Events.prefixEvent (λ db, Events.ImportEvent db ev).
Proof. intros db. unfold Events.ImportEvent. repeat case_match; simpl; eauto. Qed.

Lemma ImportCloneHistory_writes e :
  writes Events.prefixCloneHistory (λ db, Events.ImportCloneHistory db e).
Proof.
  intros db. unfold Events.ImportCloneHistory, Events.SaveCloneHistory.
  repeat case_match; simpl; eauto.
Qed.

Lemma ImportDownloadRecord_writes r :
  writes Events.prefixDownload (λ db, Events.ImportDownloadRecord db r).
Proof. intros db. unfold Events.ImportDownloadRecord. repeat case_match; simpl; eauto. Qed.

Lemma saveRelease_writes rel : writes Releases.releaseKeyPrefix (λ db, Releases.saveRelease db rel).
Proof. intros db. unfold Releases.saveRelease. repeat case_match; simpl; eauto. Qed.

(** What writes of other components leave alone. *)
Definition framed (J : gmap string bytes → Prop) (p : string) : Prop :=
  ∀ m k v, J m → J (<[p +:+ k := v]> m).

Lemma writes_framed J p f db :
  p ≠ "" → framed J p → writes p f → J (view db) → J (view (f db).2).
Proof.
  intros Hp HJ Hf Hj. destruct (Hf db) as [->|(k & v & ->)]; [done|].
  destruct (MetadataStore.PutRaw_view db (p +:+ k) v) as (db' & -> & Hv); [by destruct p|].
  simpl. rewrite Hv. by apply HJ.
Qed.
End writes.

(** ** What a replica receives *)

Definition clone_ok (c : Events.CloneHistoryEntry) : Prop :=
  Forall MetadataStore.is_ascii [Events.ch_Version c; Events.ch_Phase c; Events.ch_Duration c; Events.ch_Error c] ∧
  MetadataStore.time_ok (Events.ch_StartedAt c) ∧ MetadataStore.time_ok (Events.ch_CompletedAt c) ∧
  in64 (Events.ch_TotalBlobs c) ∧ in64 (Events.ch_TotalBytes c).

(** The exports encoding/json writes and reads back. *)
Definition export_ok (e : ReplicationExport) : Prop :=
  MetadataStore.time_ok (re_ExportedAt e) ∧ MetadataStore.is_ascii (re_Version e) ∧
  Forall Releases.release_ok (re_Releases e) ∧ Forall Events.event_ok (re_Events e) ∧
  Forall clone_ok (re_CloneHistory e) ∧ Forall Events.download_ok (re_DownloadRecords e) ∧
  match re_DownloadStats e with Some c => Events.counter_ok c | None => True end.

(** What an encoder writes for an export, with the line end after it, a decoder
    reads back. *)
Class ExportLaws `{!Json ReplicationExport} `{!JsonDecoder ReplicationExport} :=
  export_decodes e b : export_ok e → json_Marshal e = Ok b → json_Decode (b ++ [Oci.newline]) = Ok e.

(** No release has the version of another as its version or tag. *)
Definition versions_apart (cat : gmap string Releases.Release) : Prop :=
  ∀ k1 k2 r1 r2, cat !! k1 = Some r1 → cat !! k2 = Some r2 →
    Releases.matches_version (Releases.rl_Version r1) r2 → k1 = k2.

Definition importReleases (cat : gmap string Releases.Release) (l : list Releases.Release) :
    gmap string Releases.Release := foldl Releases.import_spec cat l.

Lemma importReleases_fresh l k r :
  NoDup (Releases.rel_key <$> l) →
  importReleases ∅ l !! k = Some r ↔ r ∈ l ∧ k = Releases.rel_key r.
Proof.
  unfold importReleases. revert k r. induction l as [|a l IH] using rev_ind; intros k r Hnd.
  { simpl. rewrite lookup_empty. set_solver. }
  rewrite fmap_app, NoDup_app in Hnd. destruct Hnd as (Hnd & Hni & _).
  rewrite foldl_app. cbn [foldl]. unfold Releases.import_spec at 1.
  destruct (foldl _ ∅ l !! Releases.rel_key a) as [old|] eqn:Ea.
  { apply IH in Ea as [Hin Hk]; [|done]. destruct (Hni (Releases.rel_key a)); [|simpl; set_solver].
    rewrite Hk. by apply list_elem_of_fmap_2. }
  rewrite lookup_insert_Some, IH, elem_of_app, list_elem_of_singleton by done. split.
  - intros [[E1 E2]|[_ [? ?]]]; subst; auto.
  - intros [[Hin|Ha] Hk]; subst; [|by left]. right. split; [|done]. intros E.
    destruct (Hni (Releases.rel_key r)); [by apply list_elem_of_fmap_2|]. rewrite <-E. simpl. set_solver.
Qed.

Lemma importReleases_all cat l :
  Releases.well_keyed cat → l ≡ₚ (map_to_list cat).*2 →
  NoDup (Releases.rel_key <$> l) ∧ (∀ k r, cat !! k = Some r ↔ r ∈ l ∧ k = Releases.rel_key r).
Proof.
  intros Hw Hl.
  assert (∀ k r, cat !! k = Some r ↔ r ∈ l ∧ k = Releases.rel_key r) as Hin.
  { intros k r. rewrite Hl, list_elem_of_fmap. split.
    - intros Hk. split; [|by apply Hw]. exists (k, r). by rewrite elem_of_map_to_list.
    - intros [([k' r'] & -> & Hk%elem_of_map_to_list) ->]. simpl. by rewrite <-(Hw k' r' Hk). }
  split; [|done]. rewrite Hl, <-list_fmap_compose.
  apply (NoDup_fmap_2_strong (Releases.rel_key ∘ snd)); [|apply NoDup_map_to_list].
  intros [k1 r1] [k2 r2] H1%elem_of_map_to_list H2%elem_of_map_to_list E. simpl in E.
  rewrite <-(Hw _ _ H1), <-(Hw _ _ H2) in E. subst. congruence.
Qed.

Section runs.
Context `{Badger}.

(** Importing a list, when every import does what its specification says. *)
Lemma importEach_refines {A B X} (R : X → DB → Prop) (step : X → B → X) (g : B → A)
    (f : DB → A → result unit * DB) (l : list B) (x : X) (s : St) :
  (∀ l1 b l2 db, l = l1 ++ b :: l2 → R (foldl step x l1) db →
     ∃ db', f db (g b) = (Ok tt, db') ∧ R (step (foldl step x l1) b) db') →
  R x (w_db (st_w s)) →
  ∃ db', importEach f (g <$> l) s =
      (Ok tt, mkSt (mkWorld _ (w_bs (st_w s)) (w_os (st_w s)) db') (st_pr s) (st_calls s)) ∧
    R (foldl step x l) db'.
Proof.
  revert x s. induction l as [|b l IH]; intros x s Hf Hx; cbn [importEach fmap list_fmap for_each].
  { exists (w_db (st_w s)). split; [|done]. by destruct s as [[] ? ?]. }
  destruct (Hf [] b l (w_db (st_w s)) eq_refl Hx) as (db1 & Hf1 & Hx1).
  unfold importEach. cbn [for_each]. unfold ignoring, attempt, on_db, mbind, M_bind.
  rewrite Hf1. cbn [fst snd mret M_ret].
  apply (IH (step x b) (mkSt (mkWorld _ (w_bs (st_w s)) (w_os (st_w s)) db1) (st_pr s) (st_calls s))); [|done].
  intros l1 b' l2 db -> Hl. by apply (Hf (b :: l1) b' l2).
Qed.
End runs.

Section theorems.
Context `{BadgerLaws} `{!Json Releases.Release} `{!JsonLaws Releases.Release Releases.release_ok}.
Context `{Releases.MapRangeLaws} `{!Json Events.Event} `{!JsonLaws Events.Event Events.event_ok}.
Context `{!Json Events.CloneHistoryEntry} `{!JsonLaws Events.CloneHistoryEntry clone_ok}.
Context `{!Json Events.DownloadRecord} `{!JsonLaws Events.DownloadRecord Events.download_ok}.
Context `{!Json Events.DownloadCounter}.
Context `{!Json ReplicationExport} `{!JsonDecoder ReplicationExport} `{!ExportLaws} `{!Env}.

(** What the imports work on: the catalogue, the log and the counters. *)
Definition holds (c0 : option bytes) (x : gmap string Releases.Release * gmap Z Events.Event) (db : DB) : Prop :=
  Releases.catalog (view db) x.1 ∧ Events.logs (view db) x.2 ∧
  view db !! (Events.prefixDLCounter +:+ "global") = c0.

Lemma holds_catalog c0 cat cat' log db db' rel :
  holds c0 (cat, log) db → Releases.ImportRelease db rel = (Ok tt, db') →
  Releases.catalog (view db') cat' → holds c0 (cat', log) db'.
Proof.
  intros (_ & Hl & Hc) HI Hcat. split; [done|].
  pose proof (writes_framed (λ m, Events.logs m log ∧ m !! (Events.prefixDLCounter +:+ "global") = c0)
    Releases.releaseKeyPrefix (λ db, Releases.ImportRelease db rel) db) as Hw.
  cbv beta in Hw. rewrite HI in Hw. apply Hw; [done| |apply ImportRelease_writes|done].
  intros m k v [? ?]. split; [by apply Events.logs_other|]. by rewrite lookup_insert_ne.
Qed.

Lemma holds_event c0 cat log db t ev :
  holds c0 (cat, log) db → Events.eop_ok (Events.EImport t ev) →
  ∃ db', Events.ImportEvent db ev = (Ok tt, db') ∧
    holds c0 (cat, Events.espec (Events.EImport t ev) log) db'.
Proof.
  intros (Hcat & Hl & Hc) Hok.
  assert (∃ db', Events.ImportEvent db ev = (Ok tt, db')) as [db' HI].
  { unfold Events.ImportEvent. destruct Hok as (_ & _ & Hev).
    destruct (MetadataStore.GetRaw _ _); [by eexists| |];
      destruct (json_roundtrip (ok := Events.event_ok) ev Hev) as (b & -> & _);
      destruct (MetadataStore.PutRaw_view db (Events.prefixEvent +:+ Events.ev_ID ev) b) as (db' & -> & _);
      [done|by eexists|done|by eexists]. }
  exists db'. split; [done|].
  pose proof (Events.erun_logs (Events.EImport t ev) db log Hok Hl) as Hl'. simpl in Hl'. rewrite HI in Hl'.
  pose proof (writes_framed (λ m, Releases.catalog m cat ∧ m !! (Events.prefixDLCounter +:+ "global") = c0)
    Events.prefixEvent (λ db, Events.ImportEvent db ev) db) as Hw.
  cbv beta in Hw. rewrite HI in Hw. destruct Hw as [? ?]; [done| |apply ImportEvent_writes|done|done].
  intros m k v [? ?]. split; [by apply Releases.catalog_other|]. by rewrite lookup_insert_ne.
Qed.

(** The imports of history and downloads touch neither. *)
Lemma holds_other c0 x db f p :
  holds c0 x db → writes p f → p = Events.prefixCloneHistory ∨ p = Events.prefixDownload →
  holds c0 x (f db).2.
Proof.
  intros Hx Hf Hp. unfold holds.
  apply (writes_framed (λ m, Releases.catalog m x.1 ∧ Events.logs m x.2 ∧
    m !! (Events.prefixDLCounter +:+ "global") = c0) p); [by destruct Hp as [->| ->]| |done|done].
  intros m k v (? & ? & ?).
  destruct Hp as [->| ->]; (split; [by apply Releases.catalog_other|]; split; [by apply Events.logs_other|];
    by rewrite lookup_insert_ne).
Qed.

(** The events of a log, taken into another one. *)
Definition take_event (log : gmap Z Events.Event) (te : Z * Events.Event) : gmap Z Events.Event :=
  Events.espec (Events.EImport te.1 te.2) log.

Lemma take_events (logA logB : gmap Z Events.Event) L :
  L ≡ₚ map_to_list logA → foldl take_event logB L = logB ∪ logA.
Proof.
  intros HL. assert (foldl take_event logB L = logB ∪ list_to_map L) as ->.
  { clear HL. revert logB. induction L as [|[t e] L IH]; intros logB; simpl.
    - by rewrite map_union_empty.
    - rewrite IH, insert_union_singleton_l, map_union_assoc. f_equal. unfold take_event. simpl.
      destruct (logB !! t) as [e'|] eqn:E.
      + apply map_eq. intros t'. rewrite lookup_union. destruct (decide (t' = t)) as [->|?].
        * by rewrite E, lookup_singleton_eq.
        * rewrite lookup_singleton_ne by done. by destruct (logB !! t').
      + rewrite insert_union_singleton_r by done. done. }
  f_equal. rewrite <-(list_to_map_to_list logA). apply list_to_map_proper; [|done].
  rewrite HL. apply NoDup_fst_map_to_list.
Qed.

Lemma imports_other {A} (f : DB → A → result unit * DB) p ok c0 x l s :
  p = Events.prefixCloneHistory ∨ p = Events.prefixDownload →
  (∀ a, writes p (λ db, f db a)) → (∀ a db, ok a → (f db a).1 = Ok tt) → Forall ok l →
  holds c0 x (w_db (st_w s)) →
  ∃ db', importEach f l s =
      (Ok tt, mkSt (mkWorld _ (w_bs (st_w s)) (w_os (st_w s)) db') (st_pr s) (st_calls s)) ∧ holds c0 x db'.
Proof.
  intros Hp Hw Hok Hl Hx. rewrite <-(list_fmap_id l).
  destruct (importEach_refines (λ _ : unit, holds c0 x) (λ u _, u) id f l tt s) as (db' & ? & ?); [|done|by exists db'].
  intros l1 a l2 db -> Hdb. pose proof (holds_other c0 x db _ p Hdb (Hw a) Hp) as Hh. cbv beta in Hh.
  assert (ok a) as Ha by (eapply Forall_forall; [exact Hl|set_solver]).
  specialize (Hok a db Ha). unfold id. destruct (f db a) as [r db']. simpl in *. subst r. by exists db'.
Qed.

Lemma imports_releases c0 cat log l s :
  Releases.well_keyed cat → versions_apart cat → l ≡ₚ (map_to_list cat).*2 → Forall Releases.release_ok l →
  holds c0 (∅, log) (w_db (st_w s)) →
  ∃ db', importEach Releases.ImportRelease l s =
      (Ok tt, mkSt (mkWorld _ (w_bs (st_w s)) (w_os (st_w s)) db') (st_pr s) (st_calls s)) ∧
    holds c0 (cat, log) db'.
Proof.
  intros Hw Hv Hl Hok Hx. destruct (importReleases_all cat l Hw Hl) as [Hnd Hin].
  rewrite <-(list_fmap_id l).
  destruct (importEach_refines (λ c, holds c0 (c, log)) Releases.import_spec id Releases.ImportRelease l ∅ s)
    as (db' & Hdb' & Hh); [|done|].
  2:{ exists db'. split; [done|]. enough (foldl Releases.import_spec ∅ l = cat) as <- by done.
      apply map_eq. intros k. apply option_eq. intros r.
      rewrite Hin. by apply (importReleases_fresh l k r). }
  intros l1 a l2 db -> Hdb. unfold id.
  assert (∀ k r, foldl Releases.import_spec ∅ l1 !! k = Some r ↔ r ∈ l1 ∧ k = Releases.rel_key r) as H1'.
  { intros k r. apply importReleases_fresh. rewrite fmap_app, NoDup_app in Hnd. apply Hnd. }
  destruct (Releases.ImportRelease_spec db (foldl Releases.import_spec ∅ l1) a) as (db' & HI & Hcat').
  - apply Hdb.
  - intros k r [_ ->]%H1'. done.
  - intros k r [Hr ->]%H1'. split.
    + intros Hm. symmetry. apply (Hv _ _ a r); [apply Hin; split; [set_solver|done]..|done].
    + intros Hk. assert (cat !! Releases.rel_key r = Some r) as E by (apply Hin; split; [set_solver|done]).
      assert (cat !! Releases.rel_key a = Some a) as Ea by (apply Hin; split; [set_solver|done]).
      left. congruence.
  - eapply Forall_forall; [exact Hok|]. set_solver.
  - exists db'. split; [done|]. by eapply holds_catalog.
Qed.

Lemma imports_events c0 cat logA logB l s :
  l ≡ₚ map_to_list logA →
  (∀ t e, logA !! t = Some e → Events.nano_ok t ∧ Events.ev_ID e = Events.rid t ∧ Events.event_ok e) →
  holds c0 (cat, logB) (w_db (st_w s)) →
  ∃ db', importEach Events.ImportEvent l.*2 s =
      (Ok tt, mkSt (mkWorld _ (w_bs (st_w s)) (w_os (st_w s)) db') (st_pr s) (st_calls s)) ∧
    holds c0 (cat, logB ∪ logA) db'.
Proof.
  intros Hl Hok Hx.
  destruct (importEach_refines (λ log, holds c0 (cat, log)) take_event snd Events.ImportEvent l logB s)
    as (db' & Hdb' & Hh); [|done|].
  2:{ exists db'. split; [done|]. by rewrite (take_events logA logB l Hl) in Hh. }
  intros l1 [t e] l2 db -> Hdb. apply holds_event; [done|]. apply Hok, elem_of_map_to_list.
  rewrite <-Hl. set_solver.
Qed.

Lemma ImportCloneHistory_ok c db : clone_ok c → (Events.ImportCloneHistory db c).1 = Ok tt.
Proof.
  intros Hc. unfold Events.ImportCloneHistory, Events.SaveCloneHistory.
  destruct (json_roundtrip (ok := clone_ok) c Hc) as (b & -> & _).
  by destruct (MetadataStore.PutRaw_view db (Events.prefixCloneHistory +:+ Events.ch_Version c) b) as (db' & -> & _).
Qed.

Lemma ImportDownloadRecord_ok c db : Events.download_ok c → (Events.ImportDownloadRecord db c).1 = Ok tt.
Proof.
  intros Hc. unfold Events.ImportDownloadRecord.
  destruct (json_roundtrip (ok := Events.download_ok) c Hc) as (b & -> & _).
  by destruct (MetadataStore.PutRaw_view db (Events.prefixDownload +:+ Events.fmt_019d
    (wrap64 (maxInt64 - UnixNano (Events.dr_Time c)))) b) as (db' & -> & _).
Qed.

Lemma Export_contents e now db cat log export :
  ex_releaseMgr e = true → ex_eventStore e = true →
  Releases.catalog (view db) cat → Events.logs (view db) log → (size log ≤ 1000) →
  Export e now db = Ok export →
  re_Releases export ≡ₚ (map_to_list cat).*2 ∧
  re_Events export = (merge_sort Events.newer (map_to_list log)).*2.
Proof.
  intros Hem Hee Hcat Hlog Hsize. unfold Export, ListAllReleases. rewrite Hem, Hee.
  destruct (Releases.ListReleases_spec db cat Hcat) as (l & -> & Hl).
  cbn [or_nil mbind result_bind].
  rewrite (Events.ListEvents_spec db log _ _ Hlog).
  cbn [or_nil mbind result_bind].
  assert (Events.limited 1000 (filter (Events.passes "") (Events.newest_first log)) = Events.newest_first log) as ->.
  { unfold Events.limited. rewrite decide_True by lia.
    assert (filter (Events.passes "") (Events.newest_first log) = Events.newest_first log) as ->.
    { induction (Events.newest_first log) as [|x l' IH]; [done|].
      rewrite filter_cons_True by by left. by rewrite IH. }
    apply take_ge. unfold Events.newest_first. rewrite length_fmap, merge_sort_Permutation.
    rewrite length_map_to_list. change 1000%Z with (Z.of_nat 1000). by rewrite Nat2Z.id. }
  destruct (or_nil (Events.ListCloneHistory _ _ _)) as [h| |]; [|done..].
  cbn [mbind result_bind].
  destruct (or_nil (Events.ListRecentDownloads _ _)) as [d| |]; [|done..].
  by intros [= <-].
Qed.

End theorems.

(** ** Two instances *)

Global Instance CloneHistoryEntry_eq_dec : EqDecision Events.CloneHistoryEntry.
Proof. solve_decision. Defined.
Global Instance CloneHistoryEntry_countable : Countable Events.CloneHistoryEntry.
Proof.
  refine (inj_countable' (λ c, (Events.ch_Version c, Events.ch_Phase c, Events.ch_Duration c, Events.ch_Error c,
      Events.ch_StartedAt c, Events.ch_CompletedAt c, Events.ch_TotalBlobs c, Events.ch_TotalBytes c,
      Events.ch_Success c))
    (λ '(v, p, d, e, s, c, b, y, k), Events.mkCloneHistoryEntry v p d e s c b y k) _).
  by intros [].
Defined.

Global Instance ReplicationExport_eq_dec : EqDecision ReplicationExport.
Proof. solve_decision. Defined.
Global Instance ReplicationExport_countable : Countable ReplicationExport.
Proof.
  refine (inj_countable' (λ e, (re_ExportedAt e, re_Version e, re_Releases e, re_Events e,
      re_CloneHistory e, re_DownloadRecords e, re_DownloadStats e))
    (λ '(a, v, r, e, c, d, s), mkReplicationExport a v r e c d s) _).
  by intros [].
Defined.

Definition jsonClone : Json Events.CloneHistoryEntry := countableJson Events.CloneHistoryEntry.
Definition jsonExport : Json ReplicationExport := countableJson ReplicationExport.

(** The decoder leaves the line end after the value alone. *)
Definition exportDecoder : JsonDecoder ReplicationExport := λ b,
  @json_Unmarshal _ jsonExport (take (length b - 1) b).

Lemma exportLaws : @ExportLaws jsonExport exportDecoder.
Proof.
  intros e b Hok Hb. unfold json_Decode, exportDecoder.
  replace (take _ _) with b by (rewrite length_app; simpl; by rewrite Nat.add_sub, take_app_length).
  destruct (@countableJsonLaws ReplicationExport _ _ export_ok e Hok) as (b' & Hb' & Hd).
  unfold jsonExport in *. congruence.
Qed.

#[local] Existing Instances mapBadger mapBadgerLaws Releases.jsonRelease Releases.listRange
  Releases.listRangeLaws Events.jsonEvent Events.jsonDownload Events.jsonCounter jsonClone jsonExport
  exportDecoder exportLaws.
#[local] Instance exReleaseLaws : JsonLaws Releases.Release Releases.release_ok := countableJsonLaws _ _.
#[local] Instance exEventLaws : JsonLaws Events.Event Events.event_ok := countableJsonLaws _ _.
#[local] Instance exCloneLaws : JsonLaws Events.CloneHistoryEntry clone_ok := countableJsonLaws _ _.
#[local] Instance exDownloadLaws : JsonLaws Events.DownloadRecord Events.download_ok := countableJsonLaws _ _.

Definition exNano : Z := 1750000000000000000.
Definition exEvent : Events.Event :=
  Events.mkEvent (Events.rid exNano) Events.EventReleaseReady Events.SeveritySuccess (Events.exNow 0)
    "4.18.2" "ready" ∅.
Definition exSourceDb : DB := (Events.ImportEvent Releases.exCatDb exEvent).2.

Lemma exImport_ok : Events.eop_ok (Events.EImport exNano exEvent).
Proof.
  split; [by split; vm_compute|]. split; [done|].
  split_and!; try (refine (bool_decide_unpack _ _); vm_compute; exact I).
Qed.

Lemma exCat_holds : holds None (Releases.exCat, ∅) Releases.exCatDb.
Proof.
  split; [apply Releases.exCatDb_catalog|]. unfold Releases.exCatDb. cbn [snd].
  set (J := λ m : gmap string bytes, Events.logs m ∅ ∧ m !! (Events.prefixDLCounter +:+ "global") = None).
  assert (framed J Releases.releaseKeyPrefix) as HJ.
  { intros m k v [? ?]. split; [by apply Events.logs_other|]. by rewrite lookup_insert_ne. }
  apply (writes_framed J Releases.releaseKeyPrefix (λ db, Releases.saveRelease db Releases.exOld));
    [done|done|apply saveRelease_writes|].
  apply (writes_framed J Releases.releaseKeyPrefix (λ db, Releases.saveRelease db Releases.exReady));
    [done|done|apply saveRelease_writes|].
  split; [apply Events.logs_empty|done].
Qed.

Lemma exSource_holds : holds None (Releases.exCat, {[exNano := exEvent]}) exSourceDb.
Proof.
  destruct (holds_event None Releases.exCat ∅ Releases.exCatDb exNano exEvent exCat_holds exImport_ok)
    as (db' & HI & Hh). unfold exSourceDb. rewrite HI. exact Hh.
Qed.

Definition exExport : ReplicationExport :=
  mkReplicationExport (Events.exNow 7) "0.1.0"
    (omap (λ v, match json_Unmarshal v with Ok rel => Some rel | _ => None end)
       (Releases.range_values (filter (λ kv, HasPrefix kv.1 Releases.releaseKeyPrefix = true) (view exSourceDb))))
    [exEvent] [] [] (Some Events.noCounter).

Lemma exExport_Export : Export (NewExporter true true "0.1.0") (Events.exNow 7) exSourceDb = Ok exExport.
Proof. by vm_compute. Qed.

Lemma exExport_ok : export_ok exExport.
Proof.
  destruct (Export_contents (NewExporter true true "0.1.0") (Events.exNow 7) exSourceDb Releases.exCat
    {[exNano := exEvent]} exExport eq_refl eq_refl) as [Hr _]; [apply exSource_holds..|by vm_compute; lia|apply exExport_Export|].
  split; [by split; vm_compute|]. split; [by apply (bool_decide_unpack _)|]. split_and!.
  - rewrite Hr. apply Forall_forall. intros r ([k r'] & -> & Hk%elem_of_map_to_list)%list_elem_of_fmap.
    revert Hk. apply (Releases.exCat_forall (λ _ r, Releases.release_ok r)); apply Releases.exReleases_ok.
  - constructor; [|constructor]. apply exImport_ok.
  - constructor.
  - constructor.
  - apply Events.noCounter_ok.
Qed.

Definition exSource : SyncSource :=
  mkSyncSource "peer" "fastregistry" "http://peer" "tok" "" "" [] [] "" "" false false "" "once" 5.
Definition exClient : ReplicationClient := NewReplicationClient exSource true true.
Definition exBody : bytes := match json_Marshal exExport with Ok b => b | _ => [] end ++ [Oci.newline].

Program Definition exEnv : Env := {|
  NewRequest _ := None;
  Do _ _ _ := Ok (mkResponse 200 "application/json" "" (NewReader exBody));
  now _ := 1%Z;
  rnds n := [N.of_nat n];
  ctx_Err _ := None;
  order _ _ l := l;
  tally _ b := blen b
|}.
Next Obligation. done. Qed.
Next Obligation. intros n b. unfold blen. simpl. lia. Qed.
#[local] Existing Instance exEnv.

Definition exReplica : St :=
  mkSt (mkWorld _ (BlobStore.NewBlobStore BlobStore.srvRoot) os_empty ∅) (NewProgress 1) 0.

End Replication.
