(* ===== verification/Scheduler.v ===== *)
(** internal/sync/scheduler.go: the jobs that copy from other registries.

    The scheduler's goroutines are steps of one system: the ticks and the
    triggers that start [runJob], its passage through the lock, each call it
    makes to its client, and its deferred end.  What a client call does to the
    stores is one step; calls of different jobs interleave. *)

From S2P Require Import Prelude Effect GoLib Digest Os Blob Badger Metadata Oci Mirror SyncClients SyncSpec Releases Events Replication.

Module Scheduler.
Import Sync.

(** The interfaces [SyncClient] and [MetadataSyncer], over the stores [W] the
    clients work on. *)
Record SyncClient (W : Type) := mkSyncClient {
  cl_ListRepositories : M W (list string);
  cl_SyncRepository : string → M (W * Progress) unit;
  cl_SyncMetadata : option (M W unit)
}.
Global Arguments mkSyncClient {_}.
Global Arguments cl_ListRepositories {_}.
Global Arguments cl_SyncRepository {_}.
Global Arguments cl_SyncMetadata {_}.

(** ** Schedules *)

(** [shouldRun]: only [*/N] in the first field is understood. *)
Definition shouldRun (schedule : string) (lastRun now : Time) : bool :=
  if decide (schedule = "") then false
  else
    match Fields schedule with
    | [] => false
    | p :: _ =>
      if HasPrefix p "*/" then
        let '(interval, ok) := ParseInt (TrimPrefix p "*/") in
        if negb ok then false
        else if IsZero lastRun then true
        else bool_decide (wrap64 (interval * Minute) ≤ TimeSub now lastRun)%Z
      else false
    end.

(** ** Jobs *)

Section scheduler.
Context {W : Type}.

(** A job's progress is the record [job.progress] points to; only the run of
    the job writes it. *)
Record syncJob := mkSyncJob {
  sj_source : SyncSource;
  sj_client : SyncClient W;
  sj_lastRun : Time;
  sj_running : bool;
  sj_progress : option Progress
}.

Record JobStatus := mkJobStatus {
  js_Name : string;
  js_Running : bool;
  js_LastRun : Time;
  js_Progress : option Progress;
  js_Source : option SyncSource
}.

(** [NewScheduler]: a later source of the same name takes its place, an unknown
    type is left out. *)
Definition NewScheduler (newClient : SyncSource → option (SyncClient W)) (sources : list SyncSource)
    : gmap string syncJob :=
  foldl (λ jobs src,
    match newClient src with
    | Some c => <[ss_Name src := mkSyncJob src c 0 false None]> jobs
    | None => jobs
    end) ∅ sources.

(** The goroutine of a run: what it does next. *)
Inductive phase :=
  | Listing
  | Syncing (todo : list string)
  | SyncingMetadata
  | Ending.

Global Instance phase_eq_dec : EqDecision phase.
Proof. solve_decision. Defined.

Record Run := mkRun { rn_name : string; rn_phase : phase }.

(** [sy_spawned]: goroutines started for [runJob(name)] that have not taken
    the lock; [sy_runs]: those past it. *)
Record System := mkSystem {
  sy_jobs : gmap string syncJob;
  sy_spawned : list string;
  sy_runs : list Run;
  sy_world : W
}.

(** The order in which ranging over the map of jobs yields its entries. *)
Context (range : ∀ A, list A → list A) (range_perm : ∀ A (l : list A), range A l ≡ₚ l).

Definition entries (jobs : gmap string syncJob) : list (string * syncJob) := range _ (map_to_list jobs).

(** [run]: the jobs of mode once are started at the beginning. *)
Definition startOnce (jobs : gmap string syncJob) : list string :=
  (filter (λ nj, ss_Mode (sj_source nj.2) = "once" ∧ IsZero (sj_lastRun nj.2) = true) (entries jobs)).*1.

Definition Start (jobs : gmap string syncJob) (w : W) : System := mkSystem jobs (startOnce jobs) [] w.

Definition due (now : Time) (job : syncJob) : Prop :=
  sj_running job = false ∧ ss_Mode (sj_source job) = "continuous" ∧
  shouldRun (ss_Schedule (sj_source job)) (sj_lastRun job) now = true.
Global Instance due_dec now job : Decision (due now job).
Proof. unfold due. apply _. Defined.

Definition checkJobs (now : Time) (jobs : gmap string syncJob) : list string :=
  (filter (λ nj, due now nj.2) (entries jobs)).*1.

Definition TriggerSync (jobs : gmap string syncJob) (name : string) : result unit :=
  match jobs !! name with
  | None => Err ErrJobNotFound
  | Some job => if sj_running job then Err ErrJobRunning else Ok tt
  end.

Definition status (withSource : bool) (name : string) (job : syncJob) : JobStatus :=
  mkJobStatus name (sj_running job) (sj_lastRun job) (sj_progress job)
    (if withSource then Some (sj_source job) else None).

Definition GetJobStatus (jobs : gmap string syncJob) (name : string) : result JobStatus :=
  match jobs !! name with
  | None => Err ErrJobNotFound
  | Some job => Ok (status false name job)
  end.

Definition ListJobs (jobs : gmap string syncJob) : list string := (entries jobs).*1.

Definition GetAllJobStatuses (jobs : gmap string syncJob) : list JobStatus :=
  (λ nj, status true nj.1 nj.2) <$> entries jobs.

(** ** A run *)

Definition set_run (running : bool) (lastRun : Time) (p : option Progress) (job : syncJob) : syncJob :=
  mkSyncJob (sj_source job) (sj_client job) lastRun running p.

(** The lock: the run starts unless the job is gone or running. *)
Definition begin (name : string) (now : Time) (jobs : gmap string syncJob)
    : option (gmap string syncJob) :=
  match jobs !! name with
  | Some job =>
    if sj_running job then None
    else Some (<[name := set_run true (sj_lastRun job) (Some (NewProgress now)) job]> jobs)
  | None => None
  end.

(** The deferred function. *)
Definition finish (name : string) (now : Time) (jobs : gmap string syncJob) : gmap string syncJob :=
  alter (λ job, set_run false now (sj_progress job) job) name jobs.

Definition addRepo (synced failed : Z) (p : Progress) : Progress :=
  mkProgress (pg_TotalRepos p) (pg_SyncedRepos p + synced) (pg_FailedRepos p + failed) (pg_TotalTags p)
    (pg_SyncedTags p) (pg_FailedTags p) (pg_BytesTotal p) (pg_BytesSynced p) (pg_StartTime p).
Definition setTotalRepos (n : Z) (p : Progress) : Progress :=
  mkProgress n (pg_SyncedRepos p) (pg_FailedRepos p) (pg_TotalTags p)
    (pg_SyncedTags p) (pg_FailedTags p) (pg_BytesTotal p) (pg_BytesSynced p) (pg_StartTime p).

(** One call of the run: the stores, the progress and what comes next; [None]
    when the call panics and the process ends.  [cancelled]: whether the
    context is done when it is looked at. *)
Definition work (c : SyncClient W) (ph : phase) (cancelled : bool) (w : W) (p : Progress)
    : option (W * Progress * phase) :=
  match ph with
  | Listing =>
    match cl_ListRepositories c w with
    | (Ok repos, w) => Some (w, setTotalRepos (Z.of_nat (length repos)) p, Syncing repos)
    | (Err _, w) => Some (w, p, Ending)
    | (Panic _, _) => None
    end
  | Syncing [] =>
    Some (w, p, match cl_SyncMetadata c with Some _ => SyncingMetadata | None => Ending end)
  | Syncing (repo :: todo) =>
    if cancelled then Some (w, p, Ending)
    else
      match cl_SyncRepository c repo (w, p) with
      | (Ok _, (w, p)) => Some (w, addRepo 1 0 p, Syncing todo)
      | (Err _, (w, p)) => Some (w, addRepo 0 1 p, Syncing todo)
      | (Panic _, _) => None
      end
  | SyncingMetadata =>
    match cl_SyncMetadata c with
    | Some m => match m w with (Panic _, _) => None | (_, w) => Some (w, p, Ending) end
    | None => Some (w, p, Ending)
    end
  | Ending => None
  end.

(** [runJob] by itself: every call in turn; [cancelled n] is the context at
    the [n]-th repository. *)
Fixpoint syncRepos (c : SyncClient W) (cancelled : nat → bool) (todo : list string) (w : W) (p : Progress)
    : option (W * Progress * phase) :=
  match todo with
  | [] => work c (Syncing []) false w p
  | repo :: todo' =>
    '(w, p, ph) ← work c (Syncing todo) (cancelled 0) w p;
    match ph with
    | Syncing _ => syncRepos c (λ n, cancelled (S n)) todo' w p
    | ph => Some (w, p, ph)
    end
  end.

Definition runCalls (c : SyncClient W) (cancelled : nat → bool) (w : W) (p : Progress) : option (W * Progress) :=
  '(w, p, ph) ← work c Listing false w p;
  '(w, p, ph) ← match ph with Syncing todo => syncRepos c cancelled todo w p | ph => Some (w, p, ph) end;
  match ph with
  | SyncingMetadata => '(w, p, _) ← work c SyncingMetadata false w p; Some (w, p)
  | _ => Some (w, p)
  end.

Definition set_progress (name : string) (p : Progress) (jobs : gmap string syncJob) : gmap string syncJob :=
  alter (λ job, set_run (sj_running job) (sj_lastRun job) (Some p) job) name jobs.

Definition runJob (name : string) (now1 now2 : Time) (cancelled : nat → bool)
    (jobs : gmap string syncJob) (w : W) : option (gmap string syncJob * W) :=
  match begin name now1 jobs with
  | None => Some (jobs, w)
  | Some jobs =>
    job ← jobs !! name; p ← sj_progress job;
    '(w, p) ← runCalls (sj_client job) cancelled w p;
    Some (finish name now2 (set_progress name p jobs), w)
  end.

(** ** The system *)

Inductive action :=
  | ATick (now : Time)
  | ATrigger (name : string)
  | ABegin (i : nat) (now : Time)
  | AWork (i : nat) (cancelled : bool)
  | AEnd (i : nat) (now : Time).

(** The effect of an action; [None] when it is not possible. *)
Definition act (a : action) (s : System) : option System :=
  match a with
  | ATick now =>
    Some (mkSystem (sy_jobs s) (sy_spawned s ++ checkJobs now (sy_jobs s)) (sy_runs s) (sy_world s))
  | ATrigger name =>
    Some (mkSystem (sy_jobs s)
      (sy_spawned s ++ match TriggerSync (sy_jobs s) name with Ok _ => [name] | _ => [] end)
      (sy_runs s) (sy_world s))
  | ABegin i now =>
    name ← sy_spawned s !! i;
    let spawned := delete i (sy_spawned s) in
    match begin name now (sy_jobs s) with
    | Some jobs => Some (mkSystem jobs spawned (sy_runs s ++ [mkRun name Listing]) (sy_world s))
    | None => Some (mkSystem (sy_jobs s) spawned (sy_runs s) (sy_world s))
    end
  | AWork i cancelled =>
    run ← sy_runs s !! i; job ← sy_jobs s !! rn_name run; p ← sj_progress job;
    '(w, p, ph) ← work (sj_client job) (rn_phase run) cancelled (sy_world s) p;
    Some (mkSystem (set_progress (rn_name run) p (sy_jobs s)) (sy_spawned s)
            (<[i := mkRun (rn_name run) ph]> (sy_runs s)) w)
  | AEnd i now =>
    run ← sy_runs s !! i;
    match rn_phase run with
    | Ending => Some (mkSystem (finish (rn_name run) now (sy_jobs s)) (sy_spawned s)
                        (delete i (sy_runs s)) (sy_world s))
    | _ => None
    end
  end.

Definition reaches (s : System) (acts : list action) : option System :=
  foldl (λ s a, s ≫= act a) (Some s) acts.
End scheduler.

(** ** The cadence of a schedule *)

Lemma fields_go_word w rest cur :
  Forall (λ c, is_space c = false) w → rest = [] ∨ (∃ c r, rest = c :: r ∧ is_space c = true) →
  reverse w ++ cur ≠ [] →
  head (fields_go cur (w ++ rest)) = Some (bytes_str (reverse cur ++ w)).
Proof.
  intros Hw Hrest. revert cur. induction Hw as [|c w Hc Hw IH]; intros cur Hne.
  - rewrite app_nil_r. simpl in *. destruct Hrest as [->|(c & r & -> & Hc)]; simpl.
    + by destruct cur.
    + rewrite Hc. by destruct cur.
  - simpl. rewrite Hc. rewrite IH by (intros E; by apply (f_equal length) in E; revert E;
      rewrite length_app; simpl; lia). rewrite reverse_cons, <-app_assoc. done.
Qed.

Lemma digit_not_space c : is_Some (digit_val c) → is_space c = false.
Proof.
  intros Hd. unfold is_space. apply bool_decide_eq_false_2. intros Hin.
  repeat (apply elem_of_cons in Hin as [->|Hin]; [by destruct Hd|]). by apply elem_of_nil in Hin.
Qed.

(** What follows the first field. *)
Definition field_end (rest : string) : Prop :=
  rest = "" ∨ ∃ c r, rest = String c r ∧ is_space c = true.

Lemma Fields_head w rest :
  w ≠ "" → Forall (λ c, is_space c = false) (str_bytes w) → field_end rest →
  ∃ l, Fields (w +:+ rest) = w :: l.
Proof.
  intros Hne Hw Hr. unfold Fields. rewrite str_bytes_app.
  pose proof (fields_go_word (str_bytes w) (str_bytes rest) [] Hw) as Hh.
  destruct (fields_go [] _) as [|x l]; simpl in Hh.
  - discriminate Hh.
    + destruct Hr as [->|(c & r & -> & Hc)]; [by left|right; by exists c, (str_bytes r)].
    + rewrite app_nil_r. intros E. destruct w; [done|]. simpl in E. rewrite reverse_cons in E.
      by apply app_nil in E as [_ ?].
  - exists l. f_equal. rewrite str_bytes_str in Hh. injection Hh; [done|..].
    + destruct Hr as [->|(c & r & -> & Hc)]; [by left|right; by exists c, (str_bytes r)].
    + rewrite app_nil_r. intros E. destruct w; [done|]. simpl in E. rewrite reverse_cons in E.
      by apply app_nil in E as [_ ?].
Qed.

(** A schedule [*/N], with or without further fields, as an interval. *)
Lemma shouldRun_cadence n rest lastRun now :
  (0 ≤ n ≤ 153722867)%Z → field_end rest →
  shouldRun ("*/" +:+ fmt_d n +:+ rest) lastRun now = true ↔
  lastRun = 0%Z ∨ (lastRun + n * Minute ≤ now)%Z.
Proof.
  intros Hn Hrest. pose proof (fmt_d_digits n (proj1 Hn)) as Hdig.
  destruct (Fields_head ("*/" +:+ fmt_d n) rest) as [l Hl]; [done| |done|].
  { rewrite str_bytes_app. apply Forall_app. split; [by repeat constructor|].
    eapply Forall_impl; [exact Hdig|]. apply digit_not_space. }
  rewrite sapp_assoc in Hl. unfold shouldRun. rewrite decide_False by done. rewrite Hl.
  rewrite HasPrefix_app, TrimPrefix_app.
  rewrite ParseInt_fmt_d by (unfold in64, minInt64, maxInt64; lia). cbn [negb].
  unfold IsZero. case_bool_decide as Hz; [by split; [left|]|].
  rewrite wrap64_id by (unfold in64, minInt64, maxInt64, Minute, Second; lia).
  unfold TimeSub, minInt64, maxInt64, Minute, Second. rewrite bool_decide_eq_true. lia.
Qed.

Section ticks.
Context {W : Type} (range : ∀ A, list A → list A) (range_perm : ∀ A (l : list A), range A l ≡ₚ l).

Lemma elem_of_checkJobs now (jobs : gmap string (syncJob (W := W))) name :
  name ∈ checkJobs range now jobs ↔ ∃ job, jobs !! name = Some job ∧ due now job.
Proof using range_perm.
  unfold checkJobs, entries. rewrite list_elem_of_fmap. split.
  - intros ([n job] & -> & [Hd Hin]%list_elem_of_filter). rewrite range_perm in Hin.
    apply elem_of_map_to_list in Hin. by exists job.
  - intros (job & Hl & Hd). exists (name, job). split; [done|]. apply list_elem_of_filter.
    split; [done|]. by rewrite range_perm, elem_of_map_to_list.
Qed.

(** A tick starts exactly the jobs that are due: a job with the schedule
    [*/N], with or without further fields, is started when it is idle, its mode
    is continuous, and it has not run yet or at least N minutes have passed
    since its last run ended, for every N whose minutes fit an int64 of
    nanoseconds; in whatever order the jobs are looked at. *)
Theorem tick_starts_due_jobs n rest now (jobs : gmap string (syncJob (W := W))) name job :
  (0 ≤ n ≤ 153722867)%Z → field_end rest →
  jobs !! name = Some job → ss_Schedule (sj_source job) = "*/" +:+ fmt_d n +:+ rest →
  name ∈ checkJobs range now jobs ↔
    sj_running job = false ∧ ss_Mode (sj_source job) = "continuous" ∧
    (sj_lastRun job = 0%Z ∨ (sj_lastRun job + n * Minute ≤ now)%Z).
Proof using range_perm.
  intros Hn Hrest Hl Hs. rewrite elem_of_checkJobs.
  pose proof (shouldRun_cadence n rest (sj_lastRun job) now Hn Hrest) as Hc. rewrite <-Hs in Hc.
  unfold due. rewrite <-Hc. rewrite Hl. naive_solver.
Qed.
End ticks.

Definition exTickJob : syncJob (W := unit) :=
  mkSyncJob (mkSyncSource "quay" "quay" "http://quay" "" "" "" [] [] "" "" false false "*/15 * * * *"
    "continuous" 2) (mkSyncClient (λ w, (Ok [], w)) (λ _ w, (Ok tt, w)) None) (1 + 5 * Minute) false None.

Lemma tick_starts_due_jobs_witness :
  "quay" ∈ checkJobs (λ _ l, l) (1 + 20 * Minute) {["quay" := exTickJob]} ∧
  "quay" ∉ checkJobs (λ _ l, l) (20 * Minute) {["quay" := exTickJob]}.
Proof.
  assert (field_end " * * * *") as Hf by (right; by exists " "%char, "* * * *").
  assert (∀ now, "quay" ∈ checkJobs (λ _ l, l) now {["quay" := exTickJob]} ↔
    sj_running exTickJob = false ∧ ss_Mode (sj_source exTickJob) = "continuous" ∧
    (sj_lastRun exTickJob = 0%Z ∨ (sj_lastRun exTickJob + 15 * Minute ≤ now)%Z)) as Hw.
  { intros now. apply (tick_starts_due_jobs (λ _ l, l) (λ _ l, reflexivity l) 15 " * * * *" now
      {["quay" := exTickJob]} "quay" exTickJob); [lia|done..]. }
  split; [apply Hw; simpl; split_and!; [done|done|right; lia]|].
  intros Hin%Hw. destruct Hin as (_ & _ & [Hz|Hz]); revert Hz; vm_compute; [done|].
  intros Hz. by apply Hz.
Defined.

(** Other cron schedules never run, and longer intervals overflow: the job is
    due on every tick. *)
Fact other_schedules_never_run :
  (λ s, shouldRun s 0 (Hour)) <$> ["0 * * * *"; "@hourly"; "* * * * *"; "0 */6 * * *"; "*/5,30 * * * *"]
  = [false; false; false; false; false].
Proof. by vm_compute. Qed.

Fact long_interval_always_runs :
  shouldRun "*/153722868 * * * *" (1 + Minute) (1 + 2 * Minute) = true.
Proof. by vm_compute. Qed.
End Scheduler.
