(* ===== verification/SchedulerSpec.v ===== *)
(** The scheduler of sync jobs: one run at a time, every run ends, and what the
    runs leave of the progress and of the stores. *)

From S2P Require Import Prelude Effect GoLib Mirror SyncClients Scheduler.

Module SchedulerSpec.
Import Sync Scheduler.

(** ** What a client promises *)

(** The repositories are counted by the run alone. *)
Definition repo_counts (p : Progress) : Z * Z * Z := (pg_TotalRepos p, pg_SyncedRepos p, pg_FailedRepos p).

Class SyncClientLaws {W} (c : SyncClient W) : Prop :=
  leaves_repo_counts repo w p : repo_counts (cl_SyncRepository c repo (w, p)).2.2 = repo_counts p.

Section system.
Context {W : Type} (range : ∀ A, list A → list A).

(** ** The invariant *)

(** What stays of a job: where it copies from and how. *)
Definition origin (job : syncJob (W := W)) : SyncSource * SyncClient W := (sj_source job, sj_client job).

(** How many repositories are counted at each point of a run. *)
Definition counted (ph : phase) (p : Progress) : Prop :=
  match ph with
  | Listing => repo_counts p = (0, 0, 0)%Z
  | Syncing todo => (pg_SyncedRepos p + pg_FailedRepos p + Z.of_nat (length todo) = pg_TotalRepos p)%Z
  | SyncingMetadata => (pg_SyncedRepos p + pg_FailedRepos p = pg_TotalRepos p)%Z
  | Ending => (pg_SyncedRepos p + pg_FailedRepos p ≤ pg_TotalRepos p)%Z
  end.

Definition names (runs : list Run) : list string := rn_name <$> runs.

(** The run of a job, and the job when it has none. *)
Definition job_ok (runs : list Run) (name : string) (job : syncJob (W := W)) : Prop :=
  (sj_running job = true ↔ name ∈ names runs) ∧
  (∀ p, sj_progress job = Some p → (pg_SyncedRepos p + pg_FailedRepos p ≤ pg_TotalRepos p)%Z) ∧
  (∀ run, run ∈ runs → rn_name run = name → ∃ p, sj_progress job = Some p ∧ counted (rn_phase run) p).

Record SystemOk (jobs0 : gmap string syncJob) (s : System (W := W)) : Prop := {
  ok_origin : origin <$> sy_jobs s = origin <$> jobs0;
  ok_one : NoDup (names (sy_runs s));
  ok_known : Forall (λ n, is_Some (sy_jobs s !! n)) (names (sy_runs s));
  ok_jobs : map_Forall (job_ok (sy_runs s)) (sy_jobs s)
}.

Lemma counted_bound ph p :
  counted ph p → (pg_SyncedRepos p + pg_FailedRepos p ≤ pg_TotalRepos p)%Z.
Proof. destruct ph; simpl; [intros [= -> -> ->]|..]; lia. Qed.

(** A call of a run keeps the count. *)
Lemma work_counted (c : SyncClient W) ph cancelled w p w' p' ph' :
  SyncClientLaws c → counted ph p → work c ph cancelled w p = Some (w', p', ph') → counted ph' p'.
Proof.
  intros Hc Hp. destruct ph as [|[|repo todo]| |]; cbn [work].
  - destruct (cl_ListRepositories c w) as [[repos|e|x] w1]; [| |done]; intros [= <- <- <-].
    + injection Hp as Ht Hs Hf. simpl. rewrite Hs, Hf. done.
    + by apply (counted_bound Listing).
  - intros [= <- <- <-]. simpl in Hp. destruct (cl_SyncMetadata c); simpl; lia.
  - destruct cancelled; [intros [= <- <- <-]; simpl in *; lia|].
    pose proof (leaves_repo_counts repo w p) as Hl.
    destruct (cl_SyncRepository c repo (w, p)) as [[u|e|x] [w1 p1]]; [..|done];
      injection Hl as Ht Hs Hf; intros [= <- <- <-]; simpl in *; lia.
  - destruct (cl_SyncMetadata c) as [m|]; [|intros [= <- <- <-]; simpl in *; lia].
    destruct (m w) as [[u|e|x] w1]; [..|done]; intros [= <- <- <-]; simpl in *; lia.
  - done.
Qed.

Lemma origin_alter f (name : string) (jobs : gmap string (syncJob (W := W))) :
  (∀ job, origin (f job) = origin job) → origin <$> alter f name jobs = origin <$> jobs.
Proof.
  intros Hf. apply map_eq. intros n. rewrite !lookup_fmap.
  destruct (decide (n = name)) as [->|Hn]; [|by rewrite lookup_alter_ne].
  rewrite lookup_alter_eq. by destruct (jobs !! name) as [job|]; simpl; [rewrite Hf|].
Qed.

(** The whole lock section is one update. *)
Definition started (now : Time) (job : syncJob (W := W)) : syncJob :=
  set_run true (sj_lastRun job) (Some (NewProgress now)) job.

Lemma begin_Some name now (jobs jobs' : gmap string (syncJob (W := W))) :
  begin name now jobs = Some jobs' →
  ∃ job, jobs !! name = Some job ∧ sj_running job = false ∧ jobs' = alter (started now) name jobs.
Proof.
  unfold begin. destruct (jobs !! name) as [job|] eqn:E; [|done].
  destruct (sj_running job) eqn:Er; [done|]. intros [= <-]. exists job. split_and!; [done..|].
  apply map_eq. intros n. destruct (decide (n = name)) as [->|Hn].
  - by rewrite lookup_alter_eq, lookup_insert_eq, E.
  - by rewrite lookup_alter_ne, lookup_insert_ne.
Qed.

Lemma names_mid l1 (run : Run) l2 : names (l1 ++ run :: l2) = names l1 ++ rn_name run :: names l2.
Proof. unfold names. by rewrite fmap_app. Qed.

Lemma elem_of_names (run : Run) runs : run ∈ runs → rn_name run ∈ names runs.
Proof. apply list_elem_of_fmap_2. Qed.

(** An action changes one job and its run, and nothing of the others. *)
Lemma update_ok jobs0 s name (f : syncJob → syncJob) spawned runs' w :
  SystemOk jobs0 s → (∀ job, origin (f job) = origin job) →
  NoDup (names runs') →
  (∀ run, rn_name run ≠ name → run ∈ runs' ↔ run ∈ sy_runs s) →
  (∀ job, sy_jobs s !! name = Some job → job_ok runs' name (f job)) →
  is_Some (sy_jobs s !! name) →
  SystemOk jobs0 (mkSystem (alter f name (sy_jobs s)) spawned runs' w).
Proof.
  intros [Ho H1 Hk Hj] Hf Hnd Hruns Hjob Hsome.
  assert (∀ n, n ≠ name → n ∈ names runs' ↔ n ∈ names (sy_runs s)) as Hnames.
  { intros n Hn. unfold names. rewrite !list_elem_of_fmap.
    split; intros (run & -> & Hr); exists run; (split; [done|]); by apply Hruns. }
  split; cbn [sy_jobs sy_runs].
  - by rewrite origin_alter.
  - done.
  - rewrite Forall_forall in *. intros n Hn. apply lookup_alter_is_Some.
    destruct (decide (n = name)) as [->|Hne]; [done|]. by apply Hk, Hnames.
  - intros n job. rewrite lookup_alter_Some. intros [(<- & job' & Hl & ->)|[Hne Hl]]; [auto|].
    destruct (Hj n job Hl) as (Hr & Hc & Hp). split; [by rewrite Hnames by done|]. split; [done|].
    intros run Hin <-. apply Hp; [|done]. by apply Hruns.
Qed.

Lemma begin_ok jobs0 s name now jobs spawned :
  SystemOk jobs0 s → begin name now (sy_jobs s) = Some jobs →
  SystemOk jobs0 (mkSystem jobs spawned (sy_runs s ++ [mkRun name Listing]) (sy_world s)).
Proof.
  intros Hs (job & Hl & Hr & ->)%begin_Some. pose proof (ok_jobs _ _ Hs _ _ Hl) as (Hrun & _ & _).
  assert (name ∉ names (sy_runs s)) as Hni by (rewrite <-Hrun; congruence).
  assert (names (sy_runs s ++ [mkRun name Listing]) = names (sy_runs s) ++ [name]) as En
    by apply names_mid.
  apply update_ok; [done|done|..].
  - rewrite En. apply NoDup_app. split; [apply (ok_one _ _ Hs)|].
    split; [intros n Hn ->%list_elem_of_singleton; done|apply NoDup_singleton].
  - intros run Hn. rewrite elem_of_app, list_elem_of_singleton. split; [|by left].
    intros [?| ->]; [done|]. by destruct Hn.
  - intros job' Hl'. split; [rewrite En; split; [|done]; intros _; set_solver|].
    split; [intros p [= <-]; done|]. intros run Hin Hn. exists (NewProgress now). split; [done|].
    apply elem_of_app in Hin as [Hin| ->%list_elem_of_singleton]; [|done].
    destruct Hni. rewrite <-Hn. by apply elem_of_names.
  - by exists job.
Qed.

(** The runs around one. *)
Lemma run_split jobs0 s i run :
  SystemOk jobs0 s → sy_runs s !! i = Some run →
  ∃ l1 l2, sy_runs s = l1 ++ run :: l2 ∧ i = length l1 ∧ rn_name run ∉ names (l1 ++ l2) ∧
    NoDup (names (l1 ++ l2)).
Proof.
  intros Hs (l1 & l2 & E & ->)%list_elem_of_split_length. exists l1, l2. split_and!; [done..| |].
  all: pose proof (ok_one _ _ Hs) as Hnd; rewrite E, names_mid, <-Permutation_middle in Hnd.
  all: unfold names; rewrite fmap_app; by apply NoDup_cons in Hnd as [? ?].
Qed.

Lemma work_ok jobs0 s i run job p cancelled w p' ph' :
  SystemOk jobs0 s → sy_runs s !! i = Some run → sy_jobs s !! rn_name run = Some job →
  sj_progress job = Some p → SyncClientLaws (sj_client job) →
  work (sj_client job) (rn_phase run) cancelled (sy_world s) p = Some (w, p', ph') →
  SystemOk jobs0 (mkSystem (set_progress (rn_name run) p' (sy_jobs s)) (sy_spawned s)
    (<[i := mkRun (rn_name run) ph']> (sy_runs s)) w).
Proof.
  intros Hs Hi Hl Hp Hc Hw. destruct (run_split jobs0 s i run Hs Hi) as (l1 & l2 & E & -> & Hni & Hnd).
  pose proof (ok_jobs _ _ Hs _ _ Hl) as (Hrun & _ & Hcount).
  destruct (Hcount run) as (q & Hq & Hcq); [rewrite E; set_solver|done|].
  assert (q = p) as -> by congruence. apply (work_counted _ _ _ _ _ _ _ _ Hc Hcq) in Hw.
  assert (<[length l1 := mkRun (rn_name run) ph']> (sy_runs s) = l1 ++ mkRun (rn_name run) ph' :: l2) as ->.
  { rewrite E, <-(Nat.add_0_r (length l1)). by rewrite insert_app_r. }
  assert (names (l1 ++ mkRun (rn_name run) ph' :: l2) = names (sy_runs s)) as En by by rewrite E, !names_mid.
  apply update_ok; [done|done|..].
  - rewrite En. apply (ok_one _ _ Hs).
  - intros run' Hne. rewrite E, !elem_of_app, !elem_of_cons.
    assert (run' ≠ run ∧ run' ≠ mkRun (rn_name run) ph') as [? ?] by (split; intros ->; by destruct Hne).
    naive_solver.
  - intros job' Hl'. assert (job' = job) as -> by congruence. split; [by rewrite En|].
    split; [intros p1 [= <-]; by eapply counted_bound|]. intros run' Hin Hn. exists p'. split; [done|].
    apply elem_of_app in Hin as [Hin|Hin]; [|apply elem_of_cons in Hin as [->|Hin]; [done|]].
    all: destruct Hni; rewrite <-Hn; apply elem_of_names; set_solver.
  - by exists job.
Qed.

Lemma finish_ok jobs0 s i run now :
  SystemOk jobs0 s → sy_runs s !! i = Some run →
  SystemOk jobs0 (mkSystem (finish (rn_name run) now (sy_jobs s)) (sy_spawned s)
    (delete i (sy_runs s)) (sy_world s)).
Proof.
  intros Hs Hi. destruct (run_split jobs0 s i run Hs Hi) as (l1 & l2 & E & -> & Hni & Hnd).
  rewrite E, delete_middle. apply update_ok; [done|done|done|..].
  - intros run' Hne. rewrite E, !elem_of_app, elem_of_cons.
    assert (run' ≠ run) by (intros ->; by destruct Hne). naive_solver.
  - intros job' Hl'. split; [split; [done|intros Hn; by destruct Hni]|].
    split; [apply (ok_jobs _ _ Hs _ _ Hl')|]. intros run' Hin Hn. destruct Hni. rewrite <-Hn.
    by apply elem_of_names.
  - pose proof (ok_known _ _ Hs) as Hk. rewrite Forall_forall in Hk. apply Hk, elem_of_names.
    rewrite E. set_solver.
Qed.

(** The same jobs, the same runs. *)
Lemma spawn_ok jobs0 s spawned :
  SystemOk jobs0 s → SystemOk jobs0 (mkSystem (sy_jobs s) spawned (sy_runs s) (sy_world s)).
Proof. by intros []. Qed.

(** The client of a job is the one it was made with. *)
Lemma job_client (P : SyncClient W → Prop) jobs0 s name job :
  map_Forall (λ _ job, P (sj_client job)) jobs0 → SystemOk jobs0 s → sy_jobs s !! name = Some job →
  P (sj_client job).
Proof.
  intros HP Hs Hl. pose proof (f_equal (.!! name) (ok_origin _ _ Hs)) as Ho.
  rewrite !lookup_fmap, Hl in Ho. destruct (jobs0 !! name) as [job0|] eqn:E0; [|done].
  injection Ho as _ Ho. rewrite Ho. by apply (HP _ _ E0).
Qed.

Lemma act_ok jobs0 a s s' :
  map_Forall (λ _ job, SyncClientLaws (sj_client job)) jobs0 →
  SystemOk jobs0 s → act range a s = Some s' → SystemOk jobs0 s'.
Proof.
  intros Hlaws Hs. destruct a as [now|name|i now|i cancelled|i now]; cbn [act].
  - intros [= <-]. by apply spawn_ok.
  - intros [= <-]. by apply spawn_ok.
  - destruct (sy_spawned s !! i) as [name|]; [|done]. simpl.
    destruct (begin name now (sy_jobs s)) as [jobs|] eqn:E; intros [= <-]; [by eapply begin_ok|by apply spawn_ok].
  - destruct (sy_runs s !! i) as [run|] eqn:Ei; [|done]. simpl.
    destruct (sy_jobs s !! rn_name run) as [job|] eqn:El; [|done]. simpl.
    destruct (sj_progress job) as [p|] eqn:Ep; [|done]. simpl.
    destruct (work _ _ _ _ _) as [[[w p'] ph']|] eqn:Ew; [|done]. intros [= <-].
    eapply work_ok; [done..| |done]. by eapply (job_client SyncClientLaws).
  - destruct (sy_runs s !! i) as [run|] eqn:Ei; [|done]. simpl.
    destruct (rn_phase run); [done..|]. intros [= <-]. by apply finish_ok.
Qed.

(** ** The beginning *)

Context (newClient : SyncSource → option (SyncClient W)).

(** The last source of the name whose type is known. *)
Definition configured (sources : list SyncSource) (name : string) : option syncJob :=
  last (omap (λ src, if decide (ss_Name src = name)
                     then c ← newClient src; Some (mkSyncJob src c 0 false None) else None) sources).

Lemma NewScheduler_spec sources name : NewScheduler newClient sources !! name = configured sources name.
Proof.
  unfold NewScheduler, configured. induction sources as [|src sources IH] using rev_ind; [done|].
  rewrite foldl_app, omap_app. cbn [foldl omap list_omap].
  destruct (newClient src) as [c|] eqn:E; simpl.
  - case_decide as Hn; simpl.
    + by rewrite last_snoc, <-Hn, lookup_insert_eq.
    + by rewrite app_nil_r, lookup_insert_ne.
  - case_decide; by rewrite app_nil_r.
Qed.

Lemma configured_Some sources name job :
  configured sources name = Some job →
  ∃ src c, src ∈ sources ∧ ss_Name src = name ∧ newClient src = Some c ∧ job = mkSyncJob src c 0 false None.
Proof.
  intros Hl%last_Some_elem_of. apply list_elem_of_omap in Hl as (src & Hin & Hs).
  case_decide as Hn; [|done]. destruct (newClient src) as [c|] eqn:E; [|done]. injection Hs as <-.
  by exists src, c.
Qed.

Lemma scheduler_Start_ok sources w :
  SystemOk (NewScheduler newClient sources) (Start range (NewScheduler newClient sources) w).
Proof.
  split; [done|constructor|constructor|]. intros name job Hl.
  cbn [sy_jobs Start] in Hl. rewrite NewScheduler_spec in Hl.
  apply configured_Some in Hl as (src & c & _ & _ & _ & ->).
  split; [by split; [|intros ?%elem_of_nil]|]. split; [done|]. intros run Hin. by apply elem_of_nil in Hin.
Qed.

Lemma reaches_ok sources w acts s :
  (∀ src c, newClient src = Some c → SyncClientLaws c) →
  reaches range (Start range (NewScheduler newClient sources) w) acts = Some s →
  SystemOk (NewScheduler newClient sources) s.
Proof.
  intros Hlaws. unfold reaches. apply foldl_option_inv; [|apply scheduler_Start_ok].
  intros a s1 s2. apply act_ok. intros name job Hl.
  rewrite NewScheduler_spec in Hl. apply configured_Some in Hl as (src & c & _ & _ & Hc & ->).
  by apply (Hlaws src).
Qed.

Lemma ok_lookup jobs0 s name : SystemOk jobs0 s → sy_jobs s !! name = None ↔ jobs0 !! name = None.
Proof.
  intros Hs. pose proof (f_equal (.!! name) (ok_origin _ _ Hs)) as Ho. rewrite !lookup_fmap in Ho.
  by destruct (sy_jobs s !! name), (jobs0 !! name).
Qed.

(** C20 A sync job has one run at a time, and what the scheduler answers about
    it is true: in every state that ticks, triggers and the steps of the runs
    can reach, in any order and whatever the clients' calls do, no two runs
    are of the same job; a trigger is refused exactly when the job is not
    configured or is running; and a job's status says running exactly when it
    has a run, with at most as many repositories counted as synced or failed
    as were listed. *)
Theorem one_run_at_a_time sources w acts s :
  (∀ src c, newClient src = Some c → SyncClientLaws c) →
  reaches range (Start range (NewScheduler newClient sources) w) acts = Some s →
  NoDup (names (sy_runs s)) ∧
  (∀ name, TriggerSync (sy_jobs s) name =
     match configured sources name with
     | None => Err ErrJobNotFound
     | Some _ => if decide (name ∈ names (sy_runs s)) then Err ErrJobRunning else Ok tt
     end) ∧
  (∀ name st, GetJobStatus (sy_jobs s) name = Ok st →
     (js_Running st = true ↔ name ∈ names (sy_runs s)) ∧
     ∀ p, js_Progress st = Some p → (pg_SyncedRepos p + pg_FailedRepos p ≤ pg_TotalRepos p)%Z).
Proof.
  intros Hlaws Hr. pose proof (reaches_ok _ _ _ _ Hlaws Hr) as Hs. clear Hr.
  split; [apply (ok_one _ _ Hs)|]. split.
  - intros name. unfold TriggerSync. rewrite <-NewScheduler_spec.
    pose proof (ok_lookup _ _ name Hs) as Hn.
    destruct (sy_jobs s !! name) as [job|] eqn:El; [|by rewrite (proj1 Hn)].
    destruct (NewScheduler newClient sources !! name); [|by destruct Hn as [_ Hn]; specialize (Hn eq_refl)].
    destruct (ok_jobs _ _ Hs _ _ El) as (Hrun & _ & _).
    destruct (sj_running job); case_decide as Hin; try done; [by destruct Hin; apply Hrun|by apply Hrun in Hin].
  - intros name st. unfold GetJobStatus. destruct (sy_jobs s !! name) as [job|] eqn:El; [|done].
    intros [= <-]. destruct (ok_jobs _ _ Hs _ _ El) as (Hrun & Hp & _). by split.
Qed.

(** ** One run *)

(** The actions of the run at place [i]. *)
Definition of_run (i : nat) (a : action) : Prop :=
  match a with AWork j _ | AEnd j _ => j = i | _ => False end.

Lemma reaches_cons (s s' : System (W := W)) a acts :
  act range a s = Some s' → reaches range s (a :: acts) = reaches range s' acts.
Proof. intros Ha. unfold reaches. simpl. by rewrite Ha. Qed.

Lemma reaches_app (s s' : System (W := W)) acts acts' :
  reaches range s acts = Some s' → reaches range s (acts ++ acts') = reaches range s' acts'.
Proof. intros Ha. unfold reaches in *. by rewrite foldl_app, Ha. Qed.

(** The state with a run at the end, in a phase, with its progress. *)
Definition running (jobs : gmap string syncJob) spawned runs name ph (w : W) : System :=
  mkSystem jobs spawned (runs ++ [mkRun name ph]) w.

Lemma act_work jobs spawned runs name ph w job p cancelled w' p' ph' :
  jobs !! name = Some job → sj_progress job = Some p →
  work (sj_client job) ph cancelled w p = Some (w', p', ph') →
  act range (AWork (length runs) cancelled) (running jobs spawned runs name ph w) =
    Some (running (set_progress name p' jobs) spawned runs name ph' w').
Proof.
  intros Hl Hp Hw. unfold running. cbn [act sy_runs sy_jobs sy_world sy_spawned].
  rewrite list_lookup_middle by done. cbn [mbind option_bind rn_name]. rewrite Hl.
  cbn [mbind option_bind]. rewrite Hp. cbn [mbind option_bind rn_phase]. rewrite Hw.
  cbn [mbind option_bind]. rewrite <-(Nat.add_0_r (length runs)) at 1. by rewrite insert_app_r.
Qed.

Lemma set_progress_twice name p1 p2 (jobs : gmap string (syncJob (W := W))) :
  set_progress name p2 (set_progress name p1 jobs) = set_progress name p2 jobs.
Proof.
  apply map_eq. intros n. unfold set_progress. destruct (decide (n = name)) as [->|Hn].
  - rewrite !lookup_alter_eq. by destruct (jobs !! name).
  - by rewrite !lookup_alter_ne.
Qed.

Lemma set_progress_lookup name p (jobs : gmap string (syncJob (W := W))) job :
  jobs !! name = Some job → set_progress name p jobs !! name = Some (set_run (sj_running job) (sj_lastRun job) (Some p) job).
Proof. intros Hl. unfold set_progress. by rewrite lookup_alter_eq, Hl. Qed.

Lemma set_progress_id name p (jobs : gmap string (syncJob (W := W))) job :
  jobs !! name = Some job → sj_progress job = Some p → set_progress name p jobs = jobs.
Proof.
  intros Hl Hp. apply alter_id. intros job' Hl'. assert (job' = job) as -> by congruence.
  destruct job. simpl in Hp. by subst.
Qed.

(** From a phase of the run of [name] to another, by steps of its own. *)
Definition goes spawned runs name jobs ph w (p' : Progress) ph' w' : Prop :=
  ∃ acts, Forall (of_run (length runs)) acts ∧
    reaches range (running jobs spawned runs name ph w) acts =
      Some (running (set_progress name p' jobs) spawned runs name ph' w').

Lemma goes_work spawned runs name jobs ph w job p cancelled w' p' ph' :
  jobs !! name = Some job → sj_progress job = Some p →
  work (sj_client job) ph cancelled w p = Some (w', p', ph') →
  goes spawned runs name jobs ph w p' ph' w'.
Proof.
  intros Hl Hp Hw. exists [AWork (length runs) cancelled]. split; [by repeat constructor|].
  erewrite reaches_cons; [done|]. by eapply act_work.
Qed.

Lemma goes_trans spawned runs name jobs ph w p1 ph1 w1 p2 ph2 w2 :
  goes spawned runs name jobs ph w p1 ph1 w1 →
  goes spawned runs name (set_progress name p1 jobs) ph1 w1 p2 ph2 w2 →
  goes spawned runs name jobs ph w p2 ph2 w2.
Proof.
  intros (a1 & Ho1 & H1) (a2 & Ho2 & H2). exists (a1 ++ a2). split; [by apply Forall_app|].
  rewrite (reaches_app _ _ _ _ H1), H2. by rewrite set_progress_twice.
Qed.

Lemma syncRepos_goes spawned runs name job todo : ∀ jobs cancelled w p w' p' ph',
  jobs !! name = Some job → sj_progress job = Some p →
  syncRepos (sj_client job) cancelled todo w p = Some (w', p', ph') →
  goes spawned runs name jobs (Syncing todo) w p' ph' w'.
Proof.
  revert job. induction todo as [|repo todo IH]; intros job jobs cancelled w p w' p' ph' Hl Hp Hs.
  { by eapply (goes_work _ _ _ _ _ _ _ _ false). }
  cbn [syncRepos] in Hs.
  destruct (work (sj_client job) (Syncing (repo :: todo)) (cancelled 0) w p)
    as [[[w1 p1] ph1]|] eqn:Hw; [|done].
  cbn [mbind option_bind] in Hs. pose proof (goes_work spawned runs name jobs _ _ _ _ _ _ _ _ Hl Hp Hw) as Hg.
  destruct ph1 as [|todo1| |].
  1,3,4: injection Hs as <- <- <-; exact Hg.
  assert (todo1 = todo) as ->.
  { revert Hw. simpl. destruct (cancelled 0); [done|].
    destruct (cl_SyncRepository _ _ _) as [[u|e|x] [? ?]]; [..|done]; by intros [= _ _ ->]. }
  eapply goes_trans; [exact Hg|].
  apply (IH (set_run (sj_running job) (sj_lastRun job) (Some p1) job) (set_progress name p1 jobs)
    (λ n, cancelled (S n)) w1 p1); [by apply set_progress_lookup|done|exact Hs].
Qed.

Lemma syncRepos_phase (c : SyncClient W) todo : ∀ cancelled w p w' p' ph',
  syncRepos c cancelled todo w p = Some (w', p', ph') → ph' = SyncingMetadata ∨ ph' = Ending.
Proof.
  induction todo as [|repo todo IH]; intros cancelled w p w' p' ph'; simpl.
  { destruct (cl_SyncMetadata c); intros [= _ _ <-]; auto. }
  destruct (cancelled 0); simpl; [intros [= _ _ <-]; auto|].
  destruct (cl_SyncRepository _ _ _) as [[u|e|x] [? ?]]; simpl; [apply IH..|done].
Qed.

Lemma work_metadata (c : SyncClient W) cancelled w p w' p' ph' :
  work c SyncingMetadata cancelled w p = Some (w', p', ph') → p' = p ∧ ph' = Ending.
Proof.
  simpl. destruct (cl_SyncMetadata c) as [m|]; [|intros [= _ <- <-]; done].
  destruct (m w) as [[?|?|?] ?]; by intros [= _ <- <-].
Qed.

Lemma runCalls_goes spawned runs name jobs job cancelled w p w' p' :
  jobs !! name = Some job → sj_progress job = Some p →
  runCalls (sj_client job) cancelled w p = Some (w', p') →
  goes spawned runs name jobs Listing w p' Ending w'.
Proof.
  intros Hl Hp. unfold runCalls.
  destruct (work (sj_client job) Listing false w p) as [[[w1 p1] ph1]|] eqn:Hw; [|done].
  cbn [mbind option_bind]. pose proof (goes_work spawned runs name jobs _ _ _ _ _ _ _ _ Hl Hp Hw) as Hg.
  pose proof (set_progress_lookup name p1 jobs job Hl) as Hl1.
  assert ((∃ todo, ph1 = Syncing todo) ∨ ph1 = Ending) as [[todo ->]| ->].
  { revert Hw. simpl. destruct (cl_ListRepositories _ _) as [[?|?|?] ?]; [..|done];
      intros [= _ _ <-]; eauto. }
  2:{ cbn [mbind option_bind]. by intros [= <- <-]. }
  destruct (syncRepos (sj_client job) cancelled todo w1 p1) as [[[w2 p2] ph2]|] eqn:Hs; [|done].
  cbn [mbind option_bind].
  pose proof (syncRepos_goes spawned runs name (set_run (sj_running job) (sj_lastRun job) (Some p1) job) todo
    (set_progress name p1 jobs) cancelled w1 p1 w2 p2 ph2 Hl1 eq_refl Hs) as Hg2.
  pose proof (goes_trans _ _ _ _ _ _ _ _ _ _ _ _ Hg Hg2) as Hg'.
  apply syncRepos_phase in Hs as [-> | ->]; [|by intros [= <- <-]].
  destruct (work (sj_client job) SyncingMetadata false w2 p2) as [[[w3 p3] ph3]|] eqn:Hm; [|done].
  intros [= <- <-]. eapply goes_trans; [exact Hg'|].
  pose proof (work_metadata _ _ _ _ _ _ _ Hm) as [_ ->].
  eapply (goes_work _ _ _ _ _ _ (set_run _ _ (Some p2) job)); [by apply set_progress_lookup|done|exact Hm].
Qed.

(** The scheduler's system is made of whole runs of [runJob]: what [runJob]
    does by itself, from the lock to the deferred end, the system does with
    one start of the job and then steps of that run alone, whatever other runs
    are in progress; they are left as they were. *)
Theorem runJob_refines name now1 now2 cancelled i (s : System (W := W)) jobs' w' :
  sy_spawned s !! i = Some name →
  runJob name now1 now2 cancelled (sy_jobs s) (sy_world s) = Some (jobs', w') →
  ∃ acts, Forall (of_run (length (sy_runs s))) acts ∧
    reaches range s (ABegin i now1 :: acts) =
      Some (mkSystem jobs' (delete i (sy_spawned s)) (sy_runs s) w').
Proof.
  intros Hi. unfold runJob. destruct (begin name now1 (sy_jobs s)) as [jobs|] eqn:Hb.
  2:{ intros [= <- <-]. exists []. split; [done|]. erewrite reaches_cons; [done|].
      cbn [act]. rewrite Hi. cbn [mbind option_bind]. by rewrite Hb. }
  pose proof (begin_Some _ _ _ _ Hb) as (job0 & Hl0 & _ & Ej).
  assert (jobs !! name = Some (started now1 job0)) as Hl by by rewrite Ej, lookup_alter_eq, Hl0.
  rewrite Hl. cbn [mbind option_bind sj_progress started set_run].
  destruct (runCalls (sj_client (started now1 job0)) cancelled (sy_world s) (NewProgress now1))
    as [[w2 p2]|] eqn:Hc; [|done]. cbn [mbind option_bind]. intros [= <- <-].
  destruct (runCalls_goes (delete i (sy_spawned s)) (sy_runs s) name jobs _ _ _ _ _ _ Hl eq_refl Hc)
    as (acts & Ho & Hacts).
  exists (acts ++ [AEnd (length (sy_runs s)) now2]). split; [apply Forall_app; split; [done|by repeat constructor]|].
  erewrite reaches_cons; [|cbn [act]; rewrite Hi; cbn [mbind option_bind]; by rewrite Hb].
  rewrite (reaches_app _ _ _ _ Hacts). unfold reaches. simpl. unfold running. cbn [sy_runs].
  rewrite list_lookup_middle by done. cbn [mbind option_bind rn_phase rn_name sy_jobs sy_spawned sy_world].
  pose proof (delete_middle (sy_runs s) [] (mkRun name Ending)) as Ed. rewrite app_nil_r in Ed.
  by rewrite Ed.
Qed.

(** What is left of a run, once its repositories are listed. *)
Definition left_of (ph : phase) : nat :=
  match ph with Listing | Ending => 0 | SyncingMetadata => 1 | Syncing todo => 2 + length todo end.

Lemma work_less (c : SyncClient W) ph cancelled w p w' p' ph' :
  ph ≠ Listing → work c ph cancelled w p = Some (w', p', ph') → ph' ≠ Listing ∧ left_of ph' < left_of ph.
Proof.
  destruct ph as [|[|repo todo]| |]; simpl; [done|..].
  - intros _ [= _ _ <-]. destruct (cl_SyncMetadata c); simpl; split; (done || lia).
  - intros _. destruct cancelled; [intros [= _ _ <-]; simpl; split; (done || lia)|].
    destruct (cl_SyncRepository _ _ _) as [[?|?|?] [? ?]]; [..|done];
      intros [= _ _ <-]; simpl; split; (done || lia).
  - intros _. destruct (cl_SyncMetadata c) as [m|]; [destruct (m w) as [[?|?|?] ?]|]; try done;
      intros [= _ _ <-]; simpl; split; (done || lia).
  - done.
Qed.

(** The next call of the run at [i] panics. *)
Definition call_panics (s : System (W := W)) (i : nat) : Prop :=
  ∃ run job p, sy_runs s !! i = Some run ∧ sy_jobs s !! rn_name run = Some job ∧
    sj_progress job = Some p ∧ rn_phase run ≠ Ending ∧
    work (sj_client job) (rn_phase run) false (sy_world s) p = None.

(** The run has ended at a time. *)
Definition ended (s s' : System (W := W)) (i : nat) (name : string) (now : Time) : Prop :=
  sy_runs s' = delete i (sy_runs s) ∧ (∀ n, n ≠ name → sy_jobs s' !! n = sy_jobs s !! n) ∧
  ∃ job, sy_jobs s' !! name = Some job ∧ sj_running job = false ∧ sj_lastRun job = now.

Definition ends (s : System (W := W)) (i : nat) (name : string) (now : Time) : Prop :=
  ∃ acts s', Forall (of_run i) acts ∧ reaches range s acts = Some s' ∧
    (ended s s' i name now ∨ call_panics s' i).

Lemma ok_run jobs0 s i run :
  SystemOk jobs0 s → sy_runs s !! i = Some run →
  ∃ job p, sy_jobs s !! rn_name run = Some job ∧ sj_progress job = Some p.
Proof.
  intros Hs Hi. pose proof (ok_known _ _ Hs) as Hk. rewrite Forall_forall in Hk.
  assert (run ∈ sy_runs s) as Hin by by eapply list_elem_of_lookup_2.
  destruct (Hk (rn_name run)) as [job Hl]; [by apply elem_of_names|].
  destruct (ok_jobs _ _ Hs _ _ Hl) as (_ & _ & Hp). destruct (Hp run Hin eq_refl) as (p & ? & _).
  by exists job, p.
Qed.

Lemma delete_insert_at {A} (i : nat) (x : A) (l : list A) : delete i (<[i:=x]> l) = delete i l.
Proof. revert i. induction l as [|y l IH]; intros [|i]; simpl; [done..|]. f_equal. apply IH. Qed.

Lemma ends_step jobs0 s i run now :
  map_Forall (λ _ job, SyncClientLaws (sj_client job)) jobs0 → SystemOk jobs0 s →
  sy_runs s !! i = Some run → rn_phase run ≠ Ending →
  (∀ s' job p w p' ph', SystemOk jobs0 s' → sy_runs s' !! i = Some (mkRun (rn_name run) ph') →
     work (sj_client job) (rn_phase run) false w p = Some (sy_world s', p', ph') →
     ends s' i (rn_name run) now) →
  ends s i (rn_name run) now.
Proof.
  intros Hlaws Hs Hi Hph Hnext. destruct (ok_run _ _ _ _ Hs Hi) as (job & p & Hl & Hp).
  destruct (work (sj_client job) (rn_phase run) false (sy_world s) p) as [[[w' p'] ph']|] eqn:Hw.
  2:{ exists [], s. split; [done|]. split; [done|]. right. by exists run, job, p. }
  assert (act range (AWork i false) s = Some (mkSystem (set_progress (rn_name run) p' (sy_jobs s))
    (sy_spawned s) (<[i := mkRun (rn_name run) ph']> (sy_runs s)) w')) as Ha.
  { cbn [act]. rewrite Hi. cbn [mbind option_bind]. rewrite Hl. cbn [mbind option_bind]. rewrite Hp.
    cbn [mbind option_bind]. by rewrite Hw. }
  pose proof (act_ok _ _ _ _ Hlaws Hs Ha) as Hs'. set (s' := mkSystem _ _ _ _) in *.
  destruct (Hnext s' job p (sy_world s) p' ph' Hs') as (acts & s2 & Ho & Hr & Hend).
  - apply list_lookup_insert_eq. by eapply lookup_lt_Some.
  - done.
  - exists (AWork i false :: acts), s2. split; [by constructor|].
    split; [by rewrite (reaches_cons _ _ _ _ Ha)|]. destruct Hend as [(Hruns & Hoth & Hj)|?]; [left|by right].
    split; [rewrite Hruns; cbn [s' sy_runs]|split; [|done]].
    + apply delete_insert_at.
    + intros n Hn. rewrite Hoth by done. cbn [s' sy_jobs]. by apply lookup_alter_ne.
Qed.

Lemma ends_ending jobs0 s i run now :
  SystemOk jobs0 s → sy_runs s !! i = Some run → rn_phase run = Ending → ends s i (rn_name run) now.
Proof.
  intros Hs Hi Hph. destruct (ok_run _ _ _ _ Hs Hi) as (job & p & Hl & Hp).
  exists [AEnd i now], (mkSystem (finish (rn_name run) now (sy_jobs s)) (sy_spawned s)
    (delete i (sy_runs s)) (sy_world s)).
  split; [by repeat constructor|]. split; [unfold reaches; simpl; rewrite Hi; simpl; by rewrite Hph|].
  left. split; [done|]. cbn [sy_jobs]. unfold finish.
  split; [intros n Hn; by apply lookup_alter_ne|]. rewrite lookup_alter_eq, Hl. by eexists.
Qed.

Lemma ends_ok jobs0 s i run now :
  map_Forall (λ _ job, SyncClientLaws (sj_client job)) jobs0 → SystemOk jobs0 s →
  sy_runs s !! i = Some run → ends s i (rn_name run) now.
Proof.
  intros Hlaws Hs Hi.
  assert (∀ n s run, SystemOk jobs0 s → sy_runs s !! i = Some run → rn_phase run ≠ Listing →
    left_of (rn_phase run) < n → ends s i (rn_name run) now) as Hgo.
  { clear s run Hs Hi. induction n as [|n IH]; intros s run Hs Hi Hnl Hn; [lia|].
    destruct (decide (rn_phase run = Ending)) as [He|He]; [by eapply ends_ending|].
    eapply ends_step; [done..|]. intros s' job p w p' ph' Hs' Hi' Hw.
    apply work_less in Hw as [? ?]; [|done]. apply (IH s' (mkRun (rn_name run) ph')); [done..|simpl; lia]. }
  destruct (rn_phase run) as [|todo| |] eqn:Hph.
  2-4: by apply (Hgo (S (left_of (rn_phase run)))); rewrite ?Hph; [..|lia].
  eapply ends_step; [done..|by rewrite Hph|]. intros s' job p w p' ph' Hs' Hi' Hw.
  eapply (Hgo _ s' (mkRun (rn_name run) ph')); [done..| |apply Nat.lt_succ_diag_r].
  rewrite Hph in Hw. revert Hw. simpl. destruct (cl_ListRepositories _ _) as [[?|?|?] ?]; [..|done];
    by intros [= _ _ <-].
Qed.

(** C34 Every run ends: from every state the scheduler can reach, each run, by
    a finite number of steps of its own, comes to its deferred end, where its
    job is idle again with that time as its last run, and every other job and
    run is as it was; or it comes to a call that panics, which ends the
    process. *)
Theorem every_run_ends sources w acts s i run now :
  (∀ src c, newClient src = Some c → SyncClientLaws c) →
  reaches range (Start range (NewScheduler newClient sources) w) acts = Some s →
  sy_runs s !! i = Some run →
  ∃ acts' s', Forall (of_run i) acts' ∧ reaches range s acts' = Some s' ∧
    (ended s s' i (rn_name run) now ∨ call_panics s' i).
Proof.
  intros Hlaws Hr Hi. apply (ends_ok (NewScheduler newClient sources)); [|by eapply reaches_ok|done].
  intros name job Hl. rewrite NewScheduler_spec in Hl.
  apply configured_Some in Hl as (src & c & _ & _ & Hc & ->). by apply (Hlaws src).
Qed.

(** ** The result of a run *)

Lemma syncRepos_counted (c : SyncClient W) todo : ∀ cancelled w p w' p' ph',
  SyncClientLaws c → counted (Syncing todo) p →
  syncRepos c cancelled todo w p = Some (w', p', ph') →
  counted ph' p' ∧ ((∀ n, cancelled n = false) → counted SyncingMetadata p' ∧ pg_TotalRepos p' = pg_TotalRepos p).
Proof.
  induction todo as [|repo todo IH]; intros cancelled w p w' p' ph' Hc Hp.
  - cbn [syncRepos]. intros Hw. split; [by eapply work_counted|]. intros _. revert Hw. simpl.
    intros [= _ <- _]. simpl in Hp. split; [lia|done].
  - cbn [syncRepos].
    destruct (work c (Syncing (repo :: todo)) (cancelled 0) w p) as [[[w1 p1] ph1]|] eqn:Hw; [|done].
    cbn [mbind option_bind]. pose proof (work_counted _ _ _ _ _ _ _ _ Hc Hp Hw) as Hp1.
    revert Hw. simpl. destruct (cancelled 0) eqn:E0.
    + intros [= <- <- <-]. intros [= <- <- <-]. split; [done|]. intros Hn. by rewrite Hn in E0.
    + pose proof (leaves_repo_counts repo w p) as Hl.
      destruct (cl_SyncRepository c repo (w, p)) as [[u|e|x] [w2 p2]]; [..|done];
        injection Hl as Ht _ _; intros [= <- <- <-] Hs;
        destruct (IH _ _ _ _ _ _ Hc Hp1 Hs) as [? Hall]; (split; [done|]); intros Hn;
        (destruct Hall as [? Hall]; [intros n; apply Hn|]); (split; [done|]); rewrite Hall; exact Ht.
Qed.

Lemma runCalls_counted (c : SyncClient W) cancelled w p w' p' :
  SyncClientLaws c → counted Listing p → runCalls c cancelled w p = Some (w', p') →
  counted Ending p' ∧
  ((∀ n, cancelled n = false) → ∀ repos w1, cl_ListRepositories c w = (Ok repos, w1) →
     (pg_SyncedRepos p' + pg_FailedRepos p' = Z.of_nat (length repos))%Z ∧
     pg_TotalRepos p' = Z.of_nat (length repos)).
Proof.
  intros Hc Hp. unfold runCalls.
  destruct (work c Listing false w p) as [[[w1 p1] ph1]|] eqn:Hw; [|done].
  cbn [mbind option_bind]. pose proof (work_counted _ _ _ _ _ _ _ _ Hc Hp Hw) as Hp1.
  simpl in Hw. destruct (cl_ListRepositories c w) as [[repos|e|x] w2]; [| |done].
  2:{ injection Hw as <- <- <-. cbn [mbind option_bind]. by intros [= <- <-]. }
  injection Hw as <- <- <-. cbn [mbind option_bind].
  destruct (syncRepos c cancelled repos w2 _) as [[[w3 p3] ph3]|] eqn:Hs; [|done].
  cbn [mbind option_bind]. destruct (syncRepos_counted _ _ _ _ _ _ _ _ Hc Hp1 Hs) as [Hp3 Hall].
  assert (p' = p3 → counted Ending p' ∧ ((∀ n, cancelled n = false) → ∀ repos0 w1',
    (@Ok (list string) repos, w2) = (Ok repos0, w1') →
    (pg_SyncedRepos p' + pg_FailedRepos p' = Z.of_nat (length repos0))%Z ∧
    pg_TotalRepos p' = Z.of_nat (length repos0))) as Hdone.
  { intros ->. split; [by eapply counted_bound|]. intros Hn repos0 w1' [= <- _].
    destruct (Hall Hn) as [Hsum Ht]. simpl in Hsum, Ht. by rewrite <-Ht. }
  apply syncRepos_phase in Hs as [-> | ->]; [|by intros [= _ <-]; apply Hdone].
  destruct (work c SyncingMetadata false w3 p3) as [[[w4 p4] ph4]|] eqn:Hm; [|done].
  apply work_metadata in Hm as [-> _]. cbn [mbind option_bind]. intros [= _ <-]. by apply Hdone.
Qed.

(** What a run leaves behind: when [runJob] returns for an idle job, the
    job is idle, its last run is the time of the deferred function, every
    other job is as it was, and its progress has at most the listed
    repositories counted; all of them, each as synced or as failed, when the
    listing succeeds and the context is not cancelled. *)
Theorem runJob_outcome name now1 now2 cancelled jobs w jobs' w' (job : syncJob (W := W)) :
  SyncClientLaws (sj_client job) → jobs !! name = Some job → sj_running job = false →
  runJob name now1 now2 cancelled jobs w = Some (jobs', w') →
  ∃ p, jobs' = <[name := mkSyncJob (sj_source job) (sj_client job) now2 false (Some p)]> jobs ∧
    (pg_SyncedRepos p + pg_FailedRepos p ≤ pg_TotalRepos p)%Z ∧
    ((∀ n, cancelled n = false) → ∀ repos w1, cl_ListRepositories (sj_client job) w = (Ok repos, w1) →
       (pg_SyncedRepos p + pg_FailedRepos p = Z.of_nat (length repos))%Z ∧
       pg_TotalRepos p = Z.of_nat (length repos)).
Proof.
  intros Hc Hl Hr. unfold runJob, begin. rewrite Hl, Hr. rewrite lookup_insert_eq.
  cbn [mbind option_bind sj_progress set_run sj_client sj_source].
  destruct (runCalls (sj_client job) cancelled w (NewProgress now1)) as [[w2 p]|] eqn:Hcalls; [|done].
  cbn [mbind option_bind]. intros [= <- <-]. exists p.
  split; [|by eapply runCalls_counted; [exact Hc| |exact Hcalls]].
  apply map_eq. intros n. unfold finish, set_progress. destruct (decide (n = name)) as [->|Hn].
  - by rewrite !lookup_alter_eq, !lookup_insert_eq.
  - by rewrite !lookup_alter_ne, !lookup_insert_ne.
Qed.

(** ** What the runs leave of the stores *)

(** [I] holds of the stores whatever a client does, as long as the
    repositories are in [G]; and those it lists are. *)
Class KeepsStores (I : W → Prop) (G : string → Prop) (c : SyncClient W) : Prop := {
  list_keeps : keeps I (cl_ListRepositories c);
  list_good w repos : I w → (cl_ListRepositories c w).1 = Ok repos → Forall G repos;
  sync_keeps repo : G repo → keeps (λ s, I s.1) (cl_SyncRepository c repo);
  metadata_keeps m : cl_SyncMetadata c = Some m → keeps I m
}.

Definition todo_ok (G : string → Prop) (ph : phase) : Prop :=
  match ph with Syncing todo => Forall G todo | _ => True end.

Definition stores_ok (I : W → Prop) (G : string → Prop) (s : System) : Prop :=
  I (sy_world s) ∧ Forall (λ run, todo_ok G (rn_phase run)) (sy_runs s).

Lemma work_keeps I G (c : SyncClient W) ph cancelled w p w' p' ph' :
  KeepsStores I G c → I w → todo_ok G ph → work c ph cancelled w p = Some (w', p', ph') →
  I w' ∧ todo_ok G ph'.
Proof.
  intros Hc Hw Hph. destruct ph as [|[|repo todo]| |]; cbn [work].
  - pose proof (list_keeps w Hw) as Hk. pose proof (λ repos, list_good w repos Hw) as Hg.
    destruct (cl_ListRepositories c w) as [[repos|e|x] w1]; [..|done]; intros [= <- _ <-];
      (split; [exact Hk|]); [by apply Hg|done].
  - intros [= <- _ <-]. split; [done|]. by destruct (cl_SyncMetadata c).
  - apply Forall_cons in Hph as [Hr Ht]. destruct cancelled; [by intros [= <- _ <-]|].
    pose proof (sync_keeps repo Hr (w, p) Hw) as Hk.
    destruct (cl_SyncRepository c repo (w, p)) as [[u|e|x] [w1 p1]]; [..|done]; intros [= <- _ <-];
      by split.
  - destruct (cl_SyncMetadata c) as [m|] eqn:Em; [|by intros [= <- _ <-]].
    pose proof (metadata_keeps m Em w Hw) as Hk.
    destruct (m w) as [[u|e|x] w1]; [..|done]; intros [= <- _ <-]; by split.
  - done.
Qed.

Lemma Forall_delete {A} (P : A → Prop) i l : Forall P l → Forall P (delete i l).
Proof.
  rewrite !Forall_forall. intros Hl x Hx. apply Hl. clear Hl. revert i Hx.
  induction l as [|y l IH]; intros [|i]; simpl; [done..| |].
  - by right.
  - rewrite !elem_of_cons. intros [->|Hx]; [by left|right; by eapply IH].
Qed.

Lemma act_keeps I G jobs0 a s s' :
  map_Forall (λ _ job, KeepsStores I G (sj_client job)) jobs0 → SystemOk jobs0 s →
  stores_ok I G s → act range a s = Some s' → stores_ok I G s'.
Proof.
  intros Hcl Hs [HI HG]. destruct a as [now|name|i now|i cancelled|i now]; cbn [act].
  - by intros [= <-].
  - by intros [= <-].
  - destruct (sy_spawned s !! i) as [name|]; [|done]. simpl.
    destruct (begin name now (sy_jobs s)) as [jobs|] eqn:E; intros [= <-]; split; [done| |done|done].
    apply Forall_app. split; [done|]. by repeat constructor.
  - destruct (sy_runs s !! i) as [run|] eqn:Ei; [|done]. simpl.
    destruct (sy_jobs s !! rn_name run) as [job|] eqn:El; [|done]. simpl.
    destruct (sj_progress job) as [p|] eqn:Ep; [|done]. simpl.
    destruct (work _ _ _ _ _) as [[[w p'] ph']|] eqn:Ew; [|done]. intros [= <-].
    assert (todo_ok G (rn_phase run)) as Ht by by eapply Forall_lookup_1 in HG.
    eapply work_keeps in Ew as [? ?]; [|by eapply (job_client (KeepsStores I G))|done..].
    split; [done|]. by apply Forall_insert.
  - destruct (sy_runs s !! i) as [run|] eqn:Ei; [|done]. simpl.
    destruct (rn_phase run); [done..|]. intros [= <-]. split; [done|]. by apply Forall_delete.
Qed.

(** The stores keep what every client's calls keep, in every state the
    scheduler can reach. *)
Lemma stores_invariant I G sources w acts s :
  (∀ src c, newClient src = Some c → SyncClientLaws c ∧ (src ∈ sources → KeepsStores I G c)) →
  I w → reaches range (Start range (NewScheduler newClient sources) w) acts = Some s → I (sy_world s).
Proof.
  intros Hcl Hw Hr.
  assert (∀ name job, NewScheduler newClient sources !! name = Some job →
    SyncClientLaws (sj_client job) ∧ KeepsStores I G (sj_client job)) as Hjobs.
  { intros name job Hl. rewrite NewScheduler_spec in Hl.
    apply configured_Some in Hl as (src & c & Hin & _ & Hc & ->). split; [by apply (Hcl src)|].
    by apply (Hcl src). }
  assert (SystemOk (NewScheduler newClient sources) s ∧ stores_ok I G s) as [_ [? _]]; [|done].
  revert Hr. unfold reaches.
  apply (foldl_option_inv (λ s, SystemOk (NewScheduler newClient sources) s ∧ stores_ok I G s)).
  2:{ split; [apply scheduler_Start_ok|]. by split; [|constructor]. }
  intros a s1 s2 [Hs1 Hk1] Ha. split.
  - eapply act_ok; [|exact Hs1|exact Ha]. intros name job Hl. by apply (Hjobs name).
  - eapply act_keeps; [|exact Hs1|exact Hk1|exact Ha]. intros name job Hl. by apply (Hjobs name).
Qed.
End system.

(** ** A scheduler with two jobs *)

(** A registry with two repositories, of which one cannot be copied; the stores
    are the repositories copied. *)
Definition exClient : SyncClient (list string) :=
  mkSyncClient (λ w, (Ok ["app"; "base"], w))
    (λ repo '(w, p), if decide (repo = "base") then (Err (Errorf "no"), (w, p)) else (Ok tt, (w ++ [repo], p)))
    None.

Definition exSources : list SyncSource :=
  [mkSyncSource "quay" "quay" "http://quay" "" "" "" [] [] "" "" false false "*/15 * * * *" "continuous" 2;
   mkSyncSource "up" "registry" "http://up" "" "" "" [] [] "" "" false false "" "once" 2;
   mkSyncSource "old" "docker" "http://old" "" "" "" [] [] "" "" false false "" "once" 2].
Definition exNew (src : SyncSource) : option (SyncClient (list string)) :=
  if decide (ss_Type src ∈ ["quay"; "fastregistry"; "registry"]) then Some exClient else None.
Definition exRange A (l : list A) : list A := l.
Definition exStart : System := Start exRange (NewScheduler exNew exSources) [].

Lemma exLaws src c : exNew src = Some c → SyncClientLaws c.
Proof. unfold exNew. case_decide; intros [= <-] repo w p. simpl. by case_decide. Qed.

(** Two triggers of a job and a tick start two runs, of different jobs; the
    third start finds its job running. *)
Definition exActs : list action :=
  [ATrigger "quay"; ATrigger "quay"; ATick 5; ABegin 1 6; ABegin 1 6; ABegin 0 7; AWork 1 false; AWork 0 false].
Definition exState : System := default exStart (reaches exRange exStart exActs).

Lemma exState_reached : reaches exRange exStart exActs = Some exState.
Proof. by vm_compute. Qed.

Example exState_runs : sy_runs exState =
  [mkRun "quay" (Syncing ["app"; "base"]); mkRun "up" (Syncing ["app"; "base"])].
Proof. by vm_compute. Qed.

Lemma one_run_at_a_time_witness :
  NoDup (names (sy_runs exState)) ∧ TriggerSync (sy_jobs exState) "quay" = Err ErrJobRunning ∧
  TriggerSync (sy_jobs exState) "old" = Err ErrJobNotFound.
Proof.
  pose proof (one_run_at_a_time exRange exNew exSources [] exActs exState exLaws exState_reached)
    as (Hnd & Ht & _).
  split; [exact Hnd|]. rewrite !Ht. split; by vm_compute.
Defined.

Definition exAfter : gmap string syncJob :=
  alter (set_run false 9 (Some (mkProgress 2 1 1 0 0 0 0 0 7))) "up" (sy_jobs exStart).

Lemma runJob_refines_witness :
  ∃ acts, Forall (of_run 0) acts ∧
    reaches exRange exStart (ABegin 0 7 :: acts) =
      Some (mkSystem exAfter [] [] ["app"]).
Proof.
  apply (runJob_refines exRange "up" 7 9 (λ _, false) 0 exStart); [done|by vm_compute].
Defined.

Lemma every_run_ends_witness :
  ∃ acts' s', Forall (of_run 0) acts' ∧ reaches exRange exState acts' = Some s' ∧
    (ended exState s' 0 "quay" 8 ∨ call_panics s' 0).
Proof.
  apply (every_run_ends exRange exNew exSources [] exActs exState 0 (mkRun "quay" (Syncing ["app"; "base"])) 8);
    [apply exLaws|apply exState_reached|done].
Defined.

Definition exJob : syncJob (W := list string) :=
  mkSyncJob (mkSyncSource "up" "registry" "http://up" "" "" "" [] [] "" "" false false "" "once" 2)
    exClient 0 false None.

Lemma runJob_outcome_witness :
  ∃ p, exAfter = <["up" := mkSyncJob (sj_source exJob) exClient 9 false (Some p)]> (sy_jobs exStart) ∧
    (pg_SyncedRepos p + pg_FailedRepos p = 2)%Z.
Proof.
  edestruct (runJob_outcome "up" 7 9 (λ _, false) (sy_jobs exStart) [] exAfter ["app"] exJob)
    as (p & Hp & _ & Hall); [|done|done|by vm_compute|].
  - by apply (exLaws (sj_source exJob)).
  - exists p. split; [exact Hp|]. by destruct (Hall (λ _, eq_refl) ["app"; "base"] []).
Defined.

(** Two triggers in a row are both accepted, and one of them starts nothing. *)
Fact accepted_triggers_may_start_nothing :
  ∃ s, reaches exRange exStart [ATrigger "quay"; ATrigger "quay"; ABegin 1 1; ABegin 1 2] = Some s ∧
    TriggerSync (sy_jobs exStart) "quay" = Ok tt ∧ sy_spawned s = ["up"] ∧ names (sy_runs s) = ["quay"].
Proof. eexists. split; [vm_compute; reflexivity|]. by split_and!. Qed.
End SchedulerSpec.
