(* ===== verification/SyncJobs.v ===== *)
(** The scheduler with its clients: Quay, other registries and other instances
    of the program, on one pair of stores. *)

From S2P Require Import Prelude Effect GoLib Digest Os Blob Badger Metadata Oci Mirror Cloner ClonerSpec Events Releases SyncClients SyncSpec Replication Scheduler SchedulerSpec.

Module SyncJobs.
Import Sync Scheduler SchedulerSpec SyncSpec.
Import ClonerSpec (world_ok, stored).

Section clients.
Context `{BadgerLaws} `{!Json MetadataStore.ManifestMeta} `{!Json MetadataStore.RepoMeta}.
Context `{!JsonDecoder Catalog} `{!JsonDecoder TagsList} `{!UnmarshalInto SyncManifest}.
Context `{!JsonDecoder QuayRepositories} `{!JsonDecoder QuayTags} `{!UnmarshalInto QuayManifest}.
Context `{!Json Releases.Release} `{Releases.MapRange}.
Context `{!Json Events.Event} `{!Json Events.CloneHistoryEntry} `{!Json Events.DownloadRecord}.
Context `{!JsonDecoder Replication.ReplicationExport} `{!Env}.
Context (F : Faults).

(** ** The clients as the scheduler calls them *)

(** The stores, with the number of the next call to the environment. *)
Definition Stores : Type := World * nat.

(** A call that does not see the progress of the job, and one that does. *)
Definition unseen {A} (m : M St A) : M Stores A := λ s,
  let '(r, s') := m (mkSt s.1 (NewProgress 0) s.2) in (r, (st_w s', st_calls s')).
Definition seen {A} (m : M St A) : M (Stores * Progress) A := λ s,
  let '(r, s') := m (mkSt s.1.1 s.2 s.1.2) in (r, ((st_w s', st_calls s'), st_pr s')).

(** [pages] bounds listings, [fuel] the depth of nested indexes. *)
Context (pages fuel : nat) (releaseMgr eventStore : bool).

Definition registryClient (src : SyncSource) (metadata : option (M St unit)) : SyncClient Stores :=
  mkSyncClient (unseen (ListRepositories src pages)) (λ repo, seen (SyncRepository F src pages fuel repo))
    (unseen <$> metadata).

Definition quayClient (src : SyncSource) : SyncClient Stores :=
  mkSyncClient (unseen (quayListRepositories src)) (λ repo, seen (quaySyncRepository F src repo)) None.

(** The switch of [NewScheduler]. *)
Definition newClient (src : SyncSource) : option (SyncClient Stores) :=
  if decide (ss_Type src = "quay") then Some (quayClient src)
  else if decide (ss_Type src = "fastregistry") then
    Some (registryClient src (Some (Replication.SyncMetadata
      (Replication.NewReplicationClient src releaseMgr eventStore))))
  else if decide (ss_Type src = "registry") then Some (registryClient src None)
  else None.

(** ** The counters of repositories are the scheduler's *)

Definition quiet {A} (m : M St A) : Prop := ∀ c, keeps (λ s, repo_counts (st_pr s) = c) m.

Lemma unlogged_env {A} (f : nat → result A) : quiet (env f).
Proof. by intros c s Hs. Qed.
Lemma quiet_on_db f : quiet (on_db f).
Proof. intros c s Hs. unfold on_db. by destruct (f _). Qed.
Lemma quiet_Exists d : quiet (blobs_Exists F d).
Proof. by intros c s Hs. Qed.
Lemma quiet_GetManifest repo ref : quiet (metadata_GetManifest repo ref).
Proof. by intros c s Hs. Qed.
Lemma quiet_Put d r n : quiet (blobs_Put F d r n).
Proof. intros c s Hs. unfold blobs_Put. by destruct (BlobStore.Put _ _ _ _ _ _ _). Qed.
Lemma quiet_progressPut d r n : quiet (progressPut F d r n).
Proof. intros c s Hs. unfold progressPut. by apply quiet_Put. Qed.
Lemma quiet_progress f : (∀ p, repo_counts (f p) = repo_counts p) → quiet (progress f).
Proof. intros Hf c. apply keeps_modify. intros s <-. apply Hf. Qed.
Lemma quiet_setTotalTags n : quiet (progress (setTotalTags n)).
Proof. by apply quiet_progress. Qed.
Lemma quiet_addTag a b : quiet (progress (addTag a b)).
Proof. by apply quiet_progress. Qed.

Ltac quiet_step :=
  first [ keeps_step | apply unlogged_env | apply quiet_on_db | apply quiet_Exists | apply quiet_GetManifest
        | apply quiet_Put | apply quiet_progressPut | apply quiet_setTotalTags | apply quiet_addTag ].

Lemma quiet_syncBlob cfg auth failed r d n : quiet (syncBlobWith F cfg auth failed r d n).
Proof. intros c. unfold syncBlobWith, http_Do. repeat quiet_step. Qed.

Lemma quiet_syncConfig cfg auth failed r cf : quiet (syncConfigWith F cfg auth failed r cf).
Proof. intros c. unfold syncConfigWith. repeat first [quiet_step | apply quiet_syncBlob]. Qed.

Lemma quiet_syncLayers cfg auth failed r ls : quiet (syncLayersWith F cfg auth failed r ls).
Proof.
  intros c. unfold syncLayersWith, in_order, syncLayerWith.
  repeat first [quiet_step | apply quiet_syncBlob].
Qed.

Lemma quiet_fetchManifestWith cfg auth failed r t : quiet (fetchManifestWith cfg auth failed r t).
Proof. intros c. unfold fetchManifestWith, http_Do, readAll. repeat quiet_step. Qed.

Lemma quiet_storeManifest repo tag meta d b cf ls : quiet (storeManifest F repo tag meta d b cf ls).
Proof.
  intros c. unfold storeManifest, metadata_PutManifest, metadata_Link, time_Now. repeat quiet_step.
Qed.

Ltac quiet_call :=
  first [ quiet_step | apply quiet_syncConfig | apply quiet_syncLayers | apply quiet_fetchManifestWith
        | apply quiet_storeManifest ].

Lemma quiet_syncTags {A} (f : A → M St unit) tags : (∀ a, quiet (f a)) → quiet (syncTags f tags).
Proof.
  intros Hf c. induction tags as [|t tags IH]; cbn [syncTags]; unfold ctx_check;
    repeat first [quiet_step | apply Hf | exact IH].
Qed.

Lemma quiet_syncTag cfg n repo tag : quiet (syncTag F cfg n repo tag).
Proof.
  intros c. revert tag. induction n as [|n IH]; intros tag; cbn [syncTag]; [apply keeps_lift|].
  unfold fetchManifest. repeat first [quiet_call | apply IH].
Qed.

Lemma quiet_listPages {B} cfg (decode : bytes → result B) nm failed wd wc n url acc :
  quiet (listPages cfg decode nm failed wd wc n url acc).
Proof.
  intros c. revert url acc. induction n as [|n IH]; intros url acc; cbn [listPages]; unfold never;
    repeat first [quiet_step | apply IH].
Qed.

Lemma quiet_SyncRepository cfg repo : quiet (SyncRepository F cfg pages fuel repo).
Proof.
  intros c. unfold SyncRepository, listTags.
  repeat first [quiet_step | apply quiet_listPages | apply quiet_syncTags, quiet_syncTag].
Qed.

Lemma quiet_quaySyncRepository cfg repo : quiet (quaySyncRepository F cfg repo).
Proof.
  intros c. unfold quaySyncRepository, ListTags, quayGet, http_Do.
  repeat first [quiet_step | apply quiet_syncTags]. intros t c'.
  unfold quaySyncTag, quayFetchManifest, quaySemaphore, never. repeat quiet_call.
Qed.

Lemma seen_counts (m : M St unit) w p : quiet m → repo_counts (seen m (w, p)).2.2 = repo_counts p.
Proof.
  intros Hm. unfold seen. pose proof (Hm (repo_counts p) (mkSt w.1 p w.2) eq_refl) as Hk.
  cbn [fst snd]. by destruct (m _) as [r s'].
Qed.

#[export] Instance registry_laws src md : SyncClientLaws (registryClient src md).
Proof. intros repo w p. apply seen_counts, quiet_SyncRepository. Qed.

#[export] Instance quay_laws src : SyncClientLaws (quayClient src).
Proof. intros repo w p. apply seen_counts, quiet_quaySyncRepository. Qed.

Lemma newClient_laws src c : newClient src = Some c → SyncClientLaws c.
Proof. unfold newClient. repeat case_decide; intros [= <-]; apply _. Qed.

(** ** What the calls leave of the stores *)

(** Listing leaves them as they are. *)
Lemma still_listPages {B} (P : World → Prop) cfg (decode : bytes → result B) nm failed wd wc n url acc :
  keeps (λ s, P (st_w s)) (listPages cfg decode nm failed wd wc n url acc).
Proof.
  revert url acc. induction n as [|n IH]; intros url acc; cbn [listPages]; unfold never, env;
    repeat first [keeps_step | apply IH | by intros s Hs].
Qed.

Lemma still_ListRepositories (P : World → Prop) cfg : keeps (λ s, P (st_w s)) (ListRepositories cfg pages).
Proof. unfold ListRepositories. repeat first [keeps_step | apply still_listPages]. Qed.

Lemma still_quayListRepositories (P : World → Prop) cfg : keeps (λ s, P (st_w s)) (quayListRepositories cfg).
Proof.
  unfold quayListRepositories. keeps_step; [|keeps_step].
  generalize (@nil string) as acc. induction (ss_Organizations cfg) as [|org orgs IH]; intros acc;
    cbn [quayListOrgs]; unfold listOrgRepositories, quayGet, http_Do, env;
    repeat first [keeps_step | apply IH | by intros s Hs].
Qed.

Lemma unseen_keeps {A} (P : World → Prop) (m : M St A) :
  keeps (λ s, P (st_w s)) m → keeps (λ s, P s.1) (unseen m).
Proof.
  intros Hm s Hs. unfold unseen. pose proof (Hm (mkSt s.1 (NewProgress 0) s.2) Hs) as Hk.
  by destruct (m _).
Qed.

Lemma seen_keeps {A} (P : World → Prop) (m : M St A) :
  keeps (λ s, P (st_w s)) m → keeps (λ s, P s.1.1) (seen m).
Proof.
  intros Hm s Hs. unfold seen. pose proof (Hm (mkSt s.1.1 s.2 s.1.2) Hs) as Hk. by destruct (m _).
Qed.

Context (HRemove : F OpRemove = None) (root : string) (Hroot : BlobStore.good_root root).
Context `{!JsonLaws MetadataStore.ManifestMeta MetadataStore.meta_ok}.
Context `{!JsonLaws MetadataStore.RepoMeta MetadataStore.repo_ok}.

(** Both clients decode the same members of a manifest. *)
Class ManifestLaws := same_refs b (m : SyncManifest) :
  unmarshal_into b = (m, None) → quay_refs b = manifest_refs (sm_Config m) (sm_Layers m).
Context `{!ManifestLaws} (Hplain : plain_upstream).

(** The stores are complete and have what they had at the beginning. *)
Definition safe (w0 w : World) : Prop :=
  complete root quay_refs w ∧ ∀ d, canonical d → stored root w0 d → stored root w d.

Lemma safe_SyncRepository w0 cfg repo :
  MetadataStore.good_repo repo → keeps (λ s, safe w0 (st_w s)) (SyncRepository F cfg pages fuel repo).
Proof.
  intros Hr s [Hc Hm].
  pose proof (SyncRepository_spec F HRemove root Hroot quay_refs cfg pages fuel repo s) as Hs.
  destruct (SyncRepository F cfg pages fuel repo s) as [res s1].
  destruct Hs as (? & ? & _); [apply same_refs|done..|]. split; [done|]. auto.
Qed.

Lemma safe_quaySyncRepository w0 cfg repo :
  MetadataStore.good_repo repo → keeps (λ s, safe w0 (st_w s)) (quaySyncRepository F cfg repo).
Proof.
  intros Hr s [Hc Hm].
  pose proof (quaySyncRepository_complete F HRemove root Hroot cfg repo s Hr Hplain Hc) as Hs.
  destruct (quaySyncRepository F cfg repo s) as [res s1].
  destruct Hs as (? & ? & _). split; [done|]. auto.
Qed.

(** Imports write keys that are not the index's. *)
Definition apart (p : string) : Prop :=
  p ∈ [Releases.releaseKeyPrefix; Events.prefixEvent; Events.prefixCloneHistory; Events.prefixDownload].

Lemma apart_raw p k : apart p → p ≠ "" ∧ MetadataStore.raw_key (p +:+ k).
Proof.
  unfold apart, MetadataStore.raw_key. intros Hp.
  repeat (apply elem_of_cons in Hp as [->|Hp];
    [split; [done|]; repeat constructor; by apply HasPrefix_false|]).
  by apply elem_of_nil in Hp.
Qed.

Lemma safe_on_db w0 p f :
  apart p → Replication.writes p f → keeps (λ s, safe w0 (st_w s)) (on_db f).
Proof.
  intros Hp Hf s [(Hok & ix & Hrep & Him) Hm]. unfold on_db.
  pose proof (Replication.writes_framed (λ m, MetadataStore.represents m ix) p f (w_db (st_w s))
    (proj1 (apart_raw p "" Hp))) as Hw. cbv beta in Hw.
  assert (MetadataStore.represents (view (f (w_db (st_w s))).2) ix) as Hrep'.
  { apply Hw; [|done..]. intros m k v. apply MetadataStore.represents_insert_raw. by apply apart_raw. }
  destruct (f (w_db (st_w s))) as [res db']. split; [|done]. split; [done|].
  by exists ix.
Qed.

Lemma safe_importEach {A} w0 p (f : DB → A → result unit * DB) l :
  apart p → (∀ a, Replication.writes p (λ db, f db a)) →
  keeps (λ s, safe w0 (st_w s)) (Replication.importEach f l).
Proof.
  intros Hp Hf. apply keeps_for_each. intros a. apply keeps_ignoring. by eapply safe_on_db.
Qed.

Lemma safe_SyncMetadata w0 r : keeps (λ s, safe w0 (st_w s)) (Replication.SyncMetadata r).
Proof.
  unfold Replication.SyncMetadata, Replication.syncMetadata, env. destruct (NewRequest _); [keeps_step|].
  keeps_step; [keeps_step; by intros s Hs|]. keeps_step; [keeps_step|]. keeps_step; [repeat keeps_step|].
  unfold Replication.importAll. repeat keeps_step.
  - eapply safe_importEach; [|apply Replication.ImportRelease_writes]. set_solver.
  - eapply safe_importEach; [|apply Replication.ImportEvent_writes]. set_solver.
  - eapply safe_importEach; [|apply Replication.ImportCloneHistory_writes]. set_solver.
  - eapply safe_importEach; [|apply Replication.ImportDownloadRecord_writes]. set_solver.
Qed.

Definition good_listings (c : SyncClient Stores) : Prop :=
  ∀ s repos, (cl_ListRepositories c s).1 = Ok repos → Forall MetadataStore.good_repo repos.

Lemma newClient_keeps w0 src c :
  newClient src = Some c → good_listings c → KeepsStores (λ s, safe w0 s.1) MetadataStore.good_repo c.
Proof.
  intros Hc Hg. unfold newClient in Hc. split.
  2:{ intros s repos _. apply Hg. }
  all: clear Hg; repeat case_decide; try done; injection Hc as <-.
  - apply unseen_keeps, still_quayListRepositories.
  - apply unseen_keeps, still_ListRepositories.
  - apply unseen_keeps, still_ListRepositories.
  - intros repo Hr. by apply seen_keeps, safe_quaySyncRepository.
  - intros repo Hr. by apply seen_keeps, safe_SyncRepository.
  - intros repo Hr. by apply seen_keeps, safe_SyncRepository.
  - by intros m.
  - intros m [= <-]. apply unseen_keeps, safe_SyncMetadata.
  - by intros m.
Qed.

(** C18 The registry stays complete while jobs run: from stores in which every
    recorded manifest has all its blobs, in every state that the scheduler can
    reach with any configuration of Quay, registry and replication sources, in
    any interleaving of runs, ticks and triggers, whatever the upstreams
    answer and whichever system calls other than removal fail, every recorded
    manifest has all its blobs, and no blob of the beginning is gone; as long
    as the upstreams' repositories have names without a colon. *)
Theorem jobs_keep_the_registry_complete (range : ∀ A, list A → list A) sources w0 n acts s :
  complete root quay_refs w0 →
  (∀ src c, src ∈ sources → newClient src = Some c → good_listings c) →
  reaches range (Start range (NewScheduler newClient sources) (w0, n)) acts = Some s →
  complete root quay_refs (sy_world s).1 ∧
  ∀ d, canonical d → stored root w0 d → stored root (sy_world s).1 d.
Proof.
  intros Hc Hg Hr.
  refine (stores_invariant range newClient (λ s, safe w0 s.1) MetadataStore.good_repo sources (w0, n) acts s _ _ Hr);
    [|by split].
  intros src c Hn. split; [by eapply newClient_laws|]. intros Hin. eapply newClient_keeps; [done|by eapply Hg].
Qed.
End clients.

(** ** A job over a registry of three repositories *)

#[local] Existing Instances mapBadger mapBadgerLaws MetadataStore.jsonMeta MetadataStore.jsonRepo
  SyncSpec.exCatalog SyncSpec.exTags SyncSpec.exManifests SyncSpec.exQuayRepos SyncSpec.exQuayTags
  SyncSpec.exQuayManifests SyncSpec.exEnv Releases.jsonRelease Releases.listRange Events.jsonEvent
  Events.jsonDownload Replication.jsonClone Replication.exportDecoder.
#[local] Instance exMetaLaws : JsonLaws MetadataStore.ManifestMeta MetadataStore.meta_ok :=
  countableJsonLaws _ _.
#[local] Instance exRepoLaws : JsonLaws MetadataStore.RepoMeta MetadataStore.repo_ok :=
  countableJsonLaws _ _.

#[local] Instance exManifestLaws : ManifestLaws.
Proof.
  by intros b m [= <-].
Qed.

Definition exNew : SyncSource → option (SyncClient Stores) := newClient noFaults 5 1 true true.
Definition exStart : System := Start exRange (NewScheduler exNew [SyncSpec.exSource]) (SyncSpec.exWorld, 0).
Definition exActs : list action :=
  [ATick 5; ABegin 0 6] ++ replicate 5 (AWork 0 false) ++ [AEnd 0 8].
Definition exEnd : System := default exStart (reaches exRange exStart exActs).

Lemma exEnd_reached : reaches exRange exStart exActs = Some exEnd.
Proof.
  assert (bool_decide (is_Some (reaches exRange exStart exActs)) = true) as Hb by (vm_compute; reflexivity).
  apply bool_decide_eq_true in Hb as [s Hs]. unfold exEnd. by rewrite Hs.
Qed.

Lemma exListings src c : src ∈ [SyncSpec.exSource] → exNew src = Some c → good_listings c.
Proof.
  intros ->%list_elem_of_singleton. unfold exNew, newClient. cbn [SyncSpec.exSource ss_Type].
  do 2 (rewrite decide_False by done). rewrite decide_True by done. intros [= <-] s repos.
  assert ((cl_ListRepositories (registryClient noFaults 5 1 SyncSpec.exSource None) s).1 =
    Ok ["app"; "base"; "tools"]) as -> by by vm_compute.
  intros [= <-]. by apply (bool_decide_unpack _).
Qed.

(** The total of tags is that of the last repository alone. *)
Fact total_tags_of_the_last_repository :
  (sj_progress <$> sy_jobs exEnd !! "up") = Some (Some (mkProgress 3 3 0 1 3 0 0 4 6)).
Proof. by vm_compute. Qed.

Lemma jobs_keep_the_registry_complete_witness :
  names (sy_runs exEnd) = [] ∧ complete BlobStore.srvRoot quay_refs (sy_world exEnd).1.
Proof.
  split; [by vm_compute|].
  pose proof (jobs_keep_the_registry_complete noFaults 5 1 true true eq_refl BlobStore.srvRoot
    BlobStore.good_srvRoot SyncSpec.exUpstream_plain exRange [SyncSpec.exSource] SyncSpec.exWorld 0 exActs exEnd
    (SyncSpec.exComplete _) exListings exEnd_reached) as Hc.
  apply Hc.
Defined.
End SyncJobs.
