(* ===== verification/Ignition.v ===== *)
(** internal/releases/ignition.go: the ignition of an agent-based installation,
    from its two configuration files.  YAML and JSON are parameters; the data
    URLs and the generated manifests are text the model computes. *)

From S2P Require Import Prelude GoLib.

Module Ignition.

(** ** Configuration files *)

Record ClusterNetwork := mkClusterNetwork { cn_CIDR : string; cn_HostPrefix : Z }.
Record MachinePool := mkMachinePool { mp_Name : string; mp_Replicas : Z }.
Record ImageContentSource := mkImageContentSource { ics_Source : string; ics_Mirrors : list string }.

(** The nested structs are flattened: [metadata.name], [networking] and the
    presence of [platform.none]. *)
Record InstallConfig := mkInstallConfig {
  ic_APIVersion : string;
  ic_BaseDomain : string;
  ic_Name : string;
  ic_NetworkType : string;
  ic_ClusterNetwork : list ClusterNetwork;
  ic_ServiceNetwork : list string;
  ic_MachineNetwork : list string;
  ic_ControlPlane : MachinePool;
  ic_Compute : list MachinePool;
  ic_PlatformNone : bool;
  ic_PullSecret : string;
  ic_SSHKey : string;
  ic_ImageContentSources : list ImageContentSource
}.

Record Address := mkAddress { ad_IP : string; ad_PrefixLength : Z }.
Record NetInterface := mkNetInterface {
  ni_Name : string;
  ni_Type : string;
  ni_State : string;
  ni_IPv4Enabled : bool;
  ni_IPv4DHCP : bool;
  ni_IPv4Address : list Address;
  ni_IPv6Enabled : bool
}.
Record NetRoute := mkNetRoute { nr_Destination : string; nr_NextHopAddress : string; nr_NextHopInterface : string }.
Record AgentHost := mkAgentHost {
  ah_Hostname : string;
  ah_Role : string;
  ah_Interfaces : list (string * string);
  ah_NetInterfaces : list NetInterface;
  ah_DNSServers : list string;
  ah_Routes : list NetRoute
}.
Record AgentConfig := mkAgentConfig {
  ac_APIVersion : string;
  ac_Name : string;
  ac_RendezvousIP : string;
  ac_Hosts : list AgentHost
}.

(** ** Ignition 3.2; a nil pointer is [None] *)

Record IgnCfgRef := mkIgnCfgRef { icr_Source : string }.
Record IgnitionMeta := mkIgnitionMeta { im_Version : string; im_Config : option (list IgnCfgRef) }.
Record IgnUser := mkIgnUser { iu_Name : string; iu_SSHAuthorizedKeys : list string }.
Record IgnContents := mkIgnContents { ico_Source : string }.
Record IgnFile := mkIgnFile {
  if_Path : string;
  if_Mode : option Z;
  if_Overwrite : option bool;
  if_Contents : option IgnContents
}.
Record IgnUnit := mkIgnUnit { un_Name : string; un_Enabled : option bool; un_Contents : string }.
Record IgnitionConfig := mkIgnitionConfig {
  ig_Ignition : IgnitionMeta;
  ig_Passwd : option (list IgnUser);
  ig_Storage : option (list IgnFile);
  ig_Systemd : option (list IgnUnit)
}.

(** gopkg.in/yaml.v3 and [json.MarshalIndent]. *)
Class Yaml (A : Type) := yaml_Unmarshal : bytes → result A.
Class Indented := MarshalIndent : IgnitionConfig → result bytes.

(** ** Data URLs *)

Definition isUnreserved (c : byte) : bool :=
  let n := Z_of_byte c in
  bool_decide (65 ≤ n ≤ 90)%Z || bool_decide (97 ≤ n ≤ 122)%Z || bool_decide (48 ≤ n ≤ 57)%Z ||
  bool_decide (n = 45)%Z || bool_decide (n = 95)%Z || bool_decide (n = 46)%Z || bool_decide (n = 126)%Z.

Definition hexDigit (n : Z) : byte :=
  byte_of_Z (if decide (n < 10)%Z then 48 + n else 65 + n - 10).

Fixpoint urlEncode (s : string) : string :=
  match s with
  | EmptyString => EmptyString
  | String c s =>
    if isUnreserved c then String c (urlEncode s)
    else String "%" (String (hexDigit (Z.shiftr (Z_of_byte c) 4))
           (String (hexDigit (Z.land (Z_of_byte c) 15)) (urlEncode s)))
  end.

Definition dataURL (content : string) : string := "data:," +:+ urlEncode content.

(** ** Generated manifests *)

Definition buildClusterImageSet (releaseImage : string) : string :=
"apiVersion: hive.openshift.io/v1
kind: ClusterImageSet
metadata:
  name: openshift-release
spec:
  releaseImage: " +:+ releaseImage +:+ "
".

Definition policyHeader : string :=
"apiVersion: operator.openshift.io/v1alpha1
kind: ImageContentSourcePolicy
metadata:
  name: mirror-config
spec:
  repositoryDigestMirrors:
".

Definition policyEntry (ics : ImageContentSource) : string :=
  foldl (λ result m, result +:+ "    - " +:+ m +:+ "
") ("  - source: " +:+ ics_Source ics +:+ "
    mirrors:
") (ics_Mirrors ics).

Definition buildImageContentSourcePolicy (cfg : InstallConfig) : string :=
  foldl (λ result ics, result +:+ policyEntry ics) policyHeader (ic_ImageContentSources cfg).

(** ** The ignition *)

(** 0644. *)
Definition fileMode : Z := 420.

Definition manifestFile (name content : string) : IgnFile :=
  mkIgnFile ("/etc/assisted/manifests/" +:+ name) (Some fileMode) (Some true)
    (Some (mkIgnContents (dataURL content))).

Section generate.
Context `{!Yaml InstallConfig} `{!Yaml AgentConfig} `{!Indented}.

Definition agentIgnition (installConfig : InstallConfig) (installConfigYAML agentConfigYAML : bytes)
    (releaseImage : string) : IgnitionConfig :=
  let files :=
    [manifestFile "pull-secret.json" (ic_PullSecret installConfig);
     manifestFile "agent-config.yaml" (bytes_str agentConfigYAML);
     manifestFile "install-config.yaml" (bytes_str installConfigYAML);
     manifestFile "cluster-image-set.yaml" (buildClusterImageSet releaseImage)] in
  mkIgnitionConfig (mkIgnitionMeta "3.2.0" None)
    (Some [mkIgnUser "core" [ic_SSHKey installConfig]])
    (Some (if decide (0 < length (ic_ImageContentSources installConfig))
           then files ++ [manifestFile "image-content-source-policy.yaml"
                            (buildImageContentSourcePolicy installConfig)]
           else files))
    (Some [mkIgnUnit "agent.service" (Some true) ""]).

Definition GenerateAgentIgnition (installConfigYAML agentConfigYAML : bytes) (releaseImage : string)
    : result bytes :=
  match (yaml_Unmarshal installConfigYAML : result InstallConfig) with
  | Err e => Err (wrap "parsing install-config.yaml" e)
  | Panic p => Panic p
  | Ok installConfig =>
    match (yaml_Unmarshal agentConfigYAML : result AgentConfig) with
    | Err e => Err (wrap "parsing agent-config.yaml" e)
    | Panic p => Panic p
    | Ok agentConfig =>
      MarshalIndent (agentIgnition installConfig installConfigYAML agentConfigYAML releaseImage)
    end
  end.
End generate.

Example encode_yaml : dataURL "a: b/c~" = "data:,a%3A%20b%2Fc~".
Proof. by vm_compute. Qed.

(** ** Reading a data URL (RFC 2397, RFC 3986) *)

Definition hexVal (c : byte) : option Z :=
  let n := Z_of_byte c in
  if decide (48 ≤ n ≤ 57)%Z then Some (n - 48)%Z
  else if decide (65 ≤ n ≤ 70)%Z then Some (n - 55)%Z
  else if decide (97 ≤ n ≤ 102)%Z then Some (n - 87)%Z
  else None.

Fixpoint percentDecode (l : bytes) : option bytes :=
  match l with
  | [] => Some []
  | c :: l =>
    if decide (c = "%"%char) then
      match l with
      | a :: b :: l => x ← hexVal a; y ← hexVal b; r ← percentDecode l; Some (byte_of_Z (16 * x + y) :: r)
      | _ => None
      end
    else r ← percentDecode l; Some (c :: r)
  end.

(** The data of a URL with the scheme data, plain text and no parameters. *)
Definition fetchData (url : string) : option string :=
  s ← strip_prefix "data:," url; bytes_str <$> percentDecode (str_bytes s).

(** The characters RFC 3986 allows after the comma. *)
Definition url_char (c : byte) : Prop := isUnreserved c = true ∨ c = "%"%char.

Lemma hex_digits x : (0 ≤ x < 16)%Z → hexVal (hexDigit x) = Some x ∧ isUnreserved (hexDigit x) = true.
Proof.
  intros Hx. assert (x ∈ seqZ 0 16) as Hin by (apply elem_of_seqZ; lia).
  revert x Hin Hx. apply (Forall_forall (λ x, (0 ≤ x < 16)%Z → hexVal (hexDigit x) = Some x ∧ isUnreserved (hexDigit x) = true)).
  apply (bool_decide_unpack _). by vm_compute.
Qed.

Lemma nibbles c :
  let n := Z_of_byte c in
  (0 ≤ Z.shiftr n 4 < 16)%Z ∧ (0 ≤ Z.land n 15 < 16)%Z ∧ byte_of_Z (16 * Z.shiftr n 4 + Z.land n 15) = c.
Proof.
  cbv zeta. pose proof (Z_of_byte_bound c) as Hc.
  rewrite Z.shiftr_div_pow2 by lia. change 15%Z with (Z.ones 4). rewrite Z.land_ones by lia.
  change (2 ^ 4)%Z with 16%Z. split; [Z.div_mod_to_equations; lia|]. split; [Z.div_mod_to_equations; lia|].
  rewrite <-Z.div_mod by lia. apply byte_of_Z_of_byte.
Qed.

Lemma percent_reserved : isUnreserved "%" = false.
Proof. by vm_compute. Qed.

Lemma decode_urlEncode s : percentDecode (str_bytes (urlEncode s)) = Some (str_bytes s).
Proof.
  induction s as [|c s IH]; [done|]. cbn [urlEncode]. destruct (isUnreserved c) eqn:Hc.
  - change (str_bytes (String c (urlEncode s))) with (c :: str_bytes (urlEncode s)). cbn [percentDecode].
    rewrite decide_False by (intros ->; by rewrite percent_reserved in Hc). by rewrite IH.
  - destruct (nibbles c) as (Hh & Hl & Hb).
    unfold str_bytes in *. cbn [String.list_ascii_of_string percentDecode].
    rewrite decide_True by done. destruct (hex_digits _ Hh) as [-> _]. destruct (hex_digits _ Hl) as [-> _].
    cbn [mbind option_bind]. rewrite IH. cbn [mbind option_bind]. by rewrite Hb.
Qed.

Lemma urlEncode_chars s : Forall url_char (str_bytes (urlEncode s)).
Proof.
  induction s as [|c s IH]; [constructor|]. cbn [urlEncode]. destruct (isUnreserved c) eqn:Hc.
  - constructor; [by left|done].
  - destruct (nibbles c) as (Hh & Hl & _).
    constructor; [by right|]. constructor; [left; by apply hex_digits|].
    constructor; [left; by apply hex_digits|done].
Qed.

Lemma fetch_dataURL content : fetchData (dataURL content) = Some content.
Proof.
  unfold fetchData, dataURL. rewrite strip_prefix_app. cbn [mbind option_bind].
  rewrite decode_urlEncode. simpl. by rewrite str_bytes_str.
Qed.

(** ** Reading a mirror policy *)

Definition newline : ascii := "010".

(** A mirror of the source above it, a source, or another line. *)
Definition policyLine (line : string) (st : list string * list ImageContentSource)
    : list string * list ImageContentSource :=
  match strip_prefix "    - " line with
  | Some m => (m :: st.1, st.2)
  | None =>
    match strip_prefix "  - source: " line with
    | Some src => ([], mkImageContentSource src st.1 :: st.2)
    | None => st
    end
  end.

Definition readPolicy (text : string) : list ImageContentSource :=
  (foldr policyLine ([], []) (Split newline text)).2.

Definition unlines (ls : list string) : string := foldr (λ l r, l +:+ String newline r) "" ls.

Lemma unlines_app l1 l2 : unlines (l1 ++ l2) = unlines l1 +:+ unlines l2.
Proof.
  induction l1 as [|x l1 IH]; simpl; [by rewrite sapp_nil_l|]. by rewrite IH, sapp_assoc, sapp_cons.
Qed.

Lemma Split_unlines ls : Forall (not_in newline) ls → Split newline (unlines ls) = ls ++ [""].
Proof.
  induction 1 as [|l ls Hl Hls IH]; [done|]. cbn [unlines foldr]. fold (unlines ls).
  by rewrite Split_app, Split_none, IH.
Qed.

Definition sourceLines (ics : ImageContentSource) : list string :=
  ("  - source: " +:+ ics_Source ics) :: "    mirrors:" :: ((λ m, "    - " +:+ m) <$> ics_Mirrors ics).

Definition headerLines : list string :=
  ["apiVersion: operator.openshift.io/v1alpha1"; "kind: ImageContentSourcePolicy"; "metadata:";
   "  name: mirror-config"; "spec:"; "  repositoryDigestMirrors:"].

Lemma policyEntry_lines ics : policyEntry ics = unlines (sourceLines ics).
Proof.
  unfold policyEntry, sourceLines. set (line := λ m : string, "    - " +:+ m).
  assert (∀ ms pre, foldl (λ result m, result +:+ "    - " +:+ m +:+ String newline "") pre ms =
    pre +:+ unlines (line <$> ms)) as Hf.
  { induction ms as [|m ms IH]; intros pre; cbn [foldl fmap list_fmap unlines foldr]; [by rewrite sapp_nil_r|].
    rewrite IH. unfold line at 2. rewrite !sapp_assoc, !sapp_cons, sapp_nil_l. done. }
  change ("
") with (String newline "") in *. rewrite Hf. cbn [unlines foldr]. fold (unlines (line <$> ics_Mirrors ics)).
  by rewrite !sapp_assoc.
Qed.

Lemma policy_lines cfg :
  buildImageContentSourcePolicy cfg = unlines (headerLines ++ (ic_ImageContentSources cfg ≫= sourceLines)).
Proof.
  unfold buildImageContentSourcePolicy. rewrite unlines_app.
  change (unlines headerLines) with policyHeader. generalize policyHeader as pre.
  induction (ic_ImageContentSources cfg) as [|ics l IH]; intros pre; cbn [foldl]; [by rewrite sapp_nil_r|].
  rewrite IH, bind_cons, unlines_app, policyEntry_lines. by rewrite sapp_assoc.
Qed.

Definition one_line (ics : ImageContentSource) : Prop :=
  not_in newline (ics_Source ics) ∧ Forall (not_in newline) (ics_Mirrors ics).

Lemma readPolicy_build cfg :
  Forall one_line (ic_ImageContentSources cfg) →
  readPolicy (buildImageContentSourcePolicy cfg) = ic_ImageContentSources cfg.
Proof.
  intros Hl. unfold readPolicy. rewrite policy_lines, Split_unlines.
  2:{ apply Forall_app. split; [by apply (bool_decide_unpack _)|]. apply Forall_bind.
      eapply Forall_impl; [exact Hl|]. intros ics [Hs Hm]. unfold sourceLines.
      constructor; [apply not_in_app; split; [by apply (bool_decide_unpack _)|done]|].
      constructor; [by apply (bool_decide_unpack _)|]. apply Forall_fmap. eapply Forall_impl; [exact Hm|].
      intros m Hn. apply not_in_app. split; [by apply (bool_decide_unpack _)|done]. }
  rewrite !foldr_app. cbn [foldr].
  assert (∀ l, foldr policyLine ([], []) (l ≫= sourceLines) = ([], l)) as Hbody.
  { induction l as [|ics l IH]; [done|]. rewrite bind_cons, foldr_app, IH. unfold sourceLines.
    cbn [foldr]. assert (∀ ms, foldr policyLine ([], l) ((λ m, "    - " +:+ m) <$> ms) = (ms, l)) as Hms.
    { induction ms as [|m ms IHm]; [done|]. cbn [fmap list_fmap foldr].
      rewrite IHm. unfold policyLine. by rewrite strip_prefix_app. }
    rewrite Hms. unfold policyLine at 2.
    replace (strip_prefix "    - " "    mirrors:") with (@None string) by by vm_compute.
    replace (strip_prefix "  - source: " "    mirrors:") with (@None string) by by vm_compute.
    unfold policyLine. rewrite strip_prefix_app. by destruct ics. }
  change (policyLine "" ([], [])) with (@nil string, @nil ImageContentSource).
  rewrite Hbody. by vm_compute.
Qed.

(** ** What an installation is given *)

(** The path, mode and contents of a file that is written over what is there. *)
Definition installed (f : IgnFile) : option (string * Z * string) :=
  c ← if_Contents f; mode ← if_Mode f; ow ← if_Overwrite f; content ← fetchData (ico_Source c);
  if (ow : bool) then Some (if_Path f, mode, content) else None.

Definition manifests : string := "/etc/assisted/manifests/".

Lemma installed_manifestFile name content :
  installed (manifestFile name content) = Some (manifests +:+ name, fileMode, content).
Proof. unfold installed, manifestFile. cbn [if_Contents if_Mode if_Overwrite mbind option_bind ico_Source].
  by rewrite fetch_dataURL. Qed.

Section theorems.
Context `{!Yaml InstallConfig} `{!Yaml AgentConfig} `{!Indented}.

(** C37 An installation is given what the operator supplied: when the two
    configuration files can be read, the ignition gives the user core the SSH
    key and enables the agent; and its files, every one readable and written
    over what is there, hold the pull secret, both configuration files byte for
    byte and the release image, and, exactly when image content sources are
    configured, a mirror policy from which the same sources and mirrors are
    read back. *)
Theorem ignition_delivers icYAML acYAML releaseImage ic ac out :
  yaml_Unmarshal icYAML = Ok ic → yaml_Unmarshal acYAML = Ok ac →
  Forall one_line (ic_ImageContentSources ic) →
  GenerateAgentIgnition icYAML acYAML releaseImage = Ok out →
  ∃ ign files policy, MarshalIndent ign = Ok out ∧
    ig_Passwd ign = Some [mkIgnUser "core" [ic_SSHKey ic]] ∧
    ig_Systemd ign = Some [mkIgnUnit "agent.service" (Some true) ""] ∧
    ig_Storage ign = Some files ∧
    mapM installed files = Some
      ([(manifests +:+ "pull-secret.json", fileMode, ic_PullSecret ic);
        (manifests +:+ "agent-config.yaml", fileMode, bytes_str acYAML);
        (manifests +:+ "install-config.yaml", fileMode, bytes_str icYAML);
        (manifests +:+ "cluster-image-set.yaml", fileMode, buildClusterImageSet releaseImage)] ++
       if decide (ic_ImageContentSources ic = []) then []
       else [(manifests +:+ "image-content-source-policy.yaml", fileMode, policy)]) ∧
    readPolicy policy = ic_ImageContentSources ic.
Proof.
  intros Hic Hac Hl. unfold GenerateAgentIgnition. rewrite Hic, Hac. intros Hm.
  eexists _, _, (buildImageContentSourcePolicy ic). split; [exact Hm|]. split; [done|]. split; [done|].
  split; [done|]. split; [|by apply readPolicy_build].
  destruct (ic_ImageContentSources ic) as [|ics l] eqn:E.
  - rewrite decide_False by (simpl; lia). rewrite decide_True by done.
    cbn [mapM app]. by rewrite !installed_manifestFile.
  - rewrite decide_True by (simpl; lia). rewrite decide_False by done.
    cbn [mapM app]. by rewrite !installed_manifestFile.
Qed.

(** What cannot be read is reported, and nothing is generated. *)
Lemma ignition_error icYAML acYAML releaseImage e :
  yaml_Unmarshal icYAML = (Err e : result InstallConfig) →
  GenerateAgentIgnition icYAML acYAML releaseImage = Err (wrap "parsing install-config.yaml" e).
Proof. unfold GenerateAgentIgnition. by intros ->. Qed.
End theorems.

(** ** Example *)

Definition exInstall : InstallConfig :=
  mkInstallConfig "v1" "example.com" "ocp" "OVNKubernetes" [] [] [] (mkMachinePool "master" 3) [] true
    "{auths: 100%}" "ssh-ed25519 AAAA" [mkImageContentSource "quay.io/ocp" ["mirror:5000/ocp"; "backup/ocp"]].

Definition exAgent : AgentConfig := mkAgentConfig "v1beta1" "ocp" "10.0.0.5" [].
Definition exInstallYaml : Yaml InstallConfig := λ b,
  if decide (b = str_bytes "metadata: {name: ocp}") then Ok exInstall else Err (Errorf "yaml: unmarshal errors").
Definition exAgentYaml : Yaml AgentConfig := λ b,
  if decide (b = str_bytes "rendezvousIP: 10.0.0.5") then Ok exAgent else Err (Errorf "yaml: unmarshal errors").

(** The files of an ignition, one on a line. *)
Definition exIndented : Indented := λ ign,
  Ok (str_bytes (unlines (if_Path <$> default [] (ig_Storage ign)))).
#[local] Existing Instances exInstallYaml exAgentYaml exIndented.

Lemma ignition_delivers_witness :
  ∃ ign files policy,
    MarshalIndent ign = GenerateAgentIgnition (str_bytes "metadata: {name: ocp}") (str_bytes "rendezvousIP: 10.0.0.5")
      "mirror:5000/ocp:4.18.2" ∧
    ig_Storage ign = Some files ∧ length <$> mapM installed files = Some 5 ∧
    readPolicy policy = ic_ImageContentSources exInstall.
Proof.
  destruct (ignition_delivers (str_bytes "metadata: {name: ocp}") (str_bytes "rendezvousIP: 10.0.0.5")
    "mirror:5000/ocp:4.18.2" exInstall exAgent (str_bytes (unlines ((λ n, manifests +:+ n) <$> ["pull-secret.json";
      "agent-config.yaml"; "install-config.yaml"; "cluster-image-set.yaml"; "image-content-source-policy.yaml"]))))
    as (ign & files & policy & Hm & _ & _ & Hs & Hf & Hp); [done|done| |by vm_compute|].
  - by apply (bool_decide_unpack _).
  - exists ign, files, policy. split; [rewrite Hm; by vm_compute|]. split; [done|]. split; [|done].
    rewrite Hf. by vm_compute.
Defined.
End Ignition.
