(* ===== verification/ManagerOps.v ===== *)
(** internal/releases/manager.go, the operations on what the pipeline has made:
    agent images, copies of artifacts, and the log kept for the interface. *)

From S2P Require Import Prelude Effect GoLib Digest Os Blob Badger Metadata Oci Mirror Events.
From S2P Require Import Discovery Cloner Extractor Releases Pipeline Iso.

Module ManagerOps.
Export Pipeline.

(** [exec.Command(name, args...).CombinedOutput()]: the program works on the
    files of the host. *)
Class Exec := CombinedOutput : string → list string → Os → (bytes * option error) * Os.

(** [%q] of a string in ASCII; other characters stand as they are. *)
Definition quoteChar (c : ascii) : string :=
  let n := Z_of_byte c in
  if decide (n = 34 ∨ n = 92)%Z then String "\" (String c "")
  else if decide (7 ≤ n ≤ 13)%Z then
    String "\" (String (nth (Z.to_nat (n - 7)) ["a"; "b"; "t"; "n"; "v"; "f"; "r"]%char "a"%char) "")
  else if decide (n < 32 ∨ n = 127)%Z then "\x" +:+ EncodeToString [c]
  else String c "".

Fixpoint quoteBody (s : string) : string :=
  match s with EmptyString => EmptyString | String c s => quoteChar c +:+ quoteBody s end.

Definition Quote (s : string) : string := String "034" (quoteBody s +:+ String "034" "").

Section operations.
Context `{Badger} `{!Json MetadataStore.ManifestMeta} `{!Json MetadataStore.RepoMeta}.
Context `{!Json Release} `{!Json Events.Event} `{!MapRange} `{!Env} `{Gzip} `{Exec}.
Context (F : Faults).

Definition on_os {A} (f : Os → result A * Os) : M St A := λ s,
  let w := st_w s in
  let '(res, os) := f (w_os w) in
  (res, mkSt (st_cl s) (mkWorld _ (w_bs w) os (w_db w)) (st_synced s) (st_calls s)).

(** An event with further fields, if there is an event store. *)
Definition recordExtra (m : Manager) (ver details : string) (extra : gmap string string) : M St unit :=
  if mg_eventStore m then
    now1 ← time_Now; now2 ← time_Now;
    on_db (λ db, (Ok tt, Events.RecordEvent db now1 now2 Events.EventDownloadArtifact Events.SeverityInfo
                           ver details extra))
  else mret tt.

(** The release, which must be ready. *)
Definition readyRelease (version : string) : M St Release :=
  rel ← wrapping "release not found" (lookupRelease version);
  if decide (rl_State rel ≠ StateReady) then
    throw (Errorf ("release " +:+ version +:+ " is not ready (state: " +:+ rl_State rel +:+ ")"))
  else mret rel.

(** [id]: the identifier [uuid.New] gives.  The search for the slot ends, as
    [GenerateAgentISO_confined] shows, so its fuel does not run out. *)
Definition GenerateISO (m : Manager) (id version : string) (ignition : bytes) : M St (string * string) :=
  rel ← readyRelease version;
  if decide (Exists (λ a, ar_Name a = "coreos.iso") (rl_Artifacts rel)) then
    r ← on_os (λ os,
      match Iso.GenerateAgentISO F (Iso.NewISOGenerator (rc_ArtifactPath (mg_cfg m))) os id (rl_Version rel) ignition with
      | Some r => r
      | None => (Panic "out of fuel", os)
      end);
    let id := (r : string * string).1 in
    recordExtra m (rl_Version rel) ("Generated agent ISO: " +:+ id) {["install_id" := id]} ≫= λ _,
    mret (id, "/files/installs/" +:+ id +:+ "/agent.iso")
  else throw (Errorf ("release " +:+ version +:+ " does not have coreos.iso artifact")).

Definition InstallsPath (m : Manager) : string :=
  Iso.InstallsPath (Iso.NewISOGenerator (rc_ArtifactPath (mg_cfg m))).

(** The program and its arguments. *)
Definition copyCommand (srcPath destination : string) : string * list string :=
  if Contains destination "@" then ("scp", ["-o"; "StrictHostKeyChecking=no"; srcPath; destination])
  else ("cp", [srcPath; destination]).

Definition CopyArtifact (m : Manager) (version artifact destination : string) : M St unit :=
  rel ← readyRelease version;
  if decide (Exists (λ a, ar_Name a = artifact) (rl_Artifacts rel)) then
    let srcPath := Join [rc_ArtifactPath (mg_cfg m); rl_Version rel; artifact] in
    let '(name, args) := copyCommand srcPath destination in
    r ← on_os (λ os, let '(r, os) := CombinedOutput name args os in (Ok r, os));
    match (r : bytes * option error).2 with
    | Some e => throw (Errorf (name +:+ " failed: " +:+ err_msg e +:+ ": " +:+ bytes_str r.1))
    | None =>
      recordExtra m (rl_Version rel) ("Copied " +:+ artifact +:+ " to " +:+ destination)
        (<["artifact" := artifact]> {["destination" := destination]})
    end
  else throw (Errorf ("artifact " +:+ Quote artifact +:+ " not found in release " +:+ version)).
End operations.

(** ** The log of the interface *)

(** [logf] with the line it formats. *)
Definition logf (logLines : list string) (line : string) : list string :=
  let logLines := logLines ++ [line] in
  if decide (500 < length logLines) then drop (length logLines - 500) logLines else logLines.

Definition GetDiscoveryLog (logLines : list string) : list string := logLines.

(** The buffer is the last 500 lines that were logged. *)
Lemma logf_keeps_last lines :
  foldl logf [] lines = drop (length lines - 500) lines.
Proof.
  induction lines as [|line lines IH] using rev_ind; [done|].
  rewrite foldl_app. cbn [foldl]. rewrite IH. unfold logf. rewrite !length_app, length_drop.
  cbn [length]. case_decide as Hl.
  - rewrite drop_app_le by (rewrite length_drop; lia). rewrite drop_drop.
    rewrite drop_app_le by lia. do 2 f_equal. lia.
  - rewrite drop_app_le by lia. do 2 f_equal; lia.
Qed.
End ManagerOps.
