(* ===== verification/Auth.v ===== *)
(** internal/api/auth.go: users from an htpasswd file, and the check of a
    request's credentials.  SHA-1 and the line scanner are computed; bcrypt is
    a parameter. *)

From S2P Require Import Prelude GoLib Sha256 Os Base64 SyncClients V2.

(** ** crypto/sha1 *)

Module Sha1.
Open Scope Z_scope.

Definition rotl32 (x n : Z) : Z := Z.land (Z.lor (Z.shiftl x n) (Z.shiftr x (32 - n))) word_mask.

Definition state : Type := Z * Z * Z * Z * Z.
Definition init : state := (0x67452301, 0xEFCDAB89, 0x98BADCFE, 0x10325476, 0xC3D2E1F0).

(** The 80 words of a block, newest first. *)
Fixpoint extend (n : nat) (ws : list Z) : list Z :=
  match n with
  | O => ws
  | S n =>
    let w := rotl32 (Z.lxor (Z.lxor (nth 2 ws 0) (nth 7 ws 0)) (Z.lxor (nth 13 ws 0) (nth 15 ws 0))) 1 in
    extend n (w :: ws)
  end.

(** The function and the constant of round [t]. *)
Definition mix (t : nat) (b c d : Z) : Z * Z :=
  if decide (t < 20)%nat then (Z.lor (Z.land b c) (Z.land (not32 b) d), 0x5A827999)
  else if decide (t < 40)%nat then (Z.lxor b (Z.lxor c d), 0x6ED9EBA1)
  else if decide (t < 60)%nat then (Z.lor (Z.land b c) (Z.lor (Z.land b d) (Z.land c d)), 0x8F1BBCDC)
  else (Z.lxor b (Z.lxor c d), 0xCA62C1D6).

Definition round (s : state) (tw : nat * Z) : state :=
  let '(a, b, c, d, e) := s in
  let '(f, k) := mix tw.1 b c d in
  (add32 (rotl32 a 5) (add32 f (add32 e (add32 k tw.2))), a, rotl32 b 30, c, d).

Definition block (s : state) (ws : list Z) : state :=
  let '(a, b, c, d, e) := s in
  let '(a', b', c', d', e') := foldl round s (imap pair (reverse (extend 64 (reverse ws)))) in
  (add32 a a', add32 b b', add32 c c', add32 d d', add32 e e').

(** [fuel]: the number of words is enough, as every block takes sixteen. *)
Fixpoint blocks (fuel : nat) (s : state) (ws : list Z) : state :=
  match fuel, ws with
  | S fuel, _ :: _ => blocks fuel (block s (take 16 ws)) (drop 16 ws)
  | _, _ => s
  end.

Definition Sum (m : bytes) : bytes :=
  let ws := be_words (sha_pad m) in
  let '(a, b, c, d, e) := blocks (length ws) init ws in
  be_bytes 4 a ++ be_bytes 4 b ++ be_bytes 4 c ++ be_bytes 4 d ++ be_bytes 4 e.

Example sum_abc :
  EncodeToString (Sum (str_bytes "abc")) = "a9993e364706816aba3e25717850c26c9cd0d89d".
Proof. by vm_compute. Qed.

(** The hash of the word password, as the htpasswd program writes it. *)
Example sum_password : Base64.EncodeToString (Sum (str_bytes "password")) = "W6ph5Mm5Pz8GgiULbPgzG37mj9g=".
Proof. by vm_compute. Qed.
End Sha1.

Module Auth.

(** ** bufio.Scanner, by lines *)

(** The line up to the first line feed, and what follows it. *)
Fixpoint break_line (l : bytes) : bytes * option bytes :=
  match l with
  | [] => ([], None)
  | c :: l =>
    if decide (c = "010"%char) then ([], Some l)
    else let '(line, rest) := break_line l in (c :: line, rest)
  end.

(** A carriage return before the end of the line is dropped. *)
Definition dropCR (l : bytes) : bytes :=
  match last l with Some c => if decide (c = "013"%char) then removelast l else l | None => l end.

Definition maxTokenSize : Z := 65536.
Definition ErrTooLong : error := Errorf "bufio.Scanner: token too long".

(** The lines, until one does not fit the buffer; a last line without an end
    counts if it is not empty.  [fuel]: the number of bytes is enough. *)
Fixpoint scan (fuel : nat) (l : bytes) : list string * option error :=
  match fuel, l with
  | S fuel, _ :: _ =>
    let '(line, rest) := break_line l in
    if decide (maxTokenSize ≤ blen line)%Z then ([], Some ErrTooLong)
    else
      let '(lines, err) := match rest with Some rest => scan fuel rest | None => ([], None) end in
      (bytes_str (dropCR line) :: lines, err)
  | _, _ => ([], None)
  end.

Definition scanLines (F : Faults) (l : bytes) : list string * option error :=
  match F OpRead with
  | Some e => ([], Some e)
  | None => scan (length l) l
  end.

(** ** The htpasswd file *)

Record HtpasswdAuth := mkHtpasswdAuth {
  ha_users : gmap string string;
  ha_filePath : string;
  ha_required : bool
}.

(** The user and the stored password of a line, if it has them. *)
Definition entry (line : string) : option (string * string) :=
  let line := TrimSpace line in
  if decide (line = "" ∨ HasPrefix line "#" = true) then None
  else match Split2 ":" line with
       | [username; password] => Some (username, password)
       | _ => None
       end.

Definition add_line (users : gmap string string) (line : string) : gmap string string :=
  match entry line with Some (u, p) => <[u := p]> users | None => users end.

Definition set_users (users : gmap string string) (a : HtpasswdAuth) : HtpasswdAuth :=
  mkHtpasswdAuth users (ha_filePath a) (ha_required a).

Definition load (F : Faults) (os : Os) (a : HtpasswdAuth) : result unit * HtpasswdAuth :=
  match Open F os (ha_filePath a) with
  | Ok data =>
    let '(lines, err) := scanLines F data in
    (match err with Some e => Err e | None => Ok tt end, set_users (foldl add_line ∅ lines) a)
  | Err e => (Err (wrap "opening htpasswd file" e), a)
  | Panic p => (Panic p, a)
  end.

Definition NewHtpasswdAuth (F : Faults) (os : Os) (filePath : string) : result HtpasswdAuth :=
  if decide (filePath = "") then Ok (mkHtpasswdAuth ∅ filePath false)
  else
    let '(res, a) := load F os (mkHtpasswdAuth ∅ filePath true) in
    res ≫= λ _, Ok a.

Definition Reload (F : Faults) (os : Os) (a : HtpasswdAuth) : result unit * HtpasswdAuth := load F os a.

Definition Required (a : HtpasswdAuth) : bool := ha_required a.

(** ** Credentials *)

(** golang.org/x/crypto/bcrypt. *)
Class Bcrypt := CompareHashAndPassword : bytes → bytes → option error.

(** [subtle.ConstantTimeCompare(x, y) == 1]. *)
Definition same (x y : string) : bool := bool_decide (x = y).

Section credentials.
Context `{Bcrypt}.

Definition checkPassword (password stored : string) : bool :=
  if HasPrefix stored "$2" then
    match CompareHashAndPassword (str_bytes stored) (str_bytes password) with None => true | Some _ => false end
  else if HasPrefix stored "{SHA}" then
    let expected := "{SHA}" +:+ Base64.EncodeToString (Sha1.Sum (str_bytes password)) in
    same expected stored
  else if negb (Contains stored "$") && negb (HasPrefix stored "{") then same password stored
  else if HasPrefix stored "$apr1$" then false
  else false.

Definition verify (a : HtpasswdAuth) (username password : string) : bool :=
  match ha_users a !! username with
  | None => false
  | Some stored => checkPassword password stored
  end.

Definition Authenticate (a : HtpasswdAuth) (rq : V2.Request) : string * bool :=
  if negb (ha_required a) then ("anonymous", true)
  else
    let auth := V2.rq_Header rq "Authorization" in
    if decide (auth = "") then ("", false)
    else if negb (HasPrefix auth "Basic ") then ("", false)
    else
      match Base64.DecodeString (TrimPrefix auth "Basic ") with
      | None => ("", false)
      | Some decoded =>
        match Split2 ":" (bytes_str decoded) with
        | [username; password] => (username, verify a username password)
        | _ => ("", false)
        end
      end.
End credentials.

(** [NoAuth]. *)
Definition NoAuth_Authenticate (rq : V2.Request) : string * bool := ("anonymous", true).
Definition NoAuth_Required : bool := false.

(** The interface [Authenticator]. *)
Inductive Authenticator := Htpasswd (a : HtpasswdAuth) | NoAuth.

Definition authRequired (a : Authenticator) : bool :=
  match a with Htpasswd a => Required a | NoAuth => NoAuth_Required end.

Definition authenticate `{Bcrypt} (a : Authenticator) (rq : V2.Request) : string * bool :=
  match a with Htpasswd a => Authenticate a rq | NoAuth => NoAuth_Authenticate rq end.

(** ** What a request must carry *)

Section exact.
Context `{Bcrypt}.

(** A request is let in for exactly the users whose password it carries:
    with authentication required, a request is authenticated as a user if and
    only if its Authorization header is [Basic] with the Base64 text of the
    name, a colon and a password that matches what is stored for that user;
    the name ends at the first colon. *)
Theorem Authenticate_exact a rq user :
  ha_required a = true →
  Authenticate a rq = (user, true) ↔
  ∃ b64 password stored,
    V2.rq_Header rq "Authorization" = "Basic " +:+ b64 ∧
    Base64.DecodeString b64 = Some (str_bytes (user +:+ ":" +:+ password)) ∧ not_in ":" user ∧
    ha_users a !! user = Some stored ∧ checkPassword password stored = true.
Proof.
  intros Hr. unfold Authenticate. rewrite Hr. cbn [negb]. split.
  - case_decide; [done|]. destruct (HasPrefix _ "Basic ") eqn:Hp; [|done]. cbn [negb].
    apply HasPrefix_spec in Hp as [b64 Hb]. rewrite Hb, TrimPrefix_app.
    destruct (Base64.DecodeString b64) as [decoded|] eqn:Hd; [|done].
    destruct (Split2_cases ":" (bytes_str decoded)) as [[_ ->]|(u & p & Hs & Hu & ->)]; [done|].
    unfold verify. destruct (ha_users a !! u) as [stored|] eqn:Hl; [|done].
    intros [= <- Hc]. exists b64, p, stored. split; [done|]. split; [|done].
    by rewrite sapp_cons, sapp_nil_l, <-Hs, bytes_str_bytes.
  - intros (b64 & p & stored & -> & Hd & Hu & Hl & Hc).
    rewrite decide_False by done. rewrite HasPrefix_app. cbn [negb]. rewrite TrimPrefix_app, Hd.
    rewrite str_bytes_str, sapp_cons, sapp_nil_l, Split2_app by done.
    unfold verify. by rewrite Hl, Hc.
Qed.
End exact.

(** ** From the file to the request *)

Lemma break_line_app (l r : bytes) :
  "010"%char ∉ l → break_line (l ++ "010"%char :: r) = (l, Some r).
Proof.
  induction l as [|c l IH]; intros Hn; simpl; [done|].
  apply not_elem_of_cons in Hn as [Hc Hn]. rewrite decide_False by done. by rewrite IH.
Qed.

Lemma scan_lines (ls : list bytes) fuel :
  Forall (λ l, "010"%char ∉ l ∧ (blen l < maxTokenSize)%Z) ls → length (mjoin ((λ l, l ++ ["010"%char]) <$> ls)) ≤ fuel →
  scan fuel (mjoin ((λ l, l ++ ["010"%char]) <$> ls)) = ((λ l, bytes_str (dropCR l)) <$> ls, None).
Proof.
  intros Hls. revert fuel. induction Hls as [|l ls [Hn Hl] Hls IH]; intros fuel Hf; [by destruct fuel|].
  cbn [fmap list_fmap mjoin list_join] in *. rewrite <-app_assoc in *. cbn [app] in *.
  rewrite length_app in Hf. simpl in Hf. destruct fuel as [|fuel]; [lia|].
  cbn [scan]. rewrite break_line_app by done.
  destruct (l ++ "010"%char :: _) as [|x xs] eqn:E; [by destruct l|].
  rewrite decide_False by lia. rewrite IH by (unfold mjoin in *; lia). done.
Qed.

(** A line of an htpasswd file that means a user and what is stored. *)
Definition line_of (up : string * string) : string := up.1 +:+ ":" +:+ up.2.

Definition good_entry (up : string * string) : Prop :=
  not_in ":" up.1 ∧ not_in "010" (line_of up) ∧ (slen (line_of up) < maxTokenSize)%Z ∧
  TrimSpace (line_of up) = line_of up ∧ HasPrefix (line_of up) "#" = false.

Definition htpasswd (ups : list (string * string)) : bytes :=
  mjoin ((λ up, str_bytes (line_of up) ++ ["010"%char]) <$> ups).

Lemma trim_left_length l : length (trim_left l) ≤ length l.
Proof. induction l as [|c l IH]; simpl; [lia|]. destruct (is_space c); simpl; lia. Qed.

(** A trimmed line does not end in a carriage return. *)
Lemma dropCR_trimmed s : TrimSpace s = s → dropCR (str_bytes s) = str_bytes s.
Proof.
  intros Ht. apply (f_equal str_bytes) in Ht. unfold TrimSpace in Ht. rewrite bytes_str_bytes in Ht.
  set (l := str_bytes s) in *. unfold dropCR. destruct (last l) as [c|] eqn:El; [|done].
  case_decide as Hc; [|done]. subst c. exfalso.
  apply last_Some in El as [l' El]. apply (f_equal length) in Ht. rewrite length_reverse in Ht.
  pose proof (trim_left_length l) as H1.
  assert (length (trim_left l) = length l) as H2.
  { pose proof (trim_left_length (reverse (trim_left l))) as H3. rewrite length_reverse in H3. lia. }
  assert (trim_left l = l) as H3.
  { destruct l as [|c0 l0]; [done|]. simpl in *. destruct (is_space c0); [|done].
    pose proof (trim_left_length l0). simpl in *. lia. }
  rewrite H3, El, reverse_snoc in Ht. simpl in Ht.
  pose proof (trim_left_length (reverse l')) as H4. rewrite length_reverse in H4.
  rewrite length_app in Ht. simpl in Ht. lia.
Qed.

Lemma entry_line up : good_entry up → entry (line_of up) = Some up.
Proof.
  intros (Hu & _ & _ & Ht & Hh). unfold entry. rewrite Ht, Hh.
  rewrite decide_False by (intros [E|E]; [|done]; destruct up as [[] ?]; discriminate E).
  unfold line_of. rewrite sapp_cons, sapp_nil_l, Split2_app by done. by destruct up.
Qed.

Lemma load_htpasswd F os a ups :
  F OpOpen = None → F OpRead = None → Forall good_entry ups →
  os_files os !! ha_filePath a = Some (htpasswd ups) →
  load F os a = (Ok tt, set_users (foldl (λ m up, <[up.1 := up.2]> m) ∅ ups) a).
Proof.
  intros HO HR Hups Hf. unfold load, Open, scanLines. rewrite HO, HR, Hf.
  assert (scan (length (htpasswd ups)) (htpasswd ups) = (line_of <$> ups, None)) as ->.
  { pose proof (scan_lines ((λ up, str_bytes (line_of up)) <$> ups) (length (htpasswd ups))) as Hs.
    rewrite <-!list_fmap_compose in Hs. unfold htpasswd, compose in *. rewrite Hs; [| |done].
    - f_equal. apply list_fmap_ext. intros i up Hup. unfold compose.
      eapply Forall_lookup_1 in Hups; [|exact Hup]. rewrite dropCR_trimmed by apply Hups.
      by rewrite str_bytes_str.
    - apply Forall_fmap. eapply Forall_impl; [exact Hups|]. intros up (_ & Hn & Hl & _).
      split; [exact Hn|]. unfold blen, slen in *. by rewrite length_str_bytes. }
  f_equal. f_equal. clear Hf. generalize (∅ : gmap string string) as m.
  induction Hups as [|up ups Hup Hups IH]; intros m; [done|]. cbn [fmap list_fmap foldl].
  unfold add_line at 2. rewrite entry_line by done. destruct up. apply IH.
Qed.

Lemma last_entry (ups : list (string * string)) user stored :
  NoDup ups.*1 →
  foldl (λ m up, <[up.1 := up.2]> m) (∅ : gmap string string) ups !! user = Some stored ↔ (user, stored) ∈ ups.
Proof.
  intros Hnd. assert (foldl (λ m up, <[up.1 := up.2]> m) (∅ : gmap string string) ups = list_to_map (reverse ups)) as ->.
  { clear Hnd. induction ups as [|[u p] l IH] using rev_ind; [done|].
    rewrite foldl_app, reverse_snoc, IH. done. }
  rewrite <-elem_of_list_to_map by by rewrite fmap_reverse, reverse_Permutation.
  by rewrite reverse_Permutation.
Qed.

(** A source of the sync clients with a user and a password: a robot account,
    or a token with a colon. *)
Definition credentials (cfg : Sync.SyncSource) (user password : string) : Prop :=
  (Sync.ss_RobotAccount cfg = user ∧ Sync.ss_RobotToken cfg = password ∧ user ≠ "" ∧ password ≠ "") ∨
  ((Sync.ss_RobotAccount cfg = "" ∨ Sync.ss_RobotToken cfg = "") ∧
   Sync.ss_Token cfg = user +:+ ":" +:+ password).

Lemma credentials_sent cfg user password :
  not_in ":" user → credentials cfg user password → Sync.addAuth cfg = Some (Sync.basic user password).
Proof.
  intros Hu [(<- & <- & ? & ?)|(Hr & Ht)]; unfold Sync.addAuth.
  { by rewrite decide_True by done. }
  rewrite decide_False by tauto. unfold Sync.tokenAuth. rewrite Ht.
  rewrite decide_False by (destruct user; done).
  assert (∀ s t, Contains (s +:+ ":" +:+ t) ":" = true) as ->.
  { intros s t. unfold Contains. induction s as [|c s IH]; [done|]. rewrite sapp_cons. simpl.
    destruct (HasPrefix _ _); [done|]. by destruct (Index _ _). }
  by rewrite sapp_cons, sapp_nil_l, Split2_app.
Qed.

(** An htpasswd file lets in the users it lists: from a file with one line
    for each user, the authenticator lets a request that a sync client sends
    with a user and a password in exactly when the file has a line for that
    user whose stored password matches. *)
Theorem htpasswd_login `{Bcrypt} F os path ups cfg user password rq :
  F OpOpen = None → F OpRead = None → Forall good_entry ups → NoDup ups.*1 →
  path ≠ "" → os_files os !! path = Some (htpasswd ups) →
  not_in ":" user → credentials cfg user password →
  V2.rq_Header rq "Authorization" = default "" (Sync.addAuth cfg) →
  ∃ a ok, NewHtpasswdAuth F os path = Ok a ∧ authRequired (Htpasswd a) = true ∧
    authenticate (Htpasswd a) rq = (user, ok) ∧
    (ok = true ↔ ∃ stored, (user, stored) ∈ ups ∧ checkPassword password stored = true).
Proof.
  intros HO HR Hups Hnd Hp Hf Hu Hc Hh. rewrite (credentials_sent _ _ _ Hu Hc) in Hh. cbn [default] in Hh. unfold id in Hh.
  unfold NewHtpasswdAuth. rewrite decide_False by done.
  rewrite (load_htpasswd F os (mkHtpasswdAuth ∅ path true) ups HO HR Hups Hf).
  cbn [mbind result_bind set_users ha_filePath ha_required]. set (users := foldl _ _ _).
  exists (mkHtpasswdAuth users path true), (verify (mkHtpasswdAuth users path true) user password).
  split; [done|]. split; [done|]. split.
  - cbn [authenticate]. unfold Authenticate. cbn [ha_required negb]. rewrite Hh. unfold Sync.basic.
    rewrite decide_False by done. rewrite HasPrefix_app. cbn [negb].
    rewrite TrimPrefix_app, Base64.DecodeString_EncodeToString, str_bytes_str.
    by rewrite sapp_cons, sapp_nil_l, Split2_app.
  - unfold verify. cbn [ha_users]. destruct (users !! user) as [stored|] eqn:El.
    + pose proof El as Hin. apply last_entry in Hin; [|done].
      split; [by exists stored|]. intros (stored' & Hin' & Hs). apply last_entry in Hin'; [|done].
      by assert (stored' = stored) as -> by (unfold users in El; congruence).
    + split; [done|]. intros (stored & Hin & _). apply last_entry in Hin; [|done].
      unfold users in El. congruence.
Qed.

(** ** Examples *)

(** A hash that accepts one word. *)
Definition exBcrypt : Bcrypt := λ _ p,
  if decide (p = str_bytes "open") then None else Some (Errorf "hashedPassword is not the hash of the given password").
#[local] Existing Instance exBcrypt.

Definition exUsers : list (string * string) :=
  [("admin", "$2y$05$abc"); ("bot", "{SHA}W6ph5Mm5Pz8GgiULbPgzG37mj9g="); ("plain", "se cret")].
Definition exPath : string := "/etc/htpasswd".
Definition exOs : Os := mkOs {[exPath := htpasswd exUsers]} ∅ 0.
Definition exCfg : Sync.SyncSource :=
  Sync.mkSyncSource "peer" "registry" "http://peer" "bot:password" "" "" [] [] "" "" false false "" "once" 2.
Definition exRequest : V2.Request :=
  V2.mkRequest "GET" "/v2/" (λ _, "")
    (λ h, if decide (h = "Authorization") then default "" (Sync.addAuth exCfg) else "") 0 (NewReader []).

Lemma exUsers_good : Forall good_entry exUsers.
Proof. by apply (bool_decide_unpack _). Qed.

Lemma htpasswd_login_witness :
  ∃ a, NewHtpasswdAuth noFaults exOs exPath = Ok a ∧ authenticate (Htpasswd a) exRequest = ("bot", true).
Proof.
  destruct (htpasswd_login noFaults exOs exPath exUsers exCfg "bot" "password" exRequest)
    as (a & ok & Ha & _ & Hauth & Hok); [done|done|apply exUsers_good| |done|done| |by right; split; [left|]|done|].
  - apply (bool_decide_unpack _). by vm_compute.
  - apply (bool_decide_unpack _). by vm_compute.
  - exists a. split; [done|]. rewrite Hauth. f_equal. apply Hok.
    exists "{SHA}W6ph5Mm5Pz8GgiULbPgzG37mj9g=". split; [set_solver|by vm_compute].
Defined.

Definition exAuth : HtpasswdAuth := mkHtpasswdAuth (list_to_map exUsers) exPath true.

Lemma Authenticate_exact_witness :
  Authenticate exAuth exRequest = ("bot", true) ∧ ha_users exAuth !! "bot" = Some "{SHA}W6ph5Mm5Pz8GgiULbPgzG37mj9g=".
Proof.
  split; [|done]. apply (Authenticate_exact exAuth exRequest "bot"); [done|].
  exists (Base64.EncodeToString (str_bytes "bot:password")), "password", "{SHA}W6ph5Mm5Pz8GgiULbPgzG37mj9g=".
  split; [done|]. split; [by vm_compute|]. split; [by apply (bool_decide_unpack _)|].
  split; [done|by vm_compute].
Defined.

(** Stored plain passwords with a dollar sign, or that begin with a brace, are
    never matched. *)
Fact plain_password_never_matches :
  (λ p, checkPassword p p) <$> ["secret"; "pa$$word"; "{secret}"; "$apr1$x"] = [true; false; false; false].
Proof. by vm_compute. Qed.

(** A token without a colon is sent as a bearer token, which no authenticator
    of this program accepts. *)
Fact bearer_token_is_refused :
  Sync.tokenAuth "robot" = Some "Bearer robot" ∧
  Authenticate exAuth (V2.mkRequest "GET" "/v2/" (λ _, "") (λ _, "Bearer robot") 0 (NewReader [])) = ("", false).
Proof. done. Qed.

(** A reload that meets a line that is too long reports the error and keeps
    only the users before it. *)
Fact failed_reload_drops_users :
  let long := mkOs {[exPath := str_bytes "a:b" ++ "010"%char :: repeat "x"%char 65536]} ∅ 0 in
  (Reload noFaults long exAuth).1 = Err ErrTooLong ∧
  map_to_list (ha_users (Reload noFaults long exAuth).2) = [("a", "b")].
Proof. by vm_compute. Qed.
End Auth.
