(* ===== verification/Tracker.v ===== *)
(** internal/api/download_tracker.go: the file server that records downloads
    of release artifacts. *)

From S2P Require Import Prelude GoLib Badger Metadata Events V2.

Module Tracker.

(** ** The response as it is written *)

(** What the wrapped handler does to its [ResponseWriter]; a write is accepted
    by the connection up to a number of bytes. *)
Inductive wcall :=
  | WriteHeader (code : Z)
  | Write (b : bytes) (accepted : nat).

Record trackingResponseWriter := mkTracking { tw_status : Z; tw_written : Z }.

Definition track (tw : trackingResponseWriter) (c : wcall) : trackingResponseWriter :=
  match c with
  | WriteHeader code => mkTracking code (tw_written tw)
  | Write b n => mkTracking (tw_status tw) (wrap64 (tw_written tw + Z.of_nat n))
  end.

Definition tracked (calls : list wcall) : trackingResponseWriter := foldl track (mkTracking 0 0) calls.

(** ** The request *)

Definition parseReleasePath (path : string) : string * string :=
  let parts := Split "/" (TrimPrefix path "/") in
  match reverse parts with
  | artifact :: version :: _ => (version, artifact)
  | _ => ("", "")
  end.

(** [strings.IndexByte] and [strings.LastIndexByte] on the bytes of a string. *)
Fixpoint indexByte (c : ascii) (l : bytes) : option nat :=
  match l with
  | [] => None
  | x :: l => if decide (x = c) then Some 0 else S <$> indexByte c l
  end.
Definition lastIndexByte (c : ascii) (l : bytes) : option nat :=
  (λ i, length l - 1 - i) <$> indexByte c (reverse l).

(** The host [net.SplitHostPort] returns, empty when the address is not one. *)
Definition splitHost (hostport : string) : string :=
  let l := str_bytes hostport in
  match lastIndexByte ":" l with
  | None => ""
  | Some i =>
    match l with
    | "["%char :: _ =>
      match indexByte "]" l with
      | Some e =>
        if decide (S e = i ∧ "["%char ∉ drop 1 l ∧ "]"%char ∉ drop (S e) l)
        then bytes_str (drop 1 (take e l)) else ""
      | None => ""
      end
    | _ =>
      let host := take i l in
      if decide (":"%char ∉ host ∧ "["%char ∉ l ∧ "]"%char ∉ l) then bytes_str host else ""
    end
  end.

Definition clientIP (rq : V2.Request) (remoteAddr : string) : string :=
  let xff := V2.rq_Header rq "X-Forwarded-For" in
  if decide (xff ≠ "") then
    match indexByte "," (str_bytes xff) with
    | Some (S i) => TrimSpace (stake (S i) xff)
    | _ => TrimSpace xff
    end
  else
    let xri := V2.rq_Header rq "X-Real-IP" in
    if decide (xri ≠ "") then xri else splitHost remoteAddr.

Example client_ips :
  splitHost "10.0.0.5:41312" = "10.0.0.5" ∧ splitHost "[fe80::1]:8080" = "fe80::1" ∧
  splitHost "10.0.0.5" = "" ∧ splitHost "a:b:c" = "" ∧ splitHost "[a]b:1" = "".
Proof. by vm_compute. Qed.

(** ** Sizes *)

(** The loop of [formatBytes]: [div] and [exp] for the quotient [n]; an int64
    has at most six digits to the base 1024. *)
Fixpoint units (fuel : nat) (n div exp : Z) : Z * Z :=
  match fuel with
  | O => (div, exp)
  | S fuel => if decide (n >= 1024)%Z then units fuel (Z.quot n 1024) (div * 1024) (exp + 1) else (div, exp)
  end.

(** The nearest integer to a quotient, to an even one when it lies between
    two: what [%.1f] does with the last digit.  The float64 division by a
    power of two is exact for the sizes that are printed. *)
Definition roundEven (n d : Z) : Z :=
  let q := (n / d)%Z in let r := (n mod d)%Z in
  if decide (2 * r < d)%Z then q
  else if decide (d < 2 * r)%Z then (q + 1)%Z
  else if Z.even q then q else (q + 1)%Z.

Definition fmt_1f (n d : Z) : string :=
  let t := roundEven (10 * n) d in fmt_d (t / 10) +:+ "." +:+ fmt_d (t mod 10).

Definition suffixes : list string := ["KB"; "MB"; "GB"; "TB"].

Definition formatBytes (b : Z) : result string :=
  if decide (b < 1024)%Z then Ok (fmt_d b +:+ " B")
  else
    let '(div, exp) := units 6 (Z.quot b 1024) 1024 0 in
    match suffixes !! Z.to_nat exp with
    | Some suffix => Ok (fmt_1f b div +:+ " " +:+ suffix)
    | None => Panic "index out of range"
    end.

Example sizes :
  formatBytes <$> [512; 1024; 1536; 1048064; 1073741824; 1125899906842623; 1125899906842624]%Z =
  [Ok "512 B"; Ok "1.0 KB"; Ok "1.5 KB"; Ok "1023.5 KB"; Ok "1.0 GB"; Ok "1024.0 TB"; Panic "index out of range"].
Proof. by vm_compute. Qed.

(** ** The server *)

Section server.
Context `{Badger} `{!Json Events.Event} `{!Json Events.DownloadRecord} `{!Json Events.DownloadCounter}.

(** The record of a download: [clock] is read when the request arrives, for
    the record and for the duration. *)
Definition downloadRecord (rq : V2.Request) (remoteAddr : string) (tw : trackingResponseWriter)
    (clock : nat → Time) : Events.DownloadRecord :=
  let '(version, artifact) := parseReleasePath (V2.rq_Path rq) in
  Events.mkDownloadRecord (clock 1) version artifact (clientIP rq remoteAddr)
    (V2.rq_Header rq "User-Agent") (tw_written tw) (TimeSub (clock 2) (clock 0)).

(** [eventStore]: whether there is one; [calls]: what the wrapped handler does
    with the request; [clock]: the readings of the clock in turn.  The calls go
    to the connection as they are. *)
Definition ServeHTTP (eventStore : bool) (rq : V2.Request) (remoteAddr : string) (calls : list wcall)
    (clock : nat → Time) (db : DB) : result (list wcall) * DB :=
  let '(version, artifact) := parseReleasePath (V2.rq_Path rq) in
  if decide (V2.rq_Method rq ≠ "GET" ∨ eventStore = false ∨ version = "" ∨ artifact = "") then (Ok calls, db)
  else
    let tw := tracked calls in
    if decide (tw_status tw = 0 ∨ tw_status tw = 200)%Z then
      let db := Events.RecordDownload db (clock 3) (downloadRecord rq remoteAddr tw clock) in
      match formatBytes (tw_written tw) with
      | Ok size =>
        (Ok calls,
         Events.RecordEvent db (clock 4) (clock 5) Events.EventDownloadArtifact Events.SeverityInfo version
           (artifact +:+ " downloaded by " +:+ clientIP rq remoteAddr)
           (<["artifact" := artifact]> {["size" := size]}))
      | Err e => (Err e, db)
      | Panic p => (Panic p, db)
      end
    else (Ok calls, db).
End server.

(** ** What a size is printed as *)

Lemma units_spec b fuel : ∀ k, (0 ≤ k)%Z →
  (1024 ^ (k + 1) ≤ b < 1024 ^ (k + 2 + Z.of_nat fuel))%Z →
  ∃ j, (k ≤ j)%Z ∧ units fuel (b / 1024 ^ (k + 1)) (1024 ^ (k + 1)) k = (1024 ^ (j + 1), j)%Z ∧
    (1024 ^ (j + 1) ≤ b < 1024 ^ (j + 2))%Z.
Proof.
  induction fuel as [|fuel IH]; intros k Hk Hb.
  { exists k. rewrite Z.add_0_r in Hb. split; [lia|]. by split. }
  assert (0 < 1024 ^ (k + 1))%Z as Hpos by (apply Z.pow_pos_nonneg; lia).
  assert (1024 ^ (k + 2) = 1024 ^ (k + 1) * 1024)%Z as E2.
  { replace (k + 2)%Z with (Z.succ (k + 1)) by lia. rewrite Z.pow_succ_r by lia. lia. }
  cbn [units]. case_decide as Hn.
  - assert (1024 ^ (k + 2) ≤ b)%Z.
    { rewrite E2. pose proof (Z.mul_div_le b (1024 ^ (k + 1)) Hpos). nia. }
    rewrite Z.quot_div_nonneg by (try apply Z.div_pos; lia). rewrite Z.div_div, <-E2 by lia.
    destruct (IH (k + 1)%Z) as (j & Hj & Hu & Hjb); [lia|..].
    { replace (k + 1 + 1)%Z with (k + 2)%Z by lia.
      replace (k + 1 + 2 + Z.of_nat fuel)%Z with (k + 2 + Z.of_nat (S fuel))%Z by lia. lia. }
    exists j. split; [lia|]. split; [|done].
    by replace (k + 1 + 1)%Z with (k + 2)%Z in Hu by lia.
  - exists k. split; [lia|]. split; [done|]. split; [lia|]. rewrite E2.
    assert (b / 1024 ^ (k + 1) < 1024)%Z as Hlt by lia. pose proof (Z.mod_pos_bound b (1024 ^ (k + 1)) Hpos).
    pose proof (Z.div_mod b (1024 ^ (k + 1))). nia.
Qed.

Lemma roundEven_near n d : (0 < d)%Z → (Z.abs (2 * (roundEven n d * d - n)) ≤ d)%Z.
Proof.
  intros Hd. unfold roundEven. pose proof (Z.div_mod n d). pose proof (Z.mod_pos_bound n d Hd).
  repeat case_decide; [nia..|]. destruct (Z.even _); nia.
Qed.

(** A size is printed in the largest unit that fits, to the nearest tenth:
    a size below 1024 as it is, a size of at least [1024^k] and less than
    [1024^(k+1)] bytes, for [k] from 1 to 4, as a number of tenths of that
    unit that is as near as can be; and exactly the sizes of [1024^5] bytes
    and more, for which there is no suffix, make the function panic. *)
Theorem formatBytes_spec b :
  (0 ≤ b ≤ maxInt64)%Z →
  (b < 1024 → formatBytes b = Ok (fmt_d b +:+ " B"))%Z ∧
  (∀ k suffix, suffixes !! k = Some suffix →
     (1024 ^ (Z.of_nat k + 1) ≤ b < 1024 ^ (Z.of_nat k + 2))%Z →
     ∃ t, formatBytes b = Ok (fmt_d (t / 10) +:+ "." +:+ fmt_d (t mod 10) +:+ " " +:+ suffix) ∧
       (Z.abs (2 * (t * 1024 ^ (Z.of_nat k + 1) - 10 * b)) ≤ 1024 ^ (Z.of_nat k + 1))%Z) ∧
  ((1024 ^ 5 ≤ b)%Z ↔ formatBytes b = Panic "index out of range").
Proof.
  intros Hb. split; [intros Hs; unfold formatBytes; by rewrite decide_True|].
  assert (1024 ≤ b → ∃ j, 0 ≤ j ∧ (1024 ^ (j + 1) ≤ b < 1024 ^ (j + 2)) ∧
    formatBytes b = match suffixes !! Z.to_nat j with
      | Some suffix => Ok (fmt_1f b (1024 ^ (j + 1)) +:+ " " +:+ suffix)
      | None => Panic "index out of range" end)%Z as Hf.
  { intros H1. destruct (units_spec b 6 0) as (j & Hj & Hu & Hjb); [lia| |].
    - change (1024 ^ (0 + 1))%Z with 1024%Z. change (1024 ^ (0 + 2 + Z.of_nat 6))%Z with (2 ^ 80)%Z.
      unfold maxInt64 in Hb. lia.
    - exists j. split; [done|]. split; [done|]. unfold formatBytes. rewrite decide_False by lia.
      rewrite Z.quot_div_nonneg by lia. change (1024 ^ (0 + 1))%Z with 1024%Z in Hu. by rewrite Hu. }
  assert (∀ i j, 0 ≤ i → 0 ≤ j → 1024 ^ (i + 1) ≤ b → b < 1024 ^ (j + 2) → i ≤ j)%Z as Hle.
  { intros i j Hi Hj H1 H2. destruct (decide (i ≤ j)%Z) as [|Hn]; [done|].
    pose proof (Z.pow_le_mono_r 1024 (j + 2) (i + 1)). lia. }
  split.
  - intros k suffix Hk Hkb. destruct Hf as (j & Hj & Hjb & Hf).
    { pose proof (Z.pow_le_mono_r 1024 1 (Z.of_nat k + 1)). lia. }
    assert (j = Z.of_nat k) as ->.
    { apply Z.le_antisymm; [apply Hle|apply Hle]; lia. }
    rewrite Nat2Z.id, Hk in Hf. exists (roundEven (10 * b) (1024 ^ (Z.of_nat k + 1))).
    split; [rewrite Hf; unfold fmt_1f; by rewrite !sapp_assoc|].
    apply roundEven_near. apply Z.pow_pos_nonneg; lia.
  - split.
    + intros H5. destruct Hf as (j & Hj & Hjb & ->); [lia|].
      assert (4 ≤ j)%Z by (apply Hle; [lia..|exact H5|lia]).
      by rewrite lookup_ge_None_2 by (simpl; lia).
    + intros Hp. destruct (decide (b < 1024)%Z) as [Hs|Hs].
      { revert Hp. unfold formatBytes. by rewrite decide_True. }
      destruct Hf as (j & Hj & Hjb & Hf); [lia|]. rewrite Hf in Hp.
      destruct (suffixes !! Z.to_nat j) eqn:Ej; [done|]. apply lookup_ge_None in Ej. simpl in Ej.
      pose proof (Z.pow_le_mono_r 1024 5 (j + 1)). lia.
Qed.

Lemma formatBytes_spec_witness :
  formatBytes 1023 = Ok "1023 B" ∧ ∃ t, formatBytes 1536 = Ok (fmt_d (t / 10) +:+ "." +:+ fmt_d (t mod 10) +:+ " KB").
Proof.
  split; [by apply (formatBytes_spec 1023)|].
  destruct (formatBytes_spec 1536) as (_ & Hk & _); [unfold maxInt64; lia|].
  destruct (Hk 0 "KB") as (t & Ht & _); [done|split; vm_compute; [|done]; intros E; discriminate E|].
  by exists t.
Defined.

(** ** What is recorded *)

(** The bytes the connection accepted. *)
Definition accepted (calls : list wcall) : Z :=
  foldr (λ c n, match c with Write _ k => Z.of_nat k + n | WriteHeader _ => n end)%Z 0%Z calls.

Lemma tracked_written calls :
  (accepted calls ≤ maxInt64)%Z → tw_written (tracked calls) = accepted calls.
Proof.
  intros Hb. unfold tracked.
  assert (∀ calls st n, 0 ≤ accepted calls → 0 ≤ n → (n + accepted calls ≤ maxInt64) →
    tw_written (foldl track (mkTracking st n) calls) = n + accepted calls)%Z as Hf.
  { clear. induction calls as [|[code|b k] calls IH]; intros st n Ha Hn Hb; cbn [foldl track tw_status tw_written];
      [simpl; lia|..].
    - by apply IH.
    - cbn [accepted foldr] in *. fold (accepted calls) in *.
      assert (0 ≤ accepted calls)%Z.
      { clear. induction calls as [|[|] calls IH]; simpl; unfold accepted in *; simpl; lia. }
      rewrite wrap64_id by (unfold in64, minInt64, maxInt64 in *; lia). rewrite IH; lia. }
  assert (0 ≤ accepted calls)%Z.
  { clear. induction calls as [|[|] calls IH]; simpl; unfold accepted in *; simpl; lia. }
  rewrite Hf by lia. lia.
Qed.

Section theorems.
Context `{BadgerLaws} `{!Json Events.Event} `{!JsonLaws Events.Event Events.event_ok}.
Context `{!Json Events.DownloadRecord} `{!JsonLaws Events.DownloadRecord Events.download_ok}.
Context `{!Json Events.DownloadCounter} `{!JsonLaws Events.DownloadCounter Events.counter_ok}.

(** The requests that are downloads of an artifact. *)
Definition is_download (rq : V2.Request) (calls : list wcall) : Prop :=
  V2.rq_Method rq = "GET" ∧ (parseReleasePath (V2.rq_Path rq)).1 ≠ "" ∧
  (parseReleasePath (V2.rq_Path rq)).2 ≠ "" ∧
  (tw_status (tracked calls) = 0 ∨ tw_status (tracked calls) = 200)%Z.

Definition downloadEvent (rq : V2.Request) (remoteAddr : string) (size : string) (clock : nat → Time) : Events.Event :=
  let '(version, artifact) := parseReleasePath (V2.rq_Path rq) in
  Events.mkEvent (Events.reverseTimestamp (clock 4)) Events.EventDownloadArtifact Events.SeverityInfo (clock 5)
    version (artifact +:+ " downloaded by " +:+ clientIP rq remoteAddr)
    (<["artifact" := artifact]> {["size" := size]}).

End theorems.

(** ** Example *)

#[local] Existing Instances mapBadger mapBadgerLaws Events.jsonEvent Events.jsonDownload Events.jsonCounter.
#[local] Instance exEventLaws : JsonLaws Events.Event Events.event_ok := countableJsonLaws _ _.
#[local] Instance exDownloadLaws : JsonLaws Events.DownloadRecord Events.download_ok := countableJsonLaws _ _.
#[local] Instance exCounterLaws : JsonLaws Events.DownloadCounter Events.counter_ok := countableJsonLaws _ _.

Definition exRequest : V2.Request :=
  V2.mkRequest "GET" "/files/releases/4.18.1/coreos.iso" (λ _, "")
    (λ h, if decide (h = "X-Forwarded-For") then "10.0.0.9, 10.0.0.1" else "curl") 0 (NewReader []).
Definition exCalls : list wcall := [WriteHeader 200; Write (repeat "x"%char 1000) 1000; Write (repeat "y"%char 536) 536].
Definition exClock (n : nat) : Time := Events.exNow (Z.of_nat n).

End Tracker.
