(* ===== verification/Config.v ===== *)
(** config/config.go: the configuration, its defaults and its file.  YAML is a
    parameter that fills in a record; [os.ExpandEnv] is computed. *)

From S2P Require Import Prelude GoLib Os Mirror SyncClients Releases.

Module Config.

(** ** The records *)

Record TLSConfig := mkTLSConfig { tls_Cert : string; tls_Key : string }.
Record ServerConfig := mkServerConfig { sc_Addr : string; sc_AlsoListen : string; sc_TLS : TLSConfig }.
Record GCConfig := mkGCConfig { gc_Enabled : bool; gc_Schedule : string; gc_KeepRecent : Z }.
Record StorageConfig := mkStorageConfig { st_Path : string; st_CacheSizeMB : Z; st_GC : GCConfig }.
Record MeshConfig := mkMeshConfig {
  me_Enabled : bool;
  me_Bind : string;
  me_Peers : list string;
  me_ReplicationFactor : Z
}.
Record AuthConfig := mkAuthConfig { au_Type : string; au_HtpasswdFile : string }.
Record CertsConfig := mkCertsConfig {
  ce_AutoGenerate : bool;
  ce_CACert : string;
  ce_CAKey : string;
  ce_OutputDir : string
}.

(** [config.ReleasesConfig]: what the manager uses of it, and the rest. *)
Record ReleasesSection := mkReleasesSection {
  re_Enabled : bool;
  re_cfg : Releases.ReleasesConfig;
  re_PullSecret : string;
  re_AutoDiscover : bool;
  re_DiscoverSchedule : string
}.

Record Config := mkConfig {
  c_Server : ServerConfig;
  c_Storage : StorageConfig;
  c_Mesh : MeshConfig;
  c_Mirrors : list Mirror.MirrorConfig;
  c_Sync : list Sync.SyncSource;
  c_Auth : AuthConfig;
  c_Releases : ReleasesSection;
  c_Certs : CertsConfig
}.

Definition DefaultConfig : Config :=
  mkConfig
    (mkServerConfig ":5000" "" (mkTLSConfig "" ""))
    (mkStorageConfig "/var/lib/fastregistry" 1024 (mkGCConfig true "0 2 * * *" 10))
    (mkMeshConfig false ":7946" [] 2)
    [] []
    (mkAuthConfig "none" "")
    (mkReleasesSection false
       (Releases.mkReleasesConfig "quay.io" "openshift-release-dev/ocp-release" "openshift/release"
          ["x86_64"; "aarch64"] "")
       "" false "0 */6 * * *")
    (mkCertsConfig true "" "" "").

(** ** os.ExpandEnv *)

Definition isShellSpecialVar (c : byte) : bool :=
  bool_decide (c ∈ (["*"; "#"; "$"; "@"; "!"; "?"; "-"; "0"; "1"; "2"; "3"; "4"; "5"; "6"; "7"; "8"; "9"]%char : bytes)).

Definition isAlphaNum (c : byte) : bool :=
  let n := Z_of_byte c in
  bool_decide (c = "_"%char) || bool_decide (48 ≤ n ≤ 57)%Z || bool_decide (97 ≤ n ≤ 122)%Z ||
  bool_decide (65 ≤ n ≤ 90)%Z.

(** What precedes the first closing brace, if there is one. *)
Fixpoint to_brace (l : bytes) : option bytes :=
  match l with
  | [] => None
  | c :: l => if decide (c = "}"%char) then Some [] else (cons c) <$> to_brace l
  end.

Fixpoint alphaNums (l : bytes) : bytes :=
  match l with
  | c :: l => if isAlphaNum c then c :: alphaNums l else []
  | [] => []
  end.

(** The name at the beginning of what follows a dollar sign, and the number of
    bytes to skip. *)
Definition getShellName (l : bytes) : bytes * nat :=
  match l with
  | [] => ([], 0)
  | c :: r =>
    if decide (c = "{"%char) then
      let scan := match to_brace r with
                  | Some [] => ([], 2)
                  | Some name => (name, length name + 2)
                  | None => ([], 1)
                  end in
      match r with
      | x :: y :: _ => if isShellSpecialVar x && bool_decide (y = "}"%char) then ([x], 3) else scan
      | _ => scan
      end
    else if isShellSpecialVar c then ([c], 1)
    else let name := alphaNums l in (name, length name)
  end.

(** [os.Expand]; [fuel]: the length is enough.  A dollar sign at the end stands
    for itself, and so does one that no name follows; bad syntax is eaten. *)
Fixpoint expand (getenv : string → string) (fuel : nat) (l : bytes) : bytes :=
  match fuel, l with
  | S fuel, c :: r =>
    if decide (c = "$"%char ∧ r ≠ []) then
      let '(name, w) := getShellName r in
      (if decide (name = [] ∧ 0 < w) then []
       else if decide (name = []) then ["$"%char]
       else str_bytes (getenv (bytes_str name))) ++ expand getenv fuel (drop w r)
    else c :: expand getenv fuel r
  | _, _ => []
  end.

Definition ExpandEnv (getenv : string → string) (s : string) : string :=
  bytes_str (expand getenv (String.length s) (str_bytes s)).

Example expands :
  let env := λ x, if decide (x = "TOKEN") then "s3cret" else "" in
  ExpandEnv env <$> ["a: $TOKEN."; "b: ${TOKEN}x"; "pa$$word"; "cost $ 5 $"; "${}y"; "${z"] =
  ["a: s3cret."; "b: s3cretx"; "paword"; "cost $ 5 $"; "y"; "z"].
Proof. by vm_compute. Qed.

(** ** Loading *)

(** gopkg.in/yaml.v3, into a record that has the defaults. *)
Class YamlInto (A : Type) := yaml_into : bytes → A → result A.

Definition sourceDefaults (src : Sync.SyncSource) : Sync.SyncSource :=
  Sync.mkSyncSource (Sync.ss_Name src) (Sync.ss_Type src) (Sync.ss_URL src) (Sync.ss_Token src)
    (Sync.ss_RobotAccount src) (Sync.ss_RobotToken src) (Sync.ss_Organizations src)
    (Sync.ss_Repositories src) (Sync.ss_IncludeTags src) (Sync.ss_ExcludeTags src)
    (Sync.ss_SyncSignatures src) (Sync.ss_SyncSBOMs src) (Sync.ss_Schedule src)
    (if decide (Sync.ss_Mode src = "") then "once" else Sync.ss_Mode src)
    (if decide (Sync.ss_Concurrency src = 0%Z) then 5%Z else Sync.ss_Concurrency src).

Definition set_artifactPath (p : string) (r : ReleasesSection) : ReleasesSection :=
  let c := re_cfg r in
  mkReleasesSection (re_Enabled r)
    (Releases.mkReleasesConfig (Releases.rc_Upstream c) (Releases.rc_Repository c) (Releases.rc_LocalRepo c)
       (Releases.rc_Architectures c) p)
    (re_PullSecret r) (re_AutoDiscover r) (re_DiscoverSchedule r).

Definition set_outputDir (p : string) (c : CertsConfig) : CertsConfig :=
  mkCertsConfig (ce_AutoGenerate c) (ce_CACert c) (ce_CAKey c) p.

(** [Validate] completes the configuration it checks. *)
Definition Validate (c : Config) : result Config :=
  if decide (sc_Addr (c_Server c) = "") then Err (Errorf "server.addr is required")
  else if decide (st_Path (c_Storage c) = "") then Err (Errorf "storage.path is required")
  else
    let root := st_Path (c_Storage c) in
    let releases := c_Releases c in let certs := c_Certs c in
    Ok (mkConfig (c_Server c) (c_Storage c) (c_Mesh c) (c_Mirrors c)
          (sourceDefaults <$> c_Sync c) (c_Auth c)
          (if decide (Releases.rc_ArtifactPath (re_cfg releases) = "")
           then set_artifactPath (Join [root; "releases"]) releases else releases)
          (if decide (ce_OutputDir certs = "") then set_outputDir (Join [root; "certs"]) certs else certs)).

Definition Load `{!YamlInto Config} (F : Faults) (getenv : string → string) (os : Os) (path : string)
    : result Config :=
  match match F OpRead with Some e => Err e | None => Open F os path end with
  | Err e => Err (wrap "reading config file" e)
  | Panic p => Panic p
  | Ok data =>
    let data := str_bytes (ExpandEnv getenv (bytes_str data)) in
    match yaml_into data DefaultConfig with
    | Err e => Err (wrap "parsing config file" e)
    | Panic p => Panic p
    | Ok cfg =>
      match Validate cfg with Err e => Err (wrap "validating config" e) | r => r end
    end
  end.

(** The configuration [main] starts with: the file's, or the defaults; the
    flags take precedence. *)
Definition set_path (p : string) (s : StorageConfig) : StorageConfig :=
  mkStorageConfig p (st_CacheSizeMB s) (st_GC s).
Definition set_addr (a : string) (s : ServerConfig) : ServerConfig :=
  mkServerConfig a (sc_AlsoListen s) (sc_TLS s).

Definition override (storagePath listenAddr : string) (c : Config) : Config :=
  mkConfig
    (if decide (listenAddr ≠ "") then set_addr listenAddr (c_Server c) else c_Server c)
    (if decide (storagePath ≠ "") then set_path storagePath (c_Storage c) else c_Storage c)
    (c_Mesh c) (c_Mirrors c) (c_Sync c) (c_Auth c) (c_Releases c) (c_Certs c).

Definition configuration `{!YamlInto Config} (F : Faults) (getenv : string → string) (os : Os)
    (configFile storagePath listenAddr : string) : result Config :=
  cfg ← (if decide (configFile ≠ "") then Load F getenv os configFile else Ok DefaultConfig);
  Ok (override storagePath listenAddr cfg).

(** ** What a loaded configuration is *)

(** A part of a configuration file: text without a dollar sign, or the value
    of a variable, written in braces. *)
Inductive segment := Text (s : string) | Var (name : string).

Definition good_segment (g : segment) : Prop :=
  match g with Text s => not_in "$" s | Var name => name ≠ "" ∧ not_in "}" name end.
Global Instance good_segment_dec g : Decision (good_segment g).
Proof. destruct g; apply _. Defined.

Definition written (g : segment) : string :=
  match g with Text s => s | Var name => "${" +:+ name +:+ "}" end.
Definition value (getenv : string → string) (g : segment) : string :=
  match g with Text s => s | Var name => getenv name end.

Definition concat_str (l : list string) : string := foldr String.append "" l.

Lemma to_brace_name name r : "}"%char ∉ name → to_brace (name ++ "}"%char :: r) = Some name.
Proof.
  induction name as [|c name IH]; intros Hn; simpl; [done|].
  rewrite decide_False by set_solver. by rewrite IH by set_solver.
Qed.

Lemma getShellName_braces name r :
  name ≠ [] → "}"%char ∉ name →
  getShellName ("{"%char :: name ++ "}"%char :: r) = (name, length name + 2).
Proof.
  intros Hne Hn. unfold getShellName. rewrite decide_True by done.
  rewrite to_brace_name by done. destruct name as [|x name]; [done|]. clear Hne. simpl app.
  destruct name as [|y name]; simpl app.
  - by repeat case_match.
  - cbv beta iota. destruct (isShellSpecialVar x && _) eqn:E; [|done].
    apply andb_prop in E as [_ ->%bool_decide_eq_true]. set_solver.
Qed.

Lemma expand_fuel getenv f1 : ∀ f2 l, length l ≤ f1 → length l ≤ f2 → expand getenv f1 l = expand getenv f2 l.
Proof.
  induction f1 as [|f1 IH]; intros [|f2] [|c l] H1 H2; simpl in *; try done; try lia.
  case_decide; [|f_equal; apply IH; lia]. destruct (getShellName l) as [name w].
  f_equal. apply IH; rewrite length_drop; lia.
Qed.

Lemma expand_text getenv s : ∀ r f,
  "$"%char ∉ s → length (s ++ r) ≤ f → expand getenv f (s ++ r) = s ++ expand getenv (length r) r.
Proof.
  induction s as [|c s IH]; intros r f Hn Hf; simpl app in *.
  - by apply expand_fuel.
  - destruct f as [|f]; [simpl in Hf; lia|]. simpl. rewrite decide_False by set_solver.
    f_equal. apply IH; [set_solver|simpl in Hf; lia].
Qed.

Lemma expand_var getenv name r f :
  name ≠ [] → "}"%char ∉ name → length name + 3 + length r ≤ f →
  expand getenv f ("$"%char :: "{"%char :: name ++ "}"%char :: r) =
    str_bytes (getenv (bytes_str name)) ++ expand getenv (length r) r.
Proof.
  intros Hne Hn Hf. destruct f as [|f]; [lia|]. cbn [expand]. rewrite decide_True by done.
  rewrite getShellName_braces by done. rewrite decide_False by (intros [? _]; done).
  rewrite decide_False by done. f_equal.
  replace (drop (length name + 2) ("{"%char :: name ++ "}"%char :: r)) with r.
  - apply expand_fuel; lia.
  - rewrite Nat.add_comm. simpl. rewrite cons_middle, app_assoc, drop_app_length'; [done|].
    rewrite length_app. simpl. lia.
Qed.

Lemma expand_segments getenv gs :
  Forall good_segment gs →
  ExpandEnv getenv (concat_str (written <$> gs)) = concat_str (value getenv <$> gs).
Proof.
  intros Hg. unfold ExpandEnv. rewrite <-length_str_bytes.
  induction Hg as [|g gs Hg Hgs IH]; [done|]. cbn [fmap list_fmap concat_str foldr].
  fold (concat_str (written <$> gs)). fold (concat_str (value getenv <$> gs)). rewrite <-IH.
  rewrite str_bytes_app. destruct g as [s|name]; simpl written; simpl value.
  - rewrite expand_text by done. by rewrite bytes_str_app, str_bytes_str.
  - destruct Hg as [Hne Hn]. rewrite !str_bytes_app.
    change (str_bytes "${") with ["$"%char; "{"%char]. change (str_bytes "}") with ["}"%char].
    rewrite <-!app_assoc. simpl app. rewrite expand_var.
    + by rewrite bytes_str_app, !str_bytes_str.
    + intros E. apply Hne. by apply str_bytes_inj.
    + done.
    + simpl. rewrite !length_app. simpl. lia.
Qed.

(** Nothing that is needed is missing. *)
Definition complete (c : Config) : Prop :=
  sc_Addr (c_Server c) ≠ "" ∧ st_Path (c_Storage c) ≠ "" ∧
  Releases.rc_ArtifactPath (re_cfg (c_Releases c)) ≠ "" ∧ ce_OutputDir (c_Certs c) ≠ "" ∧
  Forall (λ src, Sync.ss_Concurrency src ≠ 0%Z ∧ Sync.ss_Mode src ≠ "") (c_Sync c).

(** [y] is [x], or the default [d] where [x] is not set. *)
Definition or_default {A} (unset d x y : A) : Prop := (x ≠ unset → y = x) ∧ (x = unset → y = d).

(** [c] has everything [c0] sets. *)
Definition extends (c0 c : Config) : Prop :=
  c_Server c = c_Server c0 ∧ c_Storage c = c_Storage c0 ∧ c_Mesh c = c_Mesh c0 ∧
  c_Mirrors c = c_Mirrors c0 ∧ c_Auth c = c_Auth c0 ∧
  (∃ p, c_Releases c = set_artifactPath p (c_Releases c0) ∧
     or_default "" (Join [st_Path (c_Storage c0); "releases"]) (Releases.rc_ArtifactPath (re_cfg (c_Releases c0))) p) ∧
  (∃ p, c_Certs c = set_outputDir p (c_Certs c0) ∧
     or_default "" (Join [st_Path (c_Storage c0); "certs"]) (ce_OutputDir (c_Certs c0)) p) ∧
  Forall2 (λ s0 s, or_default "" "once" (Sync.ss_Mode s0) (Sync.ss_Mode s) ∧
    or_default 0%Z 5%Z (Sync.ss_Concurrency s0) (Sync.ss_Concurrency s) ∧
    sourceDefaults s0 = s) (c_Sync c0) (c_Sync c).

Lemma Clean_nonempty p : Clean p ≠ "".
Proof. unfold Clean. destruct (is_rooted p); [done|]. by case_decide. Qed.

Lemma Join_nonempty root x : x ≠ "" → Join [root; x] ≠ "".
Proof.
  intros Hx. unfold Join. destruct (decide (root = "")) as [->|Hr].
  - rewrite filter_cons_False by auto. rewrite filter_cons_True, filter_nil by done. apply Clean_nonempty.
  - rewrite !filter_cons_True, filter_nil by done. apply Clean_nonempty.
Qed.

Lemma sourceDefaults_complete s :
  Sync.ss_Concurrency (sourceDefaults s) ≠ 0%Z ∧ Sync.ss_Mode (sourceDefaults s) ≠ "".
Proof. unfold sourceDefaults. simpl. repeat case_decide; done. Qed.

Lemma Validate_Ok c :
  sc_Addr (c_Server c) ≠ "" → st_Path (c_Storage c) ≠ "" →
  ∃ c', Validate c = Ok c' ∧ complete c' ∧ extends c c'.
Proof.
  intros Ha Hp. unfold Validate. rewrite !decide_False by done. eexists. split; [done|].
  pose proof (Join_nonempty (st_Path (c_Storage c)) "releases") as Hj1.
  pose proof (Join_nonempty (st_Path (c_Storage c)) "certs") as Hj2. split.
  - unfold complete. cbn. split_and!; [done|done|case_decide; [by apply Hj1|done]|case_decide; [by apply Hj2|done]|].
    apply Forall_fmap, Forall_true. intros s. apply sourceDefaults_complete.
  - unfold extends. cbn. split_and!; [done..| | |].
    + case_decide as E; eexists; (split; [|split]); cbn; try done; try (by intros []).
      by destruct (c_Releases c) as [? [] ? ? ?].
    + case_decide as E; eexists; (split; [|split]); cbn; try done; try (by intros []).
      by destruct (c_Certs c).
    + apply Forall2_fmap_r, Forall_Forall2_diag, Forall_true. intros s. split_and!; [..|done];
        unfold sourceDefaults; cbn; split; intros E; case_decide; congruence.
Qed.

Lemma Validate_Err c :
  sc_Addr (c_Server c) = "" ∨ st_Path (c_Storage c) = "" → ∃ e, Validate c = Err e.
Proof. unfold Validate. intros [->| ->]; repeat case_decide; eauto; done. Qed.

(** C35 Loading a file in which secrets stand as [${NAME}] decodes the text with
    their values in place, on top of the defaults; it fails when the text is
    not a configuration or leaves no address or storage path, and otherwise
    gives a complete configuration: every source has a mode and a concurrency,
    the paths of artifacts and certificates are set, and whatever the file
    sets is kept. *)
Theorem Load_complete `{!YamlInto Config} F getenv os path gs :
  F OpRead = None → F OpOpen = None → Forall good_segment gs →
  os_files os !! path = Some (str_bytes (concat_str (written <$> gs))) →
  match yaml_into (str_bytes (concat_str (value getenv <$> gs))) DefaultConfig with
  | Ok c0 =>
    if decide (sc_Addr (c_Server c0) = "" ∨ st_Path (c_Storage c0) = "") then
      ∃ e, Load F getenv os path = Err e
    else ∃ c, Load F getenv os path = Ok c ∧ complete c ∧ extends c0 c
  | Err e => Load F getenv os path = Err (wrap "parsing config file" e)
  | Panic p => Load F getenv os path = Panic p
  end.
Proof.
  intros Hr Ho Hg Hf. unfold Load, Open. rewrite Hr, Ho, Hf, str_bytes_str, expand_segments by done.
  destruct (yaml_into _ _) as [c0|e|p]; [|done..]. case_decide as Hc.
  - destruct (Validate_Err c0 Hc) as [e ->]. by eexists.
  - destruct (Validate_Ok c0) as (c & -> & Hc' & He); [tauto..|]. by exists c.
Qed.

(** ** Examples *)

(** A decoder of files of one line: the token of the only source. *)
Definition exYaml : YamlInto Config := λ b c,
  match strip_prefix "token: " (bytes_str b) with
  | Some t => Ok (mkConfig (c_Server c) (c_Storage c) (c_Mesh c) (c_Mirrors c)
                    [Sync.mkSyncSource "up" "registry" "https://up" t "" "" [] [] "" "" false false "*/5 * * * *" "" 0]
                    (c_Auth c) (c_Releases c) (c_Certs c))
  | None => Err (Errorf "yaml: unmarshal errors")
  end.
#[local] Existing Instance exYaml.

Definition exGetenv (x : string) : string := if decide (x = "TOKEN") then "s3cret" else "".
Definition exOs (text : string) : Os := mkOs {["/etc/fr.yaml" := str_bytes text]} ∅ 0.

Lemma Load_complete_witness :
  ∃ c, Load noFaults exGetenv (exOs "token: ${TOKEN}") "/etc/fr.yaml" = Ok c ∧ complete c ∧
    (Sync.ss_Token <$> c_Sync c) = ["s3cret"] ∧
    Releases.rc_ArtifactPath (re_cfg (c_Releases c)) = "/var/lib/fastregistry/releases".
Proof.
  pose proof (Load_complete noFaults exGetenv (exOs "token: ${TOKEN}") "/etc/fr.yaml" [Text "token: "; Var "TOKEN"])
    as HL.
  destruct HL as (c & HL & Hc & _); [done..| | |].
  - refine (bool_decide_unpack _ _). vm_compute. exact I.
  - by vm_compute.
  - exists c. split; [done|]. split; [done|]. revert HL. vm_compute. intros [= <-]. done.
Defined.

(** The [-storage] flag moves the stores, but not the artifacts and the
    certificates, whose paths were completed when the file was loaded. *)
Fact storage_flag_leaves_artifacts :
  ∃ c, configuration noFaults exGetenv (exOs "token: x") "/etc/fr.yaml" "/data" "" = Ok c ∧
    st_Path (c_Storage c) = "/data" ∧
    Releases.rc_ArtifactPath (re_cfg (c_Releases c)) = "/var/lib/fastregistry/releases" ∧
    ce_OutputDir (c_Certs c) = "/var/lib/fastregistry/certs".
Proof. eexists. split; [by vm_compute|]. done. Qed.

(** Without a file nothing is completed: certificates have no directory. *)
Fact defaults_are_incomplete F getenv os :
  configuration F getenv os "" "" "" = Ok DefaultConfig ∧ ce_OutputDir (c_Certs DefaultConfig) = "".
Proof. done. Qed.

(** A dollar sign in a secret is taken for a variable. *)
Fact secrets_lose_dollars :
  ∃ c, Load noFaults exGetenv (exOs "token: pa$$word$1") "/etc/fr.yaml" = Ok c ∧
    (Sync.ss_Token <$> c_Sync c) = ["paword"].
Proof. eexists. split; [by vm_compute|]. done. Qed.
End Config.
