(* ===== verification/Certs.v ===== *)
(** internal/certs/certs.go: the CA certificate of the server, loaded from the
    configured files or from its directory, or generated there once.  Making a
    key and a certificate is a parameter. *)

From S2P Require Import Prelude GoLib Os Config.

Module Certs.
Import Config.

Record Manager := mkManager {
  cm_cfg : CertsConfig;
  cm_caCert : bytes;
  cm_caKey : bytes
}.

(** What crypto/ecdsa, crypto/x509 and encoding/pem make of fresh randomness
    and of the template of the CA: the certificate and the key in PEM. *)
Abbreviation NewCA := (result (bytes * bytes)) (only parsing).

Definition MkdirAll (F : Faults) (path : string) : result unit :=
  match F OpMkdirAll with
  | Some e => Err e
  | None => if decide (path = "") then Err ErrNotExist else Ok tt
  end.

Definition ReadFile (F : Faults) (os : Os) (path : string) : result bytes :=
  data ← Open F os path;
  match F OpRead with Some e => Err e | None => Ok data end.

(** A file that could be created but not written is left empty. *)
Definition WriteFile (F : Faults) (os : Os) (path : string) (data : bytes) : result unit * Os :=
  match Create F os path with
  | (Ok _, os) =>
    match F OpWrite with
    | Some e => (Err e, os)
    | None =>
      let os := set_files (<[path := data]>) os in
      match F OpClose with Some e => (Err e, os) | None => (Ok tt, os) end
    end
  | (r, os) => (r, os)
  end.

Definition certPath (cfg : CertsConfig) : string := Join [ce_OutputDir cfg; "ca.crt"].
Definition keyPath (cfg : CertsConfig) : string := Join [ce_OutputDir cfg; "ca.key"].

(** [F n] is what fails in the [n]-th step: making the directory and reading
    the certificate, reading the key, writing the certificate, writing the
    key. *)
Definition generateCA (F : nat → Faults) (ca : NewCA) (os : Os) (m : Manager) : result Manager * Os :=
  match ca with
  | Err e => (Err e, os)
  | Panic p => (Panic p, os)
  | Ok (certPEM, keyPEM) =>
    match WriteFile (F 2) os (certPath (cm_cfg m)) certPEM with
    | (Ok _, os) =>
      match WriteFile (F 3) os (keyPath (cm_cfg m)) keyPEM with
      | (Ok _, os) => (Ok (mkManager (cm_cfg m) certPEM keyPEM), os)
      | (Err e, os) => (Err (wrap "writing key" e), os)
      | (Panic p, os) => (Panic p, os)
      end
    | (Err e, os) => (Err (wrap "writing cert" e), os)
    | (Panic p, os) => (Panic p, os)
    end
  end.

Definition NewManager (F : nat → Faults) (ca : NewCA) (cfg : CertsConfig) (os : Os) : result Manager * Os :=
  match MkdirAll (F 0) (ce_OutputDir cfg) with
  | Err e => (Err (wrap "creating cert output dir" e), os)
  | Panic p => (Panic p, os)
  | Ok _ =>
    if decide (ce_CACert cfg ≠ "" ∧ ce_CAKey cfg ≠ "") then
      match ReadFile (F 0) os (ce_CACert cfg), ReadFile (F 1) os (ce_CAKey cfg) with
      | Ok cert, Ok key => (Ok (mkManager cfg cert key), os)
      | Err e, _ => (Err (wrap "reading CA cert" e), os)
      | Panic p, _ => (Panic p, os)
      | _, Err e => (Err (wrap "reading CA key" e), os)
      | _, Panic p => (Panic p, os)
      end
    else if negb (ce_AutoGenerate cfg) then (Ok (mkManager cfg [] []), os)
    else
      match ReadFile (F 0) os (certPath cfg), ReadFile (F 1) os (keyPath cfg) with
      | Ok certData, Ok keyData => (Ok (mkManager cfg certData keyData), os)
      | _, _ =>
        match generateCA F ca os (mkManager cfg [] []) with
        | (Err e, os) => (Err (wrap "generating CA" e), os)
        | r => r
        end
      end
  end.

Definition CACertPEM (m : Manager) : bytes := cm_caCert m.
Definition HasCA (m : Manager) : bool := bool_decide (0 < blen (cm_caCert m))%Z.

(** ** One CA *)

Lemma ReadFile_Ok F os path data : ReadFile F os path = Ok data → os_files os !! path = Some data.
Proof. unfold ReadFile, Open. intros H. repeat case_match; simplify_eq/=; done. Qed.

Lemma ReadFile_calm os path data : os_files os !! path = Some data → ReadFile noFaults os path = Ok data.
Proof. unfold ReadFile, Open, noFaults. by intros ->. Qed.

Lemma WriteFile_Ok F os path data os' :
  WriteFile F os path data = (Ok tt, os') →
  os_files os' = <[path := data]> (<[path := []]> (os_files os)).
Proof. unfold WriteFile, Create. intros H. repeat case_match; simplify_eq/=; done. Qed.

Lemma paths_differ cfg : ce_OutputDir cfg ≠ "" → certPath cfg ≠ keyPath cfg.
Proof.
  intros Hd E. unfold certPath, keyPath, Join in E.
  rewrite !filter_cons_True, !filter_nil in E by done. simpl JoinStr in E.
  assert (∀ x, x ≠ "" → x ≠ "." → x ≠ ".." → not_in "/" x →
    ∃ st, clean_comps (is_rooted (ce_OutputDir cfg +:+ "/" +:+ x)) (Split "/" (ce_OutputDir cfg +:+ "/" +:+ x)) = x :: st)
    as Hc.
  { intros x H1 H2 H3 H4. rewrite is_rooted_app by done. change ("/" +:+ x) with (String "/" x).
    rewrite Split_app, (Split_none _ x) by done. unfold clean_comps. rewrite foldl_app. simpl.
    rewrite clean_step_normal by done. by eexists. }
  destruct (Hc "ca.crt") as [s1 E1]; [done..|by refine (bool_decide_unpack _ _); vm_compute|].
  destruct (Hc "ca.key") as [s2 E2]; [done..|by refine (bool_decide_unpack _ _); vm_compute|].
  unfold Clean in E. rewrite E1, E2 in E. rewrite !is_rooted_app in E by done.
  rewrite !reverse_cons in E.
  assert (∀ st x, ∃ p, JoinStr (reverse st ++ [x]) "/" = p +:+ x) as Hj.
  { intros st x. destruct (decide (reverse st = [])) as [->|Hne]; [by exists ""|].
    exists (JoinStr (reverse st) "/" +:+ "/"). rewrite JoinStr_app by done. by rewrite sapp_assoc. }
  destruct (Hj s1 "ca.crt") as [p1 J1]. destruct (Hj s2 "ca.key") as [p2 J2].
  rewrite J1, J2 in E.
  assert (∃ q1 q2, q1 +:+ "ca.crt" = q2 +:+ "ca.key") as (q1 & q2 & Eq).
  { destruct (is_rooted (ce_OutputDir cfg)).
    - exists ("/" +:+ p1), ("/" +:+ p2). by rewrite !sapp_assoc.
    - exists p1, p2. assert (∀ p x, x ≠ "" → p +:+ x ≠ "") as Hn by (intros [] ? ? ?; done).
      by rewrite !decide_False in E by by apply Hn. }
  apply (f_equal str_bytes) in Eq. rewrite !str_bytes_app in Eq. apply (f_equal last) in Eq.
  by rewrite !last_app in Eq.
Qed.


(** ** Examples *)

Definition exCerts : CertsConfig := mkCertsConfig true "" "" "/srv/certs".
Definition exCA (n : string) : NewCA := Ok (str_bytes ("cert " +:+ n), str_bytes ("key " +:+ n)).


(** The files of the directory as a manager sees them. *)
Definition exDir (cert key : string) : Os :=
  mkOs (<["/srv/certs/ca.crt" := str_bytes cert]> {["/srv/certs/ca.key" := str_bytes key]}) ∅ 0.

(** A key that cannot be read at a start has the CA replaced. *)
Fact unreadable_key_replaces_CA :
  NewManager (λ n, if decide (n = 1) then λ op, match op with OpOpen => Some (Errorf "permission denied") | _ => None end
                   else noFaults) (exCA "2") exCerts (exDir "cert 1" "key 1") =
  (Ok (mkManager exCerts (str_bytes "cert 2") (str_bytes "key 2")), exDir "cert 2" "key 2").
Proof. by vm_compute. Qed.

(** When the key cannot be written, the next start loads the new certificate
    with an empty key. *)
Fact half_written_CA_is_loaded :
  let full := λ n, if decide (n = 3) then λ op, match op with OpWrite => Some (Errorf "no space left") | _ => None end
                   else noFaults in
  let r := NewManager full (exCA "1") exCerts os_empty in
  is_ok r.1 = false ∧
  (NewManager (λ _, noFaults) (exCA "2") exCerts r.2).1 = Ok (mkManager exCerts (str_bytes "cert 1") []).
Proof. by vm_compute. Qed.
End Certs.
