(* ===== verification/Api.v ===== *)
(** internal/api/router.go and releases_api.go: the server's router and the
    administration of releases, sync jobs and repositories.

    A request is a computation on the state of the server, which the registry
    API, the release manager and the scheduler share; what it starts in the
    background is returned with the answer.  JSON answers are values; their
    text is the encoder's. *)

From S2P Require Import Prelude Effect GoLib Digest Os Blob Badger Metadata Oci Regexp Mirror Events V2.
From S2P Require Import Discovery Cloner Extractor Releases Pipeline Iso ManagerOps Ignition Auth Replication Scheduler Certs.

Module Api.
Export ManagerOps.

(** ** Requests and answers *)

Record ApiRequest := mkApiRequest {
  aq_rq : V2.Request;
  aq_TLS : bool;
  aq_Host : string;
  aq_RemoteAddr : string
}.

(** A JSON value, with the encodings of the program's records left to the
    encoder. *)
Inductive JValue :=
  | JNull
  | JS (s : string)
  | JN (n : Z)
  | JList (l : list JValue)
  | JObject (fields : list (string * JValue))
  | JRelease (rel : Release)
  | JProgress (p : CloneProgress)
  | JVerify (r : VerifyResult)
  | JJobStatus (st : Scheduler.JobStatus)
  | JExport (e : Replication.ReplicationExport).

Inductive ABody :=
  | ANone
  | ABytes (b : bytes)
  | ADistribution (b : V2.Body)
  | AJson (v : JValue).

Record Answer := mkAnswer {
  an_Status : Z;
  an_Header : list (string * string);
  an_Body : ABody
}.

(** What runs on after the request. *)
Inductive Started :=
  | StartClone (rel : Release) (version arch : string)
  | StartExtract (rel : Release) (version arch : string)
  | StartDiscovery
  | StartSync (name : string).

(** [http.Error]. *)
Definition httpError (msg : string) (status : Z) : Answer :=
  mkAnswer status [("Content-Type", "text/plain; charset=utf-8"); ("X-Content-Type-Options", "nosniff")]
    (ABytes (str_bytes (msg +:+ String "010" ""))).

Definition NotFound : Answer := httpError "404 page not found" 404.

Definition dq (s : string) : string := String "034" (s +:+ String "034" "").

(** [{"error":"..."}], with the message as it is. *)
Definition errorJSON (msg : string) : string := "{" +:+ dq "error" +:+ ":" +:+ dq msg +:+ "}".

Definition jsonType : list (string * string) := [("Content-Type", "application/json")].
Definition jsonText (s : string) : Answer := mkAnswer 200 jsonType (ABytes (str_bytes s)).
Definition json (status : Z) (v : JValue) : Answer := mkAnswer status jsonType (AJson v).

(** A nil slice of strings is null. *)
Definition jstrings (l : list string) : JValue :=
  match l with [] => JNull | _ => JList (JS <$> l) end.

(** The anonymous structs of the request bodies. *)
Record CloneBody := mkCloneBody { cb_Version : string }.
Record ExtractBody := mkExtractBody { eb_Version : string; eb_Versions : list string; eb_All : bool }.
Record CopyBody := mkCopyBody { pb_Artifact : string; pb_Destination : string }.
Record IsoBody := mkIsoBody { ib_Ignition : string; ib_InstallConfig : string; ib_AgentConfig : string }.

Section api.
Context `{Badger} `{!Json MetadataStore.ManifestMeta} `{!Json MetadataStore.RepoMeta}.
Context `{!Json Oci.PutManifestBody} `{Mirror.HttpClient} `{!JsonDecoder Mirror.tokenResp}.
Context `{!JsonDecoder quayTagsResponse} `{!Json Release} `{!MapRange}.
Context `{!Json Events.Event} `{!Json Events.CloneHistoryEntry} `{!Json Events.DownloadRecord}.
Context `{!Json Events.DownloadCounter}.
Context `{!Unmarshal LayersManifest} `{!Unmarshal ReleaseManifest} `{!Unmarshal ComponentManifest}.
Context `{!Unmarshal imageStream} `{!Unmarshal VerifyManifest} `{!Archive}.
Context `{!Cloner.Env} `{Gzip} `{Exec} `{Auth.Bcrypt}.
Context `{!Ignition.Yaml Ignition.InstallConfig} `{!Ignition.Yaml Ignition.AgentConfig} `{!Ignition.Indented}.
Context `{!JsonDecoder CloneBody} `{!JsonDecoder ExtractBody} `{!JsonDecoder CopyBody} `{!JsonDecoder IsoBody}.
Context (F : Faults).

(** ** Releases *)

Section releases.
Context (m : Manager).

Definition db_now : M St DB := w ← gets st_w; mret (w_db w).

(** The body as JSON. *)
Definition decodeBody (A : Type) `{!JsonDecoder A} (rq : V2.Request) : M St (A + error) :=
  attempt (lift (json_Decode (rd_data (V2.rq_Body rq)))).

Definition badBody : Answer := httpError (errorJSON "invalid request body") 400.
Definition badMethod : Answer := httpError (errorJSON "method not allowed") 405.

(** [JReleases]: an empty list stays a list. *)
Definition handleListReleases (rq : V2.Request) : M St Answer :=
  db ← db_now;
  let stateFilter := V2.rq_Query rq "state" in
  r ← attempt (lift (if decide (stateFilter ≠ "") then ListByState db stateFilter else ListReleases db));
  match r with
  | inr e => mret (httpError (errorJSON (err_msg e)) 500)
  | inl rels => mret (json 200 (JObject [("releases", JList (JRelease <$> rels))]))
  end.

Definition handleDiscover (rq : V2.Request) : M St (Answer * list Started) :=
  if decide (V2.rq_Method rq ≠ "POST") then mret (badMethod, [])
  else mret (json 200 (JObject [("message", JS "discovery started in background")]), [StartDiscovery]).

Definition handleClone (rq : V2.Request) : M St (Answer * list Started) :=
  if decide (V2.rq_Method rq ≠ "POST") then mret (badMethod, [])
  else
    b ← decodeBody CloneBody rq;
    match b with
    | inr _ => mret (badBody, [])
    | inl body =>
      if decide (cb_Version body = "") then mret (httpError (errorJSON "version is required") 400, [])
      else
        r ← attempt (CloneRelease m (cb_Version body));
        match r with
        | inr e => mret (httpError (errorJSON (err_msg e)) 400, [])
        | inl job =>
          mret (json 202 (JObject [("message", JS "clone started"); ("version", JS (cb_Version body))]),
                [StartClone job.1.1 job.1.2 job.2])
        end
    end.

(** Every version is tried. *)
Fixpoint extractAll (versions started errors : list string) (jobs : list Started)
    : M St (list string * list string * list Started) :=
  match versions with
  | [] => mret (started, errors, jobs)
  | v :: versions =>
    r ← attempt (ReExtract m v);
    match r with
    | inr e => extractAll versions started (errors ++ [v +:+ ": " +:+ err_msg e]) jobs
    | inl job => extractAll versions (started ++ [v]) errors (jobs ++ [StartExtract job.1.1 job.1.2 job.2])
    end
  end.

Definition handleExtract (rq : V2.Request) : M St (Answer * list Started) :=
  if decide (V2.rq_Method rq ≠ "POST") then mret (badMethod, [])
  else
    b ← decodeBody ExtractBody rq;
    match b with
    | inr _ => mret (badBody, [])
    | inl body =>
      db ← db_now;
      versions ← (if eb_All body then attempt (lift (ListExtractable db))
                  else mret (inl (match eb_Versions body with
                                  | [] => if decide (eb_Version body = "") then [] else [eb_Version body]
                                  | l => l
                                  end)));
      match versions with
      | inr e => mret (httpError (errorJSON (err_msg e)) 500, [])
      | inl versions =>
        if decide (eb_All body = false ∧ versions = []) then
          mret (httpError (errorJSON "provide version, versions, or all:true") 400, [])
        else
          r ← extractAll versions [] [] [];
          let '(started, errors, jobs) := r in
          mret (json 202 (JObject [("message", JS "extraction started"); ("started", jstrings started);
                                   ("errors", jstrings errors)]), jobs)
      end
    end.

(** The version and the architecture a path names; no architecture when it
    names none. *)
Definition archSuffixes : list string := ["x86_64"; "aarch64"; "arm64"; "ppc64le"; "s390x"].

Definition splitArch (version : string) : string * string :=
  let i := LastIndex version "-" in
  if decide (0 < i)%Z then
    let head := stake (Z.to_nat i) version in
    let tail := sdrop (Z.to_nat i + 1) version in
    if decide (tail ∈ archSuffixes) then (head, tail) else (version, "")
  else (version, "").

Definition handleVerifyMirror (version : string) : M St Answer :=
  db ← db_now;
  let '(ver, arch) := splitArch version in
  va ← (if decide (arch = "") then
          r ← attempt (lift (getRelease db version));
          mret (match r with
                | inl rel => if decide (rl_Architecture rel ≠ "") then (rl_Version rel, rl_Architecture rel) else (ver, arch)
                | inr _ => (ver, arch)
                end)
        else mret (ver, arch));
  let '(ver, arch) := (va : string * string) in
  if decide (arch = "") then mret (httpError (errorJSON "could not infer architecture; pass <version>-<arch>") 400)
  else
    r ← VerifyMirror F m ver arch;
    let result := match r.1 with Some result => JVerify result | None => JNull end in
    mret (match r.2 with
          | Some e => json 500 (JObject [("error", JS (err_msg e)); ("result", result)])
          | None => json 200 result
          end).

Definition handleResetState (rq : V2.Request) (version : string) : M St Answer :=
  if decide (V2.rq_Method rq ≠ "POST" ∧ V2.rq_Method rq ≠ "GET") then mret badMethod
  else
    r ← attempt (ResetState version);
    mret (match r with
          | inr e => httpError (errorJSON (err_msg e)) 400
          | inl _ => json 200 (JObject [("message", JS "state reset to cloned"); ("version", JS version)])
          end).

Definition handleExtractVersion (rq : V2.Request) (version : string) : M St (Answer * list Started) :=
  if decide (V2.rq_Method rq ≠ "POST" ∧ V2.rq_Method rq ≠ "GET") then mret (badMethod, [])
  else
    r ← attempt (ReExtract m version);
    mret (match r with
          | inr e => (httpError (errorJSON (err_msg e)) 400, [])
          | inl job => (json 202 (JObject [("message", JS "extraction started"); ("started", JList [JS version])]),
                        [StartExtract job.1.1 job.1.2 job.2])
          end).

Definition releaseNotFound : Answer := httpError (errorJSON "release not found") 404.

Definition handleReleaseStatus (version : string) : M St Answer :=
  db ← db_now;
  r ← attempt (lift (getRelease db version));
  match r with
  | inr _ => mret releaseNotFound
  | inl rel =>
    p ← GetProgress version;
    mret (json 200 (JObject (("release", JRelease rel) ::
                             match p with Some p => [("progress", JProgress p)] | None => [] end)))
  end.

(** [sha256] is left out when it is empty. *)
Definition artifactInfo (version : string) (a : Artifact) : JValue :=
  JObject ([("name", JS (ar_Name a)); ("type", JS (ar_Type a)); ("size", JN (ar_Size a))] ++
           (if decide (ar_SHA256 a = "") then [] else [("sha256", JS (ar_SHA256 a))]) ++
           [("download_url", JS ("/files/releases/" +:+ version +:+ "/" +:+ ar_Name a))]).

Definition handleReleaseArtifacts (version : string) : M St Answer :=
  db ← db_now;
  r ← attempt (lift (getRelease db version));
  match r with
  | inr _ => mret releaseNotFound
  | inl rel => mret (json 200 (JObject [("artifacts", JList (artifactInfo version <$> rl_Artifacts rel))]))
  end.

Definition handleCopyArtifact (rq : V2.Request) (version : string) : M St Answer :=
  if decide (V2.rq_Method rq ≠ "POST") then mret badMethod
  else
    b ← decodeBody CopyBody rq;
    match b with
    | inr _ => mret badBody
    | inl body =>
      if decide (pb_Artifact body = "") then mret (httpError (errorJSON "artifact is required") 400)
      else if decide (pb_Destination body = "") then mret (httpError (errorJSON "destination is required") 400)
      else
        r ← attempt (CopyArtifact m version (pb_Artifact body) (pb_Destination body));
        mret (match r with
              | inr e => httpError (errorJSON (err_msg e)) 400
              | inl _ => json 200 (JObject [("message", JS "copy complete"); ("artifact", JS (pb_Artifact body));
                                            ("destination", JS (pb_Destination body))])
              end)
    end.

(** The ignition the request gives or describes, or the answer that says what
    is wrong with it. *)
Definition requestedIgnition (version : string) (body : IsoBody) : result (bytes + Answer) :=
  if decide (ib_Ignition body ≠ "") then Ok (inl (str_bytes (ib_Ignition body)))
  else if decide (ib_InstallConfig body ≠ "" ∧ ib_AgentConfig body ≠ "") then
    match Ignition.GenerateAgentIgnition (str_bytes (ib_InstallConfig body)) (str_bytes (ib_AgentConfig body))
            (GetReleaseImage m version) with
    | Ok ignition => Ok (inl ignition)
    | Err e => Ok (inr (httpError (errorJSON ("generating ignition: " +:+ err_msg e)) 400))
    | Panic p => Panic p
    end
  else Ok (inr (httpError (errorJSON "provide either 'ignition' or both 'install_config' and 'agent_config'") 400)).

(** [id]: the identifier of the new installation. *)
Definition handleGenerateISO (aq : ApiRequest) (id version : string) : M St Answer :=
  let rq := aq_rq aq in
  if decide (V2.rq_Method rq ≠ "POST") then mret badMethod
  else
    b ← decodeBody IsoBody rq;
    match b with
    | inr _ => mret badBody
    | inl body =>
      ign ← lift (requestedIgnition version body);
      match ign with
      | inr answer => mret answer
      | inl ignition =>
        r ← attempt (GenerateISO F m id version ignition);
        match r with
        | inr e => mret (httpError (errorJSON (err_msg e)) 400)
        | inl idURL =>
          let scheme := if aq_TLS aq then "https" else "http" in
          mret (json 200 (JObject [("id", JS idURL.1); ("iso_url", JS idURL.2);
                                   ("full_url", JS (scheme +:+ "://" +:+ aq_Host aq +:+ idURL.2))]))
        end
      end
    end.

Definition none_started (m : M St Answer) : M St (Answer * list Started) := a ← m; mret (a, []).

(** The version between the slash and a suffix. *)
Definition versionOf (path suffix : string) : string := TrimSuffix (TrimPrefix path "/") suffix.

Definition handleReleases (aq : ApiRequest) (id path : string) : M St (Answer * list Started) :=
  let rq := aq_rq aq in
  if decide (path = "" ∨ path = "/") then none_started (handleListReleases rq)
  else if decide (path = "/discover") then handleDiscover rq
  else if decide (path = "/clone") then handleClone rq
  else if decide (path = "/extract") then handleExtract rq
  else if HasSuffix path "/extract" then handleExtractVersion rq (versionOf path "/extract")
  else if HasSuffix path "/reset" then none_started (handleResetState rq (versionOf path "/reset"))
  else if HasSuffix path "/status" then none_started (handleReleaseStatus (versionOf path "/status"))
  else if HasSuffix path "/artifacts" then none_started (handleReleaseArtifacts (versionOf path "/artifacts"))
  else if HasSuffix path "/copy" then none_started (handleCopyArtifact rq (versionOf path "/copy"))
  else if HasSuffix path "/iso" then none_started (handleGenerateISO aq id (versionOf path "/iso"))
  else if HasSuffix path "/verify" then none_started (handleVerifyMirror (versionOf path "/verify"))
  else mret (NotFound, []).
End releases.

(** ** The server *)

Context {W : Type} (range : ∀ A, list A → list A).

(** The state the handlers share: the registry with its stores, the cloner with
    its progress records and its counts, and the jobs of the scheduler. *)
Record Server := mkServer {
  sv_v2 : V2.Handler;
  sv_cl : Cloner.Cloner;
  sv_synced : Z;
  sv_calls : nat;
  sv_jobs : gmap string (Scheduler.syncJob (W:=W))
}.

Definition set_v2 (h : V2.Handler) (s : Server) : Server :=
  mkServer h (sv_cl s) (sv_synced s) (sv_calls s) (sv_jobs s).
Definition sv_db (s : Server) : DB := w_db (V2.h_world (sv_v2 s)).

(** What a handler returns: the answer, what it starts, and the state. *)
Definition Served : Type := result (Answer * list Started) * Server.
Definition answer (a : Answer) (s : Server) : Served := (Ok (a, []), s).

(** What differs from request to request: random numbers and clock readings,
    and what discovery has left in the manager so far (the time of its first
    run and its log). *)
Record Input := mkInput {
  in_env : V2.Env;
  in_id : string;
  in_now : Time;
  in_initialDiscoveredAt : Time;
  in_logLines : list string
}.

(** A handler outside this file: the web interface, the file server. *)
Definition HttpHandler : Type := Input → ApiRequest → Server → Served.

Record Router := mkRouter {
  ro_auth : option Auth.Authenticator;
  ro_uiHandler : option HttpHandler;
  ro_scheduler : bool;
  ro_releaseManager : option Manager;
  ro_certManager : option Certs.Manager;
  ro_filesHandler : option HttpHandler;
  ro_exporter : option Replication.Exporter;
  ro_metadata : bool
}.

Definition adminPrefix : string := "/admin".

(** A handler of the release manager, on the stores of the registry. *)
Definition on_manager {A} (m : M St A) (s : Server) : result A * Server :=
  let '(r, st) := m (mkSt (sv_cl s) (V2.h_world (sv_v2 s)) (sv_synced s) (sv_calls s)) in
  (r, mkServer (V2.set_world (sv_v2 s) (st_w st)) (st_cl st) (st_synced st) (st_calls st) (sv_jobs s)).

(** ** Administration *)

Definition handleCACert (m : Certs.Manager) : Answer :=
  if negb (Certs.HasCA m) then httpError (errorJSON "no CA certificate available") 404
  else mkAnswer 200 [("Content-Type", "application/x-pem-file"); ("Content-Disposition", "attachment; filename=ca.crt")]
         (ABytes (Certs.CACertPEM m)).

Definition handleCerts (r : Router) (path : string) : Answer :=
  match ro_certManager r with
  | None => httpError (errorJSON "certs not configured") 404
  | Some m => if decide (path = "/ca" ∨ path = "/ca/") then handleCACert m else NotFound
  end.

Definition handleRepository (r : Router) (rq : V2.Request) (repo : string) (s : Server) : Served :=
  if decide (V2.rq_Method rq ≠ "DELETE") then
    answer (httpError (errorJSON "method not allowed; use DELETE") 405) s
  else if decide (repo = "") then answer (httpError (errorJSON "empty repo name") 400) s
  else if negb (ro_metadata r) then answer (httpError (errorJSON "metadata store not configured") 500) s
  else
    let '(res, db) := MetadataStore.DeleteRepository (sv_db s) repo in
    let s := set_v2 (V2.set_db (sv_v2 s) db) s in
    match res with
    | Err e => answer (httpError (errorJSON (err_msg e)) 500) s
    | Panic p => (Panic p, s)
    | Ok _ => answer (json 200 (JObject [("message", JS "repository deleted from metadata (blobs retained)");
                                         ("repo", JS repo)])) s
    end.

Definition notConfigured : Answer := httpError (errorJSON "sync not configured") 404.

Definition handleTrigger (r : Router) (jobName : string) (s : Server) : Served :=
  if negb (ro_scheduler r) then answer notConfigured s
  else
    match Scheduler.TriggerSync (sv_jobs s) jobName with
    | Err e => answer (httpError (errorJSON (err_msg e)) 400) s
    | Panic p => (Panic p, s)
    | Ok _ =>
      (Ok (jsonText ("{" +:+ dq "message" +:+ ":" +:+ dq "sync triggered" +:+ "," +:+
                     dq "job" +:+ ":" +:+ dq jobName +:+ "}"), [StartSync jobName]), s)
    end.

Definition handleJobStatus (r : Router) (jobName : string) (s : Server) : Served :=
  if negb (ro_scheduler r) then answer notConfigured s
  else
    match Scheduler.GetJobStatus (sv_jobs s) jobName with
    | Err e => answer (httpError (errorJSON (err_msg e)) 404) s
    | Panic p => (Panic p, s)
    | Ok status => answer (json 200 (JJobStatus status)) s
    end.

Definition handleExport (r : Router) (now : Time) (s : Server) : Served :=
  match ro_exporter r with
  | None => answer (httpError (errorJSON "exporter not configured") 404) s
  | Some e =>
    match Replication.Export e now (sv_db s) with
    | Err e => answer (httpError (errorJSON (err_msg e)) 500) s
    | Panic p => (Panic p, s)
    | Ok export => answer (json 200 (JExport export)) s
    end
  end.

Definition emptyJobs : string := "{" +:+ dq "jobs" +:+ ":[]}".
Definition gcTriggered : string := "{" +:+ dq "message" +:+ ":" +:+ dq "GC triggered" +:+ "}".
Definition running : string :=
  "{" +:+ dq "status" +:+ ":" +:+ dq "running" +:+ "," +:+ dq "version" +:+ ":" +:+ dq "0.1.0" +:+ "}".

Definition handleAdmin (r : Router) (inp : Input) (aq : ApiRequest) (s : Server) : Served :=
  let rq := aq_rq aq in
  let path := TrimPrefix (V2.rq_Path rq) adminPrefix in
  if decide (path = "/gc") then answer (jsonText gcTriggered) s
  else if decide (path = "/status") then answer (jsonText running) s
  else if decide (path = "/sync/jobs") then
    answer (if ro_scheduler r
            then json 200 (JObject [("jobs", jstrings (Scheduler.ListJobs range (sv_jobs s)))])
            else jsonText emptyJobs) s
  else if HasPrefix path "/sync/trigger/" then handleTrigger r (TrimPrefix path "/sync/trigger/") s
  else if HasPrefix path "/sync/status/" then handleJobStatus r (TrimPrefix path "/sync/status/") s
  else if decide (path = "/sync/export") then handleExport r (in_now inp) s
  else if HasPrefix path "/releases" then
    match ro_releaseManager r with
    | None => answer (httpError (errorJSON "releases not enabled") 404) s
    | Some m => on_manager (handleReleases m aq (in_id inp) (TrimPrefix (V2.rq_Path rq) (adminPrefix +:+ "/releases"))) s
    end
  else if HasPrefix path "/certs" then
    answer (handleCerts r (TrimPrefix (V2.rq_Path rq) (adminPrefix +:+ "/certs"))) s
  else if HasPrefix path "/repositories/" then handleRepository r rq (TrimPrefix path "/repositories/") s
  else answer NotFound s.

(** ** Routing *)

(** The header that every response carries. *)
Definition apiVersion : string * string := ("Docker-Distribution-API-Version", "registry/2.0").
Definition with_version (a : Answer) : Answer :=
  mkAnswer (an_Status a) (apiVersion :: filter (λ kv, kv.1 ≠ apiVersion.1) (an_Header a)) (an_Body a).

Definition handleCORS : Answer :=
  mkAnswer 204
    [("Access-Control-Allow-Origin", "*");
     ("Access-Control-Allow-Methods", "GET, POST, PUT, PATCH, DELETE, OPTIONS");
     ("Access-Control-Allow-Headers", "Authorization, Content-Type, Docker-Content-Digest");
     ("Access-Control-Max-Age", "86400")] ANone.

Definition unauthorized : Answer :=
  let a := httpError "Unauthorized" 401 in
  mkAnswer (an_Status a) (("WWW-Authenticate", "Basic realm=" +:+ dq "FastRegistry") :: an_Header a) (an_Body a).

Definition healthy : Answer := jsonText ("{" +:+ dq "status" +:+ ":" +:+ dq "healthy" +:+ "}").
Definition metrics : Answer :=
  mkAnswer 200 [("Content-Type", "text/plain")] (ABytes (str_bytes ("# FastRegistry metrics" +:+ String "010" ""))).

(** [http.Redirect] to the interface: a link for those who got, a type also
    for those who asked for the head. *)
Definition redirect (method : string) : Answer :=
  mkAnswer 302
    (("Location", "/ui/") ::
     if decide (method = "GET" ∨ method = "HEAD") then [("Content-Type", "text/html; charset=utf-8")] else [])
    (if decide (method = "GET") then
       ABytes (str_bytes ("<a href=" +:+ dq "/ui/" +:+ ">Found</a>." +:+ String "010" (String "010" "")))
     else ANone).

Definition or_not_found (h : option HttpHandler) (inp : Input) (aq : ApiRequest) (s : Server) : Served :=
  match h with Some h => h inp aq s | None => answer NotFound s end.

(** The registry API and its answer. *)
Definition serveV2 (inp : Input) (rq : V2.Request) (s : Server) : Served :=
  let '(r, h) := V2.ServeHTTP F (sv_v2 s) (in_env inp) rq in
  let s := set_v2 h s in
  match r with
  | Ok resp => answer (mkAnswer (V2.rs_Status resp) (V2.rs_Header resp) (ADistribution (V2.rs_Body resp))) s
  | Err e => (Err e, s)
  | Panic p => (Panic p, s)
  end.

Definition route (r : Router) (inp : Input) (aq : ApiRequest) (s : Server) : Served :=
  let rq := aq_rq aq in
  let path := V2.rq_Path rq in
  if decide (path = "/") then answer (redirect (V2.rq_Method rq)) s
  else if HasPrefix path "/ui" then or_not_found (ro_uiHandler r) inp aq s
  else if HasPrefix path "/v2" then serveV2 inp rq s
  else if HasPrefix path "/files/" then or_not_found (ro_filesHandler r) inp aq s
  else if HasPrefix path adminPrefix then handleAdmin r inp aq s
  else if decide (path = "/health" ∨ path = "/healthz") then answer healthy s
  else if decide (path = "/metrics") then answer metrics s
  else answer NotFound s.

(** Whether the request is turned away. *)
Definition refused (r : Router) (rq : V2.Request) : bool :=
  match ro_auth r with
  | Some a => Auth.authRequired a && negb (Auth.authenticate a rq).2
  | None => false
  end.

Definition ServeHTTP (r : Router) (inp : Input) (aq : ApiRequest) (s : Server) : Served :=
  let '(res, s) :=
    if decide (V2.rq_Method (aq_rq aq) = "OPTIONS") then answer handleCORS s
    else if refused r (aq_rq aq) then answer unauthorized s
    else route r inp aq s in
  (prod_map with_version id <$> res, s).
End api.
End Api.
