(* ===== verification/Ui.v ===== *)
(** internal/api/ui/ui.go: the pages of the web interface, as the data their
    templates are filled with.  Executing the templates (html/template over the
    embedded files) is a parameter, as is the handler of the static files. *)

From Stdlib Require Import QArith.
From stdpp Require Import sorting.
From S2P Require Import Prelude Effect GoLib Digest Os Blob Badger Metadata Oci Regexp Mirror Events V2 V2Example.
From S2P Require Import Discovery Cloner Extractor Releases Pipeline PipelineSpec ManagerOps SyncClients Scheduler Certs Tracker Auth Api.
Close Scope Q_scope.

Module Ui.
Export Api.

(** ** Text *)

Definition splitRepoName (name : string) : string * string :=
  let idx := LastIndex name "/" in
  if decide (idx < 0)%Z then ("", name)
  else (stake (Z.to_nat idx) name, sdrop (Z.to_nat idx + 1) name).

Definition shortenDigest (d : string) : string :=
  if HasPrefix d "sha256:" && bool_decide (19 < String.length d)
  then "sha256:" +:+ stake 12 (sdrop 7 d)
  else if decide (12 < String.length d) then stake 12 d else d.

Definition humanBytes (b : Z) : result string :=
  if decide (b = 0)%Z then Ok "0 B"
  else if decide (b < 1024)%Z then Ok (fmt_d b +:+ " B")
  else
    let '(div, exp) := Tracker.units 6 (Z.quot b 1024) 1024 0 in
    match Tracker.suffixes !! Z.to_nat exp with
    | Some suffix => Ok (Tracker.fmt_1f b div +:+ " " +:+ suffix)
    | None => Panic "index out of range"
    end.

(** [strings.ToLower] of ASCII letters; other bytes stay. *)
Definition lower (c : ascii) : ascii :=
  let n := nat_of_ascii c in
  if decide (65 ≤ n ∧ n ≤ 90) then ascii_of_nat (n + 32) else c.
Fixpoint ToLower (s : string) : string :=
  match s with
  | EmptyString => EmptyString
  | String c s => String (lower c) (ToLower s)
  end.

(** *** Dates: [Time.Date] in UTC *)

Definition isLeap (year : Z) : bool :=
  bool_decide (year mod 4 = 0 ∧ (year mod 100 ≠ 0 ∨ year mod 400 = 0))%Z.

(** The days before each month of a year. *)
Definition daysBefore (leap : bool) : list Z :=
  let l := (if leap then 1 else 0)%Z in
  [0; 31; 59 + l; 90 + l; 120 + l; 151 + l; 181 + l; 212 + l; 243 + l; 273 + l; 304 + l; 334 + l]%Z.

(** The year and the day of the year, from the days since January 1, year 1,
    by cycles of 400, 100, 4 and 1 years. *)
Definition year_day (days : Z) : Z * Z :=
  let n400 := (days / 146097)%Z in let d := (days mod 146097)%Z in
  let n100 := Z.min 3 (d / 36524) in let d := (d - 36524 * n100)%Z in
  let n4 := (d / 1461)%Z in let d := (d mod 1461)%Z in
  let n1 := Z.min 3 (d / 365) in
  (400 * n400 + 100 * n100 + 4 * n4 + n1 + 1, d - 365 * n1)%Z.

(** The last month that begins on the day or before, and the days into it. *)
Definition month_day (leap : bool) (yday : Z) : nat * Z :=
  let started := filter (λ b, b ≤ yday)%Z (daysBefore leap) in
  (length started, yday - default 0 (last started) + 1)%Z.

Definition Date (t : Time) : Z * nat * Z :=
  let '(year, yday) := year_day (t / (24 * Hour)) in
  let '(month, day) := month_day (isLeap year) yday in
  (year, month, day).

Definition monthNames : list string :=
  ["Jan"; "Feb"; "Mar"; "Apr"; "May"; "Jun"; "Jul"; "Aug"; "Sep"; "Oct"; "Nov"; "Dec"].

(** A year, with at least four digits. *)
Definition pad4 (year : Z) : string :=
  let digits := fmt_d (Z.abs year) in
  (if decide (year < 0)%Z then "-" else "") +:+
  bytes_str (replicate (4 - String.length digits) "0"%char) +:+ digits.

(** [t.Format("Jan 2, 2006")]. *)
Definition formatDate (t : Time) : string :=
  let '(year, month, day) := Date t in
  default "" (monthNames !! (month - 1)%nat) +:+ " " +:+ fmt_d day +:+ ", " +:+ pad4 year.

(** [n] of a unit, which has an [s] unless it is one. *)
Definition ago (n : Z) (unit : string) : string :=
  if decide (n = 1)%Z then "1 " +:+ unit +:+ " ago" else fmt_d n +:+ " " +:+ unit +:+ "s ago".

(** [humanTime] when the clock reads [now]; the float64 quotients are rounded
    down to the same integers. *)
Definition humanTime (now t : Time) : string :=
  if IsZero t then "never"
  else
    let d := TimeSub now t in
    if decide (d < Minute)%Z then "just now"
    else if decide (d < Hour)%Z then ago (Z.quot d Minute) "minute"
    else if decide (d < 24 * Hour)%Z then ago (Z.quot d Hour) "hour"
    else if decide (d < 30 * (24 * Hour))%Z then ago (Z.quot (Z.quot d Hour) 24) "day"
    else formatDate t.

Example texts :
  splitRepoName "a/b/c" = ("a/b", "c") ∧ splitRepoName "c" = ("", "c") ∧
  shortenDigest "sha256:0123456789abcdef" = "sha256:0123456789ab" ∧
  ToLower "OpenShift/4.x" = "openshift/4.x" ∧
  formatDate unixEpoch = "Jan 1, 1970" ∧ formatDate 0 = "Jan 1, 0001" ∧
  formatDate (unixEpoch + 1709164800 * Second) = "Feb 29, 2024" ∧
  formatDate (unixEpoch + 1735603200 * Second) = "Dec 31, 2024" ∧
  humanTime (3 * Hour) Hour = "2 hours ago".
Proof. by vm_compute. Qed.

(** ** What the templates are given *)

Record Breadcrumb := mkBreadcrumb { bc_Label : string; bc_URL : string }.

Record RepoView := mkRepoView {
  rv_Name : string;
  rv_Namespace : string;
  rv_FullName : string;
  rv_TagCount : Z;
  rv_TotalSize : Z;
  rv_TotalSizeHuman : string;
  rv_LastUpdated : Time;
  rv_LastUpdatedHuman : string
}.

Record DashboardData := mkDashboardData {
  dd_RepoCount : Z;
  dd_TagCount : Z;
  dd_TotalSize : Z;
  dd_TotalSizeHuman : string;
  dd_RecentRepos : list RepoView
}.

Record TagView := mkTagView {
  tv_Name : string;
  tv_Repo : string;
  tv_Digest : string;
  tv_DigestShort : string;
  tv_Size : Z;
  tv_SizeHuman : string;
  tv_Pushed : Time;
  tv_PushedHuman : string;
  tv_MediaType : string
}.

Record RepoDetailData := mkRepoDetailData {
  rd_FullName : string;
  rd_RegistryHost : string;
  rd_TagCount : Z;
  rd_TotalSize : Z;
  rd_TotalSizeHuman : string;
  rd_LastUpdated : Time;
  rd_LastUpdatedHuman : string;
  rd_Tags : list TagView
}.

(** The width of a bar is the exact quotient; the code rounds it to a
    float64. *)
Record LayerView := mkLayerView {
  lv_Digest : string;
  lv_DigestShort : string;
  lv_Size : Z;
  lv_SizeHuman : string;
  lv_SizePercent : Q
}.

Record ManifestData := mkManifestData {
  md_Repo : string;
  md_Reference : string;
  md_Digest : string;
  md_MediaType : string;
  md_Size : Z;
  md_SizeHuman : string;
  md_Created : Time;
  md_CreatedHuman : string;
  md_Layers : list LayerView;
  md_Annotations : gmap string string
}.

Record ReleaseView := mkReleaseView {
  re_Version : string;
  re_Architecture : string;
  re_Tag : string;
  re_State : string;
  re_StateBadge : string;
  re_DiscoveredAt : string;
  re_MajorMinor : string;
  re_ArtifactCount : Z;
  re_Artifacts : list Artifact;
  re_Error : string;
  re_HasError : bool
}.

Record ReleasesData := mkReleasesData {
  rs_TotalCount : Z;
  rs_AvailableCount : Z;
  rs_ClonedCount : Z;
  rs_ReadyCount : Z;
  rs_FailedCount : Z;
  rs_HasCA : bool;
  rs_Groups : list MajorMinorGroup;
  rs_GroupsJSON : bytes;
  rs_RecentReleases : list ReleaseView;
  rs_ActiveClones : list CloneProgress;
  rs_AllActiveClones : list CloneProgress;
  rs_CloneHistory : list Events.CloneHistoryEntry;
  rs_RecentEvents : list Events.Event;
  rs_DownloadStats : option Events.DownloadCounter;
  rs_RecentDownloads : list Events.DownloadRecord;
  rs_Available : list Release;
  rs_DiscoveryLog : list string
}.

Record ArtifactView := mkArtifactView {
  av_Name : string;
  av_Type : string;
  av_Size : string;
  av_SHA256 : string;
  av_DownloadURL : string
}.

(** No manifest: [HasManifest] is false. *)
Record ReleaseDetailData := mkReleaseDetailData {
  rt_Release : ReleaseView;
  rt_Manifest : option ManifestData;
  rt_Artifacts : list ArtifactView;
  rt_TotalSize : string
}.

Record SyncSourceView := mkSyncSourceView {
  sv_Type : string;
  sv_URL : string;
  sv_Schedule : string;
  sv_Mode : string;
  sv_Concurrency : Z;
  sv_Repositories : list string;
  sv_Organizations : list string
}.

Record SyncJobView := mkSyncJobView {
  sj_Name : string;
  sj_Running : bool;
  sj_LastRun : Time;
  sj_LastRunHuman : string;
  sj_Progress : option Sync.Progress;
  sj_Source : option SyncSourceView
}.

Inductive Content :=
  | CDashboard (d : DashboardData)
  | CRepositories (repos : list RepoView)
  | CRepository (d : RepoDetailData)
  | CManifest (d : ManifestData)
  | CReleases (d : ReleasesData)
  | CReleaseDetail (d : ReleaseDetailData)
  | CSync (jobs : list SyncJobView).

Record PageData := mkPageData {
  pd_Title : string;
  pd_CurrentNav : string;
  pd_Breadcrumbs : list Breadcrumb;
  pd_Content : Content
}.

(** The search results are given to their template as they are. *)
Inductive Data :=
  | DPage (p : PageData)
  | DMatches (matches : list RepoView).

Definition pageContentMap : list (string * string) :=
  [("dashboard", "dashboard-content"); ("repositories", "repositories-content");
   ("repository", "repository-content"); ("manifest", "manifest-content");
   ("releases", "releases-content"); ("release-detail", "release-detail-content");
   ("sync", "sync-content")].

(** A value and whether an error came with it: the value alone is used, a nil
    one after an error. *)
Definition or_nil {A} (r : result (list A)) : result (list A) :=
  match r with Err _ => Ok [] | r => r end.

(** The body of a loop with [continue] on an error. *)
Definition or_continue {A B} (r : result A) (acc : B) (k : A → result B) : result B :=
  match r with Ok a => k a | Err _ => Ok acc | Panic p => Panic p end.

Fixpoint loop {A B} (f : B → A → result B) (acc : B) (l : list A) : result B :=
  match l with
  | [] => Ok acc
  | x :: l => acc ← f acc x; loop f acc l
  end.

Section ui.
Context `{Badger} `{!Json MetadataStore.ManifestMeta} `{!Json MetadataStore.RepoMeta}.
Context `{!Json Release} `{!MapRange} `{!GoSort} `{!Json (list string)} `{!Cloner.Env}.
Context `{!Json Events.Event} `{!Json Events.CloneHistoryEntry} `{!Json Events.DownloadRecord}.
Context `{!Json Events.DownloadCounter}.
Context (F : Faults) {W : Type} (range : ∀ A, list A → list A).

(** *** Repositories *)

Definition later (t lastUpdated : Time) : Time := if After t lastUpdated then t else lastUpdated.

Definition addTag (db : DB) (repoName : string) (acc : Z * Time) (tag : string) : result (Z * Time) :=
  or_continue (MetadataStore.GetManifest db repoName tag) acc (λ meta,
    Ok (wrap64 (acc.1 + MetadataStore.mm_Size meta), later (MetadataStore.mm_CreatedAt meta) acc.2)).

Definition buildRepoView (db : DB) (now : Time) (repoName : string) : result RepoView :=
  let '(namespace, name) := splitRepoName repoName in
  tags ← or_nil (MetadataStore.ListTags db repoName);
  r ← loop (addTag db repoName) (0%Z, 0%Z) tags;
  let '(totalSize, lastUpdated) := (r : Z * Time) in
  lastUpdated ← (if IsZero lastUpdated
                 then or_continue (MetadataStore.GetRepoMeta db repoName) lastUpdated
                        (λ rm, Ok (MetadataStore.rm_UpdatedAt rm))
                 else Ok lastUpdated);
  human ← humanBytes totalSize;
  Ok (mkRepoView name namespace repoName (Z.of_nat (length (tags : list string))) totalSize human
        lastUpdated (humanTime now lastUpdated)).

Definition repoViews (db : DB) (now : Time) (repos : list string) : result (list RepoView) :=
  loop (λ views repoName, rv ← buildRepoView db now repoName; Ok (views ++ [rv])) [] repos.

Definition newest_first (a b : RepoView) : bool := After (rv_LastUpdated a) (rv_LastUpdated b).
Definition largest_first (a b : RepoView) : bool := bool_decide (rv_TotalSize a > rv_TotalSize b)%Z.
Definition by_name (a b : RepoView) : bool := String.ltb (rv_FullName a) (rv_FullName b).

Definition dashboard (db : DB) (now : Time) : result PageData :=
  repos ← or_nil (MetadataStore.ListRepositories db);
  views ← repoViews db now repos;
  let totalTags := foldl (λ n rv, n + rv_TagCount rv)%Z 0%Z (views : list RepoView) in
  let totalSize := foldl (λ n rv, wrap64 (n + rv_TotalSize rv))%Z 0%Z views in
  let recent := take 10 (sort_slice newest_first views) in
  human ← humanBytes totalSize;
  Ok (mkPageData "Dashboard" "dashboard" [mkBreadcrumb "Dashboard" "/ui/"]
        (CDashboard (mkDashboardData (Z.of_nat (length (repos : list string))) totalTags totalSize human recent))).

Definition repositories (db : DB) (now : Time) (sortBy : string) : result PageData :=
  repos ← or_nil (MetadataStore.ListRepositories db);
  views ← repoViews db now repos;
  let less := if decide (sortBy = "updated") then newest_first
              else if decide (sortBy = "size") then largest_first else by_name in
  Ok (mkPageData "Repositories" "repositories"
        [mkBreadcrumb "Dashboard" "/ui/"; mkBreadcrumb "Repositories" "/ui/repositories"]
        (CRepositories (sort_slice less views))).

(** The first eight repositories whose name contains the query. *)
Fixpoint search (db : DB) (now : Time) (q : string) (matches : list RepoView) (repos : list string)
    : result (list RepoView) :=
  match repos with
  | [] => Ok matches
  | repoName :: repos =>
    if Contains (ToLower repoName) q then
      rv ← buildRepoView db now repoName;
      let matches := matches ++ [rv] in
      if decide (8 ≤ length matches) then Ok matches else search db now q matches repos
    else search db now q matches repos
  end.

(** *** A repository and its manifests *)

Definition addLayer (bs : BlobStore.BlobStore) (os : Os) (size : Z) (layerDigest : string) : result Z :=
  or_continue (BlobStore.Size F bs os layerDigest) size (λ s, Ok (wrap64 (size + s))).

Definition tagView (db : DB) (bs : BlobStore.BlobStore) (os : Os) (now : Time) (repoName : string)
    (acc : list TagView * Z * Time) (tag : string) : result (list TagView * Z * Time) :=
  let '(tagViews, totalSize, lastUpdated) := acc in
  or_continue (MetadataStore.GetManifest db repoName tag) acc (λ meta,
    size ← loop (addLayer bs os) (MetadataStore.mm_Size meta) (MetadataStore.mm_Layers meta);
    human ← humanBytes size;
    let created := MetadataStore.mm_CreatedAt meta in
    let tv := mkTagView tag repoName (MetadataStore.mm_Digest meta) (shortenDigest (MetadataStore.mm_Digest meta))
                size human created (humanTime now created) (MetadataStore.mm_MediaType meta) in
    Ok (tagViews ++ [tv], wrap64 (totalSize + size), later created lastUpdated)).

Definition repository (db : DB) (bs : BlobStore.BlobStore) (os : Os) (now : Time) (host path : string)
    : result (option PageData) :=
  let repoName := TrimSuffix (TrimPrefix path "/repositories/") "/" in
  or_continue (MetadataStore.ListTags db repoName) None (λ tags,
    r ← loop (tagView db bs os now repoName) ([], 0, 0)%Z tags;
    let '(tagViews, totalSize, lastUpdated) := (r : list TagView * Z * Time) in
    let registryHost := if decide (host = "") then "localhost:5000" else host in
    human ← humanBytes totalSize;
    Ok (Some (mkPageData repoName "repositories"
      [mkBreadcrumb "Dashboard" "/ui/"; mkBreadcrumb "Repositories" "/ui/repositories";
       mkBreadcrumb repoName ("/ui/repositories/" +:+ repoName)]
      (CRepository (mkRepoDetailData repoName registryHost (Z.of_nat (length tags)) totalSize human lastUpdated
         (humanTime now lastUpdated) tagViews))))).

Definition layerSize (bs : BlobStore.BlobStore) (os : Os) (layerDigest : string) : result Z :=
  or_continue (BlobStore.Size F bs os layerDigest) 0%Z Ok.

(** The width of a layer's bar, in percent of the widest; at least 2. *)
Definition sizePercent (maxLayerSize size : Z) : Q :=
  let p := if decide (maxLayerSize > 0)%Z then (inject_Z size / inject_Z maxLayerSize * 100)%Q else 0%Q in
  if Qle_bool 2 p then p else 2%Q.

Definition layerViews (bs : BlobStore.BlobStore) (os : Os) (digests : list string) : result (list LayerView) :=
  sized ← loop (λ l d, size ← layerSize bs os d; human ← humanBytes size; Ok (l ++ [(d, size, human)])) [] digests;
  let maxLayerSize := foldl (λ m x, if decide (x.1.2 > m)%Z then x.1.2 else m) 0%Z
                        (sized : list (string * Z * string)) in
  Ok ((λ x, mkLayerView x.1.1 (shortenDigest x.1.1) x.1.2 x.2 (sizePercent maxLayerSize x.1.2)) <$> sized).

Definition manifestData (bs : BlobStore.BlobStore) (os : Os) (now : Time) (repo ref : string)
    (meta : MetadataStore.ManifestMeta) : result ManifestData :=
  layers ← layerViews bs os (MetadataStore.mm_Layers meta);
  human ← humanBytes (MetadataStore.mm_Size meta);
  let created := MetadataStore.mm_CreatedAt meta in
  Ok (mkManifestData repo ref (MetadataStore.mm_Digest meta) (MetadataStore.mm_MediaType meta)
        (MetadataStore.mm_Size meta) human created (humanTime now created) layers (MetadataStore.mm_Annotations meta)).

Definition manifest (db : DB) (bs : BlobStore.BlobStore) (os : Os) (now : Time) (path : string)
    : result (option PageData) :=
  match Index path "/manifests/" with
  | None => Ok None
  | Some manifestIdx =>
    let repoName := TrimPrefix (stake manifestIdx path) "/repositories/" in
    let ref := sdrop (manifestIdx + String.length "/manifests/") path in
    or_continue (MetadataStore.GetManifest db repoName ref) None (λ meta,
      data ← manifestData bs os now repoName ref meta;
      Ok (Some (mkPageData ("Manifest: " +:+ ref) "repositories"
        [mkBreadcrumb "Dashboard" "/ui/"; mkBreadcrumb "Repositories" "/ui/repositories";
         mkBreadcrumb repoName ("/ui/repositories/" +:+ repoName); mkBreadcrumb ref ""]
        (CManifest data))))
  end.

(** *** Releases *)

Definition majorMinor (version : string) : string :=
  match SplitN3 "." version with a :: b :: _ => a +:+ "." +:+ b | _ => "" end.

Definition releaseView (now : Time) (rel : Release) : ReleaseView :=
  mkReleaseView (rl_Version rel) (rl_Architecture rel) (rl_Tag rel) (rl_State rel) (rl_State rel)
    (humanTime now (rl_DiscoveredAt rel)) (majorMinor (rl_Version rel)) (Z.of_nat (length (rl_Artifacts rel)))
    (rl_Artifacts rel) (rl_Error rel) (bool_decide (rl_Error rel ≠ "")).

(** What the first loop counts and collects. *)
Record Tally := mkTally {
  ta_TotalCount : Z;
  ta_AvailableCount : Z;
  ta_ClonedCount : Z;
  ta_ReadyCount : Z;
  ta_FailedCount : Z;
  ta_Available : list Release;
  ta_ActiveClones : list CloneProgress
}.

Definition noTally : Tally := mkTally 0 0 0 0 0 [] [].

Definition tally_one (rel : Release) (t : Tally) : M St Tally :=
  let '(mkTally n a c r f av cl) := t in
  let st := rl_State rel in
  if decide (st = StateAvailable) then mret (mkTally (n + 1) (a + 1) c r f (av ++ [rel]) cl)
  else if decide (st = StateCloned ∨ st = StateExtracting) then mret (mkTally (n + 1) a (c + 1) r f av cl)
  else if decide (st = StateReady) then mret (mkTally (n + 1) a c (r + 1) f av cl)
  else if decide (st = StateFailed) then mret (mkTally (n + 1) a c r (f + 1) av cl)
  else if decide (st = StateCloning) then
    p ← GetProgress (rl_Version rel);
    mret (mkTally (n + 1) (a + 1) c r f av (match p with Some p => cl ++ [p] | None => cl end))
  else mret (mkTally (n + 1) a c r f av cl).

Fixpoint tally (rels : list Release) (t : Tally) : M St Tally :=
  match rels with
  | [] => mret t
  | rel :: rels => t ← tally_one rel t; tally rels t
  end.

Definition newest_version (a b : Release) : bool := String.ltb (rl_Version b) (rl_Version a).

(** The part of the page that the release manager fills in. *)
Definition managerData (now initialDiscoveredAt : Time) (logLines : list string) : M St ReleasesData :=
  w ← gets st_w;
  let db := w_db w in
  all ← lift (or_nil (ListReleases db));
  t ← tally all noTally;
  groups ← lift (or_nil (ListGrouped db));
  let names := match json_Marshal (gr_MajorMinor <$> (groups : list MajorMinorGroup)) with Ok b => b | _ => [] end in
  recent ← lift (or_nil (ListRecent initialDiscoveredAt db 20));
  active ← GetAllProgress;
  mret (mkReleasesData (ta_TotalCount t) (ta_AvailableCount t) (ta_ClonedCount t) (ta_ReadyCount t)
          (ta_FailedCount t) false groups names (releaseView now <$> (recent : list Release))
          (ta_ActiveClones t) active [] [] None [] (sort_slice newest_version (ta_Available t))
          (GetDiscoveryLog logLines)).

Definition noReleases : ReleasesData := mkReleasesData 0 0 0 0 0 false [] [] [] [] [] [] [] None [] [] [].

(** And the part of the event store. *)
Definition with_events (db : DB) (d : ReleasesData) : result ReleasesData :=
  recent ← or_nil (Events.ListEvents db 100 "");
  history ← or_nil (Events.ListCloneHistory range_values db 100);
  downloads ← or_nil (Events.ListRecentDownloads db 100);
  let '(mkReleasesData n a c r f ca g gj rr ac aac _ _ _ _ av dl) := d in
  Ok (mkReleasesData n a c r f ca g gj rr ac aac history recent (Some (Events.GetDownloadStats db)) downloads av dl).

Definition with_CA (certMgr : option Certs.Manager) (d : ReleasesData) : ReleasesData :=
  let '(mkReleasesData n a c r f _ g gj rr ac aac h e s dr av dl) := d in
  mkReleasesData n a c r f (match certMgr with Some m => Certs.HasCA m | None => false end)
    g gj rr ac aac h e s dr av dl.

Definition releasesPage (now initialDiscoveredAt : Time) (logLines : list string) (releaseMgr eventStore : bool)
    (certMgr : option Certs.Manager) : M St PageData :=
  data ← (if releaseMgr then managerData now initialDiscoveredAt logLines else mret noReleases);
  w ← gets st_w;
  data ← lift (if eventStore then with_events (w_db w) data else Ok data);
  mret (mkPageData "Releases" "releases"
          [mkBreadcrumb "Dashboard" "/ui/"; mkBreadcrumb "Releases" "/ui/releases"]
          (CReleases (with_CA certMgr data))).

Definition artifactView (version : string) (a : Artifact) : result ArtifactView :=
  size ← humanBytes (ar_Size a);
  Ok (mkArtifactView (ar_Name a) (ar_Type a) size (shortenDigest ("sha256:" +:+ ar_SHA256 a))
        ("/files/releases/" +:+ version +:+ "/" +:+ ar_Name a)).

(** The manifest of a release that has been cloned, and the size of the whole. *)
Definition releaseManifestData (db : DB) (bs : BlobStore.BlobStore) (os : Os) (now : Time) (localRepo tag : string)
    (rel : Release) : result (option ManifestData * string) :=
  if decide (rl_State rel ≠ StateAvailable ∧ rl_State rel ≠ StateCloning ∧ localRepo ≠ "") then
    or_continue (MetadataStore.GetManifest db localRepo tag) (None, "") (λ meta,
      data ← manifestData bs os now localRepo tag meta;
      let total := foldl (λ n l, wrap64 (n + lv_Size l))%Z 0%Z (md_Layers data) in
      human ← humanBytes (wrap64 (total + MetadataStore.mm_Size meta));
      Ok (Some data, human))
  else Ok (None, "").

Definition releaseDetail (db : DB) (bs : BlobStore.BlobStore) (os : Os) (now : Time) (m : Manager) (tag : string)
    : result (option PageData) :=
  or_continue (getRelease db tag) None (λ rel,
    md ← releaseManifestData db bs os now (rc_LocalRepo (mg_cfg m)) tag rel;
    let '(data, total) := (md : option ManifestData * string) in
    artifacts ← (if decide (rl_State rel = StateReady)
                 then loop (λ l a, av ← artifactView (rl_Version rel) a; Ok (l ++ [av])) [] (rl_Artifacts rel)
                 else Ok []);
    Ok (Some (mkPageData ("Release " +:+ rl_Version rel) "releases"
      [mkBreadcrumb "Dashboard" "/ui/"; mkBreadcrumb "Releases" "/ui/releases"; mkBreadcrumb (rl_Version rel) ""]
      (CReleaseDetail (mkReleaseDetailData (releaseView now rel) data artifacts total))))).

(** *** Sync jobs *)

Definition jobView (now : Time) (s : Scheduler.JobStatus) : SyncJobView :=
  mkSyncJobView (Scheduler.js_Name s) (Scheduler.js_Running s) (Scheduler.js_LastRun s)
    (humanTime now (Scheduler.js_LastRun s)) (Scheduler.js_Progress s)
    ((λ src, mkSyncSourceView (Sync.ss_Type src) (Sync.ss_URL src) (Sync.ss_Schedule src) (Sync.ss_Mode src)
               (Sync.ss_Concurrency src) (Sync.ss_Repositories src) (Sync.ss_Organizations src))
       <$> Scheduler.js_Source s).

(** ** The handler *)

(** The metadata and the blobs are those of the server; the rest may be
    missing. *)
Record Handler := mkHandler {
  ha_scheduler : bool;
  ha_releaseMgr : option Manager;
  ha_certMgr : option Certs.Manager;
  ha_eventStore : bool
}.

(** [ExecuteTemplate] on the set of a page ([None]: the partials) when the
    clock reads [now]: what it has written, and the error that ended it. *)
Context (ExecuteTemplate : Time → option string → string → Data → bytes * option error).
Context (staticFS : V2.Request → Answer).

Definition isHTMX (rq : V2.Request) : bool := bool_decide (V2.rq_Header rq "HX-Request" = "true").

Definition html : list (string * string) := [("Content-Type", "text/html; charset=utf-8")].

(** An error after the first byte adds its message to the page; the status is
    sent by then. *)
Definition render (now : Time) (rq : V2.Request) (page : string) (data : PageData) : Answer :=
  if decide (page ∈ pageContentMap.*1) then
    match ExecuteTemplate now (Some page) (if isHTMX rq then "page-content" else "layout") (DPage data) with
    | (out, None) => mkAnswer 200 html (ABytes out)
    | ([], Some _) => httpError "Internal Server Error" 500
    | (out, Some _) => mkAnswer 200 html (ABytes (out ++ str_bytes ("Internal Server Error" +:+ String "010" "")))
    end
  else httpError "Internal Server Error" 500.

(** A page, an answer of its own when there is none, or a panic. *)
Definition page (now : Time) (rq : V2.Request) (name : string) (r : result PageData) (s : Server (W:=W))
    : Served (W:=W) :=
  match r with
  | Ok data => answer (render now rq name data) s
  | Err e => (Err e, s)
  | Panic p => (Panic p, s)
  end.

Definition page_or_404 (now : Time) (rq : V2.Request) (name : string) (r : result (option PageData))
    (s : Server (W:=W)) : Served (W:=W) :=
  match r with
  | Ok (Some data) => answer (render now rq name data) s
  | Ok None => answer NotFound s
  | Err e => (Err e, s)
  | Panic p => (Panic p, s)
  end.

Definition handleDashboard (now : Time) (rq : V2.Request) (s : Server (W:=W)) : Served (W:=W) :=
  page now rq "dashboard" (dashboard (sv_db s) now) s.

Definition handleRepositories (now : Time) (rq : V2.Request) (s : Server (W:=W)) : Served (W:=W) :=
  page now rq "repositories" (repositories (sv_db s) now (V2.rq_Query rq "sort")) s.

Definition handleSearch (now : Time) (rq : V2.Request) (s : Server (W:=W)) : Served (W:=W) :=
  let q := ToLower (V2.rq_Query rq "q") in
  match (repos ← or_nil (MetadataStore.ListRepositories (sv_db s)); search (sv_db s) now q [] repos) with
  | Ok matches => answer (mkAnswer 200 html (ABytes (ExecuteTemplate now None "search-results" (DMatches matches)).1)) s
  | Err e => (Err e, s)
  | Panic p => (Panic p, s)
  end.

Definition handleRepository (now : Time) (aq : ApiRequest) (path : string) (s : Server (W:=W)) : Served (W:=W) :=
  let w := V2.h_world (sv_v2 s) in
  page_or_404 now (aq_rq aq) "repository" (repository (w_db w) (w_bs w) (w_os w) now (aq_Host aq) path) s.

Definition handleManifest (now : Time) (rq : V2.Request) (path : string) (s : Server (W:=W)) : Served (W:=W) :=
  let w := V2.h_world (sv_v2 s) in
  page_or_404 now rq "manifest" (manifest (w_db w) (w_bs w) (w_os w) now path) s.

Definition handleReleases (h : Handler) (inp : Input) (rq : V2.Request) (s : Server (W:=W)) : Served (W:=W) :=
  let now := in_now inp in
  let '(r, s) := on_manager (releasesPage now (in_initialDiscoveredAt inp) (in_logLines inp)
                   (bool_decide (is_Some (ha_releaseMgr h))) (ha_eventStore h) (ha_certMgr h)) s in
  page now rq "releases" r s.

Definition handleReleaseDetail (h : Handler) (now : Time) (rq : V2.Request) (tag : string) (s : Server (W:=W))
    : Served (W:=W) :=
  match ha_releaseMgr h with
  | None => answer NotFound s
  | Some m =>
    let w := V2.h_world (sv_v2 s) in
    page_or_404 now rq "release-detail" (releaseDetail (w_db w) (w_bs w) (w_os w) now m tag) s
  end.

(** The jobs as both pages show them. *)
Definition syncJobs (h : Handler) (now : Time) (s : Server (W:=W)) : list SyncJobView :=
  if ha_scheduler h then jobView now <$> Scheduler.GetAllJobStatuses range (sv_jobs s) else [].

Definition handleSync (h : Handler) (now : Time) (rq : V2.Request) (s : Server (W:=W)) : Served (W:=W) :=
  answer (render now rq "sync"
    (mkPageData "Sync" "sync" [mkBreadcrumb "Dashboard" "/ui/"; mkBreadcrumb "Sync" "/ui/sync"]
       (CSync (syncJobs h now s)))) s.

Definition handleSyncStatus (h : Handler) (now : Time) (s : Server (W:=W)) : Served (W:=W) :=
  answer (mkAnswer 200 html
    (ABytes (ExecuteTemplate now (Some "sync") "sync-status-partial"
               (DPage (mkPageData "" "" [] (CSync (syncJobs h now s))))).1)) s.

Definition handleSyncTrigger (h : Handler) (rq : V2.Request) (name : string) (s : Server (W:=W)) : Served (W:=W) :=
  if decide (V2.rq_Method rq ≠ "POST") then answer (httpError "Method not allowed" 405) s
  else if negb (ha_scheduler h) then answer (httpError "Sync not configured" 404) s
  else
    match Scheduler.TriggerSync (sv_jobs s) name with
    | Err e => answer (httpError (err_msg e) 400) s
    | Panic p => (Panic p, s)
    | Ok _ => (Ok (mkAnswer 200 [] ANone, [StartSync name]), s)
    end.

Definition ServeHTTP (h : Handler) : HttpHandler (W:=W) := λ inp aq s,
  let rq := aq_rq aq in
  let now := in_now inp in
  let path := TrimPrefix (V2.rq_Path rq) "/ui" in
  let path := if decide (path = "") then "/" else path in
  if HasPrefix path "/static/" then answer (staticFS rq) s
  else if decide (path = "/") then handleDashboard now rq s
  else if decide (path = "/repositories") then handleRepositories now rq s
  else if HasPrefix path "/repositories/search" then handleSearch now rq s
  else if Contains path "/manifests/" then handleManifest now rq path s
  else if HasPrefix path "/repositories/" then handleRepository now aq path s
  else if decide (path = "/releases") then handleReleases h inp rq s
  else if HasPrefix path "/releases/" then handleReleaseDetail h now rq (TrimPrefix path "/releases/") s
  else if decide (path = "/sync") then handleSync h now rq s
  else if decide (path = "/sync/status") then handleSyncStatus h now s
  else if HasPrefix path "/sync/trigger/" then handleSyncTrigger h rq (TrimPrefix path "/sync/trigger/") s
  else answer NotFound s.
End ui.

(** ** Loops *)

Section loops.
Context {A B : Type}.

Lemma loop_app (f : B → A → result B) l1 l2 acc :
  loop f acc (l1 ++ l2) = (acc ← loop f acc l1; loop f acc l2).
Proof.
  revert acc. induction l1 as [|x l1 IH]; intros acc; [done|]. cbn [app loop].
  destruct (f acc x); [apply IH|done..].
Qed.

Lemma loop_ok (I : B → Prop) (f : B → A → result B) l acc r :
  (∀ acc x acc', x ∈ l → I acc → f acc x = Ok acc' → I acc') → I acc → loop f acc l = Ok r → I r.
Proof.
  revert acc. induction l as [|x l IH]; intros acc Hf Hacc; cbn [loop]; [by intros [= <-]|].
  destruct (f acc x) as [acc'| |] eqn:E; [|done..]. apply IH.
  - intros ? ? ? ?. apply Hf. by right.
  - eapply Hf; [by left|done|done].
Qed.

(** A loop that appends what it makes of each element. *)
Lemma loop_snoc (g : A → result B) l acc r :
  loop (λ acc x, y ← g x; Ok (acc ++ [y])) acc l = Ok r ↔ ∃ ys, r = acc ++ ys ∧ Forall2 (λ x y, g x = Ok y) l ys.
Proof.
  revert acc. induction l as [|x l IH]; intros acc; cbn [loop].
  - split; [intros [= ->]; exists []; by rewrite app_nil_r|].
    intros (ys & -> & Hys). inversion Hys. by rewrite app_nil_r.
  - destruct (g x) as [y| |] eqn:E; cbn [mbind result_bind].
    + rewrite IH. split.
      * intros (ys & -> & Hys). exists (y :: ys). rewrite <-app_assoc. split; [done|]. by constructor.
      * intros (ys & -> & Hys). inversion Hys as [|? y' ? ys' Hy Hys']; subst. rewrite E in Hy. injection Hy as <-.
        exists ys'. by rewrite <-app_assoc.
    + split; [done|]. intros (ys & _ & Hys). inversion Hys. congruence.
    + split; [done|]. intros (ys & _ & Hys). inversion Hys. congruence.
Qed.
End loops.

(** Sums that wrap, as wrapped sums. *)
Definition Zsum (l : list Z) : Z := foldr Z.add 0%Z l.

Lemma Zsum_app l1 l2 : Zsum (l1 ++ l2) = (Zsum l1 + Zsum l2)%Z.
Proof. induction l1 as [|x l1 IH]; simpl; [done|]. rewrite IH. lia. Qed.

Lemma wrap64_add_l a b : wrap64 (wrap64 a + b) = wrap64 (a + b).
Proof.
  unfold wrap64.
  replace ((a + 2 ^ 63) mod 2 ^ 64 - 2 ^ 63 + b + 2 ^ 63)%Z with ((a + 2 ^ 63) mod 2 ^ 64 + b)%Z by lia.
  rewrite Zplus_mod_idemp_l. do 2 f_equal. lia.
Qed.

Lemma wrap64_cong_r a b b' : wrap64 b = wrap64 b' → wrap64 (a + b) = wrap64 (a + b').
Proof. intros E. by rewrite (Z.add_comm a b), (Z.add_comm a b'), <-wrap64_add_l, E, wrap64_add_l. Qed.

Lemma foldl_wrap {A} (f : A → Z) l a :
  foldl (λ n x, wrap64 (n + f x))%Z (wrap64 a) l = wrap64 (a + Zsum (f <$> l)).
Proof.
  revert a. induction l as [|x l IH]; intros a; cbn [foldl fmap list_fmap Zsum foldr]; [by rewrite Z.add_0_r|].
  rewrite wrap64_add_l, IH. unfold Zsum. f_equal. lia.
Qed.

Lemma foldl_sum {A} (f : A → Z) l a : foldl (λ n x, n + f x)%Z a l = (a + Zsum (f <$> l))%Z.
Proof.
  revert a. induction l as [|x l IH]; intros a; cbn [foldl fmap list_fmap Zsum foldr]; [by rewrite Z.add_0_r|].
  rewrite IH. unfold Zsum. lia.
Qed.

Lemma later_max t u : later t u = Z.max t u.
Proof. unfold later, After. case_bool_decide; lia. Qed.

(** ** Text *)

Lemma humanBytes_formatBytes b : humanBytes b = Tracker.formatBytes b.
Proof. unfold humanBytes, Tracker.formatBytes. case_decide; [by subst|done]. Qed.

Lemma humanBytes_ok b : (b < 1024 ^ 5)%Z → ∃ h, humanBytes b = Ok h.
Proof.
  intros Hb. unfold humanBytes. case_decide; [by eexists|]. case_decide; [by eexists|].
  destruct (Tracker.units_spec b 6 0) as (j & Hj & Hu & Hjb); [lia| |].
  { change (1024 ^ (0 + 1))%Z with 1024%Z. change (1024 ^ (0 + 2 + Z.of_nat 6))%Z with (2 ^ 80)%Z. lia. }
  rewrite Z.quot_div_nonneg by lia. change (1024 ^ (0 + 1))%Z with 1024%Z in Hu. rewrite Hu.
  assert (j < 4)%Z. { destruct (decide (j < 4)%Z) as [|Hn]; [done|]. pose proof (Z.pow_le_mono_r 1024 5 (j + 1)). lia. }
  destruct (lookup_lt_is_Some_2 Tracker.suffixes (Z.to_nat j)) as [x Hx]; [cbn; lia|]. rewrite Hx. by eexists.
Qed.

(** A date determines its day: the months and leap years are counted right. *)
Definition dayNumber (year : Z) (month : nat) (day : Z) : Z :=
  let y := (year - 1)%Z in
  (365 * y + y / 4 - y / 100 + y / 400 + default 0 (daysBefore (isLeap year) !! (month - 1)%nat) + day - 1)%Z.

Lemma year_day_number days :
  let '(year, yday) := year_day days in
  (days = 365 * (year - 1) + (year - 1) / 4 - (year - 1) / 100 + (year - 1) / 400 + yday ∧
   0 ≤ yday < if isLeap year then 366 else 365)%Z.
Proof.
  unfold year_day.
  set (a := (days / 146097)%Z). set (d := (days mod 146097)%Z).
  set (b := Z.min 3 (d / 36524)). set (e := (d - 36524 * b)%Z).
  set (c := (e / 1461)%Z). set (g := (e mod 1461)%Z). set (h := Z.min 3 (g / 365)).
  assert (days = 146097 * a + d ∧ 0 ≤ d < 146097)%Z as [Ha Hd] by (unfold a, d; Z.div_mod_to_equations; lia).
  assert (d = 36524 * b + e)%Z as Hde by (unfold e; lia).
  assert (0 ≤ b ≤ 3 ∧ 0 ≤ e ∧ (b < 3 → e < 36524) ∧ (b = 3 → e < 36525))%Z as (Hb & He & He' & He3).
  { unfold e, b. Z.div_mod_to_equations. lia. }
  assert (e = 1461 * c + g ∧ 0 ≤ g < 1461 ∧ 0 ≤ c ≤ 24)%Z as (Hc & Hg & Hc').
  { unfold c, g. Z.div_mod_to_equations. lia. }
  assert (0 ≤ h ≤ 3 ∧ 0 ≤ g - 365 * h ∧ (h < 3 → g - 365 * h < 365) ∧ (h = 3 → g - 365 * h < 366))%Z as (Hh & Hr & Hr' & Hr3).
  { unfold h. Z.div_mod_to_equations. lia. }
  replace (400 * a + 100 * b + 4 * c + h + 1 - 1)%Z with (400 * a + 100 * b + 4 * c + h)%Z by lia.
  clearbody a b c d e g h. split; [Z.div_mod_to_equations; lia|].
  split; [done|]. destruct (isLeap _) eqn:El; unfold isLeap in El; [lia|].
  apply bool_decide_eq_false in El. Z.div_mod_to_equations. lia.
Qed.

Definition yearLength (leap : bool) : Z := if leap then 366 else 365.

(** The first day of the next month. *)
Definition monthEnd (leap : bool) (month : nat) : Z := default (yearLength leap) (daysBefore leap !! month).

Definition month_ok (leap : bool) (yday : Z) : Prop :=
  let '(month, day) := month_day leap yday in
  (1 ≤ month ≤ 12)%nat ∧
  (1 ≤ day)%Z ∧ (yday = default 0 (daysBefore leap !! (month - 1)%nat) + day - 1)%Z ∧ (yday < monthEnd leap month)%Z.

Lemma month_day_ok leap yday : (0 ≤ yday < yearLength leap)%Z → month_ok leap yday.
Proof.
  intros Hy. assert (Forall (month_ok leap) (seqZ 0 (yearLength leap))) as Hall.
  { unfold month_ok. destruct leap; refine (bool_decide_unpack _ _); vm_compute; exact I. }
  rewrite Forall_forall in Hall. apply Hall, elem_of_seqZ. lia.
Qed.

(** The date of a time: a month of the year and a day of that month, from
    which the day is found again. *)
Lemma Date_spec t :
  let '(year, month, day) := Date t in
  (1 ≤ month ≤ 12)%nat ∧ (1 ≤ day)%Z ∧
  (default 0 (daysBefore (isLeap year) !! (month - 1)%nat) + day ≤ monthEnd (isLeap year) month)%Z ∧
  dayNumber year month day = (t / (24 * Hour))%Z.
Proof.
  unfold Date. pose proof (year_day_number (t / (24 * Hour))) as Hy.
  destruct (year_day _) as [year yday]. destruct Hy as [Hd Hr].
  pose proof (month_day_ok (isLeap year) yday ltac:(unfold yearLength; by destruct (isLeap year))) as Hm.
  unfold month_ok in Hm. destruct (month_day _ _) as [month day]. destruct Hm as (? & ? & ? & ?).
  split_and!; [lia..|]. unfold dayNumber. lia.
Qed.

(** ** What the pages show *)

Section pages.
Context `{Badger} `{!Json MetadataStore.ManifestMeta} `{!Json MetadataStore.RepoMeta}.
Context `{!Json Release} `{!MapRange} `{!GoSort} `{!Json (list string)} `{!Cloner.Env}.
Context `{!Json Events.Event} `{!Json Events.CloneHistoryEntry} `{!Json Events.DownloadRecord}.
Context `{!Json Events.DownloadCounter}.
Context (F : Faults) {W : Type} (range : ∀ A, list A → list A).
Context (ExecuteTemplate : Time → option string → string → Data → bytes * option error).
Context (staticFS : V2.Request → Answer).
Implicit Types (s : Server (W:=W)) (db : DB).

(** The manifests that the tags of a repository stand for. *)
Definition resolved (db : DB) (repo tag : string) : option MetadataStore.ManifestMeta :=
  match MetadataStore.GetManifest db repo tag with Ok m => Some m | _ => None end.
Definition manifests (db : DB) (repo : string) : list MetadataStore.ManifestMeta :=
  match MetadataStore.ListTags db repo with Ok tags => omap (resolved db repo) tags | _ => [] end.

Definition tagCount (db : DB) (repo : string) : Z :=
  match MetadataStore.ListTags db repo with Ok tags => Z.of_nat (length tags) | _ => 0%Z end.

Definition newestOf (l : list MetadataStore.ManifestMeta) : Time :=
  foldr (λ m t, Z.max (MetadataStore.mm_CreatedAt m) t) 0%Z l.

(** What a view says of its repository: its sizes add up, and it was updated
    when its newest manifest was made or, without one, when its record says. *)
Definition shows (db : DB) (now : Time) (repo : string) (rv : RepoView) : Prop :=
  rv_FullName rv = repo ∧
  (rv_Namespace rv, rv_Name rv) = splitRepoName repo ∧
  rv_TagCount rv = tagCount db repo ∧
  rv_TotalSize rv = wrap64 (Zsum (MetadataStore.mm_Size <$> manifests db repo)) ∧
  humanBytes (rv_TotalSize rv) = Ok (rv_TotalSizeHuman rv) ∧
  rv_LastUpdatedHuman rv = humanTime now (rv_LastUpdated rv) ∧
  (newestOf (manifests db repo) ≠ 0%Z → rv_LastUpdated rv = newestOf (manifests db repo)) ∧
  (newestOf (manifests db repo) = 0%Z →
     rv_LastUpdated rv = match MetadataStore.GetRepoMeta db repo with
                         | Ok rm => MetadataStore.rm_UpdatedAt rm | _ => 0%Z end).

Lemma newestOf_nonneg ms : (0 ≤ newestOf ms)%Z.
Proof. induction ms as [|m ms IH]; simpl; lia. Qed.

Lemma addTag_loop db repo tags : ∀ a t r, (0 ≤ t)%Z →
  let ms := omap (resolved db repo) tags in
  loop (addTag db repo) (wrap64 a, t) tags = Ok r →
  r = (wrap64 (a + Zsum (MetadataStore.mm_Size <$> ms)), Z.max (newestOf ms) t).
Proof.
  induction tags as [|tag tags IH]; intros a t r Ht; cbn [loop omap list_omap].
  { intros [= <-]. cbn. rewrite Z.add_0_r. f_equal. lia. }
  assert (addTag db repo (wrap64 a, t) tag = or_continue (MetadataStore.GetManifest db repo tag) (wrap64 a, t) (λ m,
    Ok (wrap64 (a + MetadataStore.mm_Size m), Z.max (MetadataStore.mm_CreatedAt m) t))) as ->.
  { unfold addTag. cbn [fst snd]. destruct (MetadataStore.GetManifest db repo tag); cbn [or_continue]; [|done..].
    by rewrite wrap64_add_l, later_max. }
  assert (resolved db repo tag = match MetadataStore.GetManifest db repo tag with Ok m => Some m | _ => None end) as -> by done.
  destruct (MetadataStore.GetManifest db repo tag) as [m| |]; cbn [or_continue mbind result_bind]; [|by apply IH|done].
  intros Hr. apply IH in Hr; [|lia]. rewrite Hr.
  cbn [fmap list_fmap Zsum foldr newestOf]. unfold Zsum, newestOf. f_equal; [f_equal; lia|lia].
Qed.

(** The loop from the beginning. *)
Lemma addTag_all db repo tags r :
  let ms := omap (resolved db repo) tags in
  loop (addTag db repo) (0, 0)%Z tags = Ok r →
  r = (wrap64 (Zsum (MetadataStore.mm_Size <$> ms)), newestOf ms).
Proof.
  intros ms Hr. rewrite (addTag_loop db repo tags 0 0 r ltac:(done) Hr). fold ms.
  pose proof (newestOf_nonneg ms). f_equal. lia.
Qed.

Lemma buildRepoView_shows db now repo rv : buildRepoView db now repo = Ok rv → shows db now repo rv.
Proof.
  unfold buildRepoView, shows, tagCount, manifests. destruct (splitRepoName repo) as [ns name]. intros E.
  assert (∃ tags r, or_nil (MetadataStore.ListTags db repo) = Ok tags ∧ loop (addTag db repo) (0, 0)%Z tags = Ok r ∧
    ∃ lastUpdated, (if IsZero r.2 then or_continue (MetadataStore.GetRepoMeta db repo) r.2
                      (λ rm, Ok (MetadataStore.rm_UpdatedAt rm)) else Ok r.2) = Ok lastUpdated ∧
    ∃ human, humanBytes r.1 = Ok human ∧
      rv = mkRepoView name ns repo (Z.of_nat (length tags)) r.1 human lastUpdated (humanTime now lastUpdated))
    as (tags & r & Ht & Hr & lastUpdated & Hl & human & Hh & ->).
  { destruct (or_nil _) as [tags| |]; cbn [mbind result_bind] in E; [|done..]. exists tags.
    destruct (loop _ _ tags) as [[a t]| |]; cbn [mbind result_bind] in E; [|done..]. exists (a, t).
    do 2 (split; [done|]). cbn [fst snd].
    destruct (if IsZero t then _ else _) as [u| |]; cbn [mbind result_bind] in E; [|done..]. exists u.
    split; [done|]. destruct (humanBytes a) as [hb| |]; cbn [mbind result_bind] in E; [|done..]. exists hb.
    by injection E as <-. }
  apply addTag_all in Hr. cbn [rv_FullName rv_Namespace rv_Name rv_TagCount rv_TotalSize rv_TotalSizeHuman
    rv_LastUpdated rv_LastUpdatedHuman].
  assert (r = (wrap64 (Zsum (MetadataStore.mm_Size <$> manifests db repo)), newestOf (manifests db repo)) ∧
    Z.of_nat (length tags) = tagCount db repo) as [-> Hc].
  { unfold manifests, tagCount, or_nil in *. destruct (MetadataStore.ListTags db repo); simplify_eq/=; done. }
  fold (manifests db repo) (tagCount db repo). rewrite Hc.
  split_and!; try done; intros Hz; cbn [snd] in Hl; unfold IsZero in Hl; case_bool_decide; simplify_eq.
  - done.
  - unfold or_continue in Hl. rewrite Hz in Hl. destruct (MetadataStore.GetRepoMeta db repo); by simplify_eq/=.
Qed.

Lemma repoViews_ok db now repos :
  (∀ repo, repo ∈ repos → ∃ rv, buildRepoView db now repo = Ok rv) →
  ∃ views, repoViews db now repos = Ok views ∧ Forall2 (λ repo rv, buildRepoView db now repo = Ok rv) repos views.
Proof.
  intros Hok. assert (∃ views, Forall2 (λ repo rv, buildRepoView db now repo = Ok rv) repos views) as [views Hv].
  { induction repos as [|repo repos IH]; [by exists []|]. destruct (Hok repo) as [rv Hrv]; [by left|].
    destruct IH as [views Hv]; [intros ? ?; apply Hok; by right|]. exists (rv :: views). by constructor. }
  exists views. split; [|done]. apply loop_snoc. by exists views.
Qed.

(** A sort by one of the orders of the repository pages. *)
Lemma sort_views `{!GoSortLaws} (less : RepoView → RepoView → bool) (key : RepoView → Z) views :
  (∀ a b, less a b = bool_decide (key b < key a)%Z) →
  sort_slice less views ≡ₚ views ∧ StronglySorted (λ a b, key b ≤ key a)%Z (sort_slice less views).
Proof.
  intros Hk. split; [apply sort_slice_perm|].
  assert (∀ a b, not_after less a b ↔ (key b ≤ key a)%Z) as Hn.
  { intros a b. unfold not_after. rewrite Hk, bool_decide_eq_false. lia. }
  assert (StronglySorted (not_after less) (sort_slice less views)) as Hs.
  { apply (sort_slice_sorted less (λ _, True)); [by apply Forall_forall|..].
    - intros x y z _ _ _. rewrite !Hn. lia.
    - intros x y _ _. rewrite !Hn. lia. }
  induction Hs as [|x l _ IH Hx]; [constructor|].
  constructor; [done|]. eapply Forall_impl; [exact Hx|]. intros y. apply Hn.
Qed.

Lemma StronglySorted_split {A} (R : A → A → Prop) l1 l2 :
  StronglySorted R (l1 ++ l2) → StronglySorted R l1 ∧ ∀ x y, x ∈ l1 → y ∈ l2 → R x y.
Proof.
  induction l1 as [|z l1 IH]; simpl; [by split; [constructor|set_solver]|].
  intros [Hs Hz]%StronglySorted_inv. destruct (IH Hs) as [Hs1 Hs2]. apply Forall_app in Hz as [Hz1 Hz2].
  split; [by constructor|]. intros x y [->|Hx]%elem_of_cons Hy; [|auto]. rewrite Forall_forall in Hz2. auto.
Qed.

(** The bytes of all manifests that the tags of some repositories stand for. *)
Definition taggedBytes (db : DB) (repos : list string) : Z :=
  Zsum ((λ repo, Zsum (MetadataStore.mm_Size <$> manifests db repo)) <$> repos).

Lemma views_total db now repos views :
  Forall2 (shows db now) repos views →
  wrap64 (Zsum (rv_TotalSize <$> views)) = wrap64 (taggedBytes db repos) ∧
  Zsum (rv_TagCount <$> views) = Zsum (tagCount db <$> repos).
Proof.
  induction 1 as [|repo rv repos views (_ & _ & Hc & Ht & _) _ [IH1 IH2]]; [done|].
  unfold taggedBytes, Zsum in *. cbn [fmap list_fmap foldr]. rewrite Ht, Hc. split; [|by rewrite <-IH2].
  rewrite wrap64_add_l. by apply wrap64_cong_r.
Qed.

Lemma dashboard_eq db now repos views h :
  MetadataStore.ListRepositories db = Ok repos → repoViews db now repos = Ok views →
  humanBytes (wrap64 (Zsum (rv_TotalSize <$> views))) = Ok h →
  dashboard db now =
    Ok (mkPageData "Dashboard" "dashboard" [mkBreadcrumb "Dashboard" "/ui/"]
          (CDashboard (mkDashboardData (Z.of_nat (length repos)) (Zsum (rv_TagCount <$> views))
             (wrap64 (Zsum (rv_TotalSize <$> views))) h (take 10 (sort_slice newest_first views))))).
Proof.
  intros Hr Hv Hh. unfold dashboard. rewrite Hr. cbn [or_nil mbind result_bind]. rewrite Hv. cbn [mbind result_bind].
  pose proof (foldl_wrap rv_TotalSize views 0) as Ew. change (wrap64 0) with 0%Z in Ew.
  rewrite foldl_sum, Ew, !Z.add_0_l, Hh. done.
Qed.

(** C39 The dashboard adds up: when every repository can be looked at, it is
    answered with the number of repositories and of their tags, the bytes (in
    an int64) of all manifests the tags stand for, and the ten repositories
    that were updated last (or all, when they are fewer), newest first, each
    shown truthfully: none left out was updated later than one that is
    shown. *)
Theorem dashboard_spec `{!GoSortLaws} h inp aq s repos :
  let db := sv_db s in let now := in_now inp in
  V2.rq_Path (aq_rq aq) ∈ ["/ui"; "/ui/"] → MetadataStore.ListRepositories db = Ok repos →
  (∀ repo, repo ∈ repos → ∃ rv, buildRepoView db now repo = Ok rv) →
  (wrap64 (taggedBytes db repos) < 1024 ^ 5)%Z →
  ∃ d views rest,
    ServeHTTP F range ExecuteTemplate staticFS h inp aq s =
      (Ok (render ExecuteTemplate now (aq_rq aq) "dashboard"
             (mkPageData "Dashboard" "dashboard" [mkBreadcrumb "Dashboard" "/ui/"] (CDashboard d)), []), s) ∧
    Forall2 (shows db now) repos views ∧
    dd_RepoCount d = Z.of_nat (length repos) ∧ dd_TagCount d = Zsum (tagCount db <$> repos) ∧
    dd_TotalSize d = wrap64 (taggedBytes db repos) ∧
    dd_RecentRepos d ++ rest ≡ₚ views ∧ length (dd_RecentRepos d) = Nat.min 10 (length repos) ∧
    StronglySorted (λ a b, rv_LastUpdated b ≤ rv_LastUpdated a)%Z (dd_RecentRepos d) ∧
    (∀ a b, a ∈ dd_RecentRepos d → b ∈ rest → rv_LastUpdated b ≤ rv_LastUpdated a)%Z.
Proof.
  intros db now Hp Hr Hok Hfit. destruct (repoViews_ok db now repos Hok) as (views & Hv & HF).
  assert (Forall2 (shows db now) repos views) as Hs.
  { eapply Forall2_impl; [exact HF|]. intros ? ?. apply buildRepoView_shows. }
  destruct (views_total db now repos views Hs) as [Ht Hc].
  destruct (humanBytes_ok (wrap64 (Zsum (rv_TotalSize <$> views)))) as [human Hh]; [by rewrite Ht|].
  destruct (sort_views newest_first rv_LastUpdated views ltac:(done)) as [Hperm Hsort].
  pose proof (take_drop 10 (sort_slice newest_first views)) as Htd.
  assert (StronglySorted (λ a b, rv_LastUpdated b ≤ rv_LastUpdated a)%Z
    (take 10 (sort_slice newest_first views) ++ drop 10 (sort_slice newest_first views))) as Hsort' by by rewrite Htd.
  apply StronglySorted_split in Hsort' as [Hs1 Hs2].
  eexists _, views, (drop 10 (sort_slice newest_first views)). split.
  { pose proof (dashboard_eq db now repos views human Hr Hv Hh) as E.
    unfold ServeHTTP. replace (if decide (TrimPrefix _ _ = "") then _ else _) with "/" by
      (revert Hp; rewrite !elem_of_cons, elem_of_nil; intros [->|[->|[]]]; by vm_compute).
    change (HasPrefix "/" "/static/") with false. cbn [decide]. rewrite decide_True by done.
    unfold handleDashboard, page. fold db now. rewrite E. reflexivity. }
  cbn [dd_RepoCount dd_TagCount dd_TotalSize dd_RecentRepos].
  split; [exact Hs|]. split; [reflexivity|]. split; [exact Hc|]. split; [exact Ht|].
  split; [by rewrite Htd|]. split; [|exact (conj Hs1 Hs2)].
  by rewrite length_take, (Permutation_length Hperm), (Forall2_length _ _ _ HF).
Qed.

(** ** Search *)

Definition found (q repoName : string) : Prop := Contains (ToLower repoName) q = true.
Global Instance found_dec q r : Decision (found q r).
Proof. unfold found. apply _. Defined.

Lemma search_loop db now q repos : ∀ matches,
  length matches < 8 →
  search db now q matches repos =
    loop (λ views repoName, rv ← buildRepoView db now repoName; Ok (views ++ [rv])) matches
      (take (8 - length matches) (filter (found q) repos)).
Proof.
  induction repos as [|repo repos IH]; intros matches Hm; cbn [search]; [by rewrite filter_nil, take_nil|].
  rewrite filter_cons. destruct (decide (found q repo)) as [E|E]; unfold found in E.
  - rewrite E. replace (8 - length matches) with (S (8 - S (length matches))) by lia.
    cbn [take loop]. destruct (buildRepoView db now repo) as [rv| |]; cbn [mbind result_bind]; [|done..].
    rewrite length_app. cbn [length]. case_decide as H8.
    + replace (8 - S (length matches)) with 0 by lia. done.
    + rewrite IH by (rewrite length_app; cbn; lia). by rewrite length_app, Nat.add_1_r.
  - apply not_true_is_false in E. rewrite E. by apply IH.
Qed.

(** The search page shows the first eight repositories whose name contains the
    query, letters of either case being the same. *)
Theorem search_is_filter h inp aq s repos :
  let db := sv_db s in let now := in_now inp in let q := ToLower (V2.rq_Query (aq_rq aq) "q") in
  V2.rq_Path (aq_rq aq) = "/ui/repositories/search" → MetadataStore.ListRepositories db = Ok repos →
  ServeHTTP F range ExecuteTemplate staticFS h inp aq s =
    match repoViews db now (take 8 (filter (found q) repos)) with
    | Ok views => answer (mkAnswer 200 html (ABytes (ExecuteTemplate now None "search-results" (DMatches views)).1)) s
    | Err e => (Err e, s)
    | Panic p => (Panic p, s)
    end.
Proof.
  intros db now q Hp Hr. unfold ServeHTTP. rewrite Hp.
  change (handleSearch ExecuteTemplate now (aq_rq aq) s = match repoViews db now (take 8 (filter (found q) repos)) with
    | Ok views => answer (mkAnswer 200 html (ABytes (ExecuteTemplate now None "search-results" (DMatches views)).1)) s
    | Err e => (Err e, s) | Panic p => (Panic p, s) end).
  unfold handleSearch. fold db. rewrite Hr. cbn [or_nil mbind result_bind].
  rewrite search_loop by (cbn; lia). done.
Qed.

(** ** The releases page *)

Definition count (P : Release → Prop) `{!∀ r, Decision (P r)} (rels : list Release) : Z :=
  Z.of_nat (length (filter P rels)).

(** [t'] has counted [rels] on top of [t]. *)
Definition counts (rels : list Release) (t t' : Tally) : Prop :=
  (ta_TotalCount t' = ta_TotalCount t + Z.of_nat (length rels) ∧
   ta_AvailableCount t' = ta_AvailableCount t + count (λ r, rl_State r ∈ [StateAvailable; StateCloning]) rels ∧
   ta_ClonedCount t' = ta_ClonedCount t + count (λ r, rl_State r ∈ [StateCloned; StateExtracting]) rels ∧
   ta_ReadyCount t' = ta_ReadyCount t + count (λ r, rl_State r ∈ [StateReady]) rels ∧
   ta_FailedCount t' = ta_FailedCount t + count (λ r, rl_State r ∈ [StateFailed]) rels)%Z ∧
  ta_Available t' = ta_Available t ++ filter (λ r, rl_State r = StateAvailable) rels.

Lemma GetProgress_total v st : ∃ p st', GetProgress v st = (Ok p, st').
Proof.
  unfold GetProgress, in_order, gets, env, mbind, M_bind, mret, M_ret.
  destruct (cl_active (st_cl st) !! v); cbn; [by do 2 eexists|].
  destruct (option_bind _ _); by do 2 eexists.
Qed.

(** Decisions on a state that is known, or known to be another. *)
Ltac decided :=
  repeat first
    [ rewrite decide_True by (refine (bool_decide_unpack _ _); vm_compute; exact I)
    | rewrite decide_False by (refine (bool_decide_unpack _ _); vm_compute; exact I)
    | rewrite decide_False by (rewrite ?elem_of_cons, ?elem_of_nil; tauto) ];
  cbn; rewrite ?app_nil_r; split_and!; lia || reflexivity.

Lemma tally_one_counts rel t st : ∃ t' st', tally_one rel t st = (Ok t', st') ∧ counts [rel] t t'.
Proof.
  destruct t as [n a c r f av cl]. unfold tally_one, counts, count. rewrite !filter_cons, !filter_nil.
  cbn [ta_TotalCount ta_AvailableCount ta_ClonedCount ta_ReadyCount ta_FailedCount ta_Available].
  destruct (decide (rl_State rel = StateAvailable)) as [->|]; [do 2 eexists; split; [reflexivity|]; decided|].
  destruct (decide (rl_State rel = StateCloned)) as [->|]; [do 2 eexists; split; [reflexivity|]; decided|].
  destruct (decide (rl_State rel = StateExtracting)) as [->|]; [do 2 eexists; split; [reflexivity|]; decided|].
  rewrite (decide_False (P := _ ∨ _)) by tauto.
  destruct (decide (rl_State rel = StateReady)) as [->|]; [do 2 eexists; split; [reflexivity|]; decided|].
  destruct (decide (rl_State rel = StateFailed)) as [->|]; [do 2 eexists; split; [reflexivity|]; decided|].
  destruct (decide (rl_State rel = StateCloning)) as [->|].
  - destruct (GetProgress_total (rl_Version rel) st) as (p & st' & E). unfold mbind, M_bind. rewrite E.
    do 2 eexists. split; [reflexivity|]. decided.
  - do 2 eexists. split; [reflexivity|]. decided.
Qed.

(** The counters of the page count the catalogue by state, a release that is
    being cloned as available, and so sum up to its size when every state is
    one of the program's. *)
Theorem tally_counts rels : ∀ t st, ∃ t' st', tally rels t st = (Ok t', st') ∧ counts rels t t'.
Proof.
  induction rels as [|rel rels IH]; intros t st.
  { do 2 eexists. split; [reflexivity|]. unfold counts, count. cbn. rewrite app_nil_r. split_and!; lia || done. }
  destruct (tally_one_counts rel t st) as (t1 & st1 & E & (B1 & B2 & B3 & B4 & B5) & B6).
  destruct (IH t1 st1) as (t2 & st2 & E2 & (G1 & G2 & G3 & G4 & G5) & G6). exists t2, st2.
  cbn [tally]. unfold mbind, M_bind. rewrite E. split; [exact E2|].
  assert (∀ P `{!∀ r, Decision (P r)}, count P (rel :: rels) = count P [rel] + count P rels)%Z as Hc.
  { intros P HP. unfold count. rewrite (filter_app P [rel] rels : filter P (rel :: rels) = _), length_app. lia. }
  unfold counts. rewrite !Hc. split; [cbn in *; lia|].
  by rewrite (filter_app _ [rel] rels : filter _ (rel :: rels) = _), app_assoc, <-B6.
Qed.

(** ** What the interface changes *)

(** A computation that leaves everything but the count of its questions. *)
Definition looks {A} (m : M St A) : Prop :=
  ∀ w c n, keeps (λ st, st_w st = w ∧ st_cl st = c ∧ st_synced st = n) m.

Lemma looks_env {A} (f : nat → result A) : looks (env f).
Proof. by intros w c n st Hs. Qed.

Ltac looks_solve := repeat first [keeps_step | apply looks_env].

Lemma looks_tally rels : ∀ t, looks (tally rels t).
Proof.
  induction rels as [|rel rels IH]; intros [] w c k; simpl; [looks_solve|].
  unfold GetProgress, in_order. repeat first [apply IH | keeps_step | apply looks_env].
Qed.

Lemma looks_releasesPage now t0 log mgr ev certs : looks (releasesPage now t0 log mgr ev certs).
Proof.
  intros w c n. unfold releasesPage, managerData, GetAllProgress, in_order.
  repeat first [apply looks_tally | keeps_step | apply looks_env].
Qed.

(** The server but for the count of its questions to the environment. *)
Definition same_server (s s' : Server (W:=W)) : Prop :=
  sv_v2 s' = sv_v2 s ∧ sv_cl s' = sv_cl s ∧ sv_synced s' = sv_synced s ∧ sv_jobs s' = sv_jobs s.

Lemma on_manager_looks {A} (m : M St A) s : looks m → same_server s (on_manager m s).2.
Proof.
  intros Hm. unfold on_manager. set (st := mkSt _ _ _ _).
  destruct (Hm (st_w st) (st_cl st) (st_synced st) st) as (Hw & Hc & Hn); [done|].
  destruct (m st) as [r st']. cbn [fst snd] in *. unfold same_server. cbn. rewrite Hw, Hc, Hn.
  split; [|done]. by destruct (sv_v2 s).
Qed.

(** An outcome that has changed and started nothing. *)
Definition quiet s (x : Served (W:=W)) : Prop :=
  same_server s x.2 ∧ ∀ a started, x.1 = Ok (a, started) → started = [].

Lemma quiet_answer a s s' : same_server s s' → quiet s (answer a s').
Proof. intros Hs. split; [done|]. by intros ? ? [= _ <-]. Qed.

Lemma quiet_page now rq name r s s' : same_server s s' → quiet s (page ExecuteTemplate now rq name r s').
Proof. intros Hs. destruct r; [by apply quiet_answer|by split..]. Qed.

Lemma quiet_page_or_404 now rq name r s s' :
  same_server s s' → quiet s (page_or_404 ExecuteTemplate now rq name r s').
Proof. intros Hs. destruct r as [[]| |]; [by apply quiet_answer..|by split|by split]. Qed.

Lemma quiet_handleReleases h inp rq s : quiet s (handleReleases ExecuteTemplate h inp rq s).
Proof.
  unfold handleReleases.
  destruct (on_manager_looks (releasesPage (in_now inp) (in_initialDiscoveredAt inp) (in_logLines inp)
    (bool_decide (is_Some (ha_releaseMgr h))) (ha_eventStore h) (ha_certMgr h)) s) as (? & ? & ? & ?);
    [apply looks_releasesPage|].
  destruct (on_manager _ _) as [r s']. apply quiet_page. by split_and!.
Qed.

Definition uiPath (rq : V2.Request) : string :=
  let path := TrimPrefix (V2.rq_Path rq) "/ui" in if decide (path = "") then "/" else path.

(** Every route but one. *)
Lemma ServeHTTP_quiet h inp aq s :
  HasPrefix (uiPath (aq_rq aq)) "/sync/trigger/" = false →
  quiet s (ServeHTTP F range ExecuteTemplate staticFS h inp aq s).
Proof.
  intros Ht. unfold ServeHTTP. fold (uiPath (aq_rq aq)). rewrite Ht. assert (same_server s s) as Hs by done.
  destruct (HasPrefix _ "/static/"); [by apply quiet_answer|].
  case_decide; [by apply quiet_page|]. case_decide; [by apply quiet_page|].
  destruct (HasPrefix _ "/repositories/search").
  { unfold handleSearch. case_match; [by apply quiet_answer|by split..]. }
  destruct (Contains _ "/manifests/"); [by apply quiet_page_or_404|].
  destruct (HasPrefix _ "/repositories/"); [by apply quiet_page_or_404|].
  case_decide; [by apply quiet_handleReleases|].
  destruct (HasPrefix _ "/releases/").
  { unfold handleReleaseDetail. destruct (ha_releaseMgr h); [by apply quiet_page_or_404|by apply quiet_answer]. }
  repeat (case_decide; [by apply quiet_answer|]). by apply quiet_answer.
Qed.

(** And that one, unless another route takes the path first. *)
Lemma handleSyncTrigger_spec h rq name s :
  quiet s (handleSyncTrigger h rq name s) ∨
  ∃ job, V2.rq_Method rq = "POST" ∧ sv_jobs s !! name = Some job ∧ Scheduler.sj_running job = false ∧
    handleSyncTrigger h rq name s = (Ok (mkAnswer 200 [] ANone, [StartSync name]), s).
Proof.
  unfold handleSyncTrigger. destruct (decide (V2.rq_Method rq ≠ "POST")) as [|Hm]; [left; by apply quiet_answer|].
  destruct (negb (ha_scheduler h)); [left; by apply quiet_answer|]. unfold Scheduler.TriggerSync.
  destruct (sv_jobs s !! name) as [job|] eqn:Hj; [|left; by apply quiet_answer].
  destruct (Scheduler.sj_running job) eqn:Hrun; [left; by apply quiet_answer|].
  right. exists job. split_and!; try done. by apply dec_stable.
Qed.

Lemma ServeHTTP_trigger h inp aq s name :
  uiPath (aq_rq aq) = "/sync/trigger/" +:+ name →
  quiet s (ServeHTTP F range ExecuteTemplate staticFS h inp aq s) ∨
  ServeHTTP F range ExecuteTemplate staticFS h inp aq s = handleSyncTrigger h (aq_rq aq) name s.
Proof.
  intros Hp. unfold ServeHTTP. fold (uiPath (aq_rq aq)). rewrite Hp, HasPrefix_app, TrimPrefix_app.
  repeat (case_decide as Hd; [discriminate Hd|clear Hd]).
  destruct (HasPrefix _ "/static/"); [left; by apply quiet_answer|].
  destruct (HasPrefix _ "/repositories/search") eqn:E.
  { apply HasPrefix_spec in E as [? E]. discriminate E. }
  destruct (Contains _ "/manifests/"); [left; by apply quiet_page_or_404|].
  destruct (HasPrefix _ "/repositories/"); [left; by apply quiet_page_or_404|].
  destruct (HasPrefix _ "/releases/") eqn:E2; [|by right].
  apply HasPrefix_spec in E2 as [? E2]. discriminate E2.
Qed.

Lemma ServeHTTP_cases h inp aq s :
  quiet s (ServeHTTP F range ExecuteTemplate staticFS h inp aq s) ∨
  ∃ name, uiPath (aq_rq aq) = "/sync/trigger/" +:+ name ∧
    ServeHTTP F range ExecuteTemplate staticFS h inp aq s = handleSyncTrigger h (aq_rq aq) name s.
Proof.
  destruct (HasPrefix (uiPath (aq_rq aq)) "/sync/trigger/") eqn:E; [|left; by apply ServeHTTP_quiet].
  apply HasPrefix_spec in E as [name E]. destruct (ServeHTTP_trigger h inp aq s name E); [by left|right; by exists name].
Qed.

Lemma ServeHTTP_same h inp aq s : same_server s (ServeHTTP F range ExecuteTemplate staticFS h inp aq s).2.
Proof.
  destruct (ServeHTTP_cases h inp aq s) as [[Hq _]|(name & _ & ->)]; [done|].
  destruct (handleSyncTrigger_spec h (aq_rq aq) name s) as [[Hq _]|(job & _ & _ & _ & ->)]; done.
Qed.

(** C40 The interface only looks: no request changes the registry, the progress
    of clones or the jobs, and none starts anything but a [POST] to the trigger
    of a job that exists and is not running, which starts that job. *)
Theorem ui_only_looks h inp aq s :
  let r := ServeHTTP F range ExecuteTemplate staticFS h inp aq s in
  same_server s r.2 ∧
  ∀ a started, r.1 = Ok (a, started) → started = [] ∨
    ∃ name job, TrimPrefix (V2.rq_Path (aq_rq aq)) "/ui" = "/sync/trigger/" +:+ name ∧
      V2.rq_Method (aq_rq aq) = "POST" ∧ sv_jobs s !! name = Some job ∧ Scheduler.sj_running job = false ∧
      started = [StartSync name].
Proof.
  split; [apply ServeHTTP_same|]. intros a started E.
  destruct (ServeHTTP_cases h inp aq s) as [[_ Hq]|(name & Hp & Hs)]; [left; by eapply Hq|].
  destruct (handleSyncTrigger_spec h (aq_rq aq) name s) as [[_ Hq]|(job & Hm & Hj & Hr & Ht)].
  - left. eapply Hq. by rewrite <-Hs.
  - right. rewrite Hs, Ht in E. injection E as <- <-. exists name, job. split_and!; try done.
    unfold uiPath in Hp. by case_decide.
Qed.
End pages.

(** ** Example *)

Module Example.
Import PipelineSpec.
#[local] Existing Instances mapBadger MetadataStore.jsonMeta MetadataStore.jsonRepo jsonRelease listRange
  insertionSort insertionSortLaws Events.jsonEvent exHistory Events.jsonDownload Events.jsonCounter exPipelineEnv.
#[local] Instance exNames : Json (list string) := countableJson (list string).

(** Two repositories, one with two tags. *)
Definition exMeta (n : Z) : MetadataStore.ManifestMeta :=
  MetadataStore.mkManifestMeta (FromBytes (str_bytes (fmt_d n))) "image" n (n * Hour) [] "" ∅.
Definition exPush (db : DB) (repo_tag : string * string) (n : Z) : DB :=
  (MetadataStore.PutManifest db (n * Hour) (n * Hour) repo_tag.1 repo_tag.2 (exMeta n)).2.
Definition exDb : DB := exPush (exPush (exPush ∅ ("team/app", "v1") 1) ("team/app", "v2") 2) ("tools", "v1") 3.

Definition exServer : Server (W:=unit) := mkServer (V2Example.exHandlerWith ∅ exDb) (NewCloner "quay.io" "ocp" "openshift/release" "") 0 0 ∅.
Definition exInput : Input := mkInput V2Example.exEnv "" (5 * Hour) 0 [].
Definition exRequest (method path : string) : ApiRequest :=
  mkApiRequest (V2Example.exRequest method path []) false "registry:5000" "10.0.0.9:5".
Definition exHandler : Handler := mkHandler true None None true.
Definition exRange (A : Type) (l : list A) : list A := l.

(** A page is its template's name. *)
Definition exTemplate (now : Time) (page : option string) (name : string) (d : Data) : bytes * option error :=
  (str_bytes name, None).
Definition exStatic (rq : V2.Request) : Answer := NotFound.

Definition exAsk (method path : string) : Served (W:=unit) :=
  ServeHTTP noFaults exRange exTemplate exStatic exHandler exInput (exRequest method path) exServer.

Lemma dashboard_spec_witness :
  ∃ d, (exAsk "GET" "/ui/").1 =
         Ok (render exTemplate (5 * Hour) (aq_rq (exRequest "GET" "/ui/")) "dashboard"
               (mkPageData "Dashboard" "dashboard" [mkBreadcrumb "Dashboard" "/ui/"] (CDashboard d)), []) ∧
       dd_RepoCount d = 2%Z ∧ dd_TagCount d = 3%Z ∧ dd_TotalSize d = 6%Z.
Proof.
  destruct (dashboard_spec noFaults exRange exTemplate exStatic exHandler exInput (exRequest "GET" "/ui/") exServer
    ["team/app"; "tools"]) as (d & views & rest & E & _ & Hr & Ht & Hs & _).
  - refine (bool_decide_unpack _ _); vm_compute; exact I.
  - by vm_compute.
  - intros repo Hr. assert (Forall (λ repo, is_ok (buildRepoView exDb (5 * Hour) repo) = true) ["team/app"; "tools"]) as HF.
    { refine (bool_decide_unpack _ _); vm_compute; exact I. }
    rewrite Forall_forall in HF. specialize (HF repo Hr). change (sv_db exServer) with exDb. change (in_now exInput) with (5 * Hour)%Z.
    destruct (buildRepoView _ _ _) as [rv| |]; [by exists rv|done..].
  - refine (bool_decide_unpack _ _); vm_compute; exact I.
  - exists d. unfold exAsk. rewrite E, Hr, Ht, Hs. refine (conj eq_refl (conj _ (conj _ _))); vm_compute; reflexivity.
Defined.

Lemma ui_only_looks_witness : same_server exServer (exAsk "POST" "/ui/sync/trigger/quay").2.
Proof. apply (ui_only_looks noFaults exRange exTemplate exStatic exHandler exInput (exRequest "POST" "/ui/sync/trigger/quay") exServer). Defined.

(** The newest repository comes first, and a query is found in either case. *)
Example recent_and_found :
  (views ← repoViews exDb (5 * Hour) ["team/app"; "tools"];
   Ok (rv_FullName <$> sort_slice newest_first views, rv_LastUpdatedHuman <$> (views : list RepoView))) =
    Ok (["tools"; "team/app"], ["3 hours ago"; "2 hours ago"]) ∧
  rv_FullName <$> (match search exDb 0 (ToLower "APP") [] ["team/app"; "tools"] with Ok l => l | _ => [] end) = ["team/app"].
Proof. by vm_compute. Qed.

(** A tag whose manifest names a layer that is not a digest makes the page of
    its repository panic. *)
Definition exBadLayer : DB :=
  (MetadataStore.PutManifest ∅ 0 0 "app" "v1"
     (MetadataStore.mkManifestMeta (FromBytes []) "image" 0 0 ["x"] "" ∅)).2.
Fact malformed_layer_breaks_page :
  repository noFaults exBadLayer (BlobStore.NewBlobStore "/srv") (mkOs ∅ ∅ 0) 0 "" "/repositories/app" =
    Panic "slice bounds out of range".
Proof. by vm_compute. Qed.
End Example.
End Ui.
