(* ===== verification/Server.v ===== *)
(** cmd/fastregistry/main.go: the server as it is put together from its
    configuration, and what holds of it whatever requests it gets. *)

From S2P Require Import Prelude Effect GoLib Digest Base64 Os Blob Badger Metadata Cache Upload Oci Regexp Mirror Events V2 V2Example V2Safety.
From S2P Require Import Discovery Cloner ClonerSpec Extractor Releases Pipeline PipelineSpec Iso ManagerOps Ignition SyncClients Auth Tracker.
From S2P Require Import Replication Scheduler Config Certs Api Ui.

Module Server.
Import Config Api PipelineSpec.

Section server.
Context `{Badger} `{!Json MetadataStore.ManifestMeta} `{!Json MetadataStore.RepoMeta}.
Context `{!Json Oci.PutManifestBody} `{Mirror.HttpClient} `{!JsonDecoder Mirror.tokenResp}.
Context `{!JsonDecoder quayTagsResponse} `{!Json Release} `{!MapRange}.
Context `{!Json Events.Event} `{!Json Events.CloneHistoryEntry} `{!Json Events.DownloadRecord}.
Context `{!Json Events.DownloadCounter}.
Context `{!Unmarshal LayersManifest} `{!Unmarshal ReleaseManifest} `{!Unmarshal ComponentManifest}.
Context `{!Unmarshal imageStream} `{!Unmarshal VerifyManifest} `{!Archive}.
Context `{!Cloner.Env} `{Gzip} `{Exec} `{Auth.Bcrypt}.
Context `{!Ignition.Yaml Ignition.InstallConfig} `{!Ignition.Yaml Ignition.AgentConfig} `{!Ignition.Indented}.
Context `{!JsonDecoder CloneBody} `{!JsonDecoder ExtractBody} `{!JsonDecoder CopyBody} `{!JsonDecoder IsoBody}.
Context `{!GoSort} `{!Json (list string)}.
Context (F : Faults).
Context {W : Type} (range : ∀ A, list A → list A).

(** ** Files *)

(** [http.FileServer(http.Dir(dir))]: what it does with a request, by the files
    there are. *)
Context (fileServer : string → V2.Request → Os → list Tracker.wcall).

Definition set_rq_path (p : string) (rq : V2.Request) : V2.Request :=
  V2.mkRequest (V2.rq_Method rq) p (V2.rq_Query rq) (V2.rq_Header rq) (V2.rq_ContentLength rq) (V2.rq_Body rq).

(** [http.StripPrefix]. *)
Definition StripPrefix (prefix : string) (h : V2.Request → Os → list Tracker.wcall) (rq : V2.Request) (os : Os)
    : list Tracker.wcall :=
  if HasPrefix (V2.rq_Path rq) prefix then h (set_rq_path (TrimPrefix (V2.rq_Path rq) prefix) rq) os
  else
    let body := str_bytes ("404 page not found" +:+ String "010" "") in
    [Tracker.WriteHeader 404; Tracker.Write body (length body)].

Definition filesHandler (m : Manager) (rq : V2.Request) (os : Os) : list Tracker.wcall :=
  if HasPrefix (V2.rq_Path rq) "/files/installs/"
  then StripPrefix "/files/installs/" (fileServer (InstallsPath m)) rq os
  else StripPrefix "/files/releases/" (fileServer (rc_ArtifactPath (mg_cfg m))) rq os.

(** The answer a sequence of calls writes, but for the headers of the file
    server. *)
Definition written (calls : list Tracker.wcall) : Answer :=
  mkAnswer (match calls with Tracker.WriteHeader code :: _ => code | _ => 200 end) []
    (ABytes (calls ≫= λ c, match c with Tracker.Write b n => take n b | _ => [] end)).

Definition trackingHandler (m : Manager) : HttpHandler (W:=W) := λ inp aq s,
  let rq := aq_rq aq in
  let h := sv_v2 s in
  let '(res, db) := Tracker.ServeHTTP true rq (aq_RemoteAddr aq) (filesHandler m rq (w_os (V2.h_world h)))
                      (V2.ev_now (in_env inp)) (sv_db s) in
  let s := set_v2 (V2.set_db h db) s in
  match res with
  | Ok calls => answer (written calls) s
  | Err e => (Err e, s)
  | Panic p => (Panic p, s)
  end.

(** ** Start *)

(** The templates of the interface and its static files. *)
Context (ExecuteTemplate : Time → option string → string → Ui.Data → bytes * option error).
Context (staticFS : V2.Request → Answer).

Definition selectAuth (os : Os) (cfg : AuthConfig) : result Auth.Authenticator :=
  if decide (au_Type cfg = "htpasswd") then
    a ← Auth.NewHtpasswdAuth F os (au_HtpasswdFile cfg); Ok (Auth.Htpasswd a)
  else Ok Auth.NoAuth.

Record Booted := mkBooted {
  bt_router : Router (W:=W);
  bt_server : Server (W:=W);
  bt_started : list Started
}.

Definition version : string := "0.6.0".

Definition releaseManager (cfg : ReleasesSection) : option Manager :=
  if re_Enabled cfg then Some (SetEventStore (NewManager (re_cfg cfg))) else None.

(** The router and the state of the server, from its parts. *)
Definition assemble (newClient : Sync.SyncSource → option (Scheduler.SyncClient W)) (db : DB) (uploads : Upload.UploadManager) (auth : Auth.Authenticator)
    (certMgr : option Certs.Manager) (os : Os) (cfg : Config) : Booted :=
  let releases := c_Releases cfg in
  let rc := re_cfg releases in
  let manager := releaseManager releases in
  let jobs := Scheduler.NewScheduler newClient (c_Sync cfg) in
  let h := V2.NewHandler (mkWorld _ (BlobStore.NewBlobStore (st_Path (c_Storage cfg))) os db) uploads in
  let h := match c_Mirrors cfg with [] => h | mirrors => V2.SetProxy h (Mirror.NewProxy mirrors) end in
  let scheduler := bool_decide (c_Sync cfg ≠ []) in
  let uiHandler := Ui.ServeHTTP F range ExecuteTemplate staticFS (Ui.mkHandler scheduler manager certMgr true) in
  mkBooted
    (mkRouter (Some auth) (Some uiHandler) scheduler manager certMgr
       (trackingHandler <$> manager)
       (Some (Replication.NewExporter (re_Enabled releases) true version)) true)
    (mkServer h (NewCloner (rc_Upstream rc) (rc_Repository rc) (rc_LocalRepo rc) (re_PullSecret releases))
       0 0 jobs)
    ((if re_Enabled releases && re_AutoDiscover releases then [StartDiscovery] else []) ++
     (StartSync <$> (if decide (c_Sync cfg = []) then [] else Scheduler.startOnce range jobs))).

(** [main] from the configuration to the server: a store or an authenticator
    that cannot be made ends it, a certificate manager does not.  [opened]: the
    database as Badger opens it; [FC] and [ca]: what fails in the making of the
    CA, and what is made. *)
Definition boot (FC : nat → Faults) (ca : Certs.NewCA) (opened : result DB)
    (newClient : Sync.SyncSource → option (Scheduler.SyncClient W)) (os : Os) (cfg : Config) : result Booted :=
  db ← opened;
  uploads ← Upload.NewUploadManager F (st_Path (c_Storage cfg));
  auth ← selectAuth os (c_Auth cfg);
  let '(certs, os) := Certs.NewManager FC ca (c_Certs cfg) os in
  certMgr ← match certs with Ok m => Ok (Some m) | Err _ => Ok None | Panic p => Panic p end;
  Ok (assemble newClient db uploads auth certMgr os cfg).
End server.

(** ** Calls that spare some files *)

Section spares.
Context `{Badger} `{!Json MetadataStore.ManifestMeta} `{!Json MetadataStore.RepoMeta}.
Context `{!Json Oci.PutManifestBody} `{Mirror.HttpClient} `{!JsonDecoder Mirror.tokenResp}.
Context `{!JsonDecoder quayTagsResponse} `{!Json Release} `{!MapRange}.
Context `{!Json Events.Event} `{!Json Events.CloneHistoryEntry} `{!Json Events.DownloadRecord}.
Context `{!Json Events.DownloadCounter}.
Context `{!Unmarshal LayersManifest} `{!Unmarshal ReleaseManifest} `{!Unmarshal ComponentManifest}.
Context `{!Unmarshal imageStream} `{!Unmarshal VerifyManifest} `{!Archive}.
Context `{!Cloner.Env} `{GzipLaws} `{Exec}.
Context `{!Ignition.Yaml Ignition.InstallConfig} `{!Ignition.Yaml Ignition.AgentConfig} `{!Ignition.Indented}.
Context `{!JsonDecoder CloneBody} `{!JsonDecoder ExtractBody} `{!JsonDecoder CopyBody} `{!JsonDecoder IsoBody}.
Context (F : Faults).

(** The files at paths in [D] stay as they are, and so does the root of the
    blob store. *)
Context (D : string → Prop).

Definition kept_files (fs : gmap string bytes) (r : string) (s : St) : Prop :=
  (∀ p, D p → os_files (w_os (st_w s)) !! p = fs !! p) ∧ BlobStore.bs_root (w_bs (st_w s)) = r.

Definition spares {A} (m : M St A) : Prop := ∀ fs r, keeps (kept_files fs r) m.

Lemma spares_readonly {A} (m : M St A) : readonly m → spares m.
Proof.
  intros Hm fs r s [Hf Hr]. destruct (Hm s) as [(_ & Hf' & Hr') _]. split; [|by rewrite Hr'].
  intros p Hp. rewrite Hf'. by apply Hf.
Qed.

Lemma spares_env {A} (f : nat → result A) : spares (env f).
Proof. by intros fs r s Hs. Qed.

Lemma spares_on_db f : spares (on_db f).
Proof. intros fs r s Hs. unfold on_db. by destruct (f _). Qed.

Lemma spares_on_db_result {A} (f : DB → result A * DB) : spares (on_db_result f).
Proof. intros fs r s Hs. unfold on_db_result. by destruct (f _). Qed.

Ltac spares_step :=
  first
    [ keeps_step
    | apply spares_env | apply spares_on_db | apply spares_on_db_result
    | apply spares_readonly; solve
        [ apply readonly_blobs_Read | apply readonly_Exists | apply readonly_Lookup
        | apply readonly_releaseManifest | apply readonly_FindReleaseComponents ] ].
Ltac spares_solve := repeat spares_step.

Lemma spares_checkDigests ds : ∀ acc, spares (checkDigests F acc ds).
Proof.
  induction ds as [|d ds IH]; intros acc fs r; simpl; [spares_solve|].
  unfold checkDigest. repeat first [apply IH | spares_step].
Qed.

Lemma spares_checkComponents l : ∀ acc, spares (checkComponents F acc l).
Proof.
  induction l as [|[c ref] l IH]; intros acc fs r; simpl; [spares_solve|].
  unfold checkComponent, ctx_Err. repeat first [apply IH | spares_step | apply spares_checkDigests].
Qed.

Lemma spares_VerifyMirror m ver arch : spares (VerifyMirror F m ver arch).
Proof.
  intros fs r. unfold VerifyMirror, in_order.
  repeat first [spares_step | apply spares_checkDigests | apply spares_checkComponents].
Qed.

Lemma spares_CloneRelease m v : spares (CloneRelease m v).
Proof. intros fs r. unfold CloneRelease, lookupRelease, time_Now. spares_solve. Qed.

Lemma spares_ReExtract m v : spares (ReExtract m v).
Proof. intros fs r. unfold ReExtract, lookupRelease, save. spares_solve. Qed.

Lemma spares_ResetState v : spares (ResetState v).
Proof. intros fs r. unfold ResetState, lookupRelease. spares_solve. Qed.

Lemma spares_GetProgress v : spares (GetProgress v).
Proof. intros fs r. unfold GetProgress. spares_solve. Qed.

Lemma spares_extractAll m vs : ∀ st er jobs, spares (extractAll m vs st er jobs).
Proof.
  induction vs as [|v vs IH]; intros st er jobs fs r; simpl; [spares_solve|].
  repeat first [apply IH | spares_step | apply spares_ReExtract].
Qed.

(** Generating an image spares what is not below the directory of images. *)
Lemma spares_GenerateISO m id v ign :
  Iso.clean_dir (InstallsPath m) → normal id →
  (∀ p, D p → Iso.below (Iso.GetInstallPath (Iso.NewISOGenerator (rc_ArtifactPath (mg_cfg m))) id) p = false) →
  spares (GenerateISO F m id v ign).
Proof.
  intros Hc Hid HD fs r. unfold GenerateISO, readyRelease, lookupRelease, recordExtra, time_Now.
  repeat first [spares_step | apply keeps_bind; [|intros ?]].
  intros s [Hf Hr]. unfold on_os.
  destruct (Iso.GenerateAgentISO_confined F (Iso.NewISOGenerator (rc_ArtifactPath (mg_cfg m)))
    (w_os (st_w s)) id (rl_Version a) ign Hc Hid) as (res & os' & -> & _ & Hos).
  split; [|done]. intros p Hp. cbn. rewrite Hos by by apply HD. by apply Hf.
Qed.

Lemma spares_handleReleases m aq id path :
  (HasSuffix path "/copy" = false) → Iso.clean_dir (InstallsPath m) → normal id →
  (∀ p, D p → Iso.below (Iso.GetInstallPath (Iso.NewISOGenerator (rc_ArtifactPath (mg_cfg m))) id) p = false) →
  spares (handleReleases F m aq id path).
Proof.
  intros Hcopy Hc Hid HD fs r. unfold handleReleases. rewrite Hcopy.
  unfold none_started, handleListReleases, handleDiscover, handleClone, handleExtract, handleExtractVersion,
    handleResetState, handleReleaseStatus, handleReleaseArtifacts, handleGenerateISO, handleVerifyMirror,
    decodeBody, db_now.
  repeat first [spares_step | apply spares_CloneRelease | apply spares_ReExtract | apply spares_ResetState
    | apply spares_GetProgress | apply spares_extractAll | apply spares_VerifyMirror
    | by apply spares_GenerateISO].
Qed.
End spares.

(** ** Where the server may write *)

(** The files of the blob store and of the upload sessions. *)
Definition stores (root p : string) : Prop :=
  Iso.below (Clean root +:+ "/blobs") p = true ∨ Iso.below (Clean root +:+ "/uploads") p = true.

(** Neither directory contains the other. *)
Definition separate (a b : string) : Prop :=
  HasPrefix (a +:+ "/") (b +:+ "/") = false ∧ HasPrefix (b +:+ "/") (a +:+ "/") = false.
Global Instance separate_dec a b : Decision (separate a b) := _.

(** The images of a manager are kept apart from the stores. *)
Definition apart (root : string) (m : Manager) : Prop :=
  Iso.clean_dir (InstallsPath m) ∧ separate (Clean root +:+ "/blobs") (InstallsPath m) ∧
  separate (Clean root +:+ "/uploads") (InstallsPath m).
Global Instance apart_dec root m : Decision (apart root m) := _.

(** A path is its components joined. *)
Lemma JoinStr_Split s : JoinStr (Split "/" s) "/" = s.
Proof.
  induction s as [|c s IH]; [done|]. cbn [Split].
  pose proof (Split_not_nil "/" s) as Hn. case_decide as Hc.
  - subst c. rewrite JoinStr_cons by done. by rewrite IH.
  - destruct (Split "/" s) as [|x xs]; [done|]. destruct xs as [|y xs]; [by rewrite <-IH|].
    rewrite JoinStr_cons in IH |- * by done. by rewrite <-IH.
Qed.

Lemma Join_clean root n : Iso.clean_dir root → normal n → Join [root; n] = root +:+ "/" +:+ n.
Proof.
  intros (Hne & Hc & Hst) Hn. unfold Join.
  rewrite filter_cons_True, filter_cons_True, filter_nil by (done || apply Hn).
  change (JoinStr [?a; ?b] "/") with (a +:+ "/" +:+ JoinStr [b] "/").
  rewrite Clean_app, Hc; [done|done|done|by constructor|done].
Qed.

Lemma clean_comps_app root n :
  not_in "/" n →
  clean_comps (is_rooted root) (Split "/" (root +:+ "/" +:+ n)) =
    clean_step (is_rooted root) (clean_comps (is_rooted root) (Split "/" root)) n.
Proof.
  intros Hn. change ("/" +:+ n) with (String "/" n). rewrite Split_app, (Split_none "/" n) by done.
  unfold clean_comps. by rewrite foldl_app.
Qed.

Lemma Dir_Join root n : Iso.clean_dir root → normal n → Dir (Join [root; n]) = root.
Proof.
  intros Hr Hn. rewrite Join_clean by done. destruct Hr as (Hne & Hc & Hst).
  unfold Dir. change ("/" +:+ n) with (String "/" n).
  rewrite Split_app, (Split_none "/" n) by apply Hn. rewrite removelast_last.
  assert (JoinStr (Split "/" root ++ [""]) "/" = root +:+ "/" +:+ "") as ->.
  { by rewrite JoinStr_app, JoinStr_Split by (done || apply Split_not_nil). }
  unfold Clean. rewrite is_rooted_app by done. rewrite clean_comps_app by (unfold not_in; simpl; set_solver).
  unfold clean_step. rewrite decide_True by tauto. exact Hc.
Qed.

Lemma clean_dir_Join root n : Iso.clean_dir root → normal n → Iso.clean_dir (Join [root; n]).
Proof.
  intros Hr Hn. rewrite Join_clean by done. pose proof Hr as (Hne & Hc & Hst). split_and!.
  - by destruct root.
  - pose proof (Clean_app root [n] Hne ltac:(done) ltac:(by constructor) Hst) as E. simpl in E. by rewrite E, Hc.
  - rewrite is_rooted_app by done. rewrite clean_comps_app by apply Hn.
    unfold clean_step. destruct Hn as (? & ? & ? & _). by rewrite decide_False, decide_False by naive_solver.
Qed.

(** The default places keep images apart from the stores: a storage path that
    is clean, and artifacts in the directory the configuration gives them when
    it names none. *)
Lemma default_apart root m :
  Iso.clean_dir root → rc_ArtifactPath (mg_cfg m) = Join [root; "releases"] → apart root m.
Proof.
  intros Hr Ha.
  assert (normal "releases" ∧ normal "installs") as [Hn1 Hn2] by (split; by apply (bool_decide_unpack _)).
  assert (ManagerOps.InstallsPath m = Join [root; "installs"]) as Hi.
  { unfold ManagerOps.InstallsPath, Iso.InstallsPath, Iso.NewISOGenerator. cbn [Iso.ig_installsPath]. by rewrite Ha, Dir_Join. }
  unfold apart. rewrite Hi. split; [by apply clean_dir_Join|]. rewrite Join_clean by done.
  destruct Hr as (_ & -> & _). split; split; apply HasPrefix_false; intros r;
    rewrite !sapp_assoc; intros E%sapp_inj_r; done.
Qed.

Lemma common_prefix s1 s2 t1 t2 : s1 +:+ t1 = s2 +:+ t2 → HasPrefix s1 s2 = true ∨ HasPrefix s2 s1 = true.
Proof.
  intros E%(f_equal str_bytes). rewrite !str_bytes_app in E.
  apply app_eq_inv in E as [(k & E & _)|(k & E & _)]; [left|right]; apply HasPrefix_spec;
    exists (bytes_str k); apply str_bytes_inj; by rewrite str_bytes_app, bytes_str_bytes.
Qed.

Lemma separate_below a b x p : separate a b → Iso.below a p = true → Iso.below (b +:+ "/" +:+ x) p = false.
Proof.
  intros [H1 H2] Ha. apply HasPrefix_spec in Ha as [r ->]. unfold Iso.below.
  apply HasPrefix_false. intros r' E. rewrite <-!sapp_assoc in E. rewrite (sapp_assoc _ x) in E.
  rewrite (sapp_assoc _ (x +:+ "/")) in E.
  destruct (common_prefix _ _ _ _ E) as [E'|E']; congruence.
Qed.

Lemma apart_spares root m id p :
  apart root m → normal id → stores root p →
  Iso.below (Iso.GetInstallPath (Iso.NewISOGenerator (rc_ArtifactPath (mg_cfg m))) id) p = false.
Proof.
  intros (Hc & H1 & H2) Hid Hp. rewrite Iso.GetInstallPath_eq by done.
  destruct Hp as [Hp|Hp]; [exact (separate_below _ _ id p H1 Hp)|exact (separate_below _ _ id p H2 Hp)].
Qed.

Lemma stores_blobFile root d : stores root (BlobStore.blobFile root d).
Proof.
  left. apply HasPrefix_spec. exists (JoinStr ["sha256"; stake 2 (Hex d); Hex d] "/").
  unfold BlobStore.blobFile, BlobStore.blobComps. rewrite JoinStr_cons by done. by rewrite !sapp_assoc.
Qed.

Lemma stores_uploadFile root id : stores root (Upload.uploadFile root id).
Proof.
  right. apply HasPrefix_spec. exists id. unfold Upload.uploadFile.
  rewrite JoinStr_cons by done. by rewrite !sapp_assoc.
Qed.

Lemma uinv_stores root um os os' :
  Upload.uinv root (um, os) → (∀ p, stores root p → os_files os' !! p = os_files os !! p) →
  Upload.uinv root (um, os').
Proof.
  intros (Hr & Hok & Hst) Hf. split; [done|]. simpl in *. split.
  - intros id u Hu. destruct (Hok id u Hu) as (? & ? & ? & c & Hc & ?).
    do 3 (split; [assumption|]). exists c. rewrite Hf; [by split|]. rewrite <-Hr. apply stores_uploadFile.
  - intros d c Hd Hc. rewrite Hf in Hc by apply stores_blobFile. exact (Hst d c Hd Hc).
Qed.

(** ** The server's invariant *)

Section safety.
Context `{Badger} `{!Json MetadataStore.ManifestMeta} `{!Json MetadataStore.RepoMeta}.
Context `{!Json Oci.PutManifestBody} `{Mirror.HttpClient} `{!JsonDecoder Mirror.tokenResp}.
Context `{!JsonDecoder quayTagsResponse} `{!Json Release} `{!MapRange}.
Context `{!Json Events.Event} `{!Json Events.CloneHistoryEntry} `{!Json Events.DownloadRecord}.
Context `{!Json Events.DownloadCounter}.
Context `{!Unmarshal LayersManifest} `{!Unmarshal ReleaseManifest} `{!Unmarshal ComponentManifest}.
Context `{!Unmarshal imageStream} `{!Unmarshal VerifyManifest} `{!Archive}.
Context `{!Cloner.Env} `{GzipLaws} `{Exec} `{Auth.Bcrypt}.
Context `{!Ignition.Yaml Ignition.InstallConfig} `{!Ignition.Yaml Ignition.AgentConfig} `{!Ignition.Indented}.
Context `{!JsonDecoder CloneBody} `{!JsonDecoder ExtractBody} `{!JsonDecoder CopyBody} `{!JsonDecoder IsoBody}.
Context (F : Faults) (HRemove : F OpRemove = None) (root : string) (Hroot : BlobStore.good_root root).
Context `{!GoSort} `{!Json (list string)}.
Context {W : Type} (range : ∀ A, list A → list A).
Implicit Types (s : Server (W:=W)) (r : Router (W:=W)) (bt : Booted (W:=W)).
Implicit Types (newClient : Sync.SyncSource → option (Scheduler.SyncClient W)).

(** The stores and the cache, as in [V2Safety]. *)
Definition sinv s : Prop := V2Safety.hinv root (sv_v2 s).

(** A handler of another file that keeps the stores. *)
Definition harmless (h : HttpHandler (W:=W)) : Prop := ∀ inp aq s, sinv s → sinv (h inp aq s).2.

Definition router_ok r : Prop :=
  (∀ h, ro_uiHandler r = Some h → harmless h) ∧ (∀ h, ro_filesHandler r = Some h → harmless h) ∧
  (∀ m, ro_releaseManager r = Some m → apart root m).

(** The administrator's copy of an artifact, whose destination is any path. *)
Definition copies (rq : V2.Request) : Prop :=
  HasPrefix (V2.rq_Path rq) "/admin/releases" = true ∧
  HasSuffix (TrimPrefix (V2.rq_Path rq) "/admin/releases") "/copy" = true.

(** What a request may be: random identifiers are such, the body does not
    overflow the size of a session, and it does not run a copy. *)
Definition request_ok (inp : Input) (aq : ApiRequest) s : Prop :=
  V2Safety.env_ok (in_env inp) ∧ normal (in_id inp) ∧ V2Safety.body_fits (sv_v2 s) (aq_rq aq) ∧ ¬ copies (aq_rq aq).

Lemma sinv_set_db s db : sinv s → sinv (set_v2 (V2.set_db (sv_v2 s) db) s).
Proof. intros (Hw & Hc). by split. Qed.

Lemma on_manager_inv {A} (m : M St A) s : spares (stores root) m → sinv s → sinv (on_manager m s).2.
Proof.
  intros Hm (Hw & Hc). unfold on_manager.
  set (st := mkSt _ _ _ _). destruct (Hm (os_files (w_os (V2.h_world (sv_v2 s)))) root st) as [Hf Hr].
  { split; [done|]. apply Hw. }
  destruct (m st) as [res st']. cbn [fst snd] in *. split; [|done].
  split; [exact Hr|]. eapply uinv_stores; [apply Hw|exact Hf].
Qed.

Lemma handleAdmin_inv r inp aq s :
  router_ok r → normal (in_id inp) → ¬ copies (aq_rq aq) →
  HasPrefix (V2.rq_Path (aq_rq aq)) adminPrefix = true →
  sinv s → sinv (handleAdmin F range r inp aq s).2.
Proof.
  intros (_ & _ & Hm) Hid Hcopy Hpre Hs. unfold handleAdmin. repeat (case_decide; [done|]).
  case_match; [unfold handleTrigger; by repeat case_match|].
  case_match; [unfold handleJobStatus; by repeat case_match|].
  case_decide; [unfold handleExport; by repeat case_match|].
  destruct (HasPrefix (TrimPrefix _ _) "/releases") eqn:Er.
  { destruct (ro_releaseManager r) as [m|]; [|done]. specialize (Hm m eq_refl).
    apply on_manager_inv; [|done]. apply spares_handleReleases; [|apply Hm|done|].
    - apply not_true_iff_false. intros Hsuf. apply Hcopy. split; [|exact Hsuf].
      apply HasPrefix_spec in Hpre as [p Hp]. rewrite Hp, TrimPrefix_app in Er.
      apply HasPrefix_spec in Er as [q ->]. rewrite Hp, <-sapp_assoc. apply HasPrefix_app.
    - intros p Hp. by eapply apart_spares. }
  case_match; [done|]. case_match; [|done].
  unfold handleRepository. repeat (case_match; [done|]).
  destruct (MetadataStore.DeleteRepository _ _) as [[]]; by apply sinv_set_db.
Qed.

Lemma serveV2_inv inp rq s :
  V2Safety.env_ok (in_env inp) → V2Safety.body_fits (sv_v2 s) rq → sinv s → sinv (serveV2 F inp rq s).2.
Proof.
  intros Hev Hfit Hs. unfold serveV2.
  pose proof (V2Safety.ServeHTTP_inv F HRemove root Hroot (sv_v2 s) (in_env inp) rq Hev Hfit Hs) as Hi.
  by destruct (V2.ServeHTTP _ _ _ _) as [[] h].
Qed.

Lemma router_inv r inp aq s :
  router_ok r → request_ok inp aq s → sinv s → sinv (ServeHTTP F range r inp aq s).2.
Proof.
  intros Hr (Hev & Hid & Hfit & Hcopy) Hs.
  assert (sinv (route F range r inp aq s).2) as Hroute.
  { unfold route. destruct Hr as (Hui & Hfi & Hm). case_decide; [done|].
    case_match; [unfold or_not_found; destruct (ro_uiHandler r) as [h|]; [by apply Hui|done]|].
    case_match; [by apply serveV2_inv|].
    case_match; [unfold or_not_found; destruct (ro_filesHandler r) as [h|]; [by apply Hfi|done]|].
    case_match; [by apply handleAdmin_inv|]. by repeat case_decide. }
  unfold ServeHTTP. case_decide; [done|]. destruct (Api.refused _ _); [done|].
  by destruct (route F range r inp aq s).
Qed.

(** The states a server can be in: requests, and the clean-up of sessions. *)
Inductive reachable r s0 : Server (W:=W) → Prop :=
  | s_init : reachable r s0 s0
  | s_request s inp aq :
      reachable r s0 s → request_ok inp aq s → reachable r s0 (ServeHTTP F range r inp aq s).2
  | s_cleanup s now :
      reachable r s0 s →
      reachable r s0 (let h := sv_v2 s in
        let st := Upload.cleanupTick F (V2.h_uploads h) (w_os (V2.h_world h)) now in
        set_v2 (V2.set_uploads h st.1 st.2) s).

Lemma server_inv r s0 s : router_ok r → sinv s0 → reachable r s0 s → sinv s.
Proof.
  intros Hr Hs0. induction 1 as [|s inp aq _ IH Hrq|s now _ IH]; [done|by apply router_inv|].
  exact (V2Safety.hinv_urun F HRemove root Hroot (sv_v2 s) (Upload.UCleanup now) IH I).
Qed.

(** ** Start *)

Lemma WriteFile_store_ok FW os path data :
  (∀ d, canonical d → path ≠ BlobStore.blobFile root d) → BlobStore.store_ok root (os_files os) →
  BlobStore.store_ok root (os_files (Certs.WriteFile FW os path data).2).
Proof.
  intros Hp Hok. unfold Certs.WriteFile, Create.
  repeat case_match; simplify_eq/=; auto using BlobStore.store_ok_insert_other.
Qed.

Lemma short_not_blob dir n d :
  normal n → String.length n ≠ 64 → canonical d → Join [dir; n] ≠ BlobStore.blobFile root d.
Proof.
  intros Hn Hl Hd E. apply (f_equal Base) in E.
  rewrite Extractor.Base_Join, BlobStore.blobFile_Base in E by done. apply Hl. rewrite E.
  destruct Hd as (h & -> & Hh & _). by rewrite Hex_sha256.
Qed.

Lemma NewManager_store_ok FC ca cfg os :
  BlobStore.store_ok root (os_files os) → BlobStore.store_ok root (os_files (Certs.NewManager FC ca cfg os).2).
Proof.
  intros Hok. assert (BlobStore.store_ok root (os_files (Certs.generateCA FC ca os (Certs.mkManager cfg [] [])).2)) as Hg.
  { unfold Certs.generateCA. destruct ca as [[c k]| |]; [|done..]. cbn [Certs.cm_cfg].
    assert (∀ n d, n ∈ ["ca.crt"; "ca.key"] → canonical d → Join [ce_OutputDir cfg; n] ≠ BlobStore.blobFile root d) as Hne.
    { intros n d Hn Hd. apply short_not_blob; [..|done]; revert n Hn; apply Forall_forall;
        refine (bool_decide_unpack _ _); vm_compute; exact I. }
    pose proof (WriteFile_store_ok (FC 2) os (Certs.certPath cfg) c (λ d, Hne "ca.crt" d ltac:(set_solver)) Hok) as Hw1.
    destruct (Certs.WriteFile (FC 2) _ _ _) as [[] os1]; cbn [snd] in *; [|exact Hw1..].
    pose proof (WriteFile_store_ok (FC 3) os1 (Certs.keyPath cfg) k (λ d, Hne "ca.key" d ltac:(set_solver)) Hw1) as Hw2.
    destruct (Certs.WriteFile (FC 3) _ _ _) as [[] os2]; exact Hw2. }
  unfold Certs.NewManager. repeat case_match; simplify_eq/=; done.
Qed.

Context (fileServer : string → V2.Request → Os → list Tracker.wcall).
Context (ExecuteTemplate : Time → option string → string → Ui.Data → bytes * option error).
Context (staticFS : V2.Request → Answer).

Lemma uiHandler_harmless h : harmless (Ui.ServeHTTP F range ExecuteTemplate staticFS h).
Proof.
  intros inp aq s Hs. destruct (Ui.ServeHTTP_same F range ExecuteTemplate staticFS h inp aq s) as [E _].
  unfold sinv. by rewrite E.
Qed.

Lemma trackingHandler_harmless m : harmless (trackingHandler fileServer m).
Proof.
  intros inp aq s Hs. unfold trackingHandler.
  destruct (Tracker.ServeHTTP _ _ _ _ _ _) as [[] db]; by apply sinv_set_db.
Qed.

Lemma boot_inv FC ca opened newClient os cfg bt :
  boot F range fileServer ExecuteTemplate staticFS FC ca opened newClient os cfg = Ok bt →
  ∃ db auth certMgr, selectAuth F os (c_Auth cfg) = Ok auth ∧
    bt = assemble F range fileServer ExecuteTemplate staticFS newClient db (Upload.mkUM (st_Path (c_Storage cfg)) ∅) auth certMgr
           (Certs.NewManager FC ca (c_Certs cfg) os).2 cfg.
Proof.
  unfold boot. rewrite !bind_Ok. intros (db & -> & E). rewrite bind_Ok in E. destruct E as (um & Hum & E).
  rewrite bind_Ok in E. destruct E as (auth & Ha & E).
  destruct (Certs.NewManager _ _ _ _) as [certs os']. rewrite bind_Ok in E. destruct E as (cm & _ & [= <-]).
  unfold Upload.NewUploadManager in Hum. destruct (F OpMkdirAll); [done|]. injection Hum as <-.
  by exists db, auth, cm.
Qed.

Lemma boot_ok FC ca opened newClient os cfg bt :
  st_Path (c_Storage cfg) = root → BlobStore.store_ok root (os_files os) →
  (∀ m, releaseManager (c_Releases cfg) = Some m → apart root m) →
  boot F range fileServer ExecuteTemplate staticFS FC ca opened newClient os cfg = Ok bt →
  router_ok (bt_router bt) ∧ sinv (bt_server bt).
Proof.
  intros Hp Hok Hap (db & auth & cm & _ & ->)%boot_inv.
  pose proof (NewManager_store_ok FC ca (c_Certs cfg) os Hok) as Hok'.
  generalize dependent (Certs.NewManager FC ca (c_Certs cfg) os).2. intros os' Hok'.
  unfold assemble. rewrite Hp. split.
  - split_and!; cbn [bt_router ro_uiHandler ro_filesHandler ro_releaseManager].
    + intros h [= <-]. apply uiHandler_harmless.
    + destruct (releaseManager _); [|done]. intros h [= <-]. apply trackingHandler_harmless.
    + exact Hap.
  - assert (V2Safety.hinv root (V2.NewHandler (mkWorld _ (BlobStore.NewBlobStore root) os' db) (Upload.mkUM root ∅)))
      as Hh.
    { split; [|split; [apply Cache.wf_new|done]]. split; [done|]. split; [done|]. by split. }
    unfold sinv. cbn [bt_server sv_v2]. by destruct (c_Mirrors cfg).
Qed.


(** ** Who may act *)

(** The request carries the password of a user of the file. *)
Definition allowed (ups : list (string * string)) (rq : V2.Request) : Prop :=
  ∃ user password stored b64,
    V2.rq_Header rq "Authorization" = "Basic " +:+ b64 ∧
    Base64.DecodeString b64 = Some (str_bytes (user +:+ ":" +:+ password)) ∧ not_in ":" user ∧
    (user, stored) ∈ ups ∧ Auth.checkPassword password stored = true.

Lemma refused_spec os ups path r a rq :
  F OpOpen = None → F OpRead = None → Forall Auth.good_entry ups → NoDup ups.*1 →
  path ≠ "" → os_files os !! path = Some (Auth.htpasswd ups) →
  selectAuth F os (mkAuthConfig "htpasswd" path) = Ok a → ro_auth r = Some a →
  Api.refused r rq = false ↔ allowed ups rq.
Proof.
  intros HO HR Hups Hnd Hp Hf. unfold selectAuth. cbn [au_Type au_HtpasswdFile]. rewrite decide_True by done.
  unfold Auth.NewHtpasswdAuth. rewrite decide_False by done.
  rewrite (Auth.load_htpasswd F os (Auth.mkHtpasswdAuth ∅ path true) ups HO HR Hups Hf).
  cbn [mbind result_bind Auth.set_users Auth.ha_filePath Auth.ha_required]. set (users := foldl _ _ _).
  intros [= <-] Hr. unfold Api.refused. rewrite Hr.
  set (auth := Auth.set_users users _). change (Auth.authRequired (Auth.Htpasswd auth)) with true.
  cbn [andb Auth.authenticate]. rewrite negb_false_iff.
  assert (∀ user, Auth.Authenticate auth rq = (user, true) ↔ _) as Hx
    by (intros user; exact (Auth.Authenticate_exact auth rq user eq_refl)).
  split.
  - destruct (Auth.Authenticate auth rq) as [user ok] eqn:E. cbn [snd]. intros ->.
    destruct (proj1 (Hx user) eq_refl) as (b64 & password & stored & ? & ? & ? & Hu & ?).
    exists user, password, stored, b64. split_and!; try done. by apply (Auth.last_entry _ _ _ Hnd).
  - intros (user & password & stored & b64 & ? & ? & ? & Hin & ?).
    apply (Auth.last_entry _ _ _ Hnd) in Hin.
    rewrite (proj2 (Hx user)); [done|]. by exists b64, password, stored.
Qed.


(** Nothing is asked when the file is not named or the type is not spelled so. *)
Fact no_file_no_authentication os path rq r a typ :
  typ ≠ "htpasswd" ∨ path = "" →
  selectAuth F os (mkAuthConfig typ path) = Ok a → ro_auth r = Some a → Api.refused r rq = false.
Proof.
  intros Hcase Ha Hr. unfold Api.refused. rewrite Hr. unfold selectAuth in Ha. cbn [au_Type au_HtpasswdFile] in Ha.
  case_decide as Ht; [|by injection Ha as <-]. destruct Hcase as [? | ->]; [done|]. by injection Ha as <-.
Qed.
End safety.

(** ** Example *)

Module Example.
Import Extractor.
#[local] Existing Instances mapBadger mapBadgerLaws MetadataStore.jsonMeta MetadataStore.jsonRepo Oci.jsonBody
  V2Example.exHttp V2Example.exTokens Discovery.exPages jsonRelease listRange Events.jsonEvent exHistory
  Events.jsonDownload Events.jsonCounter exArchive exStream exManifests exReleaseManifests
  exComponentManifests exVerifyManifests exPipelineEnv Iso.storedGzip Iso.storedGzipLaws Auth.exBcrypt
  Ignition.exInstallYaml Ignition.exAgentYaml Ignition.exIndented insertionSort.
#[local] Instance exNames : Json (list string) := countableJson (list string).

(** [cp], on the files of the model; no other program runs. *)
#[local] Instance exExec : Exec := λ name args os,
  match name, args with
  | "cp", [src; dst] =>
    match os_files os !! src with
    | Some c => (([], None), set_files (<[dst := c]>) os)
    | None => ((str_bytes "cp: cannot stat", Some (Errorf "exit status 1")), os)
    end
  | _, _ => (([], Some (Errorf "executable file not found in $PATH")), os)
  end.

(** Bodies of one string. *)
#[local] Instance exCloneBody : JsonDecoder CloneBody := λ b, Ok (mkCloneBody (bytes_str b)).
#[local] Instance exExtractBody : JsonDecoder ExtractBody := λ b, Ok (mkExtractBody (bytes_str b) [] false).
#[local] Instance exCopyBody : JsonDecoder CopyBody := λ b, Ok (mkCopyBody "coreos.iso" (bytes_str b)).
#[local] Instance exIsoBody : JsonDecoder IsoBody := λ b, Ok (mkIsoBody (bytes_str b) "" "").

(** A server with its releases next to its stores, and an htpasswd file. *)
Definition exConfig : Config :=
  mkConfig (mkServerConfig ":5000" "" (mkTLSConfig "" ""))
    (mkStorageConfig BlobStore.srvRoot 1024 (mkGCConfig true "" 10)) (mkMeshConfig false "" [] 2) [] []
    (mkAuthConfig "htpasswd" Auth.exPath)
    (mkReleasesSection true (mkReleasesConfig "quay.io" "ocp" "openshift/release" ["x86_64"]
       "/srv/registry/releases") "" false "") (mkCertsConfig false "" "" "/srv/registry/certs").

Definition exFiles (dir : string) (rq : V2.Request) (os : Os) : list Tracker.wcall := [Tracker.WriteHeader 404].
Definition exTemplate (now : Time) (page : option string) (name : string) (d : Ui.Data) : bytes * option error :=
  (str_bytes name, None).
Definition exStatic (rq : V2.Request) : Answer := NotFound.
Definition exRange (A : Type) (l : list A) : list A := l.

Definition exBoot : result (Booted (W:=unit)) :=
  boot noFaults exRange exFiles exTemplate exStatic (λ _, noFaults) (Err (Errorf "no entropy")) (Ok ∅) (λ _, None)
    Auth.exOs exConfig.

Lemma exBoot_ok : ∃ bt, exBoot = Ok bt.
Proof.
  assert (is_ok exBoot = true) as H by by vm_compute. destruct exBoot as [bt| |]; [by exists bt|done..].
Qed.

Definition exInput : Input := mkInput V2Example.exEnv Iso.exId 0 0 [].
Definition exStranger : ApiRequest := mkApiRequest (V2Example.exRequest "DELETE" "/admin/repositories/app" []) false "registry" "10.0.0.9:5".
Definition exUser : ApiRequest := mkApiRequest Auth.exRequest false "registry" "10.0.0.9:5".



(** ** What the administration leaves to be desired *)

(** A server without authentication, and what it answers in turn. *)
Definition exRouter : Router (W:=unit) :=
  mkRouter None None false (Some (SetEventStore (NewManager (re_cfg (c_Releases exConfig))))) None None None true.
Definition exServer (files : gmap string bytes) (db : DB) : Server (W:=unit) :=
  mkServer (V2Example.exHandlerWith files db) (NewCloner "quay.io" "ocp" "openshift/release" "") 0 0 ∅.
Definition exAsk (method path : string) (body : bytes) : ApiRequest :=
  mkApiRequest (V2Example.exRequest method path body) false "registry" "10.0.0.9:5".

Fixpoint statuses (aqs : list ApiRequest) (s : Server (W:=unit)) : list Z * Server :=
  match aqs with
  | [] => ([], s)
  | aq :: aqs =>
    let '(res, s) := ServeHTTP noFaults exRange exRouter exInput aq s in
    let '(l, s) := statuses aqs s in
    (match res with Ok (a, _) => an_Status a | _ => 0%Z end :: l, s)
  end.

(** A deleted repository is still served from the manifest cache of the
    registry, while its tags are gone. *)
Fact deleted_repository_is_served :
  let pull := exAsk "GET" "/v2/app/manifests/v1" [] in
  let '(l, s) := statuses [exAsk "PUT" "/v2/app/manifests/v1" V2Example.exManifest; pull;
                           exAsk "DELETE" "/admin/repositories/app" []; pull] (exServer ∅ ∅) in
  l = [201; 200; 200; 200]%Z ∧ is_ok (MetadataStore.GetManifest (sv_db s) "app" "v1") = false.
Proof. by vm_compute. Qed.

(** A copy to a path of the caller's choice can replace a blob. *)
Definition exReady : Release :=
  with_artifacts (with_state (available "4.18.2" "x86_64" "4.18.2-x86_64" "sha256:b" (exTime 1)) StateReady "")
    [mkArtifact "coreos.iso" "iso" "" 3 ""].

Fact copy_replaces_blob :
  let blob := BlobStore.blobFile BlobStore.srvRoot (FromBytes V2Example.exData) in
  let files := <["/srv/registry/releases/4.18.2/coreos.iso" := str_bytes "iso"]> {[blob := V2Example.exData]} in
  let db := (saveRelease ∅ exReady).2 in
  let '(l, s) := statuses [exAsk "POST" "/admin/releases/4.18.2-x86_64/copy" (str_bytes blob)] (exServer files db) in
  l = [200%Z] ∧ os_files (w_os (V2.h_world (sv_v2 s))) !! blob = Some (str_bytes "iso").
Proof. by vm_compute. Qed.

(** Asking for a collection only answers that one was started. *)
Fact gc_is_not_triggered `{Auth.Bcrypt} method body r s :
  ro_auth r = None → method ≠ "OPTIONS" →
  ServeHTTP (W:=unit) noFaults exRange r exInput (exAsk method "/admin/gc" body) s =
    (Ok (with_version (jsonText gcTriggered), []), s).
Proof. intros Hr Hm. unfold ServeHTTP, Api.refused. rewrite Hr. by rewrite decide_False. Qed.
End Example.
End Server.
