(* ===== verification/Signing.v ===== *)
(** internal/signing/cosign.go: signatures, SBOMs and attestations of an image
    under the tags cosign gives them, and the listing of what refers to a
    digest.  The decoders of the two JSON documents are parameters. *)

From stdpp Require Import sorting.
From S2P Require Import Prelude Effect GoLib Digest Os Blob Badger Metadata Oci.

Module Signing.

Definition MediaTypeCosignSignature : string := "application/vnd.dev.cosign.simplesigning.v1+json".
Definition MediaTypeSPDX : string := "application/spdx+json".
Definition MediaTypeCycloneDX : string := "application/vnd.cyclonedx+json".
Definition MediaTypeSyftJSON : string := "application/vnd.syft+json".
Definition ArtifactTypeCosignSignature : string := "application/vnd.dev.cosign.artifact.sig.v1+json".
Definition ArtifactTypeSBOM : string := "application/vnd.dev.cosign.artifact.sbom.v1+json".
Definition ArtifactTypeAttestation : string := "application/vnd.dev.cosign.artifact.attest.v1+json".

(** [oci.Manifest] and [oci.Index]. *)
Record Manifest := mkManifest {
  ma_SchemaVersion : Z;
  ma_MediaType : string;
  ma_Config : Oci.Descriptor;
  ma_Layers : list Oci.Descriptor;
  ma_Annotations : gmap string string;
  ma_Subject : option Oci.Descriptor
}.

Record OciIndex := mkOciIndex {
  oi_SchemaVersion : Z;
  oi_MediaType : string;
  oi_Manifests : list Oci.Descriptor;
  oi_Annotations : gmap string string;
  oi_Subject : option Oci.Descriptor
}.

Record Signature := mkSignature {
  sg_Digest : Digest;
  sg_Payload : bytes;
  sg_Base64Sig : string;
  sg_Certificate : string;
  sg_Chain : list string;
  sg_Annotations : gmap string string
}.

Record SBOM := mkSBOM { sb_Digest : Digest; sb_MediaType : string; sb_Size : Z }.

(** [Decode] into a value that is there already: members the document lacks
    keep theirs. *)
Class DecodeInto (A : Type) := decode_into : A → bytes → result A.

(** ** Tags *)

Definition GetSignatureTag (dgst : Digest) : string := "sha256-" +:+ Hex dgst +:+ ".sig".
Definition GetSBOMTag (dgst : Digest) : string := "sha256-" +:+ Hex dgst +:+ ".sbom".
Definition GetAttestationTag (dgst : Digest) : string := "sha256-" +:+ Hex dgst +:+ ".att".

Definition IsSignatureTag (tag : string) : bool := HasSuffix tag ".sig".
Definition IsSBOMTag (tag : string) : bool := HasSuffix tag ".sbom".
Definition IsAttestationTag (tag : string) : bool := HasSuffix tag ".att".
Definition IsArtifactTag (tag : string) : bool := IsSignatureTag tag || IsSBOMTag tag || IsAttestationTag tag.

Definition isSBOMMediaType (mt : string) : bool :=
  bool_decide (mt = MediaTypeSPDX) || bool_decide (mt = MediaTypeCycloneDX) || bool_decide (mt = MediaTypeSyftJSON).

Definition matchesArtifactType (tag artifactType : string) : bool :=
  if decide (artifactType = ArtifactTypeCosignSignature) then IsSignatureTag tag
  else if decide (artifactType = ArtifactTypeSBOM) then IsSBOMTag tag
  else if decide (artifactType = ArtifactTypeAttestation) then IsAttestationTag tag
  else true.

Section store.
Context `{Badger} `{!Json MetadataStore.ManifestMeta} `{!Json MetadataStore.RepoMeta}.
Context `{!JsonDecoder Manifest} `{!DecodeInto Signature}.
Context (F : Faults).

(** ** Signatures and SBOMs *)

(** The blobs' [Get], and the manifest's record in the metadata. *)
Definition blobs_Get (d : Digest) : M World (BlobStore.BlobReader * Z) := λ w,
  let '(res, (bs, os)) := BlobStore.Get F (w_bs w) (w_os w) d in (res, mkWorld _ bs os (w_db w)).

Definition metadata_GetManifest (repo tag : string) : M World MetadataStore.ManifestMeta :=
  w ← gets w_db; lift (MetadataStore.GetManifest w repo tag).

(** The manifest of the image under a tag; none when there is no such tag. *)
Definition taggedManifest (repo tag : string) : M World (option Manifest) :=
  meta ← attempt (metadata_GetManifest repo tag);
  match meta with
  | inr ErrManifestNotFound => mret None
  | inr e => throw e
  | inl meta =>
    r ← blobs_Get (MetadataStore.mm_Digest meta);
    m ← lift (json_Decode (BlobStore.reader_data (r : BlobStore.BlobReader * Z).1));
    mret (Some m)
  end.

Definition loadSignature (dgst : Digest) : M World Signature :=
  r ← blobs_Get dgst;
  lift (decode_into (mkSignature dgst [] "" "" [] ∅) (BlobStore.reader_data (r : BlobStore.BlobReader * Z).1)).

(** A signature that cannot be loaded is passed over. *)
Fixpoint loadSignatures (signatures : list Signature) (layers : list Oci.Descriptor) : M World (list Signature) :=
  match layers with
  | [] => mret signatures
  | layer :: layers =>
    if decide (Oci.ds_MediaType layer = MediaTypeCosignSignature) then
      sig ← attempt (loadSignature (Oci.ds_Digest layer));
      loadSignatures (match sig with inl sig => signatures ++ [sig] | inr _ => signatures end) layers
    else loadSignatures signatures layers
  end.

Definition GetSignatures (repo : string) (imageDgst : Digest) : M World (list Signature) :=
  m ← taggedManifest repo (GetSignatureTag imageDgst);
  match m with
  | None => mret []
  | Some m => loadSignatures [] (ma_Layers m)
  end.

(** The first layer that is an SBOM. *)
Definition GetSBOM (repo : string) (imageDgst : Digest) : M World (option SBOM) :=
  m ← taggedManifest repo (GetSBOMTag imageDgst);
  match m with
  | None => mret None
  | Some m =>
    match filter (λ l, isSBOMMediaType (Oci.ds_MediaType l) = true) (ma_Layers m) with
    | [] => mret None
    | layer :: _ =>
      r ← blobs_Get (Oci.ds_Digest layer);
      mret (Some (mkSBOM (Oci.ds_Digest layer) (Oci.ds_MediaType layer) (r : BlobStore.BlobReader * Z).2))
    end
  end.

(** ** Referrers *)

(** The descriptor of a tag's manifest, when it refers to the digest. *)
Definition referrer (db : DB) (repo : string) (dgst : Digest) (artifactType tag : string)
    : result (option Oci.Descriptor) :=
  if negb (IsArtifactTag tag) then Ok None
  else
    match MetadataStore.GetManifest db repo tag with
    | Err _ => Ok None
    | Panic p => Panic p
    | Ok meta =>
      if decide (MetadataStore.mm_Subject meta = dgst) then
        if bool_decide (artifactType ≠ "") && negb (matchesArtifactType tag artifactType) then Ok None
        else Ok (Some (Oci.mkDescriptor (MetadataStore.mm_MediaType meta) (MetadataStore.mm_Digest meta)
                         (MetadataStore.mm_Size meta) [] (MetadataStore.mm_Annotations meta) None))
      else Ok None
    end.

Fixpoint referrers (db : DB) (repo : string) (dgst : Digest) (artifactType : string)
    (descriptors : list Oci.Descriptor) (tags : list string) : result (list Oci.Descriptor) :=
  match tags with
  | [] => Ok descriptors
  | tag :: tags =>
    d ← referrer db repo dgst artifactType tag;
    referrers db repo dgst artifactType (descriptors ++ option_list d) tags
  end.

Definition ListReferrers (db : DB) (repo : string) (dgst : Digest) (artifactType : string) : result OciIndex :=
  tags ← MetadataStore.ListTags db repo;
  descriptors ← referrers db repo dgst artifactType [] tags;
  Ok (mkOciIndex 2 "application/vnd.oci.image.index.v1+json" descriptors ∅ None).
End store.

(** ** Tags *)

Lemma str_rev_app a b : str_rev (a +:+ b) = str_rev b +:+ str_rev a.
Proof. unfold str_rev. apply str_bytes_inj. by rewrite !str_bytes_app, !bytes_str_bytes, reverse_app. Qed.

Lemma HasSuffix_app a b : HasSuffix (a +:+ b) b = true.
Proof. unfold HasSuffix. rewrite str_rev_app. apply HasPrefix_app. Qed.

(** The tag of an image is of its own kind only, and tells the image. *)
Lemma tags_apart d :
  (IsSignatureTag (GetSignatureTag d), IsSBOMTag (GetSignatureTag d), IsAttestationTag (GetSignatureTag d)) = (true, false, false) ∧
  (IsSignatureTag (GetSBOMTag d), IsSBOMTag (GetSBOMTag d), IsAttestationTag (GetSBOMTag d)) = (false, true, false) ∧
  (IsSignatureTag (GetAttestationTag d), IsSBOMTag (GetAttestationTag d), IsAttestationTag (GetAttestationTag d)) = (false, false, true).
Proof.
  unfold IsSignatureTag, IsSBOMTag, IsAttestationTag, GetSignatureTag, GetSBOMTag, GetAttestationTag.
  rewrite <-!sapp_assoc, !HasSuffix_app. unfold HasSuffix. by rewrite !str_rev_app.
Qed.

Lemma tags_injective d d' :
  canonical d → canonical d' →
  GetSignatureTag d = GetSignatureTag d' ∨ GetSBOMTag d = GetSBOMTag d' ∨ GetAttestationTag d = GetAttestationTag d' →
  d = d'.
Proof.
  intros (h & -> & _) (h' & -> & _) Ht. unfold GetSignatureTag, GetSBOMTag, GetAttestationTag in Ht.
  rewrite !Hex_sha256 in Ht. f_equal. by destruct Ht as [Ht|[Ht|Ht]]; apply sapp_inj_r, sapp_inj_l in Ht.
Qed.

(** ** Referrers *)

Section referrers.
Context `{BadgerLaws} `{!Json MetadataStore.ManifestMeta} `{!Json MetadataStore.RepoMeta}.
Context `{!JsonLaws MetadataStore.ManifestMeta MetadataStore.meta_ok}.
Context `{!JsonLaws MetadataStore.RepoMeta MetadataStore.repo_ok}.
Import MetadataStore.

Definition describe (meta : ManifestMeta) : Oci.Descriptor :=
  Oci.mkDescriptor (mm_MediaType meta) (mm_Digest meta) (mm_Size meta) [] (mm_Annotations meta) None.

(** The tag of an artifact of the kind asked for, whose manifest names the
    digest as its subject. *)
Definition refers (ix : Index) (repo : string) (dgst : Digest) (artifactType tag : string) (meta : ManifestMeta) : Prop :=
  IsArtifactTag tag = true ∧ (artifactType = "" ∨ matchesArtifactType tag artifactType = true) ∧
  (ix_resolve ix repo tag ≫= λ d, ix_manifests ix !! (repo, d)) = Some meta ∧ mm_Subject meta = dgst.

Lemma referrer_spec db ix repo dgst artifactType tag :
  represents (view db) ix → not_in ":" repo →
  (∃ meta, referrer db repo dgst artifactType tag = Ok (Some (describe meta)) ∧ refers ix repo dgst artifactType tag meta) ∨
  (referrer db repo dgst artifactType tag = Ok None ∧ ∀ meta, ¬ refers ix repo dgst artifactType tag meta).
Proof.
  intros Hrep Hr. unfold referrer, refers. destruct (IsArtifactTag tag); [|right; naive_solver].
  rewrite (GetManifest_spec db ix) by done. cbn [negb].
  destruct (_ ≫= _) as [meta|]; [|right; naive_solver].
  destruct (decide (mm_Subject meta = dgst)) as [Hs|]; [|right; naive_solver].
  destruct (decide (artifactType = "")) as [->|Hat].
  - left. exists meta. rewrite bool_decide_eq_false_2 by tauto. naive_solver.
  - rewrite bool_decide_eq_true_2 by done. cbn [andb].
    destruct (matchesArtifactType tag artifactType); [left; exists meta; naive_solver|right; naive_solver].
Qed.

Lemma referrers_spec db ix repo dgst artifactType tags :
  represents (view db) ix → not_in ":" repo →
  ∀ acc, ∃ found : list (string * ManifestMeta),
    referrers db repo dgst artifactType acc tags = Ok (acc ++ (describe <$> found.*2)) ∧
    found.*1 `sublist_of` tags ∧
    ∀ tag meta, (tag, meta) ∈ found ↔ tag ∈ tags ∧ refers ix repo dgst artifactType tag meta.
Proof.
  intros Hrep Hr. induction tags as [|tag tags IH]; intros acc; cbn [referrers].
  { exists []. cbn. rewrite app_nil_r. split; [done|]. split; [done|]. set_solver. }
  destruct (referrer_spec db ix repo dgst artifactType tag Hrep Hr) as [(meta & -> & Hm)|[-> Hn]];
    simpl.
  - destruct (IH (acc ++ [describe meta])) as (found & E & Hsub & Hin). exists ((tag, meta) :: found).
    split; [rewrite E, <-app_assoc; done|]. split; [by constructor|]. intros t m.
    rewrite !elem_of_cons, Hin. split; [|].
    + intros [[= -> ->]|[? ?]]; [by split; [left|]|]. by split; [right|].
    + intros [[->|Ht] Hrf]; [|by right]. left. f_equal.
      destruct Hm as (_ & _ & E1 & _), Hrf as (_ & _ & E2 & _). congruence.
  - destruct (IH acc) as (found & E & Hsub & Hin). exists found. rewrite app_nil_r. split; [exact E|].
    split; [by constructor|]. intros t m. rewrite elem_of_cons, Hin. naive_solver.
Qed.

Lemma referrers_listed db ix repo dgst artifactType :
  represents (view db) ix → not_in ":" repo →
  ∃ found : list (string * ManifestMeta),
    ListReferrers db repo dgst artifactType =
      Ok (mkOciIndex 2 "application/vnd.oci.image.index.v1+json" (describe <$> found.*2) ∅ None) ∧
    StronglySorted String.le found.*1 ∧ NoDup found.*1 ∧
    ∀ tag meta, (tag, meta) ∈ found ↔
      is_Some (ix_tags ix !! (repo, tag)) ∧ refers ix repo dgst artifactType tag meta.
Proof.
  intros Hrep Hr. unfold ListReferrers.
  destruct (ListTags_spec db ix repo) as (tags & -> & Hsort & Hnd & Htags); [done..|]. cbn [mbind result_bind].
  destruct (referrers_spec db ix repo dgst artifactType tags Hrep Hr []) as (found & -> & Hsub & Hin).
  exists found. split; [done|]. split; [|split; [by eapply sublist_NoDup|]].
  - clear -Hsub Hsort. induction Hsub; [constructor| |].
    + apply StronglySorted_inv in Hsort as [Hs Hf]. constructor; [auto|]. rewrite Forall_forall in *.
      intros y Hy. apply Hf. by eapply elem_of_sublist.
    + apply StronglySorted_inv in Hsort as [Hs _]. auto.
  - intros tag meta. by rewrite Hin, Htags.
Qed.

(** A signature that is pushed is found: once a manifest that names the digest
    as its subject is stored under an artifact tag of the kind asked for, the
    listing has its descriptor. *)
Theorem pushed_referrer_is_listed db ix n1 n2 repo tag meta artifactType :
  represents (view db) ix → good_repo repo → meta_ok meta → time_ok n1 → time_ok n2 →
  HasPrefix (mm_Digest meta) "sha256:" = true → HasPrefix tag "sha256:" = false → IsArtifactTag tag = true →
  artifactType = "" ∨ matchesArtifactType tag artifactType = true →
  ∃ db' index, PutManifest db n1 n2 repo tag meta = (Ok tt, db') ∧
    ListReferrers db' repo (mm_Subject meta) artifactType = Ok index ∧ describe meta ∈ oi_Manifests index.
Proof.
  intros Hrep [Hr Hne] Hm Hn1 Hn2 Hd Href Hart Hat.
  pose proof (run_refines (OpPutManifest n1 n2 repo tag meta) db ix ltac:(by split_and!) Hrep) as [Hres Hrep'].
  cbn [run] in Hres, Hrep'. destruct (PutManifest db n1 n2 repo tag meta) as [r db']. cbn [fst snd] in *. subst r.
  destruct (referrers_listed db' _ repo (mm_Subject meta) artifactType Hrep' Hr) as (found & E & _ & _ & Hin).
  exists db', (mkOciIndex 2 "application/vnd.oci.image.index.v1+json" (describe <$> found.*2) ∅ None).
  split; [done|]. split; [exact E|]. cbn [oi_Manifests]. apply list_elem_of_fmap. exists meta. split; [done|].
  apply list_elem_of_fmap. exists (tag, meta). split; [done|]. apply Hin. unfold refers, ix_resolve.
  cbn [spec snd ix_tags ix_manifests]. rewrite Href, lookup_insert_eq. split; [by eexists|].
  split; [done|]. split; [done|]. cbn [mbind option_bind]. by rewrite lookup_insert_eq.
Qed.
End referrers.

(** ** Signatures *)

Section signatures.
Context `{Badger} `{!Json MetadataStore.ManifestMeta} `{!JsonDecoder Manifest} `{!DecodeInto Signature}.

(** The files, the root and the metadata are those of [w]. *)
Definition same_world (w w' : World) : Prop :=
  os_files (w_os w') = os_files (w_os w) ∧ BlobStore.bs_root (w_bs w') = BlobStore.bs_root (w_bs w) ∧ w_db w' = w_db w.

Lemma same_world_trans w1 w2 w3 : same_world w1 w2 → same_world w2 w3 → same_world w1 w3.
Proof. intros (? & ? & ?) (? & ? & ?). split_and!; congruence. Qed.

Definition contents (w : World) (d : Digest) : option bytes :=
  os_files (w_os w) !! BlobStore.blobFile (BlobStore.bs_root (w_bs w)) d.

Lemma same_contents w w' d : same_world w w' → contents w' d = contents w d.
Proof. intros (Hf & Hr & _). unfold contents. by rewrite Hf, Hr. Qed.

Lemma blobs_Get_spec w d :
  BlobStore.good_root (BlobStore.bs_root (w_bs w)) → canonical d →
  ∃ w', same_world w w' ∧
    match contents w d with
    | Some c => ∃ r, blobs_Get noFaults d w = (Ok (r, blen c), w') ∧ BlobStore.reader_data r = c
    | None => blobs_Get noFaults d w = (Err ErrBlobNotFound, w')
    end.
Proof.
  intros Hr Hd. unfold blobs_Get, contents. destruct (os_files _ !! _) as [c|] eqn:Hc.
  - destruct (BlobStore.Get_present _ _ _ _ Hr Hd Hc) as (r & bs' & os' & -> & Hrd & Hf & Hroot).
    exists (mkWorld _ bs' os' (w_db w)). split; [by split_and!|]. by exists r.
  - rewrite BlobStore.Get_absent by done. exists (mkWorld _ (w_bs w) (w_os w) (w_db w)). split; [by split_and!|done].
Qed.

(** What a layer is as a signature, if it can be read. *)
Definition signature_of (w : World) (layer : Oci.Descriptor) : option Signature :=
  c ← contents w (Oci.ds_Digest layer);
  match decode_into (mkSignature (Oci.ds_Digest layer) [] "" "" [] ∅) c with Ok sg => Some sg | _ => None end.

Lemma same_signatures w w' (layers : list Oci.Descriptor) :
  same_world w w' → omap (signature_of w') layers = omap (signature_of w) layers.
Proof.
  intros Hw. induction layers as [|l layers IH]; [done|]. cbn [omap list_omap]. rewrite IH.
  assert (signature_of w' l = signature_of w l) as -> by (unfold signature_of; by rewrite (same_contents _ _ _ Hw)).
  done.
Qed.

(** A layer of the media type has a digest, and its contents do not make the
    decoder panic. *)
Definition layer_ok (w : World) (layer : Oci.Descriptor) : Prop :=
  canonical (Oci.ds_Digest layer) ∧
  ∀ c, contents w (Oci.ds_Digest layer) = Some c →
    ∀ p, decode_into (mkSignature (Oci.ds_Digest layer) [] "" "" [] ∅) c ≠ Panic p.

Definition is_signature (layer : Oci.Descriptor) : Prop := Oci.ds_MediaType layer = MediaTypeCosignSignature.
Global Instance is_signature_dec l : Decision (is_signature l) := _.

Lemma loadSignatures_spec layers : ∀ w acc,
  BlobStore.good_root (BlobStore.bs_root (w_bs w)) → Forall (layer_ok w) (filter is_signature layers) →
  ∃ w', loadSignatures noFaults acc layers w = (Ok (acc ++ omap (signature_of w) (filter is_signature layers)), w') ∧
    same_world w w'.
Proof.
  induction layers as [|layer layers IH]; intros w acc Hr Hok; cbn [loadSignatures].
  { exists w. rewrite app_nil_r. by split; [|split_and!]. }
  rewrite filter_cons in Hok |- *. destruct (decide (is_signature layer)) as [Hs|Hs]; unfold is_signature in Hs.
  - rewrite decide_True by done. apply Forall_cons in Hok as [[Hd Hp] Hok].
    destruct (blobs_Get_spec w (Oci.ds_Digest layer) Hr Hd) as (w1 & Hw1 & Hg).
    assert (∃ r, attempt (loadSignature noFaults (Oci.ds_Digest layer)) w = (Ok r, w1) ∧
      signature_of w layer = match r with inl sg => Some sg | inr _ => None end) as (r & Hl & Hsg).
    { unfold loadSignature, signature_of, attempt, mbind, M_bind.
      destruct (contents w (Oci.ds_Digest layer)) as [c|] eqn:Hc; [|rewrite Hg; by eexists].
      destruct Hg as (rd & -> & Hrd). cbn. rewrite Hrd. specialize (Hp c eq_refl).
      destruct (decode_into _ _) as [sg|e|p] eqn:Ed; [by eexists..|by destruct (Hp p)]. }
    destruct (IH w1 (match r with inl sg => acc ++ [sg] | inr _ => acc end)) as (w2 & E2 & Hw2).
    { destruct Hw1 as (_ & -> & _). done. }
    { eapply Forall_impl; [exact Hok|]. intros l [Hld Hlp]. split; [done|]. by rewrite (same_contents _ _ _ Hw1). }
    exists w2. split; [|by eapply same_world_trans]. unfold mbind, M_bind. rewrite Hl, E2. do 2 f_equal.
    cbn [omap list_omap]. rewrite Hsg.
    assert (omap (signature_of w1) (filter is_signature layers) = omap (signature_of w) (filter is_signature layers)) as ->.
    { by apply same_signatures. }
    destruct r; [by rewrite <-app_assoc|done].
  - rewrite decide_False by done. by apply IH.
Qed.

(** The signatures of an image are those of the layers of the manifest under
    its signature tag that have the media type and can be read, in order; none
    when there is no such tag.  Nothing changes. *)
Theorem GetSignatures_spec w repo d :
  let get := MetadataStore.GetManifest (w_db w) repo (GetSignatureTag d) in
  (get = Err ErrManifestNotFound → GetSignatures noFaults repo d w = (Ok [], w)) ∧
  ∀ meta c m,
    get = Ok meta → BlobStore.good_root (BlobStore.bs_root (w_bs w)) → canonical (MetadataStore.mm_Digest meta) →
    contents w (MetadataStore.mm_Digest meta) = Some c → json_Decode c = Ok m →
    Forall (layer_ok w) (filter is_signature (ma_Layers m)) →
    ∃ w', GetSignatures noFaults repo d w =
        (Ok (omap (signature_of w) (filter is_signature (ma_Layers m))), w') ∧ same_world w w'.
Proof.
  intros get. unfold GetSignatures, taggedManifest, metadata_GetManifest, attempt, mbind, M_bind, gets, lift. fold get.
  split; [by intros ->|]. intros meta c m Hget Hr Hd Hc Hm Hok. cbn. rewrite Hget.
  destruct (blobs_Get_spec w (MetadataStore.mm_Digest meta) Hr Hd) as (w1 & Hw1 & Hg). rewrite Hc in Hg.
  destruct Hg as (r & -> & Hrd). cbn. rewrite Hrd, Hm. cbn.
  destruct (loadSignatures_spec (ma_Layers m) w1 []) as (w2 & E & Hw2).
  { by destruct Hw1 as (_ & -> & _). }
  { eapply Forall_impl; [exact Hok|]. intros l [Hld Hlp]. split; [done|]. by rewrite (same_contents _ _ _ Hw1). }
  exists w2. rewrite E. split; [|by eapply same_world_trans]. do 2 f_equal.
  by apply same_signatures.
Qed.
End signatures.

(** ** Example *)

Module Example.
Import MetadataStore.
#[local] Existing Instances mapBadger mapBadgerLaws jsonMeta jsonRepo.
#[local] Instance exMetaLaws : JsonLaws ManifestMeta meta_ok := countableJsonLaws _ _.
#[local] Instance exRepoLaws : JsonLaws RepoMeta repo_ok := countableJsonLaws _ _.

(** An image and its signature, whose manifest is the digest of its one layer. *)
Definition exImage : Digest := FromBytes (str_bytes "image").
Definition exLayer : bytes := str_bytes "c2ln".
Definition exManifest : bytes := str_bytes (FromBytes exLayer).
#[local] Instance exDecoder : JsonDecoder Manifest := λ b,
  Ok (mkManifest 2 "" (Oci.blob_of "")
        [Oci.mkDescriptor MediaTypeCosignSignature (bytes_str b) 4 [] ∅ None] ∅ None).

(** A signature document of two members: the signature, or with a colon the
    digest and the signature. *)
#[local] Instance exInto : DecodeInto Signature := λ old b,
  match Split ":" (bytes_str b) with
  | [s] => Ok (mkSignature (sg_Digest old) [] s "" [] ∅)
  | [alg; hex; s] => Ok (mkSignature (alg +:+ ":" +:+ hex) [] s "" [] ∅)
  | _ => Err (Errorf "invalid character")
  end.

Definition exMeta (subject : Digest) : ManifestMeta :=
  mkManifestMeta (FromBytes exManifest) "application/vnd.oci.image.manifest.v1+json" (blen exManifest) 0
    [FromBytes exLayer] subject ∅.

Ltac decided := refine (bool_decide_unpack _ _); vm_compute; exact I.

Lemma exMeta_stored : meta_ok (exMeta exImage).
Proof.
  unfold meta_ok. split; [decided|]. split; [decided|]. split; [by vm_compute|]. split; [by vm_compute|].
  split; [decided|]. split; [decided|]. apply map_Forall_empty.
Qed.

Lemma pushed_referrer_is_listed_witness :
  ∃ db' index, PutManifest ∅ 1 1 "app" (GetSignatureTag exImage) (exMeta exImage) = (Ok tt, db') ∧
    ListReferrers db' "app" exImage ArtifactTypeCosignSignature = Ok index ∧
    describe (exMeta exImage) ∈ oi_Manifests index.
Proof.
  apply (pushed_referrer_is_listed (∅ : DB) ix_empty 1 1 "app" (GetSignatureTag exImage) (exMeta exImage)
    ArtifactTypeCosignSignature).
  - apply represents_empty.
  - apply app_good.
  - apply exMeta_stored.
  - by vm_compute.
  - by vm_compute.
  - by vm_compute.
  - by vm_compute.
  - by vm_compute.
  - right. by vm_compute.
Defined.

(** A manifest that refers to the image but is pushed by its digest, as the
    distribution API has it, is not listed. *)
Fact untagged_referrer_is_missed :
  let db := (PutManifest ∅ 1 1 "app" (FromBytes exManifest) (exMeta exImage)).2 in
  is_ok (GetManifest db "app" (FromBytes exManifest)) = true ∧
  (oi_Manifests <$> ListReferrers db "app" exImage "") = Ok [].
Proof. by vm_compute. Qed.

(** The digest in a signature document replaces the one it was read under. *)
Definition exWorld (layer : bytes) : World :=
  mkWorld _ (BlobStore.NewBlobStore BlobStore.srvRoot)
    (mkOs {[BlobStore.blobFile BlobStore.srvRoot (FromBytes layer) := layer]} ∅ 0) ∅.

Fact signature_names_its_digest :
  (sg_Digest <$> (loadSignature noFaults (FromBytes (str_bytes "sha256:0:c2ln"))
     (exWorld (str_bytes "sha256:0:c2ln"))).1) = Ok "sha256:0".
Proof. by vm_compute. Qed.
End Example.
End Signing.
