(* ===== verification/OpenShift.v ===== *)
(** internal/api/admin/openshift.go: token and access reviews by the API server
    of a cluster, and the webhook.  The API server, its client and the decoders
    of its answers are parameters; the types of image streams, which nothing
    uses, are left out. *)

From S2P Require Import Prelude GoLib Os Blob Badger Mirror.

Module OpenShift.

Record OpenShiftConfig := mkOpenShiftConfig {
  oc_Enabled : bool;
  oc_APIServerURL : string;
  oc_ServiceAccount : string;
  oc_TokenPath : string
}.

Record OpenShiftIntegration := mkOpenShiftIntegration {
  oi_enabled : bool;
  oi_apiServerURL : string;
  oi_serviceAccount : string;
  oi_token : string;
  oi_tokenPath : string
}.

Definition NewOpenShiftIntegration (cfg : OpenShiftConfig) : OpenShiftIntegration :=
  mkOpenShiftIntegration (oc_Enabled cfg)
    (if decide (oc_APIServerURL cfg = "") then "https://kubernetes.default.svc" else oc_APIServerURL cfg)
    (oc_ServiceAccount cfg) ""
    (if decide (oc_TokenPath cfg = "") then "/var/run/secrets/kubernetes.io/serviceaccount/token"
     else oc_TokenPath cfg).

Record User := mkUser { us_Username : string; us_UID : string; us_Groups : list string }.

Record TokenReviewStatus := mkTokenReviewStatus {
  ts_Authenticated : bool;
  ts_User : User;
  ts_Error : string
}.

Record TokenReview := mkTokenReview { tr_Status : TokenReviewStatus }.

(** The anonymous struct with the member [status.allowed]. *)
Record AccessReview := mkAccessReview { ar_Allowed : bool }.

Record WebhookPayload := mkWebhookPayload {
  wp_Type : string;
  wp_Namespace : string;
  wp_Name : string;
  wp_Tag : string;
  wp_Digest : string;
  wp_Image : string
}.

(** ** Reviews *)

(** The documents that are posted: their [apiVersion], [kind] and [spec]. *)
Inductive Review :=
  | TokenReviewOf (token : string)
  | SubjectAccessReviewOf (user namespace verb group resource name : string).

(** [client.Do] on a POST with a document, a bearer token and the content type
    of JSON; [NewRequest] refuses URLs that do not parse. *)
Class ApiServer := {
  NewRequest : string → option error;
  Do : string → string → Review → result Mirror.HttpResponse
}.

Section reviews.
Context `{ApiServer} `{!JsonDecoder TokenReview} `{!JsonDecoder AccessReview}.

Definition set_token (token : string) (oi : OpenShiftIntegration) : OpenShiftIntegration :=
  mkOpenShiftIntegration (oi_enabled oi) (oi_apiServerURL oi) (oi_serviceAccount oi) token (oi_tokenPath oi).

(** [io.ReadAll] of a reader of the path: its text. *)
Definition getServiceAccountToken (oi : OpenShiftIntegration) : string * OpenShiftIntegration :=
  if decide (oi_token oi ≠ "") then (oi_token oi, oi)
  else let oi := set_token (oi_tokenPath oi) oi in (oi_token oi, oi).

(** Post a review to a path of the API server, and decode its answer. *)
Definition post (A : Type) `{!JsonDecoder A} (oi : OpenShiftIntegration) (path saToken what : string) (review : Review)
    : result A :=
  let url := oi_apiServerURL oi +:+ path in
  match NewRequest url with
  | Some e => Err e
  | None =>
    resp ← Do url ("Bearer " +:+ saToken) review;
    if decide (Mirror.hr_StatusCode resp ≠ 201 ∧ Mirror.hr_StatusCode resp ≠ 200)%Z then
      Err (Errorf (what +:+ " review returned " +:+ fmt_d (Mirror.hr_StatusCode resp)))
    else json_Decode (rd_data (Mirror.hr_Body resp))
  end.

Definition tokenReviews : string := "/apis/authentication.k8s.io/v1/tokenreviews".
Definition accessReviews : string := "/apis/authorization.k8s.io/v1/subjectaccessreviews".

Definition ValidateToken (oi : OpenShiftIntegration) (token : string) : result TokenReview * OpenShiftIntegration :=
  if negb (oi_enabled oi) then (Err (Errorf "OpenShift integration not enabled"), oi)
  else
    let '(saToken, oi) := getServiceAccountToken oi in
    (post TokenReview oi tokenReviews saToken "token" (TokenReviewOf token), oi).

(** Whether the access is allowed, and the error that came with a refusal. *)
Definition CheckAccess (oi : OpenShiftIntegration) (user namespace repo verb : string)
    : result (bool * option error) * OpenShiftIntegration :=
  if negb (oi_enabled oi) then (Ok (true, None), oi)
  else
    let '(saToken, oi) := getServiceAccountToken oi in
    (match post AccessReview oi accessReviews saToken "access"
             (SubjectAccessReviewOf user namespace verb "image.openshift.io" "imagestreams" repo) with
     | Ok result => Ok (ar_Allowed result, None)
     | Err e => Ok (false, Some e)
     | Panic p => Panic p
     end, oi).
End reviews.

(** The push is logged, with the first twelve bytes of the digest. *)
Definition NotifyImagePush (oi : OpenShiftIntegration) (namespace repo tag digest : string) : result (option string) :=
  if negb (oi_enabled oi) then Ok None
  else
    short ← slice_to digest 12;
    Ok (Some ("OpenShift: Image pushed " +:+ namespace +:+ "/" +:+ repo +:+ ":" +:+ tag +:+ " (" +:+ short +:+ ")")).

(** ** The webhook *)

Section webhook.
Context {callback : Type} `{!JsonDecoder WebhookPayload}.

Record WebhookHandler := mkWebhookHandler { wh_callbacks : list callback }.

Definition NewWebhookHandler : WebhookHandler := mkWebhookHandler [].
Definition OnPush (h : WebhookHandler) (fn : callback) : WebhookHandler :=
  mkWebhookHandler (wh_callbacks h ++ [fn]).

(** The status, the body, and the goroutines that are started. *)
Definition ServeHTTP (h : WebhookHandler) (method : string) (body : bytes)
    : result (Z * string * list (callback * WebhookPayload)) :=
  if decide (method ≠ "POST") then Ok (405%Z, "method not allowed" +:+ String "010" "", [])
  else
    match json_Decode body with
    | Panic p => Panic p
    | Err _ => Ok (400%Z, "invalid payload" +:+ String "010" "", [])
    | Ok payload =>
      Ok (200%Z, "{" +:+ String "034" "status" +:+ String "034" (":" +:+ String "034" "ok" +:+ String "034" "}"),
          (λ fn, (fn, payload)) <$> wh_callbacks h)
    end.

(** Every callback that was registered is started once, in the order of the
    registrations, with the payload; and nothing by a request that is refused. *)
Lemma webhook_calls fns method body :
  let h := foldl OnPush NewWebhookHandler fns in
  (∀ payload, method = "POST" → json_Decode body = Ok payload →
     ∃ text, ServeHTTP h method body = Ok (200%Z, text, (λ fn, (fn, payload)) <$> fns)) ∧
  (∀ status text calls, ServeHTTP h method body = Ok (status, text, calls) → status ≠ 200%Z → calls = []).
Proof.
  intros h. assert (wh_callbacks h = fns) as Hc.
  { subst h. rewrite <-(app_nil_l fns) at 2. change [] with (wh_callbacks NewWebhookHandler).
    generalize NewWebhookHandler. induction fns as [|fn fns IH]; intros h; cbn [foldl]; [by rewrite app_nil_r|].
    rewrite IH. cbn. by rewrite <-app_assoc. }
  unfold ServeHTTP. split.
  - intros payload -> ->. rewrite decide_False by tauto. rewrite Hc. by eexists.
  - intros status text calls. case_decide; [by intros [= <- <- <-]|].
    destruct (json_Decode body); [by intros [= <- <- <-]..|done].
Qed.
End webhook.

(** ** Who is let in *)

Section access.
Context `{ApiServer} `{!JsonDecoder TokenReview} `{!JsonDecoder AccessReview}.

(** The token that is sent with every review: the path's text, whatever calls
    were made before. *)
Inductive used (cfg : OpenShiftConfig) : OpenShiftIntegration → Prop :=
  | used_new : used cfg (NewOpenShiftIntegration cfg)
  | used_validate oi token : used cfg oi → used cfg (ValidateToken oi token).2
  | used_check oi user namespace repo verb : used cfg oi → used cfg (CheckAccess oi user namespace repo verb).2.

Definition pathOf (cfg : OpenShiftConfig) : string := oi_tokenPath (NewOpenShiftIntegration cfg).
Definition serverOf (cfg : OpenShiftConfig) : string := oi_apiServerURL (NewOpenShiftIntegration cfg).

Lemma token_step oi :
  let '(t, oi') := getServiceAccountToken oi in
  (oi_token oi = "" ∨ oi_token oi = oi_tokenPath oi → t = oi_tokenPath oi ∧ oi_token oi' = oi_tokenPath oi) ∧
  oi_enabled oi' = oi_enabled oi ∧ oi_apiServerURL oi' = oi_apiServerURL oi ∧ oi_tokenPath oi' = oi_tokenPath oi.
Proof. unfold getServiceAccountToken. destruct (decide (oi_token oi ≠ "")); cbn; naive_solver. Qed.

Lemma used_inv cfg oi :
  used cfg oi →
  (oi_token oi = "" ∨ oi_token oi = oi_tokenPath oi) ∧ oi_enabled oi = oc_Enabled cfg ∧
  oi_apiServerURL oi = serverOf cfg ∧ oi_tokenPath oi = pathOf cfg.
Proof.
  induction 1 as [|oi token _ (IH1 & IH2 & IH3 & IH4)|oi user namespace repo verb _ (IH1 & IH2 & IH3 & IH4)].
  - unfold serverOf, pathOf. by split_and!; [left|..].
  - unfold ValidateToken. destruct (negb _); [done|]. pose proof (token_step oi) as Ht.
    destruct (getServiceAccountToken oi) as [t oi']. cbn [snd]. destruct Ht as (Ht & -> & -> & ->).
    destruct (Ht IH1) as [_ ->]. by split_and!; [right|..].
  - unfold CheckAccess. destruct (negb _); [done|]. pose proof (token_step oi) as Ht.
    destruct (getServiceAccountToken oi) as [t oi']. cbn [snd]. destruct Ht as (Ht & -> & -> & ->).
    destruct (Ht IH1) as [_ ->]. by split_and!; [right|..].
Qed.

(** The API server has answered this review, with 200 or 201 and this value. *)
Definition answered {A} `{!JsonDecoder A} (cfg : OpenShiftConfig) (path : string) (review : Review) (a : A) : Prop :=
  let url := serverOf cfg +:+ path in
  NewRequest url = None ∧
  ∃ resp, Do url ("Bearer " +:+ pathOf cfg) review = Ok resp ∧
    (Mirror.hr_StatusCode resp = 200 ∨ Mirror.hr_StatusCode resp = 201)%Z ∧
    json_Decode (rd_data (Mirror.hr_Body resp)) = Ok a.

Lemma post_answered {A} `{!JsonDecoder A} cfg oi path what review (a : A) :
  oi_apiServerURL oi = serverOf cfg →
  post A oi path (pathOf cfg) what review = Ok a ↔ answered cfg path review a.
Proof.
  intros Hs. unfold post, answered. rewrite Hs. destruct (NewRequest _) as [e|]; [naive_solver|].
  destruct (Do _ _ _) as [resp| |]; cbn [mbind result_bind]; [|naive_solver..].
  case_decide as Hst; [split; [done|]; intros (_ & r & [= <-] & [?|?] & _); lia|].
  split; [|naive_solver]. intros Ha. split; [done|]. exists resp. split; [done|]. split; [lia|done].
Qed.

(** Access is what the API server says: after any reviews, a disabled
    integration allows everything, and an enabled one allows a user a verb on
    an image stream exactly when the API server of the configuration has
    answered the review of just these with allowed; whatever fails is a
    refusal with its error. *)
Theorem CheckAccess_exact cfg oi user namespace repo verb :
  used cfg oi →
  (oc_Enabled cfg = false → (CheckAccess oi user namespace repo verb).1 = Ok (true, None)) ∧
  (oc_Enabled cfg = true →
     let review := SubjectAccessReviewOf user namespace verb "image.openshift.io" "imagestreams" repo in
     (∀ e, (CheckAccess oi user namespace repo verb).1 = Ok (true, e) ↔
        e = None ∧ answered cfg accessReviews review (mkAccessReview true)) ∧
     ((CheckAccess oi user namespace repo verb).1 = Ok (false, None) ↔
        answered cfg accessReviews review (mkAccessReview false))).
Proof.
  intros (Ht & He & Hu & Hp)%used_inv. unfold CheckAccess. rewrite He.
  split; [by intros ->|]. intros ->. cbn [negb]. pose proof (token_step oi) as Hs.
  destruct (getServiceAccountToken oi) as [t oi']. cbn [fst].
  destruct Hs as (Hs & _ & Hu' & Hp'). destruct (Hs Ht) as [-> _]. rewrite Hp.
  pose proof (λ a, post_answered cfg oi' accessReviews "access"
    (SubjectAccessReviewOf user namespace verb "image.openshift.io" "imagestreams" repo) (a : AccessReview)
    (eq_trans Hu' Hu)) as Hpost.
  destruct (post AccessReview _ _ _ _ _) as [[b]|e|p]; split; try intros e'; rewrite <-Hpost; naive_solver.
Qed.

(** A token is reviewed by the API server, and what it answers is returned,
    authenticated or not. *)
Lemma ValidateToken_exact cfg oi token review :
  used cfg oi →
  (ValidateToken oi token).1 = Ok review ↔
  oc_Enabled cfg = true ∧ answered cfg tokenReviews (TokenReviewOf token) review.
Proof.
  intros (Ht & He & Hu & Hp)%used_inv. unfold ValidateToken. rewrite He.
  destruct (oc_Enabled cfg); [|naive_solver]. cbn [negb]. pose proof (token_step oi) as Hs.
  destruct (getServiceAccountToken oi) as [t oi']. cbn [fst].
  destruct Hs as (Hs & _ & Hu' & _). destruct (Hs Ht) as [-> _]. rewrite Hp.
  rewrite (post_answered cfg) by congruence. naive_solver.
Qed.
End access.

(** A digest shorter than twelve bytes makes the notification panic. *)
Fact short_digest_panics oi namespace repo tag digest :
  oi_enabled oi = true → String.length digest < 12 →
  ∃ p, NotifyImagePush oi namespace repo tag digest = Panic p.
Proof. intros He Hd. unfold NotifyImagePush, slice_to. rewrite He. cbn. case_decide; [lia|]. by eexists. Qed.

(** ** Example *)

Module Example.
(** An API server that lets the user dev get. *)
#[local] Instance exServer : ApiServer := {|
  NewRequest := λ _, None;
  Do := λ url token review,
    match review with
    | SubjectAccessReviewOf "dev" _ "get" _ _ _ => Ok (Mirror.mkHttpResponse 201 "" 1 (NewReader (str_bytes "y")))
    | _ => Ok (Mirror.mkHttpResponse 201 "" 1 (NewReader (str_bytes "n")))
    end
|}.
#[local] Instance exReview : JsonDecoder AccessReview := λ b, Ok (mkAccessReview (bool_decide (b = str_bytes "y"))).
#[local] Instance exToken : JsonDecoder TokenReview := λ b, Err (Errorf "EOF").

Definition exConfig : OpenShiftConfig := mkOpenShiftConfig true "" "builder" "/token".
Definition exOi : OpenShiftIntegration := NewOpenShiftIntegration exConfig.

Lemma CheckAccess_exact_witness :
  (CheckAccess exOi "dev" "team" "app" "get").1 = Ok (true, None) ∧
  (CheckAccess exOi "dev" "team" "app" "delete").1 = Ok (false, None).
Proof.
  split.
  - apply (CheckAccess_exact exConfig exOi "dev" "team" "app" "get" (used_new exConfig)); [done|].
    split; [done|]. split; [done|]. eexists. split; [reflexivity|]. split; [by right|by vm_compute].
  - apply (CheckAccess_exact exConfig exOi "dev" "team" "app" "delete" (used_new exConfig)); [done|].
    split; [done|]. eexists. split; [reflexivity|]. split; [by right|by vm_compute].
Defined.

(** The token that is sent is the path of its file. *)
Fact token_is_its_path : (getServiceAccountToken exOi).1 = "/token".
Proof. done. Qed.
End Example.
End OpenShift.
