(* ===== verification/Background.v ===== *)
(** The loops that run in the background: the collector's schedule
    (internal/gc/collector.go) and the manager's discovery
    (internal/releases/manager.go). *)

From S2P Require Import Prelude GoLib Os Blob Badger Metadata Mirror Events V2 Gc Discovery Releases.

(** ** The collector's schedule *)

Module Schedule.

Definition Day : Z := 24 * Hour.

(** [fmt.Sscanf(s, "%d", &hour)]: the number scanned, if one is. *)
Definition scan_d (s : string) : option Z :=
  let l := trim_left (str_bytes s) in
  let '(sign, l) := match l with
                    | c :: l' => if V2.is_sign c then ([c], l') else ([], l)
                    | [] => ([], l)
                    end in
  match ParseInt (bytes_str (sign ++ V2.take_digits l)) with
  | (n, true) => Some n
  | _ => None
  end.

(** The hour of a schedule: its second field, or 2. *)
Definition scheduleHour (schedule : string) : Z :=
  match Fields schedule with
  | _ :: h :: _ => default 2 (scan_d h)
  | _ => 2
  end%Z.

(** [time.Date] of today at the hour, or a day later when that is past.  [zone]:
    the offset of the local time, taken as fixed. *)
Definition nextRun (zone hour : Z) (now : Time) : Time :=
  let next := ((now + zone) / Day * Day - zone + hour * Hour)%Z in
  if Before next now then (next + Day)%Z else next.

(** The times the loop runs at, from the moment it reads the clock: it wakes
    up at the next one or later, and reads the clock again when the run has
    ended. *)
Inductive loops (zone hour : Z) : Time → list Time → Prop :=
  | loops_nil now : loops zone hour now []
  | loops_run now ended l :
      (Z.max now (nextRun zone hour now) < ended)%Z → loops zone hour ended l →
      loops zone hour now (nextRun zone hour now :: l).

(** An hour of the day: the next run is at the first time from now on when
    clocks show it. *)
Lemma nextRun_first zone hour now :
  (0 ≤ hour < 24)%Z →
  let next := nextRun zone hour now in
  (now ≤ next < now + Day ∧ (next + zone) mod Day = hour * Hour)%Z ∧
  ∀ t, (now ≤ t → (t + zone) mod Day = hour * Hour → next ≤ t)%Z.
Proof.
  intros Hh. cbn zeta. unfold nextRun, Before.
  set (q := ((now + zone) / Day)%Z). assert (0 < Day)%Z as Hday by done.
  assert (now + zone = Day * q + (now + zone) mod Day ∧ 0 ≤ (now + zone) mod Day < Day)%Z as [Hq Hr].
  { split; [apply Z.div_mod; lia|apply Z.mod_pos_bound; lia]. }
  assert (0 ≤ hour * Hour < Day)%Z as Hhr by (unfold Day; assert (0 < Hour)%Z by done; nia).
  assert (∀ k, (q * Day - zone + hour * Hour + k * Day + zone) mod Day = hour * Hour)%Z as Hm.
  { intros k. replace (q * Day - zone + hour * Hour + k * Day + zone)%Z with (hour * Hour + (q + k) * Day)%Z by lia.
    rewrite Z.mod_add by lia. by apply Z.mod_small. }
  assert (∀ t, (now ≤ t → (t + zone) mod Day = hour * Hour → q * Day - zone + hour * Hour ≤ t ∧
    (q * Day - zone + hour * Hour < now → q * Day - zone + hour * Hour + Day ≤ t)))%Z as Ht.
  { intros t Hnt Hmt. pose proof (Z.div_mod (t + zone) Day ltac:(lia)) as Hd. rewrite Hmt in Hd.
    assert (q ≤ (t + zone) / Day)%Z by (apply Z.div_le_mono; lia). set (p := ((t + zone) / Day)%Z) in *.
    clearbody p q. split; [nia|]. intros Hlt. assert (q < p)%Z by nia. nia. }
  case_bool_decide as Hb.
  - split; [split; [lia|]|intros t H1 H2; by apply Ht].
    pose proof (Hm 1%Z) as E. by rewrite Z.mul_1_l in E.
  - split; [split; [lia|]|intros t H1 H2; by apply Ht].
    pose proof (Hm 0%Z) as E. by rewrite Z.mul_0_l, Z.add_0_r in E.
Qed.

(** The collector runs at most once a day: with an hour of the day, every run
    is due when clocks show that hour, the first at the first such time, and
    each at least a day after the one before. *)
Theorem runs_daily zone hour now l :
  (0 ≤ hour < 24)%Z → loops zone hour now l →
  Forall (λ t, now ≤ t ∧ (t + zone) mod Day = hour * Hour)%Z l ∧
  (∀ i t u, l !! i = Some t → l !! S i = Some u → (t + Day ≤ u)%Z) ∧
  match l with t :: _ => ∀ u, (now ≤ u → (u + zone) mod Day = hour * Hour → t ≤ u)%Z | [] => True end.
Proof.
  intros Hh. induction 1 as [now|now ended l He Hl (IH1 & IH2 & IH3)]; [by split_and!|].
  destruct (nextRun_first zone hour now Hh) as [[Hb Hm] Hfirst]. split_and!.
  - constructor; [by split; [lia|]|]. eapply Forall_impl; [exact IH1|]. intros t [? ?]. split; [lia|done].
  - intros [|i] t u; cbn [lookup list_lookup]; [|by apply IH2].
    intros [= <-] Hu. rewrite Forall_forall in IH1. destruct (IH1 u) as [Hue Hum].
    { by eapply list_elem_of_lookup_2. }
    assert (0 < Day)%Z by done.
    pose proof (Z.div_mod (u + zone) Day ltac:(lia)) as Hdu. pose proof (Z.div_mod (nextRun zone hour now + zone) Day ltac:(lia)) as Hdn.
    rewrite Hum in Hdu. rewrite Hm in Hdn.
    generalize dependent ((u + zone) / Day)%Z. generalize dependent ((nextRun zone hour now + zone) / Day)%Z.
    intros p Hp p' Hp'. assert (p < p')%Z by nia. nia.
  - exact Hfirst.
Qed.

Lemma runs_daily_witness :
  Forall (λ t, 0 ≤ t ∧ (t + 0) mod Day = 2 * Hour)%Z [2 * Hour; 2 * Hour + Day]%Z.
Proof.
  apply (runs_daily 0 2 0).
  - done.
  - apply (loops_run 0 2 0 (3 * Hour)); [by vm_compute|].
    apply (loops_run 0 2 (3 * Hour) (30 * Hour)); [by vm_compute|]. constructor.
Defined.

(** The minute and the day of a schedule are not read: this one, for half past
    two on Sundays, runs daily at two. *)
Fact minute_and_day_are_ignored : scheduleHour "30 2 * * 0" = 2%Z ∧ scheduleHour "0 */6 * * *" = 2%Z.
Proof. by vm_compute. Qed.

(** A negative hour is past in the last hours of the day even after the day is
    added: until midnight the loop does not wait at all. *)
Fact negative_hour_spins now :
  (23 * Hour < now < Day)%Z → (nextRun 0 (-1) now < now)%Z.
Proof.
  intros Hn. unfold nextRun, Before. rewrite Z.add_0_r, Z.sub_0_r.
  assert (0 < Hour)%Z by done. rewrite Z.div_small by (unfold Day in *; lia).
  case_bool_decide; unfold Day in *; lia.
Qed.
End Schedule.

(** ** The manager's discovery *)

Module DiscoveryLoop.
Import Discovery Releases.

Section loop.
Context `{Badger} `{!Json Release} `{MapRange}.
Context `{!JsonDecoder quayTagsResponse} `{GoSort} `{!Json Events.Event}.
Context (cfg : ReleasesConfig) (eventStore : bool).

(** A run of discovery: the network as it is then, and the readings of the
    clock. *)
Record Tick := mkTick { tk_http : Mirror.HttpClient; tk_now : nat → Time }.

(** At once, and at every tick of the six hours' ticker until the manager is
    stopped; errors are logged.  A panic ends the program. *)
Fixpoint discoveryLoop (ticks : list Tick) (initialDiscoveredAt : Time) (db : DB) : result (DB * Time) :=
  match ticks with
  | [] => Ok (db, initialDiscoveredAt)
  | tick :: ticks =>
    match @DiscoverUpstream _ _ (tk_http tick) _ _ _ cfg eventStore (tk_now tick) initialDiscoveredAt db with
    | (Panic p, _) => Panic p
    | (_, (db, init)) => discoveryLoop ticks init db
    end
  end.

(** [Start]. *)
Definition Start (autoDiscover : bool) (ticks : list Tick) (db : DB) : result (DB * Time) :=
  if autoDiscover then discoveryLoop ticks 0 db else Ok (db, 0%Z).
End loop.

Section spec.
Context `{BadgerLaws} `{!Json Release} `{!JsonLaws Release release_ok} `{MapRange}.
Context `{!JsonDecoder quayTagsResponse} `{GoSort} `{!Json Events.Event}.
Context (cfg : ReleasesConfig) (eventStore : bool).

(** What upstream offers at a tick. *)
Definition offered (tick : Tick) : result (list UpstreamRelease) :=
  @ListUpstreamVersions (tk_http tick) _ _ (NewDiscovery (rc_Upstream cfg) (rc_Repository cfg)) (rc_Architectures cfg).

Definition tick_ok (tick : Tick) : Prop :=
  (∀ i, MetadataStore.time_ok (tk_now tick i)) ∧
  match offered tick with Ok urs => Forall upstream_ok urs | Err _ => True | Panic _ => False end.

(** Whatever upstream answers over time, discovery never loses or changes a
    release that is known, and every version offered at any of its runs is
    known in the end. *)
Theorem discovery_loop_accumulates ticks : ∀ init db cat,
  catalog (view db) cat → Forall tick_ok ticks →
  ∃ db' init' cat', discoveryLoop cfg eventStore ticks init db = Ok (db', init') ∧ catalog (view db') cat' ∧
    (∀ k r, cat !! k = Some r → cat' !! k = Some r) ∧
    (∀ tick urs ur, tick ∈ ticks → offered tick = Ok urs → ur ∈ urs → is_Some (cat' !! ur_Tag ur)).
Proof.
  induction ticks as [|tick ticks IH]; intros init db cat Hc Hok.
  { exists db, init, cat. split_and!; try done. set_solver. }
  apply Forall_cons in Hok as [[Hn Ho] Hok]. cbn [discoveryLoop]. unfold offered in Ho.
  destruct (@ListUpstreamVersions _ _ _ _ _) as [urs|e|] eqn:El; [| |done].
  - destruct (discovery_only_adds (H3:=tk_http tick) cfg eventStore (tk_now tick) init db cat urs Hc Hn Ho El)
      as (cat1 & db1 & db2 & init2 & -> & Hc2 & Hkeep & Hall & _).
    destruct (IH init2 db2 cat1 Hc2 Hok) as (db' & init' & cat' & E & Hc' & Hkeep' & Hall').
    exists db', init', cat'. split; [done|]. split; [done|]. split; [eauto|].
    intros t urs' ur Ht Ho' Hur. apply elem_of_cons in Ht as [->|Ht]; [|by eapply Hall'].
    unfold offered in Ho'. rewrite El in Ho'. injection Ho' as <-. destruct (Hall ur Hur) as [r Hr]. eauto.
  - assert (@DiscoverUpstream _ _ (tk_http tick) _ _ _ cfg eventStore (tk_now tick) init db =
      (Err (wrap "listing upstream versions" e), (db, init))) as -> by (unfold DiscoverUpstream; by rewrite El).
    destruct (IH init db cat Hc Hok) as (db' & init' & cat' & E & Hc' & Hkeep' & Hall').
    exists db', init', cat'. split; [done|]. split; [done|]. split; [done|].
    intros t urs' ur Ht Ho' Hur. apply elem_of_cons in Ht as [->|Ht]; [|by eapply Hall'].
    unfold offered in Ho'. by rewrite El in Ho'.
Qed.
End spec.
End DiscoveryLoop.
